(** * BoulderDash: the per-tick update rule, its hash and its parser

    A shallow embedding of [src/boulderdash_base.cpp], [src/boulderdash_base.h]
    and [src/definitions.h].  The game state is a record with the members of
    the class [BoulderDashGameState]; member functions that only read the
    state are queries (state to an optional answer), member functions that
    write it run in a state monad whose outcomes are a normal return, a
    fault (behaviour the C++ standard leaves undefined, an uncaught
    exception, [std::terminate]), and an exhausted recursion budget.

    [int] values are integers ([Z]).  Signed overflow is undefined in the
    source: the products [rows * cols] of the parser and of the constructor
    carry that outcome ([int_mul]); the other int expressions are computed
    on [Z] without a check.  [uint64_t] values are integers reduced modulo
    [2^64] where the source operation can wrap.  The one float expression
    is computed in binary32 ([binary32]).

    The element catalog of [util.h] (property masks, the explosion, magic
    wall, key and gate tables, the direction tables and the [Is...]
    helpers) is a parameter of the development: [Catalog]. *)

From Stdlib Require Import ZArith QArith Lia String Ascii DecimalString Sorted DecimalPos.
From stdpp Require Import base list relations.

Local Open Scope Z_scope.

(** ** definitions.h *)

Inductive HiddenCellType : Set :=
  | kNull | kAgent | kEmpty | kDirt | kStone | kStoneFalling | kDiamond | kDiamondFalling
  | kExitClosed | kExitOpen | kAgentInExit | kFireflyUp | kFireflyLeft | kFireflyDown
  | kFireflyRight | kButterflyUp | kButterflyLeft | kButterflyDown | kButterflyRight
  | kWallBrick | kWallSteel | kWallMagicDormant | kWallMagicOn | kWallMagicExpired | kBlob
  | kExplosionDiamond | kExplosionBoulder | kExplosionEmpty | kGateRedClosed | kGateRedOpen
  | kKeyRed | kGateBlueClosed | kGateBlueOpen | kKeyBlue | kGateGreenClosed
  | kGateGreenOpen | kKeyGreen | kGateYellowClosed | kGateYellowOpen | kKeyYellow | kNut
  | kNutFalling | kBomb | kBombFalling | kOrangeUp | kOrangeLeft | kOrangeDown
  | kOrangeRight | kPebbleInDirt | kStoneInDirt | kVoidInDirt.

Definition to_underlying (e : HiddenCellType) : Z :=
  match e with
  | kNull => -1 | kAgent => 0 | kEmpty => 1 | kDirt => 2 | kStone => 3 | kStoneFalling => 4
  | kDiamond => 5 | kDiamondFalling => 6 | kExitClosed => 7 | kExitOpen => 8
  | kAgentInExit => 9 | kFireflyUp => 10 | kFireflyLeft => 11 | kFireflyDown => 12
  | kFireflyRight => 13 | kButterflyUp => 14 | kButterflyLeft => 15 | kButterflyDown => 16
  | kButterflyRight => 17 | kWallBrick => 18 | kWallSteel => 19 | kWallMagicDormant => 20
  | kWallMagicOn => 21 | kWallMagicExpired => 22 | kBlob => 23 | kExplosionDiamond => 24
  | kExplosionBoulder => 25 | kExplosionEmpty => 26 | kGateRedClosed => 27
  | kGateRedOpen => 28 | kKeyRed => 29 | kGateBlueClosed => 30 | kGateBlueOpen => 31
  | kKeyBlue => 32 | kGateGreenClosed => 33 | kGateGreenOpen => 34 | kKeyGreen => 35
  | kGateYellowClosed => 36 | kGateYellowOpen => 37 | kKeyYellow => 38 | kNut => 39
  | kNutFalling => 40 | kBomb => 41 | kBombFalling => 42 | kOrangeUp => 43
  | kOrangeLeft => 44 | kOrangeDown => 45 | kOrangeRight => 46 | kPebbleInDirt => 47
  | kStoneInDirt => 48 | kVoidInDirt => 49
  end.

(* static_cast<HiddenCellType>(n) for the codes the enum names. *)
Definition cell_of_code (n : Z) : HiddenCellType :=
  match n with
  | 0 => kAgent | 1 => kEmpty | 2 => kDirt | 3 => kStone | 4 => kStoneFalling
  | 5 => kDiamond | 6 => kDiamondFalling | 7 => kExitClosed | 8 => kExitOpen
  | 9 => kAgentInExit | 10 => kFireflyUp | 11 => kFireflyLeft | 12 => kFireflyDown
  | 13 => kFireflyRight | 14 => kButterflyUp | 15 => kButterflyLeft | 16 => kButterflyDown
  | 17 => kButterflyRight | 18 => kWallBrick | 19 => kWallSteel | 20 => kWallMagicDormant
  | 21 => kWallMagicOn | 22 => kWallMagicExpired | 23 => kBlob | 24 => kExplosionDiamond
  | 25 => kExplosionBoulder | 26 => kExplosionEmpty | 27 => kGateRedClosed
  | 28 => kGateRedOpen | 29 => kKeyRed | 30 => kGateBlueClosed | 31 => kGateBlueOpen
  | 32 => kKeyBlue | 33 => kGateGreenClosed | 34 => kGateGreenOpen | 35 => kKeyGreen
  | 36 => kGateYellowClosed | 37 => kGateYellowOpen | 38 => kKeyYellow | 39 => kNut
  | 40 => kNutFalling | 41 => kBomb | 42 => kBombFalling | 43 => kOrangeUp
  | 44 => kOrangeLeft | 45 => kOrangeDown | 46 => kOrangeRight | 47 => kPebbleInDirt
  | 48 => kStoneInDirt | 49 => kVoidInDirt | _ => kNull
  end.

Definition kNumHiddenCellType : Z := 50.
Definition kNumVisibleCellType : Z := 34.

(* Element::operator== compares the cell types. *)
Definition cell_eqb (a b : HiddenCellType) : bool :=
  to_underlying a =? to_underlying b.

Inductive Action : Set := ActUp | ActRight | ActDown | ActLeft.

Definition kNumActions : Z := 4.

Inductive Direction : Set :=
  | kUp | kRight | kDown | kLeft | kNoop | kUpRight | kDownRight | kDownLeft | kUpLeft.

Definition kNumDirections : Z := 9.

Definition direction_code (d : Direction) : Z :=
  match d with
  | kUp => 0 | kRight => 1 | kDown => 2 | kLeft => 3 | kNoop => 4
  | kUpRight => 5 | kDownRight => 6 | kDownLeft => 7 | kUpLeft => 8
  end.

(* static_cast<Direction>(n), for the codes the enum names. *)
Definition direction_of_code (n : Z) : Direction :=
  match n with
  | 0 => kUp | 1 => kRight | 2 => kDown | 3 => kLeft
  | 5 => kUpRight | 6 => kDownRight | 7 => kDownLeft | 8 => kUpLeft
  | _ => kNoop
  end.

Definition direction_eqb (a b : Direction) : bool :=
  direction_code a =? direction_code b.

Definition action_to_direction (a : Action) : Direction :=
  match a with
  | ActUp => kUp | ActRight => kRight | ActDown => kDown | ActLeft => kLeft
  end.

(* enum RewardCodes *)
Definition kRewardNone : Z := 0.
Definition kRewardAgentDies : Z := Z.shiftl 1 0.
Definition kRewardCollectDiamond : Z := Z.shiftl 1 1.
Definition kRewardWalkThroughExit : Z := Z.shiftl 1 2.
Definition kRewardNutToDiamond : Z := Z.shiftl 1 3.
Definition kRewardButterflyToDiamond : Z := Z.shiftl 1 4.
Definition kRewardCollectKey : Z := Z.shiftl 1 5.
Definition kRewardCollectKeyRed : Z := Z.shiftl 1 6.
Definition kRewardCollectKeyBlue : Z := Z.shiftl 1 7.
Definition kRewardCollectKeyGreen : Z := Z.shiftl 1 8.
Definition kRewardCollectKeyYellow : Z := Z.shiftl 1 9.
Definition kRewardWalkThroughGate : Z := Z.shiftl 1 10.
Definition kRewardWalkThroughGateRed : Z := Z.shiftl 1 11.
Definition kRewardWalkThroughGateBlue : Z := Z.shiftl 1 12.
Definition kRewardWalkThroughGateGreen : Z := Z.shiftl 1 13.
Definition kRewardWalkThroughGateYellow : Z := Z.shiftl 1 14.

(* enum ButterflyExplosionVersion, enum ButterflyMoveVersion *)
Definition kExplode : Z := 1.
Definition kConvert : Z := 2.
Definition kDelay : Z := 1.
Definition kInstant : Z := 2.

(** ** boulderdash_base.h: the validity predicates *)

Definition is_valid_visible_element (code : Z) : bool :=
  (0 <=? code) && (code <? kNumVisibleCellType).

(* The source compares a hidden element with kNumVisibleCellType. *)
Definition is_valid_hidden_element (element : HiddenCellType) : bool :=
  (0 <=? to_underlying element) && (to_underlying element <? kNumVisibleCellType).

(** ** boulderdash_base.cpp: SplitMix64, Xorshift64 and the cell hash *)

Definition u64 (x : Z) : Z := x mod 2 ^ 64.

Definition SPLIT64_S1 : Z := 30.
Definition SPLIT64_S2 : Z := 27.
Definition SPLIT64_S3 : Z := 31.
Definition SPLIT64_C1 : Z := 0x9E3779B97f4A7C15.
Definition SPLIT64_C2 : Z := 0xBF58476D1CE4E5B9.
Definition SPLIT64_C3 : Z := 0x94D049BB133111EB.

Definition splitmix64 (seed : Z) : Z :=
  let result := u64 (seed + SPLIT64_C1) in
  let result := u64 (Z.lxor result (Z.shiftr result SPLIT64_S1) * SPLIT64_C2) in
  let result := u64 (Z.lxor result (Z.shiftr result SPLIT64_S2) * SPLIT64_C3) in
  Z.lxor result (Z.shiftr result SPLIT64_S3).

(* xorshift64(s): the new value of s, which is also the value returned. *)
Definition xorshift64_next (s : Z) : Z :=
  let x := s in
  let x := Z.lxor x (u64 (Z.shiftl x 13)) in
  let x := Z.lxor x (Z.shiftr x 7) in
  let x := Z.lxor x (u64 (Z.shiftl x 17)) in
  x.

(* The int expression flat_size * int(el) + offset is converted to uint64_t. *)
Definition to_local_hash (flat_size : Z) (el : HiddenCellType) (offset : Z) : Z :=
  let seed := u64 (flat_size * to_underlying el + offset) in
  let result := u64 (seed + SPLIT64_C1) in
  let result := u64 (Z.lxor result (Z.shiftr result SPLIT64_S1) * SPLIT64_C2) in
  let result := u64 (Z.lxor result (Z.shiftr result SPLIT64_S2) * SPLIT64_C3) in
  Z.lxor result (Z.shiftr result SPLIT64_S3).

(** ** binary32 arithmetic

    The one float computation of the source is the size limit of the blob,
    [static_cast<int>(static_cast<float>(cells) * percentage)].  A float is
    represented by the rational it denotes; [binary32] rounds a rational to
    the nearest value with a 24-bit significand, ties to even, which is what
    the conversion from int and the multiplication do (IEEE 754, evaluated
    in float precision).  The exponent range of binary32 is not modelled. *)

(* x / 2^k, as a fraction of two positive integers *)
Definition over_pow2 (num den k : Z) : Z * Z :=
  if 0 <=? k then (num, den * 2 ^ k) else (num * 2 ^ (- k), den).

Definition binary32 (q : Q) : Q :=
  let n := Qnum q in
  let d := Zpos (Qden q) in
  if n =? 0 then 0%Q
  else
    let m := Z.abs n in
    let e0 := Z.log2 m - Z.log2 d in
    let '(a0, b0) := over_pow2 m d e0 in
    (* 2^e <= m/d < 2^(e+1) *)
    let e := if a0 <? b0 then e0 - 1 else e0 in
    (* the significand, in [2^23, 2^24], before rounding *)
    let '(a, b) := over_pow2 m d (e - 23) in
    let floor := a / b in
    let twice := 2 * (a mod b) in
    let significand :=
      if (b <? twice) || ((twice =? b) && Z.odd floor) then floor + 1 else floor in
    let magnitude :=
      if 0 <=? e - 23 then inject_Z (significand * 2 ^ (e - 23))
      else Qmake significand (Z.to_pos (2 ^ (23 - e))) in
    if n <? 0 then Qopp magnitude else magnitude.

(* constexpr float DEFAULT_BLOB_MAX_PERCENTAGE = static_cast<float>(0.16) *)
Definition DEFAULT_BLOB_MAX_PERCENTAGE : Q := binary32 (16 # 100).

(** ** The game state *)

Record GameParameters : Type := mkParams {
  param_gravity : bool;
  param_magic_wall_steps : Z;
  param_blob_chance : Z;
  (* a float in the source: the rational it denotes *)
  param_blob_max_percentage : Q;
  param_disable_explosions : bool;
  param_butterfly_explosion_ver : Z;
  param_butterfly_move_ver : Z
}.

Definition default_parameters : GameParameters :=
  mkParams false 140 20 DEFAULT_BLOB_MAX_PERCENTAGE false kExplode kDelay.

Record BoulderDashGameState : Type := mkState {
  magic_wall_steps : Z;
  blob_max_size : Z;
  butterfly_explosion_ver : Z;
  butterfly_move_ver : Z;
  gems_collected : Z;
  magic_wall_steps_remaining : Z;
  blob_size : Z;
  rows : Z;
  cols : Z;
  agent_idx : Z;
  gems_required : Z;
  random_state : Z;
  reward_signal : Z;
  hash : Z;
  blob_chance : Z;
  gravity : bool;
  disable_explosions : bool;
  magic_active : bool;
  blob_enclosed : bool;
  is_agent_alive : bool;
  is_agent_in_exit : bool;
  blob_swap : HiddenCellType;
  grid : list HiddenCellType;
  has_updated : list bool
}.

Definition set_magic_wall_steps (v : Z) (s : BoulderDashGameState) : BoulderDashGameState :=
  mkState v (blob_max_size s) (butterfly_explosion_ver s) (butterfly_move_ver s)
    (gems_collected s) (magic_wall_steps_remaining s) (blob_size s) (rows s) (cols s)
    (agent_idx s) (gems_required s) (random_state s) (reward_signal s) (hash s)
    (blob_chance s) (gravity s) (disable_explosions s) (magic_active s) (blob_enclosed s)
    (is_agent_alive s) (is_agent_in_exit s) (blob_swap s) (grid s) (has_updated s).

Definition set_gems_collected (v : Z) (s : BoulderDashGameState) : BoulderDashGameState :=
  mkState (magic_wall_steps s) (blob_max_size s) (butterfly_explosion_ver s)
    (butterfly_move_ver s) v (magic_wall_steps_remaining s) (blob_size s) (rows s) (cols s)
    (agent_idx s) (gems_required s) (random_state s) (reward_signal s) (hash s)
    (blob_chance s) (gravity s) (disable_explosions s) (magic_active s) (blob_enclosed s)
    (is_agent_alive s) (is_agent_in_exit s) (blob_swap s) (grid s) (has_updated s).

Definition set_blob_size (v : Z) (s : BoulderDashGameState) : BoulderDashGameState :=
  mkState (magic_wall_steps s) (blob_max_size s) (butterfly_explosion_ver s)
    (butterfly_move_ver s) (gems_collected s) (magic_wall_steps_remaining s) v (rows s)
    (cols s) (agent_idx s) (gems_required s) (random_state s) (reward_signal s) (hash s)
    (blob_chance s) (gravity s) (disable_explosions s) (magic_active s) (blob_enclosed s)
    (is_agent_alive s) (is_agent_in_exit s) (blob_swap s) (grid s) (has_updated s).

Definition set_agent_idx (v : Z) (s : BoulderDashGameState) : BoulderDashGameState :=
  mkState (magic_wall_steps s) (blob_max_size s) (butterfly_explosion_ver s)
    (butterfly_move_ver s) (gems_collected s) (magic_wall_steps_remaining s) (blob_size s)
    (rows s) (cols s) v (gems_required s) (random_state s) (reward_signal s) (hash s)
    (blob_chance s) (gravity s) (disable_explosions s) (magic_active s) (blob_enclosed s)
    (is_agent_alive s) (is_agent_in_exit s) (blob_swap s) (grid s) (has_updated s).

Definition set_random_state (v : Z) (s : BoulderDashGameState) : BoulderDashGameState :=
  mkState (magic_wall_steps s) (blob_max_size s) (butterfly_explosion_ver s)
    (butterfly_move_ver s) (gems_collected s) (magic_wall_steps_remaining s) (blob_size s)
    (rows s) (cols s) (agent_idx s) (gems_required s) v (reward_signal s) (hash s)
    (blob_chance s) (gravity s) (disable_explosions s) (magic_active s) (blob_enclosed s)
    (is_agent_alive s) (is_agent_in_exit s) (blob_swap s) (grid s) (has_updated s).

Definition set_reward_signal (v : Z) (s : BoulderDashGameState) : BoulderDashGameState :=
  mkState (magic_wall_steps s) (blob_max_size s) (butterfly_explosion_ver s)
    (butterfly_move_ver s) (gems_collected s) (magic_wall_steps_remaining s) (blob_size s)
    (rows s) (cols s) (agent_idx s) (gems_required s) (random_state s) v (hash s)
    (blob_chance s) (gravity s) (disable_explosions s) (magic_active s) (blob_enclosed s)
    (is_agent_alive s) (is_agent_in_exit s) (blob_swap s) (grid s) (has_updated s).

Definition set_hash (v : Z) (s : BoulderDashGameState) : BoulderDashGameState :=
  mkState (magic_wall_steps s) (blob_max_size s) (butterfly_explosion_ver s)
    (butterfly_move_ver s) (gems_collected s) (magic_wall_steps_remaining s) (blob_size s)
    (rows s) (cols s) (agent_idx s) (gems_required s) (random_state s) (reward_signal s) v
    (blob_chance s) (gravity s) (disable_explosions s) (magic_active s) (blob_enclosed s)
    (is_agent_alive s) (is_agent_in_exit s) (blob_swap s) (grid s) (has_updated s).

Definition set_magic_active (v : bool) (s : BoulderDashGameState) : BoulderDashGameState :=
  mkState (magic_wall_steps s) (blob_max_size s) (butterfly_explosion_ver s)
    (butterfly_move_ver s) (gems_collected s) (magic_wall_steps_remaining s) (blob_size s)
    (rows s) (cols s) (agent_idx s) (gems_required s) (random_state s) (reward_signal s)
    (hash s) (blob_chance s) (gravity s) (disable_explosions s) v (blob_enclosed s)
    (is_agent_alive s) (is_agent_in_exit s) (blob_swap s) (grid s) (has_updated s).

Definition set_blob_enclosed (v : bool) (s : BoulderDashGameState) : BoulderDashGameState :=
  mkState (magic_wall_steps s) (blob_max_size s) (butterfly_explosion_ver s)
    (butterfly_move_ver s) (gems_collected s) (magic_wall_steps_remaining s) (blob_size s)
    (rows s) (cols s) (agent_idx s) (gems_required s) (random_state s) (reward_signal s)
    (hash s) (blob_chance s) (gravity s) (disable_explosions s) (magic_active s) v
    (is_agent_alive s) (is_agent_in_exit s) (blob_swap s) (grid s) (has_updated s).

Definition set_is_agent_alive (v : bool) (s : BoulderDashGameState) : BoulderDashGameState :=
  mkState (magic_wall_steps s) (blob_max_size s) (butterfly_explosion_ver s)
    (butterfly_move_ver s) (gems_collected s) (magic_wall_steps_remaining s) (blob_size s)
    (rows s) (cols s) (agent_idx s) (gems_required s) (random_state s) (reward_signal s)
    (hash s) (blob_chance s) (gravity s) (disable_explosions s) (magic_active s)
    (blob_enclosed s) v (is_agent_in_exit s) (blob_swap s) (grid s) (has_updated s).

Definition set_is_agent_in_exit (v : bool) (s : BoulderDashGameState) : BoulderDashGameState :=
  mkState (magic_wall_steps s) (blob_max_size s) (butterfly_explosion_ver s)
    (butterfly_move_ver s) (gems_collected s) (magic_wall_steps_remaining s) (blob_size s)
    (rows s) (cols s) (agent_idx s) (gems_required s) (random_state s) (reward_signal s)
    (hash s) (blob_chance s) (gravity s) (disable_explosions s) (magic_active s)
    (blob_enclosed s) (is_agent_alive s) v (blob_swap s) (grid s) (has_updated s).

Definition set_blob_swap (v : HiddenCellType) (s : BoulderDashGameState) : BoulderDashGameState :=
  mkState (magic_wall_steps s) (blob_max_size s) (butterfly_explosion_ver s)
    (butterfly_move_ver s) (gems_collected s) (magic_wall_steps_remaining s) (blob_size s)
    (rows s) (cols s) (agent_idx s) (gems_required s) (random_state s) (reward_signal s)
    (hash s) (blob_chance s) (gravity s) (disable_explosions s) (magic_active s)
    (blob_enclosed s) (is_agent_alive s) (is_agent_in_exit s) v (grid s) (has_updated s).

Definition set_grid (v : list HiddenCellType) (s : BoulderDashGameState) : BoulderDashGameState :=
  mkState (magic_wall_steps s) (blob_max_size s) (butterfly_explosion_ver s)
    (butterfly_move_ver s) (gems_collected s) (magic_wall_steps_remaining s) (blob_size s)
    (rows s) (cols s) (agent_idx s) (gems_required s) (random_state s) (reward_signal s)
    (hash s) (blob_chance s) (gravity s) (disable_explosions s) (magic_active s)
    (blob_enclosed s) (is_agent_alive s) (is_agent_in_exit s) (blob_swap s) v
    (has_updated s).

Definition set_has_updated (v : list bool) (s : BoulderDashGameState) : BoulderDashGameState :=
  mkState (magic_wall_steps s) (blob_max_size s) (butterfly_explosion_ver s)
    (butterfly_move_ver s) (gems_collected s) (magic_wall_steps_remaining s) (blob_size s)
    (rows s) (cols s) (agent_idx s) (gems_required s) (random_state s) (reward_signal s)
    (hash s) (blob_chance s) (gravity s) (disable_explosions s) (magic_active s)
    (blob_enclosed s) (is_agent_alive s) (is_agent_in_exit s) (blob_swap s) (grid s) v.
(** ** util.h: the element catalog

    [util.h] is not among the sources.  Its tables enter as the fields of
    [Catalog]; an [Element] is identified with its [cell_type] (the source
    compares elements by cell type, and [kCellTypeToElement] is indexed by
    it), so [kElEmpty] is [kEmpty] and so on.  A map searched with [find]
    or [at] is a partial function; an array indexed by a direction is a
    total one. *)

Class Catalog : Type := mkCatalog {
  (* kCellTypeToElement[cell + 1].properties *)
  properties : HiddenCellType -> Z;
  (* enum ElementProperties *)
  kConsumable : Z;
  kCanExplode : Z;
  kRounded : Z;
  kTraversable : Z;
  kPushable : Z;
  kDirectionOffsets : Direction -> Z * Z;
  kRotateLeft : Direction -> Direction;
  kRotateRight : Direction -> Direction;
  kElementToExplosion : HiddenCellType -> option HiddenCellType;
  kExplosionToElement : HiddenCellType -> option HiddenCellType;
  kExplosionToReward : HiddenCellType -> option Z;
  kMagicWallConversion : HiddenCellType -> option HiddenCellType;
  kElToFalling : HiddenCellType -> option HiddenCellType;
  kKeyToGate : HiddenCellType -> option HiddenCellType;
  kKeyToSignal : HiddenCellType -> option Z;
  kGateToSignal : HiddenCellType -> option Z;
  kGateOpenMap : HiddenCellType -> option HiddenCellType;
  kButterflyToDirection : HiddenCellType -> option Direction;
  kFireflyToDirection : HiddenCellType -> option Direction;
  kOrangeToDirection : HiddenCellType -> option Direction;
  kDirectionToButterfly : Direction -> HiddenCellType;
  kDirectionToFirefly : Direction -> HiddenCellType;
  kDirectionToOrange : Direction -> HiddenCellType;
  IsButterfly : HiddenCellType -> bool;
  IsFirefly : HiddenCellType -> bool;
  IsOrange : HiddenCellType -> bool;
  IsMagicWall : HiddenCellType -> bool;
  IsExplosion : HiddenCellType -> bool;
  IsKey : HiddenCellType -> bool;
  IsOpenGate : HiddenCellType -> bool;
  IsDirectionHorz : Direction -> bool
}.

Abbreviation kElAgent := kAgent (only parsing).
Abbreviation kElEmpty := kEmpty (only parsing).
Abbreviation kElDirt := kDirt (only parsing).
Abbreviation kElStone := kStone (only parsing).
Abbreviation kElStoneFalling := kStoneFalling (only parsing).
Abbreviation kElDiamond := kDiamond (only parsing).
Abbreviation kElDiamondFalling := kDiamondFalling (only parsing).
Abbreviation kElNut := kNut (only parsing).
Abbreviation kElNutFalling := kNutFalling (only parsing).
Abbreviation kElBomb := kBomb (only parsing).
Abbreviation kElBombFalling := kBombFalling (only parsing).
Abbreviation kElExitOpen := kExitOpen (only parsing).
Abbreviation kElAgentInExit := kAgentInExit (only parsing).
Abbreviation kElBlob := kBlob (only parsing).
Abbreviation kElWallMagicOn := kWallMagicOn (only parsing).
Abbreviation kElWallMagicDormant := kWallMagicDormant (only parsing).
Abbreviation kElWallMagicExpired := kWallMagicExpired (only parsing).
Abbreviation kElExplosionEmpty := kExplosionEmpty (only parsing).

(** Modelled from the spec: the catalog of [util.h], which is missing.
    Section 4.A and the glossary give the relations: butterflies leave
    [ExplosionDiamond] and every other keyed element [ExplosionEmpty];
    [ExplosionDiamond -> Diamond], [ExplosionBoulder -> Stone],
    [ExplosionEmpty -> Empty]; a falling stone turns into a falling diamond
    in a magic wall and back; keys open the gate of their colour; the
    pushable kinds are Stone, Nut and Bomb; the traversable ones Empty,
    Dirt, Diamond, the keys and the open exit.  Cells an explosion can
    chain into ([CanExplode]) are the agent, fireflies, butterflies, bombs
    and oranges; steel walls, exits, gates, keys and explosions are not
    consumable.  It is used for the concrete runs only; the theorems hold
    for every catalog that meets their hypotheses. *)
Definition spec_properties (e : HiddenCellType) : Z :=
  match e with
  | kAgent => 3
  | kEmpty | kDirt => 9
  | kStone | kNut => 21
  | kStoneFalling | kNutFalling => 5
  | kDiamond | kDiamondFalling => 13
  | kFireflyUp | kFireflyLeft | kFireflyDown | kFireflyRight
  | kButterflyUp | kButterflyLeft | kButterflyDown | kButterflyRight
  | kOrangeUp | kOrangeLeft | kOrangeDown | kOrangeRight => 3
  | kWallBrick => 5
  | kWallMagicDormant | kWallMagicOn | kWallMagicExpired | kBlob => 1
  | kBomb => 23
  | kBombFalling => 7
  | kExitOpen | kKeyRed | kKeyBlue | kKeyGreen | kKeyYellow => 8
  | kPebbleInDirt | kStoneInDirt | kVoidInDirt => 1
  | _ => 0
  end.

Definition spec_offsets (d : Direction) : Z * Z :=
  match d with
  | kUp => (0, -1) | kRight => (1, 0) | kDown => (0, 1) | kLeft => (-1, 0)
  | kNoop => (0, 0)
  | kUpRight => (1, -1) | kDownRight => (1, 1) | kDownLeft => (-1, 1) | kUpLeft => (-1, -1)
  end.

Definition spec_rotate_left (d : Direction) : Direction :=
  match d with
  | kUp => kLeft | kLeft => kDown | kDown => kRight | kRight => kUp | _ => kNoop
  end.

Definition spec_rotate_right (d : Direction) : Direction :=
  match d with
  | kUp => kRight | kRight => kDown | kDown => kLeft | kLeft => kUp | _ => kNoop
  end.

Definition spec_element_to_explosion (e : HiddenCellType) : option HiddenCellType :=
  match e with
  | kButterflyUp | kButterflyLeft | kButterflyDown | kButterflyRight => Some kExplosionDiamond
  | kFireflyUp | kFireflyLeft | kFireflyDown | kFireflyRight
  | kOrangeUp | kOrangeLeft | kOrangeDown | kOrangeRight
  | kAgent | kBomb | kBombFalling => Some kExplosionEmpty
  | _ => None
  end.

Definition spec_explosion_to_element (e : HiddenCellType) : option HiddenCellType :=
  match e with
  | kExplosionDiamond => Some kDiamond
  | kExplosionBoulder => Some kStone
  | kExplosionEmpty => Some kEmpty
  | _ => None
  end.

Definition spec_explosion_to_reward (e : HiddenCellType) : option Z :=
  match e with
  | kExplosionDiamond => Some kRewardButterflyToDiamond
  | kExplosionBoulder | kExplosionEmpty => Some kRewardNone
  | _ => None
  end.

Definition spec_magic_wall_conversion (e : HiddenCellType) : option HiddenCellType :=
  match e with
  | kStoneFalling => Some kDiamondFalling
  | kDiamondFalling => Some kStoneFalling
  | _ => None
  end.

Definition spec_to_falling (e : HiddenCellType) : option HiddenCellType :=
  match e with
  | kStone => Some kStoneFalling
  | kDiamond => Some kDiamondFalling
  | kNut => Some kNutFalling
  | kBomb => Some kBombFalling
  | _ => None
  end.

Definition spec_key_to_gate (e : HiddenCellType) : option HiddenCellType :=
  match e with
  | kKeyRed => Some kGateRedClosed
  | kKeyBlue => Some kGateBlueClosed
  | kKeyGreen => Some kGateGreenClosed
  | kKeyYellow => Some kGateYellowClosed
  | _ => None
  end.

Definition spec_key_to_signal (e : HiddenCellType) : option Z :=
  match e with
  | kKeyRed => Some kRewardCollectKeyRed
  | kKeyBlue => Some kRewardCollectKeyBlue
  | kKeyGreen => Some kRewardCollectKeyGreen
  | kKeyYellow => Some kRewardCollectKeyYellow
  | _ => None
  end.

Definition spec_gate_to_signal (e : HiddenCellType) : option Z :=
  match e with
  | kGateRedOpen => Some kRewardWalkThroughGateRed
  | kGateBlueOpen => Some kRewardWalkThroughGateBlue
  | kGateGreenOpen => Some kRewardWalkThroughGateGreen
  | kGateYellowOpen => Some kRewardWalkThroughGateYellow
  | _ => None
  end.

Definition spec_gate_open_map (e : HiddenCellType) : option HiddenCellType :=
  match e with
  | kGateRedClosed => Some kGateRedOpen
  | kGateBlueClosed => Some kGateBlueOpen
  | kGateGreenClosed => Some kGateGreenOpen
  | kGateYellowClosed => Some kGateYellowOpen
  | _ => None
  end.

Definition spec_butterfly_to_direction (e : HiddenCellType) : option Direction :=
  match e with
  | kButterflyUp => Some kUp | kButterflyLeft => Some kLeft
  | kButterflyDown => Some kDown | kButterflyRight => Some kRight
  | _ => None
  end.

Definition spec_firefly_to_direction (e : HiddenCellType) : option Direction :=
  match e with
  | kFireflyUp => Some kUp | kFireflyLeft => Some kLeft
  | kFireflyDown => Some kDown | kFireflyRight => Some kRight
  | _ => None
  end.

Definition spec_orange_to_direction (e : HiddenCellType) : option Direction :=
  match e with
  | kOrangeUp => Some kUp | kOrangeLeft => Some kLeft
  | kOrangeDown => Some kDown | kOrangeRight => Some kRight
  | _ => None
  end.

Definition spec_direction_to_butterfly (d : Direction) : HiddenCellType :=
  match d with
  | kUp => kButterflyUp | kRight => kButterflyRight | kDown => kButterflyDown
  | kLeft => kButterflyLeft | _ => kNull
  end.

Definition spec_direction_to_firefly (d : Direction) : HiddenCellType :=
  match d with
  | kUp => kFireflyUp | kRight => kFireflyRight | kDown => kFireflyDown
  | kLeft => kFireflyLeft | _ => kNull
  end.

Definition spec_direction_to_orange (d : Direction) : HiddenCellType :=
  match d with
  | kUp => kOrangeUp | kRight => kOrangeRight | kDown => kOrangeDown
  | kLeft => kOrangeLeft | _ => kNull
  end.

Definition is_some {A} (o : option A) : bool :=
  match o with Some _ => true | None => false end.

Definition spec_catalog : Catalog :=
  {| properties := spec_properties;
     kConsumable := Z.shiftl 1 0;
     kCanExplode := Z.shiftl 1 1;
     kRounded := Z.shiftl 1 2;
     kTraversable := Z.shiftl 1 3;
     kPushable := Z.shiftl 1 4;
     kDirectionOffsets := spec_offsets;
     kRotateLeft := spec_rotate_left;
     kRotateRight := spec_rotate_right;
     kElementToExplosion := spec_element_to_explosion;
     kExplosionToElement := spec_explosion_to_element;
     kExplosionToReward := spec_explosion_to_reward;
     kMagicWallConversion := spec_magic_wall_conversion;
     kElToFalling := spec_to_falling;
     kKeyToGate := spec_key_to_gate;
     kKeyToSignal := spec_key_to_signal;
     kGateToSignal := spec_gate_to_signal;
     kGateOpenMap := spec_gate_open_map;
     kButterflyToDirection := spec_butterfly_to_direction;
     kFireflyToDirection := spec_firefly_to_direction;
     kOrangeToDirection := spec_orange_to_direction;
     kDirectionToButterfly := spec_direction_to_butterfly;
     kDirectionToFirefly := spec_direction_to_firefly;
     kDirectionToOrange := spec_direction_to_orange;
     IsButterfly := fun e => is_some (spec_butterfly_to_direction e);
     IsFirefly := fun e => is_some (spec_firefly_to_direction e);
     IsOrange := fun e => is_some (spec_orange_to_direction e);
     IsMagicWall := fun e => cell_eqb e kWallMagicDormant || cell_eqb e kWallMagicOn;
     IsExplosion := fun e => is_some (spec_explosion_to_element e);
     IsKey := fun e => is_some (spec_key_to_gate e);
     IsOpenGate := fun e => is_some (spec_gate_to_signal e);
     IsDirectionHorz := fun d => direction_eqb d kLeft || direction_eqb d kRight |}.

(** ** Running the member functions

    Two ghost fields ride along with the game state: the number of times
    [Explode] was entered, and a record of every call [Explode] made to
    itself.  No rule reads them. *)

Record ChainCall : Type := mkChainCall {
  (* the cell the calling Explode was exploding, and what it found there on entry *)
  chain_center : Z;
  chain_center_found : HiddenCellType;
  chain_direction : Direction;
  (* what the neighbour held when the call was made *)
  chain_neighbor : HiddenCellType;
  (* the element argument of the call *)
  chain_element : HiddenCellType
}.

Record Run : Type := mkRun {
  st : BoulderDashGameState;
  explode_calls : nat;
  chain_calls : list ChainCall
}.

Definition start (s : BoulderDashGameState) : Run := mkRun s 0 [].

Inductive Outcome (A : Type) : Type :=
  | Ok (a : A) (r : Run)
  | Fault
  | OutOfFuel.
Arguments Ok {A} a r.
Arguments Fault {A}.
Arguments OutOfFuel {A}.

Definition M (A : Type) : Type := Run -> Outcome A.

Definition ret {A} (a : A) : M A := fun r => Ok a r.

Definition bind {A B} (m : M A) (k : A -> M B) : M B :=
  fun r =>
    match m r with
    | Ok a r' => k a r'
    | Fault => Fault
    | OutOfFuel => OutOfFuel
    end.

Notation "x <- c1 ;; c2" := (bind c1 (fun x => c2))
  (at level 100, c1 at next level, right associativity).
Notation "c1 ;; c2" := (bind c1 (fun _ => c2))
  (at level 100, right associativity).

Definition fault {A} : M A := fun _ => Fault.
Definition out_of_fuel {A} : M A := fun _ => OutOfFuel.

(* A const member function: it reads the game state and may fault. *)
Definition Query (A : Type) : Type := BoulderDashGameState -> option A.

Definition ask {A} (q : Query A) : M A :=
  fun r => match q (st r) with Some a => Ok a r | None => Fault end.

Definition get_state : M BoulderDashGameState := fun r => Ok (st r) r.

Definition gets {A} (f : BoulderDashGameState -> A) : M A :=
  fun r => Ok (f (st r)) r.

Definition modify (f : BoulderDashGameState -> BoulderDashGameState) : M unit :=
  fun r => Ok tt (mkRun (f (st r)) (explode_calls r) (chain_calls r)).

(* map.at(key) *)
Definition at_ {A} (o : option A) : M A :=
  match o with Some a => ret a | None => fault end.

Definition when (b : bool) (m : M unit) : M unit := if b then m else ret tt.

Fixpoint for_each {A} (l : list A) (body : A -> M unit) : M unit :=
  match l with
  | [] => ret tt
  | x :: l' => body x ;; for_each l' body
  end.

(* std::views::iota(lo, hi) *)
Definition iota (lo hi : Z) : list Z :=
  map (fun k => lo + Z.of_nat k) (seq 0 (Z.to_nat (hi - lo))).

Definition note_explode : M unit :=
  fun r => Ok tt (mkRun (st r) (S (explode_calls r)) (chain_calls r)).

Definition note_chain (c : ChainCall) : M unit :=
  fun r => Ok tt (mkRun (st r) (explode_calls r) (chain_calls r ++ [c])).

(* a && b and a || b on queries, with the short circuit of C++ *)
Definition qand (a b : Query bool) : Query bool :=
  fun s => match a s with Some true => b s | other => other end.

Definition qor (a b : Query bool) : Query bool :=
  fun s => match a s with Some false => b s | other => other end.

Definition qnot (a : Query bool) : Query bool :=
  fun s => option_map negb (a s).

Definition qpure {A} (a : A) : Query A := fun _ => Some a.

(* v[static_cast<std::size_t>(index)] on a std::vector *)
Definition vector_at {A} (v : list A) (index : Z) : option A :=
  if index <? 0 then None else v !! Z.to_nat index.

Definition vector_set {A} (v : list A) (index : Z) (x : A) : option (list A) :=
  if (index <? 0) || (Z.of_nat (length v) <=? index) then None
  else Some (<[Z.to_nat index := x]> v).

Section Game.

Context {cat : Catalog}.

(** ** Grid primitives *)

(* Not safe, assumes InBounds has been called (or used in conjunction). *)
Definition IndexFromDirection (s : BoulderDashGameState) (index : Z) (direction : Direction) : Z :=
  match direction with
  | kNoop => index
  | kUp => index - cols s
  | kRight => index + 1
  | kDown => index + cols s
  | kLeft => index - 1
  | kUpRight => index - cols s + 1
  | kDownRight => index + cols s + 1
  | kUpLeft => index - cols s - 1
  | kDownLeft => index + cols s - 1
  end.

(* % and / of C++ truncate towards zero; dividing by zero is undefined. *)
Definition InBounds (index : Z) (direction : Direction) : Query bool :=
  fun s =>
    if cols s =? 0 then None
    else
      let col := Z.rem index (cols s) in
      let row := Z.quot (index - col) (cols s) in
      let offsets := kDirectionOffsets direction in
      let col := col + fst offsets in
      let row := row + snd offsets in
      Some ((0 <=? col) && (col <? cols s) && (0 <=? row) && (row <? rows s)).

Definition GetItem (index : Z) (direction : Direction) : Query HiddenCellType :=
  fun s => vector_at (grid s) (IndexFromDirection s index direction).

Definition IsType (index : Z) (element : HiddenCellType) (direction : Direction) : Query bool :=
  fun s =>
    let new_index := IndexFromDirection s index direction in
    qand (InBounds index direction)
         (fun s => option_map (fun e => cell_eqb e element) (GetItem new_index kNoop s)) s.

Definition HasProperty (index : Z) (property : Z) (direction : Direction) : Query bool :=
  fun s =>
    let new_index := IndexFromDirection s index direction in
    qand (InBounds index direction)
         (fun s => option_map (fun e => 0 <? Z.land (properties e) property)
                              (GetItem new_index kNoop s)) s.

Definition flat_size (s : BoulderDashGameState) : Z := rows s * cols s.

Definition MoveItem (index : Z) (direction : Direction) : M unit :=
  s <- get_state ;;
  let new_index := IndexFromDirection s index direction in
  let flat_size := rows s * cols s in
  old_new <- ask (fun s => vector_at (grid s) new_index) ;;
  modify (fun s => set_hash (Z.lxor (hash s) (to_local_hash flat_size old_new new_index)) s) ;;
  moved <- ask (fun s => vector_at (grid s) index) ;;
  g <- ask (fun s => vector_set (grid s) new_index moved) ;;
  modify (set_grid g) ;;
  modify (fun s => set_hash (Z.lxor (hash s) (to_local_hash flat_size moved new_index)) s) ;;
  old <- ask (fun s => vector_at (grid s) index) ;;
  modify (fun s => set_hash (Z.lxor (hash s) (to_local_hash flat_size old index)) s) ;;
  g <- ask (fun s => vector_set (grid s) index kElEmpty) ;;
  modify (set_grid g) ;;
  modify (fun s => set_hash (Z.lxor (hash s) (to_local_hash flat_size kElEmpty index)) s) ;;
  u <- ask (fun s => vector_set (has_updated s) new_index true) ;;
  modify (set_has_updated u).

Definition SetItem (index : Z) (element : HiddenCellType) (direction : Direction) : M unit :=
  s <- get_state ;;
  let new_index := IndexFromDirection s index direction in
  let flat_size := rows s * cols s in
  old <- ask (fun s => vector_at (grid s) new_index) ;;
  modify (fun s => set_hash (Z.lxor (hash s) (to_local_hash flat_size old new_index)) s) ;;
  g <- ask (fun s => vector_set (grid s) new_index element) ;;
  modify (set_grid g) ;;
  modify (fun s => set_hash (Z.lxor (hash s) (to_local_hash flat_size element new_index)) s) ;;
  u <- ask (fun s => vector_set (has_updated s) new_index true) ;;
  modify (set_has_updated u).

Definition IsTypeAdjacent (index : Z) (element : HiddenCellType) : Query bool :=
  qor (IsType index element kUp)
      (qor (IsType index element kLeft)
           (qor (IsType index element kDown) (IsType index element kRight))).

(** ** Rolling, pushing, magic walls and explosions *)

Definition CanRollLeft (index : Z) : Query bool :=
  qand (HasProperty index kRounded kDown)
       (qand (IsType index kElEmpty kLeft) (IsType index kElEmpty kDownLeft)).

Definition CanRollRight (index : Z) : Query bool :=
  qand (HasProperty index kRounded kDown)
       (qand (IsType index kElEmpty kRight) (IsType index kElEmpty kDownRight)).

Definition RollLeft (index : Z) (element : HiddenCellType) : M unit :=
  SetItem index element kNoop ;;
  MoveItem index kLeft.

Definition RollRight (index : Z) (element : HiddenCellType) : M unit :=
  SetItem index element kNoop ;;
  MoveItem index kRight.

Definition Push (index : Z) (stationary falling : HiddenCellType) (direction : Direction) : M unit :=
  s <- get_state ;;
  let new_index := IndexFromDirection s index direction in
  room <- ask (IsType new_index kElEmpty direction) ;;
  if room : bool then
    let next_index := IndexFromDirection s new_index direction in
    is_empty <- ask (IsType next_index kElEmpty kDown) ;;
    MoveItem new_index direction ;;
    SetItem next_index (if is_empty : bool then falling else stationary) kNoop ;;
    MoveItem index direction ;;
    modify (set_agent_idx (IndexFromDirection s index direction))
  else ret tt.

Definition MoveThroughMagic (index : Z) (element : HiddenCellType) : M unit :=
  steps <- gets magic_wall_steps ;;
  if steps <=? 0 then ret tt
  else
    modify (set_magic_active true) ;;
    s <- get_state ;;
    let index_wall := IndexFromDirection s index kDown in
    let index_under_wall := IndexFromDirection s index_wall kDown in
    free <- ask (IsType index_under_wall kElEmpty kNoop) ;;
    if free : bool then
      SetItem index kElEmpty kNoop ;;
      SetItem index_under_wall element kNoop
    else ret tt.

(* it == end() ? kElExplosionEmpty : it->second *)
Definition explosion_of (e : HiddenCellType) : HiddenCellType :=
  match kElementToExplosion e with
  | Some ex => ex
  | None => kElExplosionEmpty
  end.

(* The recursion of the source has no structural argument: [fuel] bounds
   its depth, and an exhausted budget is its own outcome. *)
Fixpoint Explode (fuel : nat) (index : Z) (element : HiddenCellType) (direction : Direction)
  : M unit :=
  match fuel with
  | O => out_of_fuel
  | S fuel' =>
    note_explode ;;
    s <- get_state ;;
    let new_index := IndexFromDirection s index direction in
    found <- ask (GetItem new_index kNoop) ;;
    let ex := explosion_of found in
    when (cell_eqb found kElAgent) (modify (set_is_agent_alive false)) ;;
    SetItem new_index element kNoop ;;
    for_each (iota 0 kNumDirections) (fun dir_index =>
      let dir := direction_of_code dir_index in
      skip <- ask (qor (qpure (direction_eqb dir kNoop)) (qnot (InBounds new_index dir))) ;;
      if skip : bool then ret tt
      else
        can_explode <- ask (HasProperty new_index kCanExplode dir) ;;
        if can_explode : bool then
          neighbor <- ask (GetItem new_index dir) ;;
          note_chain (mkChainCall new_index found dir neighbor ex) ;;
          Explode fuel' new_index ex dir
        else
          consumable <- ask (HasProperty new_index kConsumable dir) ;;
          if consumable : bool then
            SetItem new_index ex dir ;;
            now_there <- ask (GetItem new_index dir) ;;
            when (cell_eqb now_there kElAgent) (modify (set_is_agent_alive false))
          else ret tt)
  end.

Definition or_reward (code : Z) : M unit :=
  modify (fun s => set_reward_signal (Z.lor (reward_signal s) code) s).

(** ** Element update rules *)

Definition UpdateStoneFalling (fuel : nat) (index : Z) : M unit :=
  below_empty <- ask (IsType index kElEmpty kDown) ;;
  if below_empty : bool then MoveItem index kDown
  else
    convert <- ask (qand (fun s => Some (butterfly_explosion_ver s =? kConvert))
                         (fun s => option_map IsButterfly (GetItem index kDown s))) ;;
    if convert : bool then
      SetItem index kElEmpty kNoop ;;
      SetItem index kElDiamond kDown ;;
      or_reward kRewardButterflyToDiamond
    else
      can_explode <- ask (HasProperty index kCanExplode kDown) ;;
      if can_explode : bool then
        below <- ask (GetItem index kDown) ;;
        Explode fuel index (explosion_of below) kDown
      else
        magic <- ask (qor (IsType index kElWallMagicOn kDown)
                          (IsType index kElWallMagicDormant kDown)) ;;
        if magic : bool then
          self <- ask (GetItem index kNoop) ;;
          converted <- at_ (kMagicWallConversion self) ;;
          MoveThroughMagic index converted
        else
          nut <- ask (IsType index kElNut kDown) ;;
          if nut : bool then
            SetItem index kElDiamond kDown ;;
            or_reward kRewardNutToDiamond
          else
            bomb <- ask (IsType index kElBomb kDown) ;;
            if bomb : bool then
              self <- ask (GetItem index kNoop) ;;
              Explode fuel index (explosion_of self) kNoop
            else
              left <- ask (CanRollLeft index) ;;
              if left : bool then RollLeft index kElStoneFalling
              else
                right <- ask (CanRollRight index) ;;
                if right : bool then RollRight index kElStoneFalling
                else SetItem index kElStone kNoop.

Definition UpdateStone (fuel : nat) (index : Z) : M unit :=
  g <- gets gravity ;;
  if negb g then ret tt
  else
    below_empty <- ask (IsType index kElEmpty kDown) ;;
    if below_empty : bool then
      SetItem index kElStoneFalling kNoop ;;
      UpdateStoneFalling fuel index
    else
      left <- ask (CanRollLeft index) ;;
      if left : bool then RollLeft index kElStoneFalling
      else
        right <- ask (CanRollRight index) ;;
        if right : bool then RollRight index kElStoneFalling
        else ret tt.

Definition UpdateDiamondFalling (fuel : nat) (index : Z) : M unit :=
  below_empty <- ask (IsType index kElEmpty kDown) ;;
  if below_empty : bool then MoveItem index kDown
  else
    can_explode <- ask (qand (HasProperty index kCanExplode kDown)
                             (qand (qnot (IsType index kElBomb kDown))
                                   (qnot (IsType index kElBombFalling kDown)))) ;;
    if can_explode : bool then
      below <- ask (GetItem index kDown) ;;
      Explode fuel index (explosion_of below) kDown
    else
      magic <- ask (qor (IsType index kElWallMagicOn kDown)
                        (IsType index kElWallMagicDormant kDown)) ;;
      if magic : bool then
        self <- ask (GetItem index kNoop) ;;
        converted <- at_ (kMagicWallConversion self) ;;
        MoveThroughMagic index converted
      else
        left <- ask (CanRollLeft index) ;;
        if left : bool then RollLeft index kElDiamondFalling
        else
          right <- ask (CanRollRight index) ;;
          if right : bool then RollRight index kElDiamondFalling
          else SetItem index kElDiamond kNoop.

Definition UpdateDiamond (fuel : nat) (index : Z) : M unit :=
  g <- gets gravity ;;
  if negb g then ret tt
  else
    below_empty <- ask (IsType index kElEmpty kDown) ;;
    if below_empty : bool then
      SetItem index kElDiamondFalling kNoop ;;
      UpdateDiamondFalling fuel index
    else
      left <- ask (CanRollLeft index) ;;
      if left : bool then RollLeft index kElDiamondFalling
      else
        right <- ask (CanRollRight index) ;;
        if right : bool then RollRight index kElDiamondFalling
        else ret tt.

Definition UpdateNutFalling (index : Z) : M unit :=
  below_empty <- ask (IsType index kElEmpty kDown) ;;
  if below_empty : bool then MoveItem index kDown
  else
    left <- ask (CanRollLeft index) ;;
    if left : bool then RollLeft index kElNutFalling
    else
      right <- ask (CanRollRight index) ;;
      if right : bool then RollRight index kElNutFalling
      else SetItem index kElNut kNoop.

Definition UpdateNut (index : Z) : M unit :=
  g <- gets gravity ;;
  if negb g then ret tt
  else
    below_empty <- ask (IsType index kElEmpty kDown) ;;
    if below_empty : bool then
      SetItem index kElNutFalling kNoop ;;
      UpdateNutFalling index
    else
      left <- ask (CanRollLeft index) ;;
      if left : bool then RollLeft index kElNutFalling
      else
        right <- ask (CanRollRight index) ;;
        if right : bool then RollRight index kElNutFalling
        else ret tt.

Definition UpdateBombFalling (fuel : nat) (index : Z) : M unit :=
  below_empty <- ask (IsType index kElEmpty kDown) ;;
  if below_empty : bool then MoveItem index kDown
  else
    left <- ask (CanRollLeft index) ;;
    if left : bool then RollLeft index kElBombFalling
    else
      right <- ask (CanRollRight index) ;;
      if right : bool then RollRight index kElBombFalling
      else
        disabled <- gets disable_explosions ;;
        if negb disabled then
          self <- ask (GetItem index kNoop) ;;
          Explode fuel index (explosion_of self) kNoop
        else ret tt.

Definition UpdateBomb (fuel : nat) (index : Z) : M unit :=
  g <- gets gravity ;;
  if negb g then ret tt
  else
    below_empty <- ask (IsType index kElEmpty kDown) ;;
    if below_empty : bool then
      SetItem index kElBombFalling kNoop ;;
      UpdateBombFalling fuel index
    else
      left <- ask (CanRollLeft index) ;;
      if left : bool then RollLeft index kElBomb
      else
        right <- ask (CanRollRight index) ;;
        if right : bool then RollRight index kElBomb
        else ret tt.

Definition UpdateExit (index : Z) : M unit :=
  s <- get_state ;;
  if gems_required s <=? gems_collected s then SetItem index kElExitOpen kNoop
  else ret tt.

Definition OpenGate (element : HiddenCellType) : M unit :=
  s <- get_state ;;
  for_each (iota 0 (rows s * cols s)) (fun index =>
    here <- ask (fun s => vector_at (grid s) index) ;;
    if cell_eqb here element then
      open <- at_ (kGateOpenMap here) ;;
      SetItem index open kNoop
    else ret tt).

Definition UpdateAgent (index : Z) (direction : Direction) : M unit :=
  inside <- ask (InBounds index direction) ;;
  if negb inside then ret tt
  else
    s <- get_state ;;
    walk <- ask (qor (IsType index kElEmpty direction) (IsType index kElDirt direction)) ;;
    if walk : bool then
      MoveItem index direction ;;
      modify (set_agent_idx (IndexFromDirection s index direction))
    else
      gem <- ask (qor (IsType index kElDiamond direction)
                      (IsType index kElDiamondFalling direction)) ;;
      if gem : bool then
        modify (fun s => set_gems_collected (gems_collected s + 1) s) ;;
        or_reward kRewardCollectDiamond ;;
        MoveItem index direction ;;
        modify (set_agent_idx (IndexFromDirection s index direction))
      else
        push <- ask (qand (qpure (IsDirectionHorz direction))
                          (HasProperty index kPushable direction)) ;;
        if push : bool then
          target <- ask (GetItem index direction) ;;
          falling <- at_ (kElToFalling target) ;;
          Push index target falling direction
        else
          target <- ask (GetItem index direction) ;;
          if IsKey target then
            let key_type := target in
            gate <- at_ (kKeyToGate key_type) ;;
            OpenGate gate ;;
            MoveItem index direction ;;
            modify (set_agent_idx (IndexFromDirection s index direction)) ;;
            or_reward kRewardCollectKey ;;
            signal <- at_ (kKeyToSignal key_type) ;;
            or_reward signal
          else if IsOpenGate target then
            let index_gate := IndexFromDirection s index direction in
            through <- ask (HasProperty index_gate kTraversable direction) ;;
            if through : bool then
              gem <- ask (qor (IsType index_gate kElDiamond direction)
                              (IsType index_gate kElDiamondFalling direction)) ;;
              (if gem : bool then
                 modify (fun s => set_gems_collected (gems_collected s + 1) s) ;;
                 or_reward kRewardCollectDiamond
               else
                 beyond <- ask (GetItem index_gate direction) ;;
                 if IsKey beyond then
                   let key_type := beyond in
                   gate <- at_ (kKeyToGate key_type) ;;
                   OpenGate gate ;;
                   or_reward kRewardCollectKey ;;
                   signal <- at_ (kKeyToSignal key_type) ;;
                   or_reward signal
                 else ret tt) ;;
              SetItem index_gate kElAgent direction ;;
              SetItem index kElEmpty kNoop ;;
              modify (set_agent_idx (IndexFromDirection s index_gate direction)) ;;
              or_reward kRewardWalkThroughGate ;;
              gate_el <- ask (GetItem index_gate kNoop) ;;
              signal <- at_ (kGateToSignal gate_el) ;;
              or_reward signal
            else ret tt
          else
            exit <- ask (IsType index kElExitOpen direction) ;;
            if exit : bool then
              MoveItem index direction ;;
              SetItem index kElAgentInExit direction ;;
              modify (set_agent_idx (IndexFromDirection s index direction)) ;;
              modify (set_is_agent_in_exit true) ;;
              or_reward kRewardWalkThroughExit
            else ret tt.

Definition self_destruct (fuel : nat) (index : Z) : M unit :=
  self <- ask (GetItem index kNoop) ;;
  Explode fuel index (explosion_of self) kNoop.

Definition UpdateFirefly (fuel : nat) (index : Z) (direction : Direction) : M unit :=
  let new_dir := kRotateLeft direction in
  touching <- ask (qor (IsTypeAdjacent index kElAgent) (IsTypeAdjacent index kElBlob)) ;;
  if touching : bool then self_destruct fuel index
  else
    left_free <- ask (IsType index kElEmpty new_dir) ;;
    if left_free : bool then
      SetItem index (kDirectionToFirefly new_dir) kNoop ;;
      MoveItem index new_dir
    else
      ahead_free <- ask (IsType index kElEmpty direction) ;;
      if ahead_free : bool then
        SetItem index (kDirectionToFirefly direction) kNoop ;;
        MoveItem index direction
      else
        SetItem index (kDirectionToFirefly (kRotateRight direction)) kNoop.

Definition UpdateButterfly (fuel : nat) (index : Z) (direction : Direction) : M unit :=
  let new_dir := kRotateRight direction in
  touching <- ask (qor (IsTypeAdjacent index kElAgent) (IsTypeAdjacent index kElBlob)) ;;
  if touching : bool then self_destruct fuel index
  else
    right_free <- ask (IsType index kElEmpty new_dir) ;;
    if right_free : bool then
      SetItem index (kDirectionToButterfly new_dir) kNoop ;;
      MoveItem index new_dir
    else
      ahead_free <- ask (IsType index kElEmpty direction) ;;
      if ahead_free : bool then
        SetItem index (kDirectionToButterfly direction) kNoop ;;
        MoveItem index direction
      else
        SetItem index (kDirectionToButterfly (kRotateLeft direction)) kNoop ;;
        ver <- gets butterfly_move_ver ;;
        if ver =? kInstant then
          let new_dir := kRotateLeft direction in
          MoveItem index new_dir
        else ret tt.

Definition xorshift64 : M Z :=
  s <- gets random_state ;;
  let x := xorshift64_next s in
  modify (set_random_state x) ;;
  ret x.

(* The directions UpdateOrange collects in open_dirs, in the order of the loop. *)
Fixpoint open_directions (index : Z) (dir_indices : list Z) : Query (list Direction) :=
  fun s =>
    match dir_indices with
    | [] => Some []
    | dir_index :: rest =>
      let dir := direction_of_code dir_index in
      match qor (qpure (direction_eqb dir kNoop)) (qnot (InBounds index dir)) s with
      | None => None
      | Some true => open_directions index rest s
      | Some false =>
        match IsType index kElEmpty dir s with
        | None => None
        | Some true => option_map (cons dir) (open_directions index rest s)
        | Some false => open_directions index rest s
        end
      end
    end.

Definition UpdateOrange (fuel : nat) (index : Z) (direction : Direction) : M unit :=
  ahead_free <- ask (IsType index kElEmpty direction) ;;
  if ahead_free : bool then MoveItem index direction
  else
    touching <- ask (IsTypeAdjacent index kElAgent) ;;
    if touching : bool then self_destruct fuel index
    else
      open_dirs <- ask (open_directions index (iota 0 kNumActions)) ;;
      match open_dirs with
      | [] => ret tt
      | _ :: _ =>
        roll <- xorshift64 ;;
        new_dir <- at_ (open_dirs !! Z.to_nat (roll mod Z.of_nat (length open_dirs))) ;;
        SetItem index (kDirectionToOrange new_dir) kNoop
      end.

Definition UpdateMagicWall (index : Z) : M unit :=
  s <- get_state ;;
  if magic_active s then SetItem index kElWallMagicOn kNoop
  else if 0 <? magic_wall_steps s then SetItem index kElWallMagicDormant kNoop
  else SetItem index kElWallMagicExpired kNoop.

Definition BASE_CHANCE : Z := 256.

Definition UpdateBlob (index : Z) : M unit :=
  swap <- gets blob_swap ;;
  if negb (cell_eqb swap kNull) then SetItem index swap kNoop
  else
    modify (fun s => set_blob_size (blob_size s + 1) s) ;;
    can_grow <- ask (qor (IsTypeAdjacent index kElEmpty) (IsTypeAdjacent index kElDirt)) ;;
    when can_grow (modify (set_blob_enclosed false)) ;;
    roll <- xorshift64 ;;
    chance <- gets blob_chance ;;
    let will_grow := roll mod BASE_CHANCE <? chance in
    roll <- xorshift64 ;;
    let grow_dir := direction_of_code (roll mod kNumActions) in
    grow <- ask (qand (qpure will_grow)
                      (qor (IsType index kElEmpty grow_dir) (IsType index kElDirt grow_dir))) ;;
    if grow : bool then SetItem index kElBlob grow_dir else ret tt.

Definition UpdateExplosions (index : Z) : M unit :=
  self <- ask (GetItem index kNoop) ;;
  reward <- at_ (kExplosionToReward self) ;;
  or_reward reward ;;
  self <- ask (GetItem index kNoop) ;;
  becomes <- at_ (kExplosionToElement self) ;;
  SetItem index becomes kNoop.

(** ** The tick driver *)

Definition StartScan : M unit :=
  modify (set_blob_size 0) ;;
  modify (set_blob_enclosed true) ;;
  modify (set_reward_signal 0) ;;
  s <- get_state ;;
  for_each (iota 0 (rows s * cols s)) (fun i =>
    u <- ask (fun s => vector_set (has_updated s) i false) ;;
    modify (set_has_updated u)).

Definition EndScan : M unit :=
  s <- get_state ;;
  when (cell_eqb (blob_swap s) kNull)
    (when (blob_enclosed s) (modify (set_blob_swap kElDiamond)) ;;
     when (blob_max_size s <? blob_size s) (modify (set_blob_swap kElStone))) ;;
  when (magic_active s)
    (modify (fun s => set_magic_wall_steps (Z.max (magic_wall_steps s - 1) 0) s)) ;;
  modify (fun s => set_magic_active (magic_active s && (0 <? magic_wall_steps s)) s).

(* The body of the scan loop of apply_action for the cell i. *)
Definition update_cell (fuel : nat) (i : Z) : M unit :=
  updated <- ask (fun s => vector_at (has_updated s) i) ;;
  if updated : bool then ret tt
  else
    hidden_el <- ask (fun s => vector_at (grid s) i) ;;
    match hidden_el with
    | kStone => UpdateStone fuel i
    | kStoneFalling => UpdateStoneFalling fuel i
    | kDiamond => UpdateDiamond fuel i
    | kDiamondFalling => UpdateDiamondFalling fuel i
    | kNut => UpdateNut i
    | kNutFalling => UpdateNutFalling i
    | kBomb => UpdateBomb fuel i
    | kBombFalling => UpdateBombFalling fuel i
    | kExitClosed => UpdateExit i
    | kBlob => UpdateBlob i
    | element =>
      if IsButterfly element then
        direction <- at_ (kButterflyToDirection element) ;;
        UpdateButterfly fuel i direction
      else if IsFirefly element then
        direction <- at_ (kFireflyToDirection element) ;;
        UpdateFirefly fuel i direction
      else if IsOrange element then
        direction <- at_ (kOrangeToDirection element) ;;
        UpdateOrange fuel i direction
      else if IsMagicWall element then UpdateMagicWall i
      else if IsExplosion element then UpdateExplosions i
      else ret tt
    end.

Definition scan (fuel : nat) : M unit :=
  s <- get_state ;;
  for_each (iota 0 (rows s * cols s)) (update_cell fuel).

Definition apply_action (fuel : nat) (action : Action) : M unit :=
  StartScan ;;
  let action_direction := action_to_direction action in
  idx <- gets agent_idx ;;
  UpdateAgent idx action_direction ;;
  scan fuel ;;
  EndScan.

Definition is_terminal (s : BoulderDashGameState) : bool :=
  negb (is_agent_alive s) || is_agent_in_exit s.

Definition is_solution (s : BoulderDashGameState) : bool := is_agent_in_exit s.

Definition get_reward_signal (s : BoulderDashGameState) : Z := reward_signal s.

Definition get_hash (s : BoulderDashGameState) : Z := hash s.

End Game.

(** ** The level parser and the constructor *)

Inductive Exception : Type :=
  | invalid_argument (what : string)
  | out_of_range (what : string).

Inductive Construction (A : Type) : Type :=
  | Constructed (a : A)
  | Thrown (e : Exception)
  (* assert(...) failed: the process is aborted *)
  | AssertionFailed
  (* behaviour the C++ standard leaves undefined *)
  | Undefined.
Arguments Constructed {A} a.
Arguments Thrown {A} e.
Arguments AssertionFailed {A}.
Arguments Undefined {A}.

Definition cbind {A B} (c : Construction A) (k : A -> Construction B) : Construction B :=
  match c with
  | Constructed a => k a
  | Thrown e => Thrown e
  | AssertionFailed => AssertionFailed
  | Undefined => Undefined
  end.

Notation "x <~ c1 ;; c2" := (cbind c1 (fun x => c2))
  (at level 100, c1 at next level, right associativity).

(* while (std::getline(board_ss, segment, '|')) seglist.push_back(segment);
   [cur] is the segment read so far, last character first.  At the end of
   the input a segment is produced only if characters were extracted. *)
Fixpoint getline_all (cur : list ascii) (input : string) : list string :=
  match input with
  | EmptyString =>
    match cur with
    | [] => []
    | _ => [string_of_list_ascii (rev cur)]
    end
  | String c rest =>
    if Ascii.eqb c "|" then string_of_list_ascii (rev cur) :: getline_all [] rest
    else getline_all (c :: cur) rest
  end.

Definition split_board (board_str : string) : list string := getline_all [] board_str.

(* std::isspace in the "C" locale *)
Definition isspace (c : ascii) : bool :=
  let n := nat_of_ascii c in
  (n =? 32)%nat || ((9 <=? n)%nat && (n <=? 13)%nat).

Definition digit_value (c : ascii) : option Z :=
  let n := nat_of_ascii c in
  if ((48 <=? n)%nat && (n <=? 57)%nat)%bool then Some (Z.of_nat n - 48) else None.

Fixpoint skip_spaces (s : string) : string :=
  match s with
  | String c rest => if isspace c then skip_spaces rest else s
  | EmptyString => s
  end.

(* The value of the leading digits, and whether there was any digit. *)
Fixpoint read_digits (acc : Z) (seen : bool) (s : string) : Z * bool :=
  match s with
  | String c rest =>
    match digit_value c with
    | Some d => read_digits (10 * acc + d) true rest
    | None => (acc, seen)
    end
  | EmptyString => (acc, seen)
  end.

Definition INT_MAX : Z := 2 ^ 31 - 1.
Definition INT_MIN : Z := - 2 ^ 31.

(* a * b on two ints: a product that does not fit an int is undefined *)
Definition int_mul (a b : Z) : Construction Z :=
  if (a * b <? INT_MIN) || (INT_MAX <? a * b) then Undefined else Constructed (a * b).

(* std::views::iota(0, bound): the bound has to be reachable from 0 *)
Definition views_iota (bound : Z) : Construction (list Z) :=
  if bound <? 0 then Undefined else Constructed (iota 0 bound).

(* std::stoi(str): leading spaces, an optional sign, decimal digits; what
   follows the digits is ignored. *)
Definition stoi (str : string) : Construction Z :=
  let s := skip_spaces str in
  let '(negative, s) :=
    match s with
    | String "-" rest => (true, rest)
    | String "+" rest => (false, rest)
    | _ => (false, s)
    end in
  let '(magnitude, seen) := read_digits 0 false s in
  if negb seen then Thrown (invalid_argument "stoi")
  else
    let value := if negative : bool then - magnitude else magnitude in
    if (value <? INT_MIN) || (INT_MAX <? value) then Thrown (out_of_range "stoi")
    else Constructed value.

(* std::format("{:d}", n) *)
Definition format_d (n : Z) : string :=
  match n with
  | Z0 => "0"
  | Zpos p => NilEmpty.string_of_uint (Pos.to_uint p)
  | Zneg p => String "-" (NilEmpty.string_of_uint (Pos.to_uint p))
  end.

Section Build.

(* true when the translation unit is compiled with NDEBUG: assert(...) is
   then removed by the preprocessor. *)
Variable ndebug : bool.

Definition assert_ (condition : bool) : Construction unit :=
  if ndebug || condition then Constructed tt else AssertionFailed.

(* assert(condition) for a condition whose evaluation can be undefined;
   with NDEBUG the condition is not evaluated at all. *)
Definition assert_that (condition : Construction bool) : Construction unit :=
  if ndebug then Constructed tt
  else
    holds <~ condition ;;
    if holds : bool then Constructed tt else AssertionFailed.

(* seglist[i] *)
Definition seg_at (seglist : list string) (i : nat) : Construction string :=
  match seglist !! i with
  | Some segment => Constructed segment
  | None => Undefined
  end.

(* What parse_board_str has stored when it returns. *)
Record Board : Type := mkBoard {
  board_rows : Z;
  board_cols : Z;
  board_gems_required : Z;
  board_agent_idx : Z;
  board_is_agent_alive : bool;
  board_is_agent_in_exit : bool;
  board_grid : list HiddenCellType;
  board_has_updated : list bool;
  board_agent_counter : Z
}.

(* The cell loop, for the segments from position i on. *)
Fixpoint parse_cells (segments : list string) (i : Z) (b : Board) : Construction Board :=
  match segments with
  | [] => Constructed b
  | segment :: rest =>
    hidden_type <~ stoi segment ;;
    if (hidden_type <? 0) || (kNumHiddenCellType <=? hidden_type) then
      Thrown (invalid_argument ("Unknown element type: " ++ format_d hidden_type))
    else
      let el := cell_of_code hidden_type in
      let grid := board_grid b ++ [el] in
      let has_updated := board_has_updated b ++ [false] in
      let b :=
        if cell_eqb el kAgent || cell_eqb el kAgentInExit then
          mkBoard (board_rows b) (board_cols b) (board_gems_required b)
                  (i - 3) true (cell_eqb el kAgentInExit) grid has_updated
                  (board_agent_counter b + 1)
        else
          mkBoard (board_rows b) (board_cols b) (board_gems_required b)
                  (board_agent_idx b) (board_is_agent_alive b) (board_is_agent_in_exit b)
                  grid has_updated (board_agent_counter b)
      in
      parse_cells rest (i + 1) b
  end.

Definition parse_board_str (board_str : string) : Construction Board :=
  let seglist := split_board board_str in
  let size := Z.of_nat (length seglist) in
  _ <~ assert_ (4 <=? size) ;;
  seg0 <~ seg_at seglist 0 ;;
  rows <~ stoi seg0 ;;
  seg1 <~ seg_at seglist 1 ;;
  cols <~ stoi seg1 ;;
  _ <~ assert_that (product <~ int_mul rows cols ;;
                    Constructed (size =? u64 (u64 product + 3))) ;;
  seg2 <~ seg_at seglist 2 ;;
  gems_required <~ stoi seg2 ;;
  b <~ parse_cells (drop 3 seglist) 3
        (mkBoard rows cols gems_required (-1) false false [] [] 0) ;;
  if board_agent_counter b =? 0 then
    Thrown (invalid_argument "Agent element not found")
  else if 1 <? board_agent_counter b then
    Thrown (invalid_argument "Too many agent elements, expected only one")
  else Constructed b.

(* static_cast<int>(static_cast<float>(cells) * percentage): the int is
   converted to the nearest float, the product is rounded to a float, and the
   conversion to int truncates.  A product outside the range of int, for
   which the conversion is undefined, is not told apart here. *)
Definition scale_cells (cells : Z) (percentage : Q) : Z :=
  let product := binary32 (binary32 (inject_Z cells) * binary32 percentage) in
  Z.quot (Qnum product) (Zpos (Qden product)).

(* The loop of the constructor that accumulates the initial hash. *)
Fixpoint initial_hash (flat_size : Z) (grid : list HiddenCellType) (indices : list Z) (hash : Z)
  : Construction Z :=
  match indices with
  | [] => Constructed hash
  | i :: rest =>
    match vector_at grid i with
    | Some el => initial_hash flat_size grid rest (Z.lxor hash (to_local_hash flat_size el i))
    | None => Undefined
    end
  end.

(* BoulderDashGameState(const std::string &board_str, const GameParameters &params) *)
Definition new_state (board_str : string) (params : GameParameters)
  : Construction BoulderDashGameState :=
  b <~ parse_board_str board_str ;;
  let rows := board_rows b in
  let cols := board_cols b in
  cells <~ int_mul cols rows ;;
  let blob_max_size := scale_cells cells (param_blob_max_percentage params) in
  flat_size <~ int_mul rows cols ;;
  indices <~ views_iota flat_size ;;
  hash <~ initial_hash flat_size (board_grid b) indices 0 ;;
  Constructed
    {| magic_wall_steps := param_magic_wall_steps params;
       blob_max_size := blob_max_size;
       butterfly_explosion_ver := param_butterfly_explosion_ver params;
       butterfly_move_ver := param_butterfly_move_ver params;
       gems_collected := 0;
       magic_wall_steps_remaining := 0;
       blob_size := 0;
       rows := rows;
       cols := cols;
       agent_idx := board_agent_idx b;
       gems_required := board_gems_required b;
       random_state := splitmix64 0;
       reward_signal := 0;
       hash := hash;
       blob_chance := param_blob_chance params mod 256;
       gravity := param_gravity params;
       disable_explosions := param_disable_explosions params;
       magic_active := false;
       blob_enclosed := true;
       is_agent_alive := board_is_agent_alive b;
       is_agent_in_exit := board_is_agent_in_exit b;
       blob_swap := kNull;
       grid := board_grid b;
       has_updated := board_has_updated b |}.

End Build.

(** * Specification-level definitions *)

Definition in_range {A} (v : list A) (j : Z) : bool :=
  (0 <=? j) && (j <? Z.of_nat (length v)).

Definition write_cell (j : Z) (el : HiddenCellType) (s : BoulderDashGameState)
  : BoulderDashGameState :=
  let flat_size := rows s * cols s in
  let old := default kNull (grid s !! Z.to_nat j) in
  set_hash (Z.lxor (Z.lxor (hash s) (to_local_hash flat_size old j)) (to_local_hash flat_size el j))
           (set_grid (<[Z.to_nat j := el]> (grid s)) s).

Definition mark_updated (j : Z) (s : BoulderDashGameState) : BoulderDashGameState :=
  set_has_updated (<[Z.to_nat j := true]> (has_updated s)) s.

Definition with_state (r : Run) (s : BoulderDashGameState) : Run :=
  mkRun s (explode_calls r) (chain_calls r).

Definition wp {A} (oof : Prop) (m : M A) (Q : A -> Run -> Prop) (r : Run) : Prop :=
  match m r with
  | Ok a r' => Q a r'
  | Fault => True
  | OutOfFuel => oof
  end.

Section Effects.

Context {cat : Catalog}.

(** The codes the scan ORs into reward_signal, and those UpdateAgent ORs. *)
Inductive scan_reward : Z -> Prop :=
  | reward_butterfly : scan_reward kRewardButterflyToDiamond
  | reward_nut : scan_reward kRewardNutToDiamond
  | reward_explosion e code : kExplosionToReward e = Some code -> scan_reward code.

Inductive agent_reward : Z -> Prop :=
  | reward_diamond : agent_reward kRewardCollectDiamond
  | reward_key : agent_reward kRewardCollectKey
  | reward_key_colour e code : kKeyToSignal e = Some code -> agent_reward code
  | reward_gate : agent_reward kRewardWalkThroughGate
  | reward_gate_colour e code : kGateToSignal e = Some code -> agent_reward code
  | reward_exit : agent_reward kRewardWalkThroughExit.

(** Every write Explode can make, one at a time: a cell and its hash, an
    updated flag, the death of the agent, and the two ghost records. *)
Inductive explode_effect : Run -> Run -> Prop :=
  | effect_write r j el :
      in_range (grid (st r)) j = true ->
      explode_effect r (with_state r (write_cell j el (st r)))
  | effect_mark r j :
      explode_effect r (with_state r (mark_updated j (st r)))
  | effect_agent_dies r :
      explode_effect r (with_state r (set_is_agent_alive false (st r)))
  | effect_explode r :
      explode_effect r (mkRun (st r) (S (explode_calls r)) (chain_calls r))
  | effect_chain r c :
      chain_element c = explosion_of (chain_center_found c) ->
      explode_effect r (mkRun (st r) (explode_calls r) (chain_calls r ++ [c])).

(** Every write the scan loop of apply_action can make. *)
Inductive scan_effect : Run -> Run -> Prop :=
  | effect_explosion r r' :
      explode_effect r r' -> scan_effect r r'
  | effect_scan_reward r code :
      scan_reward code ->
      scan_effect r (with_state r (set_reward_signal (Z.lor (reward_signal (st r)) code) (st r)))
  | effect_magic_on r :
      scan_effect r (with_state r (set_magic_active true (st r)))
  | effect_random r x :
      scan_effect r (with_state r (set_random_state x (st r)))
  | effect_blob_grows r :
      scan_effect r (with_state r (set_blob_size (blob_size (st r) + 1) (st r)))
  | effect_blob_open r :
      scan_effect r (with_state r (set_blob_enclosed false (st r))).

(** Every write of a whole tick: StartScan, UpdateAgent, the scan, EndScan. *)
Inductive tick_effect : Run -> Run -> Prop :=
  | effect_scan r r' :
      scan_effect r r' -> tick_effect r r'
  | effect_agent_reward r code :
      agent_reward code ->
      tick_effect r (with_state r (set_reward_signal (Z.lor (reward_signal (st r)) code) (st r)))
  | effect_gem r :
      tick_effect r (with_state r (set_gems_collected (gems_collected (st r) + 1) (st r)))
  | effect_agent_idx r idx :
      tick_effect r (with_state r (set_agent_idx idx (st r)))
  | effect_in_exit r :
      tick_effect r (with_state r (set_is_agent_in_exit true (st r)))
  | effect_blob_size_reset r :
      tick_effect r (with_state r (set_blob_size 0 (st r)))
  | effect_blob_enclosed_reset r :
      tick_effect r (with_state r (set_blob_enclosed true (st r)))
  | effect_reward_reset r :
      tick_effect r (with_state r (set_reward_signal 0 (st r)))
  | effect_unmark r j :
      tick_effect r
        (with_state r (set_has_updated (<[Z.to_nat j := false]> (has_updated (st r))) (st r)))
  | effect_blob_swap r el :
      tick_effect r (with_state r (set_blob_swap el (st r)))
  | effect_magic_steps r n :
      tick_effect r (with_state r (set_magic_wall_steps n (st r)))
  | effect_magic_active r b :
      tick_effect r (with_state r (set_magic_active b (st r))).

(* Every normal return of m is reached from the start by effects in E. *)
Definition within {A} (E : relation Run) (m : M A) : Prop :=
  forall r a r', m r = Ok a r' -> rtc E r r'.

End Effects.

(** The hash the specification asks for: H(kind, idx) is SplitMix64 of
    rows*cols*int(kind) + idx, and the state hash is the XOR of H over the
    cells of the flat index range. *)
Definition H (flat_size : Z) (kind : HiddenCellType) (idx : Z) : Z :=
  splitmix64 (flat_size * to_underlying kind + idx).

Definition xor_over (f : nat -> Z) (indices : list nat) : Z :=
  foldr (fun i acc => Z.lxor (f i) acc) 0 indices.

Definition cell (g : list HiddenCellType) (i : nat) : HiddenCellType :=
  default kNull (g !! i).

Definition xor_of_cells (s : BoulderDashGameState) : Z :=
  xor_over (fun i => H (rows s * cols s) (cell (grid s) i) (Z.of_nat i))
           (seq 0 (Z.to_nat (rows s * cols s))).

Definition hash_invariant (s : BoulderDashGameState) : Prop :=
  hash s = xor_of_cells s /\ Z.of_nat (length (grid s)) = rows s * cols s.

Section Reach.

Context {cat : Catalog}.

(* The states apply_action leads to, whatever the state it starts from. *)
Inductive reachable (s0 : BoulderDashGameState) : BoulderDashGameState -> Prop :=
  | reach_initial : reachable s0 s0
  | reach_step s fuel action r' :
      reachable s0 s ->
      apply_action fuel action (start s) = Ok tt r' ->
      reachable s0 (st r').

(* Stepping through a list of actions; None when a step does not return. *)
Fixpoint play (fuel : nat) (actions : list Action) (s : BoulderDashGameState)
  : option BoulderDashGameState :=
  match actions with
  | [] => Some s
  | a :: rest =>
    match apply_action fuel a (start s) with
    | Ok _ r' => play fuel rest (st r')
    | _ => None
    end
  end.

End Reach.

(* Constructing a state from a level string and stepping it. *)
Definition play_level {cat : Catalog} (ndebug : bool) (board_str : string)
    (params : GameParameters) (fuel : nat) (actions : list Action)
  : option BoulderDashGameState :=
  match new_state ndebug board_str params with
  | Constructed s0 => play fuel actions s0
  | _ => None
  end.

Definition with_gravity : GameParameters :=
  mkParams true 140 20 DEFAULT_BLOB_MAX_PERCENTAGE false kExplode kDelay.

Definition with_convert : GameParameters :=
  mkParams false 140 20 DEFAULT_BLOB_MAX_PERCENTAGE false kConvert kDelay.

Definition with_instant : GameParameters :=
  mkParams false 140 20 DEFAULT_BLOB_MAX_PERCENTAGE false kExplode kInstant.

(* The vectors keep their sizes and the board its dimensions. *)
Definition same_shape (s s' : BoulderDashGameState) : Prop :=
  length (grid s') = length (grid s) /\
  length (has_updated s') = length (has_updated s) /\
  rows s' = rows s /\ cols s' = cols s.

(* The state a level with rows*cols cells leads to. *)
Definition well_formed (s : BoulderDashGameState) : Prop :=
  Z.of_nat (length (grid s)) = rows s * cols s /\
  length (has_updated s) = length (grid s).

(* has_updated[a] = ... = has_updated[a+n-1] = false, in this order *)
Fixpoint clear_from (a n : nat) (u : list bool) : list bool :=
  match n with
  | O => u
  | S n' => clear_from (S a) n' (<[a := false]> u)
  end.

(* The missing reward tables leave bit 0 (kRewardAgentDies) alone. *)
Definition spares_agent_dies (code : Z) : Prop := Z.testbit code 0 = false.

Record reward_tables_spare_agent_dies {cat : Catalog} : Prop := {
  explosion_reward_spares e code : kExplosionToReward e = Some code -> spares_agent_dies code;
  key_signal_spares e code : kKeyToSignal e = Some code -> spares_agent_dies code;
  gate_signal_spares e code : kGateToSignal e = Some code -> spares_agent_dies code
}.

(* What the recursive call of Explode passes, by the record of the call. *)
Definition passes_product_of_neighbor {cat : Catalog} (c : ChainCall) : Prop :=
  chain_element c = explosion_of (chain_neighbor c).

Definition passes_product_of_center {cat : Catalog} (c : ChainCall) : Prop :=
  chain_element c = explosion_of (chain_center_found c).

(* Queries read the board only: its cells and its dimensions. *)
Definition same_board (s s' : BoulderDashGameState) : Prop :=
  grid s' = grid s /\ rows s' = rows s /\ cols s' = cols s.

(* StartScan followed by the agent update: what apply_action runs before the scan. *)
Definition agent_phase {cat : Catalog} (action : Action) : M unit :=
  StartScan ;;
  idx <- gets agent_idx ;;
  UpdateAgent idx (action_to_direction action).

(* The errors the constructor throws; none of them is about the token count. *)
Inductive construction_error : Exception -> Prop :=
  | error_no_number : construction_error (invalid_argument "stoi")
  | error_number_too_large : construction_error (out_of_range "stoi")
  | error_unknown_element n :
      n < 0 \/ kNumHiddenCellType <= n ->
      construction_error (invalid_argument ("Unknown element type: " ++ format_d n))
  | error_no_agent : construction_error (invalid_argument "Agent element not found")
  | error_agents :
      construction_error (invalid_argument "Too many agent elements, expected only one").

Section Potential.

Context {cat : Catalog}.

(* HasProperty(..., kCanExplode, ...) on the element itself *)
Definition can_explode (e : HiddenCellType) : bool :=
  0 <? Z.land (properties e) kCanExplode.

(* A cell weighs 1 while an Explode call can still be spent on it: it holds
   an element that can explode, or it has not been updated in this tick and
   is not empty. *)
Definition weight (s : BoulderDashGameState) (i : nat) : nat :=
  match grid s !! i with
  | Some e =>
    if can_explode e || (negb (default false (has_updated s !! i)) && negb (cell_eqb e kEmpty))
    then 1%nat else 0%nat
  | None => 0%nat
  end.

Definition potential (s : BoulderDashGameState) : nat :=
  sum_list (map (weight s) (seq 0 (length (grid s)))).

Definition live (s : BoulderDashGameState) (j : Z) : Prop :=
  0 <= j /\ weight s (Z.to_nat j) = 1%nat.

(* The calls made so far and the calls that can still be made fit in B; the
   latter fit in F, which bounds the depth of the recursion. *)
Definition budget (B F : nat) (r : Run) : Prop :=
  (potential (st r) + explode_calls r <= B)%nat /\ (potential (st r) <= F)%nat.

(* What the bound on the explosions needs from the missing catalog: what an
   explosion leaves cannot explode, and neither can the elements the rules
   write over another cell; the rules for compound kinds do not run on an
   empty cell. *)
Record explosions_settle : Prop := {
  product_is_inert e : can_explode (explosion_of e) = false;
  empty_is_inert : can_explode kEmpty = false;
  blob_is_inert : can_explode kBlob = false;
  diamond_is_inert : can_explode kDiamond = false;
  converted_is_inert e el : kMagicWallConversion e = Some el -> can_explode el = false;
  butterfly_not_empty : IsButterfly kEmpty = false;
  firefly_not_empty : IsFirefly kEmpty = false;
  orange_not_empty : IsOrange kEmpty = false;
  magic_wall_not_empty : IsMagicWall kEmpty = false;
  explosion_not_empty : IsExplosion kEmpty = false
}.

End Potential.

(* m keeps P, and returns without running out of fuel. *)
Definition tame {A} (P : Run -> Prop) (m : M A) : Prop :=
  forall r, P r -> wp False m (fun _ r' => P r') r.

(* No Explode call is made, and the grid keeps its size. *)
Definition quiet (c n : nat) (r : Run) : Prop :=
  explode_calls r = c /\ length (grid (st r)) = n.

(** ** The public queries of BoulderDashGameState *)

(* using Position = std::pair<int, int>: the row first, then the column *)
Definition Position : Type := Z * Z.



(* std::format("Invalid index {:d} for map size ({:d}, {:d})", ...) *)
Definition invalid_index_message (index : Z) (s : BoulderDashGameState) : string :=
  ("Invalid index " ++ format_d index ++
   " for map size (" ++ format_d (rows s) ++ ", " ++ format_d (cols s) ++ ")")%string.


(* index / cols and index % cols on int truncate towards zero *)
Definition index_to_position (index : Z) (s : BoulderDashGameState) : Construction Position :=
  if (index <? 0) || (rows s * cols s <=? index)
  then Thrown (invalid_argument (invalid_index_message index s))
  else Constructed (Z.quot index (cols s), Z.rem index (cols s)).

Definition get_hidden_item (index : Z) (s : BoulderDashGameState) : Construction HiddenCellType :=
  if (index <? 0) || (rows s * cols s <=? index)
  then Thrown (invalid_argument (invalid_index_message index s))
  else
    match vector_at (grid s) index with
    | Some el => Constructed el
    | None => Undefined
    end.

(* The loop of get_indices over the indices still to visit; [indices] is
   the vector filled so far. *)
Fixpoint get_indices_loop (s : BoulderDashGameState) (element : HiddenCellType)
    (todo : list Z) (indices : list Z) : Construction (list Z) :=
  match todo with
  | [] => Constructed indices
  | idx :: rest =>
    match vector_at (grid s) idx with
    | Some el =>
      get_indices_loop s element rest
        (if cell_eqb el element then indices ++ [idx] else indices)
    | None => Undefined
    end
  end.

Definition get_indices (ndebug : bool) (element : HiddenCellType) (s : BoulderDashGameState)
  : Construction (list Z) :=
  _ <~ assert_ ndebug (is_valid_hidden_element element) ;;
  get_indices_loop s element (iota 0 (rows s * cols s)) [].

Fixpoint get_positions_loop (s : BoulderDashGameState) (element : HiddenCellType)
    (todo : list Z) (positions : list Position) : Construction (list Position) :=
  match todo with
  | [] => Constructed positions
  | idx :: rest =>
    match vector_at (grid s) idx with
    | Some el =>
      get_positions_loop s element rest
        (if cell_eqb el element
         then positions ++ [(Z.quot idx (cols s), Z.rem idx (cols s))]
         else positions)
    | None => Undefined
    end
  end.

Definition get_positions (ndebug : bool) (element : HiddenCellType) (s : BoulderDashGameState)
  : Construction (list Position) :=
  _ <~ assert_ ndebug (is_valid_hidden_element element) ;;
  get_positions_loop s element (iota 0 (rows s * cols s)) [].

Definition agent_alive (s : BoulderDashGameState) : bool := is_agent_alive s.
Definition agent_in_exit (s : BoulderDashGameState) : bool := is_agent_in_exit s.
Definition get_agent_index (s : BoulderDashGameState) : Z := agent_idx s.

(** ** pack and the constructor from an InternalState *)

Record InternalState : Type := mkInternalState {
  internal_magic_wall_steps : Z;
  internal_blob_max_size : Z;
  internal_butterfly_explosion_ver : Z;
  internal_butterfly_move_ver : Z;
  internal_gems_collected : Z;
  internal_magic_wall_steps_remaining : Z;
  internal_blob_size : Z;
  internal_rows : Z;
  internal_cols : Z;
  internal_agent_idx : Z;
  internal_gems_required : Z;
  internal_random_state : Z;
  internal_reward_signal : Z;
  internal_hash : Z;
  internal_blob_chance : Z;
  internal_gravity : bool;
  internal_disable_explosions : bool;
  internal_magic_active : bool;
  internal_blob_enclosed : bool;
  internal_is_agent_alive : bool;
  internal_is_agent_in_exit : bool;
  internal_blob_swap : Z;
  internal_grid : list Z;
  internal_has_updated : list bool
}.

Definition pack (s : BoulderDashGameState) : InternalState :=
  {| internal_magic_wall_steps := magic_wall_steps s;
     internal_blob_max_size := blob_max_size s;
     internal_butterfly_explosion_ver := butterfly_explosion_ver s;
     internal_butterfly_move_ver := butterfly_move_ver s;
     internal_gems_collected := gems_collected s;
     internal_magic_wall_steps_remaining := magic_wall_steps_remaining s;
     internal_blob_size := blob_size s;
     internal_rows := rows s;
     internal_cols := cols s;
     internal_agent_idx := agent_idx s;
     internal_gems_required := gems_required s;
     internal_random_state := random_state s;
     internal_reward_signal := reward_signal s;
     internal_hash := hash s;
     internal_blob_chance := blob_chance s;
     internal_gravity := gravity s;
     internal_disable_explosions := disable_explosions s;
     internal_magic_active := magic_active s;
     internal_blob_enclosed := blob_enclosed s;
     internal_is_agent_alive := is_agent_alive s;
     internal_is_agent_in_exit := is_agent_in_exit s;
     internal_blob_swap := to_underlying (blob_swap s);
     internal_grid := map to_underlying (grid s);
     internal_has_updated := has_updated s |}.

(* static_cast<HiddenCellType>(code) of an int8_t.  The cast keeps every
   code; the enumeration here holds the named ones, kNull (-1) to
   kVoidInDirt (49), and the others have no image. *)
Definition cell_of_int8 (code : Z) : option HiddenCellType :=
  if (-1 <=? code) && (code <? kNumHiddenCellType) then Some (cell_of_code code) else None.

(* BoulderDashGameState(InternalState &&internal_state).  The source
   builds a state from every InternalState.  A state whose grid or
   blob_swap holds a code that names no kind cannot be written with
   HiddenCellType as it is declared here: None stands for those states,
   not for a failure of the constructor, and nothing is proved of them. *)
Definition unpack (internal_state : InternalState) : option BoulderDashGameState :=
  match cell_of_int8 (internal_blob_swap internal_state),
        mapM cell_of_int8 (internal_grid internal_state) with
  | Some blob_swap, Some grid =>
    Some
    {| magic_wall_steps := internal_magic_wall_steps internal_state;
       blob_max_size := internal_blob_max_size internal_state;
       butterfly_explosion_ver := internal_butterfly_explosion_ver internal_state;
       butterfly_move_ver := internal_butterfly_move_ver internal_state;
       gems_collected := internal_gems_collected internal_state;
       magic_wall_steps_remaining := internal_magic_wall_steps_remaining internal_state;
       blob_size := internal_blob_size internal_state;
       rows := internal_rows internal_state;
       cols := internal_cols internal_state;
       agent_idx := internal_agent_idx internal_state;
       gems_required := internal_gems_required internal_state;
       random_state := internal_random_state internal_state;
       reward_signal := internal_reward_signal internal_state;
       hash := internal_hash internal_state;
       blob_chance := internal_blob_chance internal_state;
       gravity := internal_gravity internal_state;
       disable_explosions := internal_disable_explosions internal_state;
       magic_active := internal_magic_active internal_state;
       blob_enclosed := internal_blob_enclosed internal_state;
       is_agent_alive := internal_is_agent_alive internal_state;
       is_agent_in_exit := internal_is_agent_in_exit internal_state;
       blob_swap := blob_swap;
       grid := grid;
       has_updated := internal_has_updated internal_state |}
  | _, _ => None
  end.

(* The fields apply_action only reads, and the sizes of the two vectors. *)
Definition same_settings (s s' : BoulderDashGameState) : Prop :=
  rows s' = rows s /\ cols s' = cols s /\
  gems_required s' = gems_required s /\
  gravity s' = gravity s /\
  disable_explosions s' = disable_explosions s /\
  blob_chance s' = blob_chance s /\
  blob_max_size s' = blob_max_size s /\
  butterfly_explosion_ver s' = butterfly_explosion_ver s /\
  butterfly_move_ver s' = butterfly_move_ver s /\
  magic_wall_steps_remaining s' = magic_wall_steps_remaining s /\
  length (grid s') = length (grid s) /\
  length (has_updated s') = length (has_updated s).

(* What never goes back: a dead agent, an agent in the exit, a collected gem. *)
Definition no_way_back (s s' : BoulderDashGameState) : Prop :=
  (is_agent_alive s = false -> is_agent_alive s' = false) /\
  (is_agent_in_exit s = true -> is_agent_in_exit s' = true) /\
  gems_collected s <= gems_collected s'.

(* A state with other leftovers of the tick before: the updated flags, the
   reward signal and the two blob counters that StartScan resets. *)
Definition with_leftovers (flags : list bool) (reward size : Z) (enclosed : bool)
    (s : BoulderDashGameState) : BoulderDashGameState :=
  set_has_updated flags
    (set_reward_signal reward (set_blob_size size (set_blob_enclosed enclosed s))).

(* el == HiddenCellType::kAgent || el == HiddenCellType::kAgentInExit *)
Definition is_agent_cell (el : HiddenCellType) : bool :=
  cell_eqb el kAgent || cell_eqb el kAgentInExit.

(* What the cell loop of parse_board_str has established after any number
   of cells: the counter tells whether an agent cell was seen, and the
   last one seen is where agent_idx points. *)
Definition agent_tracked (b : Board) : Prop :=
  0 <= board_agent_counter b /\
  (board_agent_counter b = 0 -> Forall (fun el => is_agent_cell el = false) (board_grid b)) /\
  (board_agent_counter b = 1 ->
     forall j el, board_grid b !! j = Some el -> is_agent_cell el = true ->
                  Z.of_nat j = board_agent_idx b) /\
  (1 <= board_agent_counter b ->
     exists el, vector_at (board_grid b) (board_agent_idx b) = Some el /\
                is_agent_cell el = true /\
                board_is_agent_alive b = true /\
                board_is_agent_in_exit b = cell_eqb el kAgentInExit) /\
  Forall (fun el => 0 <= to_underlying el < kNumHiddenCellType) (board_grid b).

(* What StartScan leaves as it was: the board and the agent's fields. *)
Definition kept_by_StartScan (s s' : BoulderDashGameState) : Prop :=
  same_board s s' /\
  agent_idx s' = agent_idx s /\
  gems_collected s' = gems_collected s /\
  is_agent_in_exit s' = is_agent_in_exit s.

(* What the scan and EndScan leave of the agent's move: the fields they do
   not write, and the reward bits, which they only add to. *)
Definition kept_by_scan (s s' : BoulderDashGameState) : Prop :=
  gems_collected s' = gems_collected s /\
  agent_idx s' = agent_idx s /\
  is_agent_in_exit s' = is_agent_in_exit s /\
  forall n, Z.testbit (reward_signal s) n = true -> Z.testbit (reward_signal s') n = true.

(* The fields that only EndScan writes, and magic_active, which the agent's
   move leaves alone. *)
Definition agent_frame (s : BoulderDashGameState) (r : Run) : Prop :=
  blob_swap (st r) = blob_swap s /\
  magic_wall_steps (st r) = magic_wall_steps s /\
  magic_active (st r) = magic_active s /\
  random_state (st r) = random_state s /\
  is_agent_alive (st r) = is_agent_alive s.

(* gems_collected is as it was, or one more with the CollectDiamond bit set. *)
Definition at_most_one_gem (gems : Z) (r : Run) : Prop :=
  gems_collected (st r) = gems \/
  (gems_collected (st r) = gems + 1 /\ Z.testbit (reward_signal (st r)) 1 = true).

(* kDirectionOffsets of the missing util.h pairs a column offset with a row
   offset; IndexFromDirection hard-codes the same moves on the flat index. *)
Definition offsets_agree {cat : Catalog} : Prop :=
  forall s index dir,
    IndexFromDirection s index dir =
      index + fst (kDirectionOffsets dir) + snd (kDirectionOffsets dir) * cols s.

(** ** The level format *)

(* Tokens separated by '|', with no separator after the last one. *)
Fixpoint join_tokens (tokens : list string) : string :=
  match tokens with
  | [] => EmptyString
  | [token] => token
  | token :: rest => (token ++ String "|" (join_tokens rest))%string
  end.

(* A level written out: rows, cols, gems_required, then the cell codes row
   by row, all in decimal. *)
Definition level_string (rows cols gems_required : Z) (cells : list HiddenCellType) : string :=
  join_tokens (map format_d (rows :: cols :: gems_required :: map to_underlying cells)).

Fixpoint no_bar (token : string) : bool :=
  match token with
  | EmptyString => true
  | String c rest => negb (Ascii.eqb c "|") && no_bar rest
  end.

(* The number that decimal digits spell after the digits of acc. *)
Fixpoint uint_value (acc : Z) (d : Decimal.uint) : Z :=
  match d with
  | Decimal.Nil => acc
  | Decimal.D0 d => uint_value (10 * acc + 0) d
  | Decimal.D1 d => uint_value (10 * acc + 1) d
  | Decimal.D2 d => uint_value (10 * acc + 2) d
  | Decimal.D3 d => uint_value (10 * acc + 3) d
  | Decimal.D4 d => uint_value (10 * acc + 4) d
  | Decimal.D5 d => uint_value (10 * acc + 5) d
  | Decimal.D6 d => uint_value (10 * acc + 6) d
  | Decimal.D7 d => uint_value (10 * acc + 7) d
  | Decimal.D8 d => uint_value (10 * acc + 8) d
  | Decimal.D9 d => uint_value (10 * acc + 9) d
  end.

Section Steps.

Context {cat : Catalog}.

(** The writes of the scan once more, with what the code guarantees where a
    write happens: the random state only ever advances by xorshift64, and
    the magic wall is only switched on while steps remain. *)
Inductive scan_step : Run -> Run -> Prop :=
  | step_explosion r r' :
      explode_effect r r' -> scan_step r r'
  | step_scan_reward r code :
      scan_reward code ->
      scan_step r (with_state r (set_reward_signal (Z.lor (reward_signal (st r)) code) (st r)))
  | step_magic_on r :
      0 < magic_wall_steps (st r) ->
      scan_step r (with_state r (set_magic_active true (st r)))
  | step_random r :
      scan_step r
        (with_state r (set_random_state (xorshift64_next (random_state (st r))) (st r)))
  | step_blob_grows r :
      scan_step r (with_state r (set_blob_size (blob_size (st r) + 1) (st r)))
  | step_blob_open r :
      scan_step r (with_state r (set_blob_enclosed false (st r))).

End Steps.

(* A state of the generator that xorshift64 can leave: a non-zero 64-bit value. *)
Definition rng_ok (x : Z) : Prop := 0 < x < 2 ^ 64.

(* The grid and the flags after the loop of OpenGate has visited the cells
   a, ..., a+n-1, in this order. *)
Fixpoint gates_from (gate open : HiddenCellType) (a n : nat)
    (board : list HiddenCellType * list bool) : list HiddenCellType * list bool :=
  match n with
  | O => board
  | S n' =>
    gates_from gate open (S a) n'
      (if cell_eqb (cell (fst board) a) gate
       then (<[a := open]> (fst board), <[a := true]> (snd board))
       else board)
  end.

(* A grid with every closed gate of one colour opened, and the flags that
   go with it. *)
Definition open_gates (gate open : HiddenCellType) (g : list HiddenCellType)
  : list HiddenCellType :=
  (fun c => if cell_eqb c gate then open else c) <$> g.

Definition opened_flags (gate : HiddenCellType) (g : list HiddenCellType) (u : list bool)
  : list bool :=
  zip_with (fun c b => cell_eqb c gate || b) g u.

(* The board after a push: the pushed cell holds el, the cell it left holds
   the pusher, and the pusher's cell is empty. *)
Definition pushed_grid (index new_index next_index : Z) (el : HiddenCellType)
    (g : list HiddenCellType) : list HiddenCellType :=
  <[Z.to_nat index := kEmpty]>
    (<[Z.to_nat new_index := cell g (Z.to_nat index)]>
       (<[Z.to_nat next_index := el]> g)).

(* The kinds the agent walks onto or collects before it looks for a key. *)
Definition walked_or_collected (e : HiddenCellType) : bool :=
  cell_eqb e kEmpty || cell_eqb e kDirt || cell_eqb e kDiamond || cell_eqb e kDiamondFalling.

Section ChainOfExplosions.

Context {cat : Catalog}.

(* The cells a chain of explosions has exploded, on a grid g that was g0
   when the chain started: the target of the first call, and every cell
   that could explode then and cannot any more. *)
Definition exploded (target : Z) (g0 g : list HiddenCellType) (c : Z) : Prop :=
  c = target \/
  (can_explode (cell g0 (Z.to_nat c)) = true /\ can_explode (cell g (Z.to_nat c)) = false).

(* v is what an explosion leaves in cell j: the element of the first call
   in its target, or else the explosion product of an exploded cell c next
   to j, the product of what c held when the chain started. *)
Definition left_by_explosion (s0 : BoulderDashGameState) (target : Z) (element : HiddenCellType)
    (g : list HiddenCellType) (j : Z) (v : HiddenCellType) : Prop :=
  (j = target /\ v = element) \/
  exists c d,
    0 <= c /\ exploded target (grid s0) g c /\ d <> kNoop /\
    InBounds c d s0 = Some true /\ IndexFromDirection s0 c d = j /\
    v = explosion_of (cell (grid s0) (Z.to_nat c)).

(* Every write leaves an element that cannot explode. *)
Definition only_inert_writes (g g' : list HiddenCellType) : Prop :=
  forall j : nat, cell g' j = cell g j \/ can_explode (cell g' j) = false.

(* What holds at every point of a chain that started in s0 with a call for
   target and element. *)
Definition chain_inv (s0 : BoulderDashGameState) (target : Z) (element : HiddenCellType)
    (s : BoulderDashGameState) : Prop :=
  rows s = rows s0 /\ cols s = cols s0 /\
  forall j, 0 <= j ->
    cell (grid s) (Z.to_nat j) = cell (grid s0) (Z.to_nat j) \/
    (can_explode (cell (grid s) (Z.to_nat j)) = false /\
     left_by_explosion s0 target element (grid s) j (cell (grid s) (Z.to_nat j))).

(* No neighbour of c is left that can explode. *)
Definition chain_done (s0 : BoulderDashGameState) (g : list HiddenCellType) (c : Z) : Prop :=
  forall d, d <> kNoop -> InBounds c d s0 = Some true ->
    can_explode (cell g (Z.to_nat (IndexFromDirection s0 c d))) = false.

End ChainOfExplosions.

(* Every flag that is set in u is set in u'. *)
Definition flags_kept (u u' : list bool) : Prop :=
  forall j : nat, u !! j = Some true -> u' !! j = Some true.

(* A step that clears no flag of has_updated. *)
Definition clears_no_flag : relation Run :=
  fun r r' => flags_kept (has_updated (st r)) (has_updated (st r')).

(** * Proofs *)

Lemma vector_at_Some {A} (v : list A) j x :
  vector_at v j = Some x <-> in_range v j = true /\ v !! Z.to_nat j = Some x.
Proof.
  unfold vector_at, in_range. destruct (Z.ltb_spec j 0).
  - split; [discriminate|]. intros [H1 _]. apply andb_true_iff in H1 as [H1 _].
    apply Z.leb_le in H1. lia.
  - split.
    + intros Hx. split; [|exact Hx]. apply andb_true_iff. split; [apply Z.leb_le; lia|].
      apply Z.ltb_lt. apply lookup_lt_Some in Hx. lia.
    + intros [_ Hx]. exact Hx.
Qed.

Lemma vector_at_None {A} (v : list A) j :
  vector_at v j = None <-> in_range v j = false.
Proof.
  unfold vector_at, in_range. destruct (Z.ltb_spec j 0).
  - split; [|reflexivity]. intros _. apply andb_false_iff. left. apply Z.leb_gt. lia.
  - rewrite lookup_ge_None. split.
    + intros Hl. apply andb_false_iff. right. apply Z.ltb_ge. lia.
    + intros Hl. apply andb_false_iff in Hl as [Hl|Hl];
        [apply Z.leb_gt in Hl|apply Z.ltb_ge in Hl]; lia.
Qed.

Lemma vector_set_eq {A} (v : list A) j x :
  vector_set v j x = if in_range v j then Some (<[Z.to_nat j := x]> v) else None.
Proof.
  unfold vector_set, in_range.
  destruct (Z.ltb_spec j 0), (Z.leb_spec 0 j), (Z.leb_spec (Z.of_nat (length v)) j),
    (Z.ltb_spec j (Z.of_nat (length v))); simpl; try reflexivity; lia.
Qed.

Lemma in_range_insert {A} (v : list A) i x j :
  in_range (<[i := x]> v) j = in_range v j.
Proof. unfold in_range. by rewrite length_insert. Qed.


Lemma bind_ret {A B} (a : A) (k : A -> M B) r : bind (ret a) k r = k a r.
Proof. reflexivity. Qed.

Lemma bind_get_state {B} (k : BoulderDashGameState -> M B) r : bind get_state k r = k (st r) r.
Proof. reflexivity. Qed.

Lemma bind_gets {A B} (f : BoulderDashGameState -> A) (k : A -> M B) r :
  bind (gets f) k r = k (f (st r)) r.
Proof. reflexivity. Qed.

Lemma bind_modify {B} f (k : unit -> M B) r :
  bind (modify f) k r = k tt (with_state r (f (st r))).
Proof. reflexivity. Qed.

Lemma bind_ask {A B} (q : Query A) (k : A -> M B) r :
  bind (ask q) k r = match q (st r) with Some a => k a r | None => Fault end.
Proof. unfold bind, ask. by destruct (q (st r)). Qed.

Lemma bind_at {A B} (o : option A) (k : A -> M B) r :
  bind (at_ o) k r = match o with Some a => k a r | None => Fault end.
Proof. by destruct o. Qed.

Lemma bind_bind {A B C} (m : M A) (k : A -> M B) (k' : B -> M C) r :
  bind (bind m k) k' r = bind m (fun a => bind (k a) k') r.
Proof. unfold bind. by destruct (m r). Qed.

Lemma run_modify f r : modify f r = Ok tt (with_state r (f (st r))).
Proof. reflexivity. Qed.

Lemma run_ask {A} (q : Query A) r :
  ask q r = match q (st r) with Some a => Ok a r | None => Fault end.
Proof. reflexivity. Qed.

Lemma st_with_state r s : st (with_state r s) = s.
Proof. reflexivity. Qed.

Create Rewrite HintDb run.
#[local] Hint Rewrite @bind_ret @bind_get_state @bind_gets @bind_modify @bind_ask @bind_at @run_modify
  st_with_state : run.

Ltac fields :=
  cbn [st explode_calls chain_calls with_state
       magic_wall_steps blob_max_size butterfly_explosion_ver butterfly_move_ver
       gems_collected magic_wall_steps_remaining blob_size rows cols agent_idx
       gems_required random_state reward_signal hash blob_chance gravity
       disable_explosions magic_active blob_enclosed is_agent_alive is_agent_in_exit
       blob_swap grid has_updated
       set_magic_wall_steps set_gems_collected set_blob_size set_agent_idx
       set_random_state set_reward_signal set_hash set_magic_active set_blob_enclosed
       set_is_agent_alive set_is_agent_in_exit set_blob_swap set_grid set_has_updated] in *.

Lemma SetItem_eq index el dir r :
  SetItem index el dir r =
    let j := IndexFromDirection (st r) index dir in
    if in_range (grid (st r)) j && in_range (has_updated (st r)) j
    then Ok tt (with_state r (mark_updated j (write_cell j el (st r))))
    else Fault.
Proof.
  unfold SetItem. autorewrite with run. fields.
  set (j := IndexFromDirection (st r) index dir). cbv zeta.
  destruct (vector_at (grid (st r)) j) as [old|] eqn:Hold.
  2:{ apply vector_at_None in Hold. by rewrite Hold. }
  apply vector_at_Some in Hold as [Hr Hold]. rewrite Hr.
  autorewrite with run. fields. rewrite vector_set_eq, Hr.
  autorewrite with run. fields. rewrite vector_set_eq.
  destruct (in_range (has_updated (st r)) j); [|done].
  unfold mark_updated, write_cell. fields. by rewrite Hold.
Qed.

Lemma MoveItem_eq index dir r :
  MoveItem index dir r =
    let j := IndexFromDirection (st r) index dir in
    if in_range (grid (st r)) j && in_range (grid (st r)) index
       && in_range (has_updated (st r)) j
    then Ok tt (with_state r
           (mark_updated j
              (write_cell index kEmpty
                 (write_cell j (default kNull (grid (st r) !! Z.to_nat index)) (st r)))))
    else Fault.
Proof.
  unfold MoveItem. autorewrite with run. fields.
  set (j := IndexFromDirection (st r) index dir). cbv zeta.
  destruct (vector_at (grid (st r)) j) as [old|] eqn:Hold.
  2:{ apply vector_at_None in Hold. by rewrite Hold. }
  apply vector_at_Some in Hold as [Hr Hold]. rewrite Hr.
  autorewrite with run. fields.
  destruct (vector_at (grid (st r)) index) as [moved|] eqn:Hmoved.
  2:{ apply vector_at_None in Hmoved. by rewrite Hmoved. }
  apply vector_at_Some in Hmoved as [Hri Hmoved]. rewrite Hri.
  autorewrite with run. fields. rewrite vector_set_eq, Hr.
  autorewrite with run. fields.
  destruct (vector_at (<[Z.to_nat j:=moved]> (grid (st r))) index) as [old2|] eqn:Hold2.
  2:{ apply vector_at_None in Hold2. rewrite in_range_insert in Hold2. congruence. }
  apply vector_at_Some in Hold2 as [_ Hold2].
  autorewrite with run. fields.
  rewrite vector_set_eq, in_range_insert, Hri.
  autorewrite with run. fields.
  rewrite vector_set_eq. destruct (in_range (has_updated (st r)) j); [|done].
  unfold mark_updated, write_cell. fields. rewrite Hold, Hmoved. simpl.
  by rewrite Hold2.
Qed.

Section EffectLemmas.

Context {cat : Catalog}.

Lemma within_ret {A} E (a : A) : within E (ret a).
Proof. intros r a' r' [= <- <-]. apply rtc_refl. Qed.

Lemma within_bind {A B} E (m : M A) (k : A -> M B) :
  within E m -> (forall a, within E (k a)) -> within E (bind m k).
Proof.
  intros Hm Hk r b r'. unfold bind. destruct (m r) as [a r1| |] eqn:Hmr; [|done..].
  intros Hkr. etrans; [by eapply Hm|by eapply Hk].
Qed.

Lemma within_ask {A} E (q : Query A) : within E (ask q).
Proof.
  intros r a r'. unfold ask. destruct (q (st r)); [|done].
  intros [= <- <-]. apply rtc_refl.
Qed.

Lemma within_gets {A} E (f : BoulderDashGameState -> A) : within E (gets f).
Proof. intros r a r' [= <- <-]. apply rtc_refl. Qed.

Lemma within_get_state E : within E get_state.
Proof. intros r a r' [= <- <-]. apply rtc_refl. Qed.

Lemma within_at {A} E (o : option A) : within E (at_ o).
Proof. destruct o; [apply within_ret|done]. Qed.

Lemma within_bind_at {A B} E (o : option A) (k : A -> M B) :
  (forall a, o = Some a -> within E (k a)) -> within E (bind (at_ o) k).
Proof.
  intros H. destruct o as [a|]; [|done].
  intros r b r'. rewrite bind_at. by apply H.
Qed.

Lemma within_fault {A} E : within E (@fault A).
Proof. done. Qed.

Lemma within_out_of_fuel {A} E : within E (@out_of_fuel A).
Proof. done. Qed.

Lemma within_modify E f :
  (forall r, E r (with_state r (f (st r)))) -> within E (modify f).
Proof. intros H r [] r' [= <-]. apply rtc_once, H. Qed.

Lemma within_when E b m : within E m -> within E (when b m).
Proof. destruct b; [done|intros _; apply within_ret]. Qed.

Lemma within_for_each {A} E (l : list A) body :
  (forall x, within E (body x)) -> within E (for_each l body).
Proof.
  intros H. induction l as [|x l IH]; [apply within_ret|].
  simpl. apply within_bind; [apply H|intros _; apply IH].
Qed.

Lemma within_mono {A} (E E' : relation Run) (m : M A) :
  (forall r r', E r r' -> E' r r') -> within E m -> within E' m.
Proof. intros HE Hm r a r' Hr. eapply rtc_subrel; [exact HE|by eapply Hm]. Qed.

Lemma effect_write_to r r' j el :
  in_range (grid (st r)) j = true ->
  r' = with_state r (write_cell j el (st r)) ->
  explode_effect r r'.
Proof. intros ? ->. by apply effect_write. Qed.

Lemma effect_mark_to r r' j :
  r' = with_state r (mark_updated j (st r)) -> explode_effect r r'.
Proof. intros ->. apply effect_mark. Qed.

Lemma within_explode_SetItem index el dir : within explode_effect (SetItem index el dir).
Proof.
  intros r [] r'. rewrite SetItem_eq. cbv zeta.
  set (j := IndexFromDirection (st r) index dir).
  destruct (in_range (grid (st r)) j) eqn:Hg; [|done].
  destruct (in_range (has_updated (st r)) j); [|done].
  intros [= <-].
  set (s1 := write_cell j el (st r)).
  apply rtc_l with (with_state r s1).
  { by apply (effect_write_to _ _ j el). }
  apply rtc_once. by apply (effect_mark_to _ _ j).
Qed.

Lemma within_explode_MoveItem index dir : within explode_effect (MoveItem index dir).
Proof.
  intros r [] r'. rewrite MoveItem_eq. cbv zeta.
  set (j := IndexFromDirection (st r) index dir).
  destruct (in_range (grid (st r)) j) eqn:Hg; [|done].
  destruct (in_range (grid (st r)) index) eqn:Hi; [|done].
  destruct (in_range (has_updated (st r)) j); [|done].
  intros [= <-].
  set (moved := default kNull (grid (st r) !! Z.to_nat index)).
  set (s1 := write_cell j moved (st r)).
  set (s2 := write_cell index kEmpty s1).
  apply rtc_l with (with_state r s1).
  { by apply (effect_write_to _ _ j moved). }
  apply rtc_l with (with_state r s2).
  { apply (effect_write_to _ _ index kEmpty); [|done].
    subst s1. unfold write_cell. fields. by rewrite in_range_insert. }
  apply rtc_once. by apply (effect_mark_to _ _ j).
Qed.

Lemma within_note_explode : within explode_effect note_explode.
Proof. intros r [] r' [= <-]. apply rtc_once, effect_explode. Qed.

Lemma within_note_chain center found dir neighbor :
  within explode_effect (note_chain (mkChainCall center found dir neighbor (explosion_of found))).
Proof. intros r [] r' [= <-]. by apply rtc_once, effect_chain. Qed.

Lemma within_scan_reward code : scan_reward code -> within scan_effect (or_reward code).
Proof. intros H. apply within_modify. intros r. by apply effect_scan_reward. Qed.

Lemma within_agent_dies : within explode_effect (modify (set_is_agent_alive false)).
Proof. apply within_modify, effect_agent_dies. Qed.

Lemma within_magic_on : within scan_effect (modify (set_magic_active true)).
Proof. apply within_modify, effect_magic_on. Qed.

Lemma within_blob_grows :
  within scan_effect (modify (fun s => set_blob_size (blob_size s + 1) s)).
Proof. apply within_modify, effect_blob_grows. Qed.

Lemma within_blob_open : within scan_effect (modify (set_blob_enclosed false)).
Proof. apply within_modify, effect_blob_open. Qed.

Lemma within_xorshift64 : within scan_effect xorshift64.
Proof.
  unfold xorshift64. apply within_bind; [apply within_gets|intros x].
  apply within_bind; [|intros _; apply within_ret].
  apply within_modify. intros r. apply effect_random.
Qed.

Create HintDb within discriminated.
#[local] Hint Resolve within_explode_SetItem within_explode_MoveItem within_note_explode
  within_note_chain within_agent_dies : within.
#[local] Hint Resolve within_scan_reward reward_butterfly reward_nut reward_explosion : within.

Ltac within_step :=
  lazymatch goal with
  | |- within _ (bind (at_ _) _) => apply within_bind_at; intros ? ?
  | |- within _ (bind _ _) => apply within_bind; [|intros ?]
  | |- within _ (ret _) => apply within_ret
  | |- within _ (ask _) => apply within_ask
  | |- within _ (gets _) => apply within_gets
  | |- within _ get_state => apply within_get_state
  | |- within _ (at_ _) => apply within_at
  | |- within _ (when _ _) => apply within_when
  | |- within _ (for_each _ _) => apply within_for_each; intros ?
  | |- within _ (if ?b then _ else _) => destruct b
  | |- within _ (match ?x with _ => _ end) => destruct x
  | |- _ => solve [eauto with within]
  end.

Ltac within_auto := repeat (cbv zeta; within_step).

Lemma within_explode_Explode fuel index el dir :
  within explode_effect (Explode fuel index el dir).
Proof.
  revert index el dir. induction fuel as [|fuel IH]; intros index el dir.
  - apply within_out_of_fuel.
  - simpl. within_auto.
Qed.

Lemma within_scan_of_explode {A} (m : M A) : within explode_effect m -> within scan_effect m.
Proof. apply within_mono. intros r r'. apply effect_explosion. Qed.

Lemma within_SetItem index el dir : within scan_effect (SetItem index el dir).
Proof. apply within_scan_of_explode, within_explode_SetItem. Qed.

Lemma within_MoveItem index dir : within scan_effect (MoveItem index dir).
Proof. apply within_scan_of_explode, within_explode_MoveItem. Qed.

Lemma within_Explode fuel index el dir : within scan_effect (Explode fuel index el dir).
Proof. apply within_scan_of_explode, within_explode_Explode. Qed.

#[local] Remove Hints within_explode_SetItem within_explode_MoveItem within_note_explode
  within_note_chain within_agent_dies : within.
#[local] Hint Resolve within_SetItem within_MoveItem within_Explode
  within_magic_on within_blob_grows within_blob_open within_xorshift64 : within.

Lemma within_RollLeft index el : within scan_effect (RollLeft index el).
Proof. unfold RollLeft. within_auto. Qed.

Lemma within_RollRight index el : within scan_effect (RollRight index el).
Proof. unfold RollRight. within_auto. Qed.

Lemma within_MoveThroughMagic index el : within scan_effect (MoveThroughMagic index el).
Proof. unfold MoveThroughMagic. within_auto. Qed.

#[local] Hint Resolve within_RollLeft within_RollRight within_MoveThroughMagic : within.

Lemma within_self_destruct fuel index : within scan_effect (self_destruct fuel index).
Proof. unfold self_destruct. within_auto. Qed.

Lemma within_UpdateStoneFalling fuel index :
  within scan_effect (UpdateStoneFalling fuel index).
Proof. unfold UpdateStoneFalling. within_auto. Qed.

Lemma within_UpdateDiamondFalling fuel index :
  within scan_effect (UpdateDiamondFalling fuel index).
Proof. unfold UpdateDiamondFalling. within_auto. Qed.

Lemma within_UpdateNutFalling index : within scan_effect (UpdateNutFalling index).
Proof. unfold UpdateNutFalling. within_auto. Qed.

Lemma within_UpdateBombFalling fuel index :
  within scan_effect (UpdateBombFalling fuel index).
Proof. unfold UpdateBombFalling. within_auto. Qed.

#[local] Hint Resolve within_self_destruct within_UpdateStoneFalling
  within_UpdateDiamondFalling within_UpdateNutFalling within_UpdateBombFalling : within.

Lemma within_UpdateStone fuel index : within scan_effect (UpdateStone fuel index).
Proof. unfold UpdateStone. within_auto. Qed.

Lemma within_UpdateDiamond fuel index : within scan_effect (UpdateDiamond fuel index).
Proof. unfold UpdateDiamond. within_auto. Qed.

Lemma within_UpdateNut index : within scan_effect (UpdateNut index).
Proof. unfold UpdateNut. within_auto. Qed.

Lemma within_UpdateBomb fuel index : within scan_effect (UpdateBomb fuel index).
Proof. unfold UpdateBomb. within_auto. Qed.

#[local] Hint Resolve within_UpdateStone within_UpdateDiamond within_UpdateNut
  within_UpdateBomb : within.

Lemma within_UpdateExit index : within scan_effect (UpdateExit index).
Proof. unfold UpdateExit. within_auto. Qed.

Lemma within_UpdateFirefly fuel index dir : within scan_effect (UpdateFirefly fuel index dir).
Proof. unfold UpdateFirefly. within_auto. Qed.

Lemma within_UpdateButterfly fuel index dir :
  within scan_effect (UpdateButterfly fuel index dir).
Proof. unfold UpdateButterfly. within_auto. Qed.

Lemma within_UpdateOrange fuel index dir : within scan_effect (UpdateOrange fuel index dir).
Proof. unfold UpdateOrange. within_auto. Qed.

Lemma within_UpdateMagicWall index : within scan_effect (UpdateMagicWall index).
Proof. unfold UpdateMagicWall. within_auto. Qed.

Lemma within_UpdateBlob index : within scan_effect (UpdateBlob index).
Proof. unfold UpdateBlob. within_auto. Qed.

#[local] Hint Resolve within_UpdateExit within_UpdateFirefly within_UpdateButterfly
  within_UpdateOrange within_UpdateMagicWall within_UpdateBlob : within.

Lemma within_UpdateExplosions index : within scan_effect (UpdateExplosions index).
Proof. unfold UpdateExplosions. within_auto. Qed.

#[local] Hint Resolve within_UpdateExplosions : within.

Lemma within_update_cell fuel i : within scan_effect (update_cell fuel i).
Proof. unfold update_cell. within_auto. Qed.

Lemma within_scan fuel : within scan_effect (scan fuel).
Proof.
  unfold scan. apply within_bind; [apply within_get_state|intros s].
  apply within_for_each. intros i. apply within_update_cell.
Qed.

End EffectLemmas.

Section TickEffects.

Context {cat : Catalog}.

Lemma within_tick {A} (m : M A) : within scan_effect m -> within tick_effect m.
Proof. apply within_mono. intros r r'. apply effect_scan. Qed.

Lemma within_tick_SetItem index el dir : within tick_effect (SetItem index el dir).
Proof. apply within_tick, within_SetItem. Qed.

Lemma within_tick_MoveItem index dir : within tick_effect (MoveItem index dir).
Proof. apply within_tick, within_MoveItem. Qed.

Lemma within_agent_reward code : agent_reward code -> within tick_effect (or_reward code).
Proof. intros H. apply within_modify. intros r. by apply effect_agent_reward. Qed.

Lemma within_gem :
  within tick_effect (modify (fun s => set_gems_collected (gems_collected s + 1) s)).
Proof. apply within_modify. intros r. apply effect_gem. Qed.

Lemma within_agent_idx idx : within tick_effect (modify (set_agent_idx idx)).
Proof. apply within_modify. intros r. apply effect_agent_idx. Qed.

Lemma within_in_exit : within tick_effect (modify (set_is_agent_in_exit true)).
Proof. apply within_modify. intros r. apply effect_in_exit. Qed.

Create HintDb tick discriminated.
#[local] Hint Resolve within_tick_SetItem within_tick_MoveItem within_agent_reward
  within_gem within_agent_idx within_in_exit
  reward_diamond reward_key reward_key_colour reward_gate reward_gate_colour reward_exit
  : tick.

Ltac tick_step :=
  lazymatch goal with
  | |- within _ (bind (at_ _) _) => apply within_bind_at; intros ? ?
  | |- within _ (bind _ _) => apply within_bind; [|intros ?]
  | |- within _ (ret _) => apply within_ret
  | |- within _ (ask _) => apply within_ask
  | |- within _ (gets _) => apply within_gets
  | |- within _ get_state => apply within_get_state
  | |- within _ (at_ _) => apply within_at
  | |- within _ (when _ _) => apply within_when
  | |- within _ (for_each _ _) => apply within_for_each; intros ?
  | |- within _ (if ?b then _ else _) => destruct b
  | |- within _ (match ?x with _ => _ end) => destruct x
  | |- _ => solve [eauto with tick]
  end.

Ltac tick_auto := repeat (cbv zeta; tick_step).

Lemma within_Push index stationary falling dir :
  within tick_effect (Push index stationary falling dir).
Proof. unfold Push. tick_auto. Qed.

Lemma within_OpenGate el : within tick_effect (OpenGate el).
Proof. unfold OpenGate. tick_auto. Qed.

#[local] Hint Resolve within_Push within_OpenGate : tick.

Lemma within_UpdateAgent index dir : within tick_effect (UpdateAgent index dir).
Proof. unfold UpdateAgent. tick_auto. Qed.

Lemma within_StartScan : within tick_effect StartScan.
Proof.
  unfold StartScan.
  apply within_bind; [apply within_modify; intros r; apply effect_blob_size_reset|intros _].
  apply within_bind; [apply within_modify; intros r; apply effect_blob_enclosed_reset|intros _].
  apply within_bind; [apply within_modify; intros r; apply effect_reward_reset|intros _].
  apply within_bind; [apply within_get_state|intros s].
  apply within_for_each. intros i r [] r'. rewrite bind_ask, vector_set_eq.
  destruct (in_range _ _); [|done]. rewrite run_modify. intros [= <-].
  apply rtc_once. apply effect_unmark.
Qed.

Lemma within_EndScan : within tick_effect EndScan.
Proof.
  unfold EndScan.
  apply within_bind; [apply within_get_state|intros s].
  apply within_bind; [|intros _; apply within_bind; [|intros _]].
  - apply within_when. apply within_bind; [|intros _]; apply within_when;
      apply within_modify; intros r; apply effect_blob_swap.
  - apply within_when, within_modify. intros r. apply effect_magic_steps.
  - apply within_modify. intros r. apply effect_magic_active.
Qed.

Lemma within_apply_action fuel action : within tick_effect (apply_action fuel action).
Proof.
  unfold apply_action.
  apply within_bind; [apply within_StartScan|intros _].
  apply within_bind; [apply within_gets|intros idx].
  apply within_bind; [apply within_UpdateAgent|intros _].
  apply within_bind; [apply within_tick, within_scan|intros _].
  apply within_EndScan.
Qed.

End TickEffects.

Lemma to_local_hash_H flat_size el offset :
  to_local_hash flat_size el offset = H flat_size el offset.
Proof.
  unfold to_local_hash, H, splitmix64, u64. cbv zeta.
  by rewrite Zplus_mod_idemp_l.
Qed.

Lemma xor_over_ext f g l :
  (forall i, i ∈ l -> f i = g i) -> xor_over f l = xor_over g l.
Proof.
  induction l as [|x l IH]; intros Hfg; [done|]. simpl.
  rewrite Hfg by apply list_elem_of_here. f_equal. apply IH.
  intros i Hi. apply Hfg. by apply list_elem_of_further.
Qed.

Lemma xor_over_update f g a n j :
  (a <= j < a + n)%nat ->
  (forall i, i <> j -> f i = g i) ->
  xor_over g (seq a n) = Z.lxor (Z.lxor (xor_over f (seq a n)) (f j)) (g j).
Proof.
  revert a. induction n as [|n IH]; intros a Hj Hfg; [lia|]. simpl.
  destruct (decide (a = j)) as [->|Hne].
  - rewrite (xor_over_ext g f (seq (S j) n)).
    2:{ intros i Hi%elem_of_seq. symmetry. apply Hfg. lia. }
    assert (Hcancel : forall x y, Z.lxor (Z.lxor x y) x = y).
    { intros x y. by rewrite (Z.lxor_comm x y), Z.lxor_assoc, Z.lxor_nilpotent, Z.lxor_0_r. }
    rewrite Hcancel. apply Z.lxor_comm.
  - rewrite (IH (S a)) by (done || lia). rewrite <- (Hfg a) by done.
    by rewrite !Z.lxor_assoc.
Qed.

Lemma cell_insert_ne g i j el : i <> j -> cell (<[j := el]> g) i = cell g i.
Proof. intros Hne. unfold cell. by rewrite list_lookup_insert_ne. Qed.

Lemma cell_insert_eq g j el : (j < length g)%nat -> cell (<[j := el]> g) j = el.
Proof. intros Hj. unfold cell. by rewrite list_lookup_insert_eq. Qed.

Lemma in_range_bounds {A} (v : list A) j :
  in_range v j = true -> 0 <= j /\ (Z.to_nat j < length v)%nat.
Proof. unfold in_range. intros [H1%Z.leb_le H2%Z.ltb_lt]%andb_true_iff. lia. Qed.

Lemma hash_invariant_write j el s :
  in_range (grid s) j = true -> hash_invariant s -> hash_invariant (write_cell j el s).
Proof.
  intros Hr [Hh Hl]. apply in_range_bounds in Hr as [Hj0 Hj].
  unfold hash_invariant, xor_of_cells, write_cell in *. fields.
  rewrite length_insert. split; [|done].
  set (N := rows s * cols s) in *.
  rewrite (xor_over_update
             (fun i => H N (cell (grid s) i) (Z.of_nat i))
             (fun i => H N (cell (<[Z.to_nat j:=el]> (grid s)) i) (Z.of_nat i))
             0 (Z.to_nat N) (Z.to_nat j)).
  - rewrite <- Hh, !to_local_hash_H, cell_insert_eq by done.
    rewrite Z2Nat.id by done. done.
  - lia.
  - intros i Hi. by rewrite cell_insert_ne.
Qed.

Section HashProofs.

Context {cat : Catalog}.

Lemma hash_invariant_explode_effect r r' :
  explode_effect r r' -> hash_invariant (st r) -> hash_invariant (st r').
Proof. intros []; try done. by apply hash_invariant_write. Qed.

Lemma hash_invariant_scan_effect r r' :
  scan_effect r r' -> hash_invariant (st r) -> hash_invariant (st r').
Proof. intros []; try done. by apply hash_invariant_explode_effect. Qed.

Lemma hash_invariant_tick_effect r r' :
  tick_effect r r' -> hash_invariant (st r) -> hash_invariant (st r').
Proof. intros []; try done. by apply hash_invariant_scan_effect. Qed.

Lemma hash_invariant_rtc r r' :
  rtc tick_effect r r' -> hash_invariant (st r) -> hash_invariant (st r').
Proof.
  induction 1 as [|r1 r2 r3 Hstep _ IH]; [done|].
  intros Hinv. apply IH. by eapply hash_invariant_tick_effect.
Qed.

Lemma hash_invariant_apply_action fuel action s r' :
  apply_action fuel action (start s) = Ok tt r' ->
  hash_invariant s -> hash_invariant (st r').
Proof.
  intros Hrun Hinv. eapply (hash_invariant_rtc (start s)); [|done].
  by eapply within_apply_action.
Qed.

Lemma hash_invariant_reachable s0 s :
  reachable s0 s -> hash_invariant s0 -> hash_invariant s.
Proof.
  induction 1 as [|s fuel action r' _ IH Hrun]; [done|].
  intros Hinv. eapply hash_invariant_apply_action; [done|]. by apply IH.
Qed.

Lemma play_reachable fuel actions s0 s :
  play fuel actions s0 = Some s -> reachable s0 s.
Proof.
  intros Hplay. cut (forall s1, reachable s0 s1 -> play fuel actions s1 = Some s -> reachable s0 s).
  { intros Hcut. apply (Hcut s0); [constructor|done]. }
  clear Hplay. induction actions as [|a rest IH]; intros s1 Hs1; simpl.
  - by intros [= <-].
  - destruct (apply_action fuel a (start s1)) as [[] r'| |] eqn:Hrun; [|done..].
    apply IH. by eapply reach_step.
Qed.

End HashProofs.

Section ConstructionLemmas.

Variable ndebug : bool.

Lemma cbind_Constructed {A B} (c : Construction A) (k : A -> Construction B) b :
  cbind c k = Constructed b -> exists a, c = Constructed a /\ k a = Constructed b.
Proof. destruct c; simpl; [eauto|done..]. Qed.

Lemma parse_cells_fresh segments i b b' :
  parse_cells segments i b = Constructed b' ->
  Forall (fun u => u = false) (board_has_updated b) ->
  length (board_has_updated b) = length (board_grid b) ->
  Forall (fun u => u = false) (board_has_updated b') /\
  length (board_has_updated b') = length (board_grid b') /\
  board_rows b' = board_rows b /\ board_cols b' = board_cols b /\
  length (board_grid b') = (length (board_grid b) + length segments)%nat.
Proof.
  revert i b. induction segments as [|segment rest IH]; intros i b; simpl.
  - intros [= <-] ? ?. repeat split; first [done|lia].
  - intros Hparse Hfresh Hlen.
    apply cbind_Constructed in Hparse as (hidden_type & _ & Hparse).
    destruct ((hidden_type <? 0) || (kNumHiddenCellType <=? hidden_type)); [done|].
    apply IH in Hparse.
    + destruct (cell_eqb _ kAgent || cell_eqb _ kAgentInExit); simpl in Hparse;
        rewrite length_app in Hparse; simpl in Hparse;
        destruct Hparse as (? & ? & ? & ? & ?); repeat split; try done; lia.
    + destruct (cell_eqb _ kAgent || cell_eqb _ kAgentInExit); simpl;
        (apply Forall_app; split; [done|by constructor]).
    + destruct (cell_eqb _ kAgent || cell_eqb _ kAgentInExit); simpl;
        rewrite !length_app; simpl; lia.
Qed.

Lemma parse_board_str_fresh board_str b :
  parse_board_str ndebug board_str = Constructed b ->
  Forall (fun u => u = false) (board_has_updated b) /\
  length (board_has_updated b) = length (board_grid b) /\
  length (board_grid b) = length (drop 3 (split_board board_str)).
Proof.
  unfold parse_board_str. cbv zeta. intros Hparse.
  do 8 (apply cbind_Constructed in Hparse as (? & _ & Hparse)).
  apply cbind_Constructed in Hparse as (b1 & Hcells & Hparse).
  apply parse_cells_fresh in Hcells as (? & ? & ? & ? & ?); [|by constructor|done].
  destruct (board_agent_counter b1 =? 0); [done|].
  destruct (1 <? board_agent_counter b1); [done|].
  injection Hparse as <-. done.
Qed.

Lemma initial_hash_xor flat_size g l acc h :
  initial_hash flat_size g (map Z.of_nat l) acc = Constructed h ->
  h = Z.lxor acc (xor_over (fun i => H flat_size (cell g i) (Z.of_nat i)) l).
Proof.
  revert acc. induction l as [|i l IH]; intros acc; simpl.
  - intros [= <-]. by rewrite Z.lxor_0_r.
  - destruct (vector_at g (Z.of_nat i)) as [el|] eqn:Hel; [|done].
    apply vector_at_Some in Hel as [_ Hel]. rewrite Nat2Z.id in Hel.
    intros ->%IH. unfold cell at 2. rewrite Hel. simpl.
    by rewrite to_local_hash_H, Z.lxor_assoc.
Qed.

Lemma int_mul_Constructed a b product :
  int_mul a b = Constructed product -> product = a * b /\ INT_MIN <= a * b <= INT_MAX.
Proof.
  unfold int_mul. destruct ((a * b <? INT_MIN) || (INT_MAX <? a * b)) eqn:Hrange; [done|].
  intros [= <-]. apply orb_false_iff in Hrange as [H1%Z.ltb_ge H2%Z.ltb_ge]. lia.
Qed.

Lemma views_iota_Constructed bound indices :
  views_iota bound = Constructed indices -> 0 <= bound /\ indices = iota 0 bound.
Proof.
  unfold views_iota. destruct (Z.ltb_spec bound 0); [done|]. by intros [= <-].
Qed.

(* What the constructor leaves in the state it returns. *)
Lemma new_state_Constructed board_str params s :
  new_state ndebug board_str params = Constructed s ->
  exists b,
    parse_board_str ndebug board_str = Constructed b /\
    hash s = xor_of_cells s /\
    grid s = board_grid b /\ has_updated s = board_has_updated b /\
    rows s = board_rows b /\ cols s = board_cols b /\
    random_state s = splitmix64 0 /\ reward_signal s = 0 /\
    gems_collected s = 0 /\
    0 <= rows s * cols s <= INT_MAX.
Proof.
  unfold new_state. intros Hnew.
  apply cbind_Constructed in Hnew as (b & Hb & Hnew).
  apply cbind_Constructed in Hnew as (cells & _ & Hnew).
  apply cbind_Constructed in Hnew as (flat_size & [-> Hint]%int_mul_Constructed & Hnew).
  apply cbind_Constructed in Hnew as (indices & [Hpos ->]%views_iota_Constructed & Hnew).
  apply cbind_Constructed in Hnew as (h & Hh & Hnew).
  injection Hnew as <-. exists b. unfold xor_of_cells. fields.
  repeat split; try done; try lia.
  unfold iota in Hh. rewrite Z.sub_0_r in Hh.
  rewrite (map_ext _ Z.of_nat) in Hh by done.
  apply initial_hash_xor in Hh. by rewrite Z.lxor_0_l in Hh.
Qed.

Lemma new_state_hash_invariant board_str params s :
  new_state ndebug board_str params = Constructed s ->
  Z.of_nat (length (grid s)) = rows s * cols s ->
  hash_invariant s.
Proof.
  intros (b & _ & Hh & _)%new_state_Constructed Hlen. by split.
Qed.

End ConstructionLemmas.

(* In a build with assertions the constructor returns only for a level with
   rows*cols cells. *)
Lemma asserted_level_has_all_cells board_str params s :
  new_state false board_str params = Constructed s ->
  Z.of_nat (length (grid s)) = rows s * cols s.
Proof.
  intros Hnew.
  destruct (new_state_Constructed _ _ _ _ Hnew)
    as (b & Hb & _ & Hg & _ & Hr & Hc & _ & _ & _ & Hrange).
  pose proof (parse_board_str_fresh _ _ _ Hb) as (_ & _ & Hcells).
  rewrite Hg, Hr, Hc, Hcells, length_drop. rewrite Hr, Hc in Hrange.
  revert Hb. unfold parse_board_str. cbv zeta. intros Hb.
  apply cbind_Constructed in Hb as ([] & Hfour & Hb).
  do 4 (apply cbind_Constructed in Hb as (? & _ & Hb)).
  apply cbind_Constructed in Hb as ([] & Hcount & Hb).
  do 2 (apply cbind_Constructed in Hb as (? & _ & Hb)).
  apply cbind_Constructed in Hb as (b1 & Hparsed & Hb).
  apply parse_cells_fresh in Hparsed as (_ & _ & Hrows & Hcols & _); [|by constructor|done].
  simpl in Hrows, Hcols.
  destruct (board_agent_counter b1 =? 0); [done|].
  destruct (1 <? board_agent_counter b1); [done|]. injection Hb as <-.
  rewrite Hrows, Hcols in Hrange |- *.
  unfold assert_, assert_that in *. simpl in Hfour, Hcount.
  destruct (Z.leb_spec 4 (Z.of_nat (length (split_board board_str)))) as [Hsize|]; [|done].
  apply cbind_Constructed in Hcount as (holds & Hholds & Hcount).
  destruct holds; [|done].
  apply cbind_Constructed in Hholds as (product & [-> _]%int_mul_Constructed & Hholds).
  injection Hholds as Hholds. apply Z.eqb_eq in Hholds.
  unfold INT_MAX in Hrange. unfold u64 in Hholds.
  rewrite (Z.mod_small (_ * _)) in Hholds by lia.
  rewrite Z.mod_small in Hholds by lia. lia.
Qed.

Section Claim1.

Context {cat : Catalog}.

(** C1.  For a state constructed from a level string, and for every state
    reached from it by apply_action (terminal states included), the hash
    field is the XOR over the flat indices i in [0, rows*cols) of
    H(grid[i], i), where H(kind, idx) is SplitMix64 of
    rows*cols*int(kind) + idx.  In a build with assertions this is every
    state the constructor returns; with NDEBUG, where the assertion on the
    token count is compiled out, the level has to hold rows*cols cells. *)
Theorem hash_is_xor_of_cell_hashes ndebug board_str params s0 s :
  new_state ndebug board_str params = Constructed s0 ->
  ndebug = false \/ Z.of_nat (length (grid s0)) = rows s0 * cols s0 ->
  reachable s0 s ->
  get_hash s = xor_of_cells s.
Proof.
  intros Hnew Hlen Hreach.
  apply (hash_invariant_reachable s0 s Hreach).
  eapply new_state_hash_invariant; [exact Hnew|].
  destruct Hlen as [-> | Hlen]; [|exact Hlen].
  by eapply asserted_level_has_all_cells.
Qed.

End Claim1.

(** C1, witness: a stone falls on the agent; the third tick steps a
    terminal state. *)
Lemma hash_is_xor_of_cell_hashes_witness :
  exists s,
    play_level (cat := spec_catalog) false "3|3|0|1|3|1|1|1|1|1|0|1" with_gravity 9
      [ActDown; ActDown; ActDown] = Some s /\
    is_agent_alive s = false /\
    get_hash s = xor_of_cells s.
Proof.
  eexists. split; [vm_compute; reflexivity|]. split; [reflexivity|].
  eapply (hash_is_xor_of_cell_hashes (cat := spec_catalog) false
            "3|3|0|1|3|1|1|1|1|1|0|1" with_gravity).
  - vm_compute. reflexivity.
  - by left.
  - apply (play_reachable 9 [ActDown; ActDown; ActDown]). vm_compute. reflexivity.
Defined.

Section Invariants.

Context {cat : Catalog}.

Lemma same_shape_refl s : same_shape s s.
Proof. by repeat split. Qed.

Lemma same_shape_trans s1 s2 s3 : same_shape s1 s2 -> same_shape s2 s3 -> same_shape s1 s3.
Proof. unfold same_shape. intros (?&?&?&?) (?&?&?&?). repeat split; congruence. Qed.

Lemma explode_effect_shape r r' : explode_effect r r' -> same_shape (st r) (st r').
Proof.
  intros []; unfold same_shape, write_cell, mark_updated; fields;
    rewrite ?length_insert; by repeat split.
Qed.

Lemma scan_effect_shape r r' : scan_effect r r' -> same_shape (st r) (st r').
Proof. intros []; try by repeat split. by apply explode_effect_shape. Qed.

Lemma tick_effect_shape r r' : tick_effect r r' -> same_shape (st r) (st r').
Proof.
  intros []; try by repeat split.
  - by apply scan_effect_shape.
  - unfold same_shape. fields. rewrite length_insert. by repeat split.
Qed.

Lemma rtc_tick_shape r r' : rtc tick_effect r r' -> same_shape (st r) (st r').
Proof.
  induction 1 as [|r1 r2 r3 Hstep _ IH]; [apply same_shape_refl|].
  eapply same_shape_trans; [by apply tick_effect_shape|done].
Qed.

Lemma well_formed_same_shape s s' : same_shape s s' -> well_formed s -> well_formed s'.
Proof. unfold same_shape, well_formed. intros (->&->&->&->). done. Qed.

Lemma apply_action_shape fuel action s r' :
  apply_action fuel action (start s) = Ok tt r' -> same_shape s (st r').
Proof. intros Hrun. apply (rtc_tick_shape (start s)). by eapply within_apply_action. Qed.

Lemma reachable_shape s0 s : reachable s0 s -> same_shape s0 s.
Proof.
  induction 1 as [|s fuel action r' _ IH Hrun]; [apply same_shape_refl|].
  eapply same_shape_trans; [done|by eapply apply_action_shape].
Qed.

(** *** The reward signal *)

Lemma explode_effect_reward r r' :
  explode_effect r r' -> reward_signal (st r') = reward_signal (st r).
Proof. by intros []. Qed.

Lemma Explode_keeps_reward fuel index el dir r r' :
  Explode fuel index el dir r = Ok tt r' -> reward_signal (st r') = reward_signal (st r).
Proof.
  intros Hrun%within_explode_Explode.
  induction Hrun as [|r1 r2 r3 Hstep _ IH]; [done|].
  rewrite IH. by apply explode_effect_reward.
Qed.

Lemma spares_lor a code :
  spares_agent_dies a -> spares_agent_dies code -> spares_agent_dies (Z.lor a code).
Proof. unfold spares_agent_dies. intros Ha Hc. by rewrite Z.lor_spec, Ha, Hc. Qed.

Section Spared.

Hypothesis tables : reward_tables_spare_agent_dies.

Lemma scan_reward_spares code : scan_reward code -> spares_agent_dies code.
Proof. intros [| |e c He]; [done..|]. by eapply explosion_reward_spares. Qed.

Lemma agent_reward_spares code : agent_reward code -> spares_agent_dies code.
Proof.
  intros [| |e c He| |e c He|]; try done.
  - by eapply key_signal_spares.
  - by eapply gate_signal_spares.
Qed.

Lemma tick_effect_spares r r' :
  tick_effect r r' ->
  spares_agent_dies (reward_signal (st r)) -> spares_agent_dies (reward_signal (st r')).
Proof.
  intros [r1 r2 [r3 r4 []| | | | |]| | | | | | | | | | |]; fields; try done.
  - intros. by apply spares_lor, scan_reward_spares.
  - intros. by apply spares_lor, agent_reward_spares.
Qed.

Lemma reachable_spares s0 s :
  reachable s0 s ->
  spares_agent_dies (reward_signal s0) -> spares_agent_dies (reward_signal s).
Proof.
  induction 1 as [|s fuel action r' _ IH Hrun]; [done|].
  intros Hs0%IH. apply within_apply_action in Hrun.
  change s with (st (start s)) in Hs0. revert Hs0.
  induction Hrun as [|r2 r3 r4 Hstep _ IHr]; [done|].
  intros Hs. apply IHr. by eapply tick_effect_spares.
Qed.

End Spared.

(** *** The record of the chained calls *)

Lemma explode_effect_chain r r' :
  explode_effect r r' ->
  Forall passes_product_of_center (chain_calls r) ->
  Forall passes_product_of_center (chain_calls r').
Proof.
  intros []; try done. simpl. intros Hall. apply Forall_app. split; [done|].
  by constructor.
Qed.

Lemma tick_effect_chain r r' :
  tick_effect r r' ->
  Forall passes_product_of_center (chain_calls r) ->
  Forall passes_product_of_center (chain_calls r').
Proof.
  intros [r1 r2 [r3 r4 Hex| | | | |]| | | | | | | | | | |]; try done.
  by apply explode_effect_chain.
Qed.

End Invariants.

Lemma length_clear_from n a u : length (clear_from a n u) = length u.
Proof.
  revert a u. induction n as [|n IH]; intros a u; [done|].
  simpl. by rewrite IH, length_insert.
Qed.

Lemma clear_from_all_false n a u :
  (forall j, (j < a)%nat -> u !! j = Some false) ->
  (a + n)%nat = length u ->
  Forall (fun b => b = false) (clear_from a n u).
Proof.
  revert a u. induction n as [|n IH]; intros a u Hpre Hlen; simpl.
  - apply Forall_lookup. intros j b Hj.
    assert (Hlt : (j < a)%nat) by (apply lookup_lt_Some in Hj; lia).
    rewrite (Hpre j Hlt) in Hj. congruence.
  - apply IH.
    + intros j Hj. destruct (decide (j = a)) as [->|Hne].
      * apply list_lookup_insert_eq. lia.
      * rewrite list_lookup_insert_ne by done. apply Hpre. lia.
    + rewrite length_insert. lia.
Qed.

Section CoreClaims.

Context {cat : Catalog}.

Lemma clear_loop_run n a r :
  (a + n <= length (has_updated (st r)))%nat ->
  for_each (map (fun k => 0 + Z.of_nat k) (seq a n))
    (fun i => u <- ask (fun s => vector_set (has_updated s) i false) ;;
              modify (set_has_updated u)) r =
  Ok tt (with_state r (set_has_updated (clear_from a n (has_updated (st r))) (st r))).
Proof.
  revert a r. induction n as [|n IH]; intros a r Hlen.
  - destruct r as [[] ? ?]. reflexivity.
  - cbn [seq map for_each]. rewrite bind_bind, bind_ask, vector_set_eq.
    replace (in_range (has_updated (st r)) (0 + Z.of_nat a)) with true.
    2:{ symmetry. apply andb_true_iff. split; [apply Z.leb_le|apply Z.ltb_lt]; lia. }
    cbv beta iota. rewrite bind_modify, IH.
    + change (0 + Z.of_nat a) with (Z.of_nat a). rewrite Nat2Z.id. reflexivity.
    + fields. rewrite length_insert. lia.
Qed.

Lemma StartScan_run s :
  Z.of_nat (length (has_updated s)) = rows s * cols s ->
  exists u, StartScan (start s) = Ok tt (start (set_has_updated u
              (set_reward_signal 0 (set_blob_enclosed true (set_blob_size 0 s))))) /\
            Forall (fun b => b = false) u /\ length u = length (has_updated s).
Proof.
  intros Hlen. unfold StartScan, start.
  rewrite !bind_modify, bind_get_state. fields. unfold iota.
  rewrite Z.sub_0_r, <- Hlen, Nat2Z.id.
  rewrite clear_loop_run by (fields; lia). fields.
  eexists. split; [reflexivity|]. split.
  - apply clear_from_all_false; [lia|done].
  - apply length_clear_from.
Qed.

End CoreClaims.

Section Claims.

Context {cat : Catalog}.

(** C9.  No operation sets the kRewardAgentDies bit (1 << 0) of
    reward_signal: Explode, which is where the agent dies, leaves
    reward_signal as it was, and in every state reached from a constructed
    one bit 0 of get_reward_signal is zero.  The reward tables of the
    missing catalog are taken not to carry that bit. *)
Theorem agent_dies_bit_is_never_set ndebug board_str params s0 s :
  reward_tables_spare_agent_dies ->
  new_state ndebug board_str params = Constructed s0 ->
  reachable s0 s ->
  Z.land (get_reward_signal s) kRewardAgentDies = 0 /\
  forall fuel index el dir r r',
    Explode fuel index el dir r = Ok tt r' ->
    reward_signal (st r') = reward_signal (st r).
Proof.
  intros Htables Hnew Hreach. split.
  - destruct (new_state_Constructed _ _ _ _ Hnew) as (_ & _ & _ & _ & _ & _ & _ & _ & Hr & _).
    assert (Hbit : spares_agent_dies (reward_signal s)).
    { apply (reachable_spares Htables s0 s Hreach). by rewrite Hr. }
    unfold get_reward_signal. apply Z.bits_inj'. intros n Hn.
    rewrite Z.land_spec, Z.bits_0.
    destruct (decide (n = 0)) as [->|Hne]; [by rewrite Hbit|].
    replace (Z.testbit kRewardAgentDies n) with false; [apply andb_false_r|].
    symmetry. change kRewardAgentDies with (2 ^ 0). apply Z.pow2_bits_false. lia.
  - intros fuel index el dir r r'. apply Explode_keeps_reward.
Qed.

End Claims.

(** C10.  is_valid_hidden_element is true exactly for the ordinals in
    [0, kNumVisibleCellType) = [0, 34); the hidden kinds with ordinals 34
    to 49, among them kKeyYellow, kNut, kNutFalling, kBomb, kBombFalling,
    the four oranges, kPebbleInDirt, kStoneInDirt and kVoidInDirt, are
    reported invalid. *)
Theorem hidden_validity_stops_at_visible_count :
  kNumVisibleCellType = 34 /\
  (forall e, is_valid_hidden_element e = true <-> 0 <= to_underlying e < kNumVisibleCellType) /\
  (forall e, 34 <= to_underlying e <= 49 -> is_valid_hidden_element e = false) /\
  Forall (fun e => 34 <= to_underlying e <= 49 /\ is_valid_hidden_element e = false)
    [kKeyYellow; kNut; kNutFalling; kBomb; kBombFalling; kOrangeUp; kOrangeLeft;
     kOrangeDown; kOrangeRight; kPebbleInDirt; kStoneInDirt; kVoidInDirt].
Proof.
  split; [reflexivity|]. split; [|split].
  - intros e. unfold is_valid_hidden_element.
    rewrite andb_true_iff, Z.leb_le, Z.ltb_lt. done.
  - intros e He. unfold is_valid_hidden_element, kNumVisibleCellType.
    apply andb_false_iff. right. apply Z.ltb_ge. lia.
  - repeat constructor; simpl; lia.
Qed.

(** C2, counterexample: in that tick the call made for the butterfly
    passes ExplosionEmpty, the product of the exploding firefly, and the
    butterfly's cell holds it afterwards; the product of the butterfly is
    ExplosionDiamond. *)
Lemma chained_explosion_ignores_product_of_neighbor :
  exists s0 r' c,
    new_state false "1|3|0|0|10|14" default_parameters = Constructed s0 /\
    apply_action (cat := spec_catalog) 3 ActUp (start s0) = Ok tt r' /\
    chain_calls r' !! 0%nat = Some c /\
    chain_center_found c = kFireflyUp /\
    chain_neighbor c = kButterflyUp /\
    chain_element c = kExplosionEmpty /\
    explosion_of (cat := spec_catalog) (chain_neighbor c) = kExplosionDiamond /\
    ~ passes_product_of_neighbor (cat := spec_catalog) c /\
    grid (st r') = [kExplosionEmpty; kExplosionEmpty; kExplosionEmpty].
Proof.
  eexists _, _, _. split; [vm_compute; reflexivity|].
  split; [vm_compute; reflexivity|]. split; [reflexivity|].
  repeat split; try reflexivity. vm_compute. discriminate.
Qed.

(** C5, counterexample: after apply_action(Right) has returned, the flag
    of the cell the agent walked onto is still set. *)
Lemma has_updated_is_set_after_apply_action :
  exists s,
    play_level (cat := spec_catalog) false "3|3|0|1|1|1|0|1|1|1|1|1" default_parameters 9
      [ActRight] = Some s /\
    grid s = [kEmpty; kEmpty; kEmpty; kEmpty; kAgent; kEmpty; kEmpty; kEmpty; kEmpty] /\
    has_updated s = [false; false; false; false; true; false; false; false; false].
Proof. eexists. split; [vm_compute; reflexivity|]. split; reflexivity. Qed.

Lemma spec_catalog_spares_agent_dies : reward_tables_spare_agent_dies (cat := spec_catalog).
Proof.
  split; intros e code; destruct e; simpl; intros [= <-]; reflexivity.
Qed.

(** C9, witness: the falling stone kills the agent in the second tick. *)
Lemma agent_dies_bit_is_never_set_witness :
  exists s,
    play_level (cat := spec_catalog) false "3|3|0|1|3|1|1|1|1|1|0|1" with_gravity 9
      [ActDown; ActDown] = Some s /\
    is_agent_alive s = false /\
    Z.land (get_reward_signal s) kRewardAgentDies = 0 /\
    forall fuel index el dir r r',
      Explode (cat := spec_catalog) fuel index el dir r = Ok tt r' ->
      reward_signal (st r') = reward_signal (st r).
Proof.
  eexists. split; [vm_compute; reflexivity|]. split; [reflexivity|].
  eapply (agent_dies_bit_is_never_set (cat := spec_catalog) false
            "3|3|0|1|3|1|1|1|1|1|0|1" with_gravity).
  - exact spec_catalog_spares_agent_dies.
  - vm_compute. reflexivity.
  - apply (play_reachable 9 [ActDown; ActDown]). vm_compute. reflexivity.
Defined.

Lemma cell_of_code_to_underlying e : cell_of_code (to_underlying e) = e.
Proof. by destruct e. Qed.

Lemma to_underlying_inj a b : to_underlying a = to_underlying b -> a = b.
Proof.
  intros H. rewrite <- (cell_of_code_to_underlying a), <- (cell_of_code_to_underlying b).
  by rewrite H.
Qed.

Lemma cell_eqb_eq a b : cell_eqb a b = true <-> a = b.
Proof.
  unfold cell_eqb. rewrite Z.eqb_eq. split; [apply to_underlying_inj|by intros ->].
Qed.

Lemma cell_eqb_refl a : cell_eqb a a = true.
Proof. by apply cell_eqb_eq. Qed.

Lemma cell_eqb_neq a b : cell_eqb a b = false <-> a <> b.
Proof.
  rewrite <- cell_eqb_eq. destruct (cell_eqb a b); split; congruence.
Qed.

Section Queries.

Context {cat : Catalog}.

(* The cell a query looks at when it is in bounds. *)
Lemma IsType_eq index el dir s :
  IsType index el dir s =
    match InBounds index dir s with
    | Some true =>
      option_map (fun e => cell_eqb e el) (vector_at (grid s) (IndexFromDirection s index dir))
    | other => other
    end.
Proof. reflexivity. Qed.

Lemma HasProperty_eq index property dir s :
  HasProperty index property dir s =
    match InBounds index dir s with
    | Some true =>
      option_map (fun e => 0 <? Z.land (properties e) property)
                 (vector_at (grid s) (IndexFromDirection s index dir))
    | other => other
    end.
Proof. reflexivity. Qed.

Lemma IsType_true index el dir s :
  IsType index el dir s = Some true <->
  InBounds index dir s = Some true /\
  vector_at (grid s) (IndexFromDirection s index dir) = Some el.
Proof.
  rewrite IsType_eq. destruct (InBounds index dir s) as [[]|]; [|naive_solver..].
  destruct (vector_at _ _) as [e|]; simpl; [|naive_solver].
  split.
  - intros [= ->%cell_eqb_eq]. done.
  - intros [_ [= ->]]. by rewrite cell_eqb_refl.
Qed.

Lemma IsType_found index el dir s e :
  InBounds index dir s = Some true ->
  vector_at (grid s) (IndexFromDirection s index dir) = Some e ->
  IsType index el dir s = Some (cell_eqb e el).
Proof. intros Hb He. by rewrite IsType_eq, Hb, He. Qed.

Lemma HasProperty_found index property dir s e :
  InBounds index dir s = Some true ->
  vector_at (grid s) (IndexFromDirection s index dir) = Some e ->
  HasProperty index property dir s = Some (0 <? Z.land (properties e) property).
Proof. intros Hb He. by rewrite HasProperty_eq, Hb, He. Qed.

Lemma HasProperty_true index property dir s :
  HasProperty index property dir s = Some true ->
  InBounds index dir s = Some true /\
  exists e, vector_at (grid s) (IndexFromDirection s index dir) = Some e /\
            (0 <? Z.land (properties e) property) = true.
Proof.
  rewrite HasProperty_eq. destruct (InBounds index dir s) as [[]|]; [|done..].
  destruct (vector_at _ _) as [e|]; simpl; [|done]. intros [= ?]. eauto.
Qed.

Lemma InBounds_cols index dir s b : InBounds index dir s = Some b -> cols s <> 0.
Proof. unfold InBounds. destruct (Z.eqb_spec (cols s) 0); [done|]. done. Qed.

Lemma InBounds_same_board index dir s s' :
  same_board s s' -> InBounds index dir s' = InBounds index dir s.
Proof. intros (_ & Hr & Hc). unfold InBounds. by rewrite Hr, Hc. Qed.

Lemma IndexFromDirection_same_board index dir s s' :
  same_board s s' -> IndexFromDirection s' index dir = IndexFromDirection s index dir.
Proof. intros (_ & _ & Hc). unfold IndexFromDirection. by rewrite Hc. Qed.

Lemma IsType_same_board index el dir s s' :
  same_board s s' -> IsType index el dir s' = IsType index el dir s.
Proof.
  intros Hs. rewrite !IsType_eq, (InBounds_same_board _ _ s s' Hs),
    (IndexFromDirection_same_board _ _ s s' Hs). by destruct Hs as (-> & _).
Qed.

End Queries.

Lemma vector_at_insert_ne {A} (v : list A) i j x :
  i <> j -> 0 <= j -> vector_at (<[Z.to_nat j := x]> v) i = vector_at v i.
Proof.
  intros Hne Hj. unfold vector_at. destruct (Z.ltb_spec i 0); [done|].
  apply list_lookup_insert_ne. lia.
Qed.

Lemma vector_at_insert_eq {A} (v : list A) j x :
  in_range v j = true -> vector_at (<[Z.to_nat j := x]> v) j = Some x.
Proof.
  intros [Hj0 Hj]%in_range_bounds. unfold vector_at.
  destruct (Z.ltb_spec j 0); [lia|]. by apply list_lookup_insert_eq.
Qed.

Lemma vector_at_in_range {A} (v : list A) j x : vector_at v j = Some x -> in_range v j = true.
Proof. by intros [? _]%vector_at_Some. Qed.

Lemma vector_at_cell g j e : vector_at g j = Some e -> cell g (Z.to_nat j) = e.
Proof. intros [_ He]%vector_at_Some. unfold cell. by rewrite He. Qed.

Lemma ask_true {A} (q : Query bool) (m1 m2 : M A) r :
  q (st r) = Some true -> bind (ask q) (fun b : bool => if b then m1 else m2) r = m1 r.
Proof. intros H. by rewrite bind_ask, H. Qed.

Lemma ask_false {A} (q : Query bool) (m1 m2 : M A) r :
  q (st r) = Some false -> bind (ask q) (fun b : bool => if b then m1 else m2) r = m2 r.
Proof. intros H. by rewrite bind_ask, H. Qed.

Lemma ask_Some {A B} (q : Query A) (k : A -> M B) r a :
  q (st r) = Some a -> bind (ask q) k r = k a r.
Proof. intros H. by rewrite bind_ask, H. Qed.

Lemma grid_write_cell j el s : grid (write_cell j el s) = <[Z.to_nat j := el]> (grid s).
Proof. reflexivity. Qed.

Lemma grid_mark_updated j s : grid (mark_updated j s) = grid s.
Proof. reflexivity. Qed.

Section FallingStone.

Context {cat : Catalog}.

(** C4 (as amended).  When a StoneFalling cell updates with a Nut directly
    below it, and neither the convert-mode butterfly branch nor the
    CanExplode branch applies to a nut, the cell below becomes Diamond and
    is marked updated, and the NutToDiamond bit is OR-ed into
    reward_signal; the stone's own cell is not written: it still holds
    StoneFalling. *)
Theorem falling_stone_cracks_nut_and_stays fuel index r :
  GetItem index kNoop (st r) = Some kStoneFalling ->
  IsType index kElNut kDown (st r) = Some true ->
  (butterfly_explosion_ver (st r) =? kConvert) && IsButterfly kNut = false ->
  (0 <? Z.land (properties kNut) kCanExplode) = false ->
  in_range (has_updated (st r)) (index + cols (st r)) = true ->
  exists r',
    UpdateStoneFalling fuel index r = Ok tt r' /\
    GetItem index kNoop (st r') = Some kStoneFalling /\
    GetItem index kDown (st r') = Some kDiamond /\
    reward_signal (st r') = Z.lor (reward_signal (st r)) kRewardNutToDiamond /\
    has_updated (st r') = <[Z.to_nat (index + cols (st r)) := true]> (has_updated (st r)).
Proof.
  intros Hself [Hin Hnut]%IsType_true Hconvert Hcan Hflag.
  pose proof (InBounds_cols _ _ _ _ Hin) as Hcols.
  change (IndexFromDirection (st r) index kDown) with (index + cols (st r)) in Hnut.
  set (below := index + cols (st r)) in *.
  pose proof (vector_at_in_range _ _ _ Hnut) as Hrange.
  unfold UpdateStoneFalling.
  rewrite ask_false by (rewrite (IsType_found _ _ _ _ kNut Hin Hnut); reflexivity).
  rewrite ask_false.
  2:{ unfold qand, GetItem. change (IndexFromDirection (st r) index kDown) with below.
      rewrite Hnut. cbn [option_map].
      destruct (butterfly_explosion_ver (st r) =? kConvert); [|reflexivity].
      simpl in Hconvert. by rewrite Hconvert. }
  rewrite ask_false by (rewrite (HasProperty_found _ _ _ _ kNut Hin Hnut); by rewrite Hcan).
  rewrite ask_false.
  2:{ unfold qor. rewrite !(IsType_found _ _ _ _ kNut Hin Hnut). reflexivity. }
  rewrite ask_true by (rewrite (IsType_found _ _ _ _ kNut Hin Hnut); reflexivity).
  unfold bind at 1. rewrite SetItem_eq. cbv zeta.
  change (IndexFromDirection (st r) index kDown) with below.
  rewrite Hrange, Hflag. cbn [andb]. unfold or_reward. rewrite run_modify.
  eexists. split; [reflexivity|]. fields.
  unfold GetItem, IndexFromDirection, mark_updated, write_cell. fields.
  pose proof (in_range_bounds _ _ Hrange) as [Hb0 _].
  repeat split.
  - rewrite vector_at_insert_ne by (subst below; lia). exact Hself.
  - by apply vector_at_insert_eq.
Qed.

End FallingStone.

(** C4, witness: a falling stone above a nut, in a column of three. *)
Lemma falling_stone_cracks_nut_and_stays_witness :
  exists s0 r',
    new_state false "3|1|0|0|4|39" default_parameters = Constructed s0 /\
    UpdateStoneFalling (cat := spec_catalog) 3 1 (start s0) = Ok tt r' /\
    GetItem 1 kNoop (st r') = Some kStoneFalling /\
    GetItem 1 kDown (st r') = Some kDiamond /\
    reward_signal (st r') = Z.lor (reward_signal (st (start s0))) kRewardNutToDiamond /\
    has_updated (st r') =
      <[Z.to_nat (1 + cols (st (start s0))) := true]> (has_updated (st (start s0))).
Proof.
  eexists _, _. split; [vm_compute; reflexivity|].
  match goal with |- UpdateStoneFalling _ _ ?r = _ /\ _ =>
    destruct (falling_stone_cracks_nut_and_stays (cat := spec_catalog) 3 1 r)
      as (r' & Hrun & Hrest); [vm_compute; reflexivity..|]
  end.
  assert (Hr' : Ok tt r' = Ok tt _) by (rewrite <- Hrun; vm_compute; reflexivity).
  injection Hr' as Hr'. subst r'. split; [exact Hrun|exact Hrest].
Defined.

(** C4, counterexample: after the tick the stone's own cell still holds
    StoneFalling; it was not set to Empty. *)
Lemma falling_stone_is_not_emptied_by_nut :
  exists s,
    play_level (cat := spec_catalog) false "3|1|0|0|4|39" default_parameters 3 [ActUp]
      = Some s /\
    grid s = [kAgent; kStoneFalling; kDiamond] /\
    GetItem 1 kNoop s <> Some kEmpty /\
    get_reward_signal s = kRewardNutToDiamond.
Proof.
  eexists. split; [vm_compute; reflexivity|]. split; [reflexivity|].
  split; [discriminate|reflexivity].
Qed.

Section DeadAgent.

Context {cat : Catalog}.

Lemma explode_effect_agent r r' :
  explode_effect r r' ->
  agent_idx (st r') = agent_idx (st r) /\
  (is_agent_alive (st r) = false -> is_agent_alive (st r') = false).
Proof. by intros []. Qed.

Lemma scan_effect_agent r r' :
  scan_effect r r' ->
  agent_idx (st r') = agent_idx (st r) /\
  (is_agent_alive (st r) = false -> is_agent_alive (st r') = false).
Proof. intros []; try done. by apply explode_effect_agent. Qed.

Lemma scan_keeps_agent fuel r r' :
  scan fuel r = Ok tt r' ->
  agent_idx (st r') = agent_idx (st r) /\
  (is_agent_alive (st r) = false -> is_agent_alive (st r') = false).
Proof.
  intros Hrun%within_scan. induction Hrun as [|r1 r2 r3 Hstep _ IH]; [done|].
  apply scan_effect_agent in Hstep as [Hidx Halive]. rewrite <- Hidx.
  destruct IH as [-> IH]. split; [done|]. intros H. by apply IH, Halive.
Qed.

Lemma EndScan_keeps_agent r r' :
  EndScan r = Ok tt r' ->
  agent_idx (st r') = agent_idx (st r) /\ is_agent_alive (st r') = is_agent_alive (st r).
Proof.
  unfold EndScan. rewrite bind_get_state. unfold when.
  destruct (cell_eqb (blob_swap (st r)) kNull), (blob_enclosed (st r)),
    (blob_max_size (st r) <? blob_size (st r)), (magic_active (st r));
    unfold bind, modify, ret; intros [= <-]; done.
Qed.

Lemma bind_ext {A B} (m : M A) (k k' : A -> M B) r :
  (forall a r', k a r' = k' a r') -> bind m k r = bind m k' r.
Proof. intros H. unfold bind. by destruct (m r). Qed.

Lemma apply_action_after_agent_phase fuel action r r1 :
  agent_phase action r = Ok tt r1 ->
  apply_action fuel action r = (scan fuel ;; EndScan) r1.
Proof.
  unfold agent_phase, apply_action. cbv zeta. intros Hphase.
  transitivity
    (bind (StartScan ;; idx <- gets agent_idx ;; UpdateAgent idx (action_to_direction action))
          (fun _ => scan fuel ;; EndScan) r).
  - rewrite bind_bind. apply bind_ext. intros _ r0. by rewrite bind_bind.
  - unfold bind at 1. by rewrite Hphase.
Qed.

(** C8.  apply_action does not look at is_agent_alive: in a state whose
    agent has died, apply_action(a) still runs the agent update at the
    stale agent_idx.  If the neighbour of agent_idx in direction a is Empty
    or Dirt, the element that occupies agent_idx is moved into the
    neighbour, agent_idx's cell becomes Empty, and agent_idx advances to
    the neighbour, where it still is when apply_action returns. *)
Theorem dead_agent_is_still_moved fuel action s :
  is_agent_alive s = false ->
  well_formed s ->
  in_range (grid s) (agent_idx s) = true ->
  qor (IsType (agent_idx s) kElEmpty (action_to_direction action))
      (IsType (agent_idx s) kElDirt (action_to_direction action)) s = Some true ->
  let target := IndexFromDirection s (agent_idx s) (action_to_direction action) in
  exists r1,
    agent_phase action (start s) = Ok tt r1 /\
    GetItem target kNoop (st r1) = GetItem (agent_idx s) kNoop s /\
    GetItem (agent_idx s) kNoop (st r1) = Some kEmpty /\
    agent_idx (st r1) = target /\
    apply_action fuel action (start s) = (scan fuel ;; EndScan) r1 /\
    forall r', apply_action fuel action (start s) = Ok tt r' ->
               agent_idx (st r') = target /\ is_agent_alive (st r') = false.
Proof.
  intros Hdead [Hlen Hlenu] Hidx Hwalk target.
  set (dir := action_to_direction action) in *.
  assert (Hin : InBounds (agent_idx s) dir s = Some true).
  { unfold qor in Hwalk.
    destruct (IsType (agent_idx s) kEmpty dir s) as [[]|] eqn:H1; [|clear H1|done].
    - by apply IsType_true in H1 as [? _].
    - by apply IsType_true in Hwalk as [? _]. }
  assert (exists e, vector_at (grid s) target = Some e) as [there Hthere].
  { unfold qor in Hwalk.
    destruct (IsType (agent_idx s) kEmpty dir s) as [[]|] eqn:H1; [|clear H1|done].
    - apply IsType_true in H1 as [_ ?]. eauto.
    - apply IsType_true in Hwalk as [_ ?]. eauto. }
  pose proof (InBounds_cols _ _ _ _ Hin) as Hcols.
  pose proof (vector_at_in_range _ _ _ Hthere) as Htr.
  destruct (StartScan_run s) as (u & Hstart & _ & Hlu); [lia|].
  set (s1 := set_has_updated u _) in Hstart.
  assert (Hboard : same_board s s1) by done.
  assert (Hphase : agent_phase action (start s) =
    Ok tt (with_state (start s1)
             (set_agent_idx target
                (mark_updated target
                   (write_cell (agent_idx s) kEmpty
                      (write_cell target (cell (grid s) (Z.to_nat (agent_idx s))) s1)))))).
  { unfold agent_phase. unfold bind at 1. rewrite Hstart.
    rewrite bind_gets. change (agent_idx (st (start s1))) with (agent_idx s).
    unfold UpdateAgent. fold dir.
    rewrite (ask_Some _ _ _ true) by (exact Hin). cbn [negb].
    rewrite bind_get_state.
    rewrite ask_true by (exact Hwalk).
    unfold bind at 1. rewrite MoveItem_eq. cbv zeta.
    change (IndexFromDirection (st (start s1)) (agent_idx s) dir) with target.
    change (grid (st (start s1))) with (grid s).
    change (has_updated (st (start s1))) with u.
    rewrite Htr, Hidx. replace (in_range u target) with true.
    2:{ symmetry. unfold in_range in *. rewrite Hlu, Hlenu. exact Htr. }
    cbn [andb]. rewrite run_modify. reflexivity. }
  eexists. split; [exact Hphase|].
  pose proof (in_range_bounds _ _ Hidx) as [Hi0 Hi1].
  pose proof (in_range_bounds _ _ Htr) as [Ht0 _].
  assert (Hne : target <> agent_idx s).
  { subst target dir. destruct action; simpl; lia. }
  unfold GetItem, IndexFromDirection. fields.
  unfold mark_updated, write_cell. fields.
  split; [|split; [|split; [|split]]].
  - rewrite vector_at_insert_ne by done. rewrite vector_at_insert_eq by done.
    unfold vector_at, cell. destruct (Z.ltb_spec (agent_idx s) 0); [lia|].
    destruct (grid s !! Z.to_nat (agent_idx s)) eqn:Hcell; [done|].
    apply lookup_ge_None in Hcell. lia.
  - apply vector_at_insert_eq. by rewrite in_range_insert.
  - done.
  - by apply apply_action_after_agent_phase.
  - intros r'. rewrite (apply_action_after_agent_phase _ _ _ _ Hphase).
    unfold bind. destruct (scan fuel _) as [[] r2| |] eqn:Hscan; [|done..].
    intros [Hi Ha]%EndScan_keeps_agent. apply scan_keeps_agent in Hscan as [Hi2 Ha2].
    rewrite Hi, Hi2, Ha. split; [done|]. by apply Ha2.
Qed.

End DeadAgent.

(** C8, witness: the stone has killed the agent and the explosion has
    cleared; the next apply_action(Up) moves the empty cell at the stale
    agent_idx 7 up, and agent_idx becomes 4. *)
Lemma dead_agent_is_still_moved_witness :
  exists s,
    play_level (cat := spec_catalog) false "3|3|0|1|3|1|1|1|1|1|0|1" with_gravity 9
      [ActDown; ActDown; ActDown] = Some s /\
    is_agent_alive s = false /\ agent_idx s = 7 /\
    exists r1,
      agent_phase (cat := spec_catalog) ActUp (start s) = Ok tt r1 /\
      GetItem (IndexFromDirection s (agent_idx s) kUp) kNoop (st r1) =
        GetItem (agent_idx s) kNoop s /\
      GetItem (agent_idx s) kNoop (st r1) = Some kEmpty /\
      agent_idx (st r1) = IndexFromDirection s (agent_idx s) kUp /\
      apply_action (cat := spec_catalog) 9 ActUp (start s) =
        (scan (cat := spec_catalog) 9 ;; EndScan) r1 /\
      forall r', apply_action (cat := spec_catalog) 9 ActUp (start s) = Ok tt r' ->
                 agent_idx (st r') = IndexFromDirection s (agent_idx s) kUp /\
                 is_agent_alive (st r') = false.
Proof.
  eexists. split; [vm_compute; reflexivity|]. split; [reflexivity|]. split; [reflexivity|].
  apply (dead_agent_is_still_moved (cat := spec_catalog) 9 ActUp).
  - reflexivity.
  - split; reflexivity.
  - reflexivity.
  - vm_compute. reflexivity.
Defined.

Lemma cbind_Thrown {A B} (c : Construction A) (k : A -> Construction B) e :
  cbind c k = Thrown e -> c = Thrown e \/ exists a, c = Constructed a /\ k a = Thrown e.
Proof. destruct c; simpl; [eauto|intros [= ->]; by left|done..]. Qed.

Lemma stoi_Thrown str e : stoi str = Thrown e -> construction_error e.
Proof.
  unfold stoi. destruct (match skip_spaces str with String _ _ => _ | _ => _ end) as [neg s].
  destruct (read_digits 0 false s) as [magnitude seen].
  destruct (negb seen); [intros [= <-]; constructor|].
  destruct (_ || _); [intros [= <-]; constructor|done].
Qed.

Lemma read_digits_nonneg s acc seen : 0 <= acc -> 0 <= fst (read_digits acc seen s).
Proof.
  revert acc seen. induction s as [|c s IH]; intros acc seen Hacc; simpl; [done|].
  unfold digit_value.
  destruct ((48 <=? nat_of_ascii c)%nat && (nat_of_ascii c <=? 57)%nat) eqn:Hd; [|done].
  apply IH. apply andb_true_iff in Hd as [H1%Nat.leb_le H2]. lia.
Qed.

Lemma stoi_range str v : stoi str = Constructed v -> INT_MIN <= v <= INT_MAX.
Proof.
  unfold stoi. destruct (match skip_spaces str with String _ _ => _ | _ => _ end) as [neg s].
  destruct (read_digits 0 false s) as [magnitude seen].
  destruct (negb seen); [done|].
  destruct ((_ <? INT_MIN) || (INT_MAX <? _)) eqn:Hr; [done|]. intros [= <-].
  apply orb_false_iff in Hr as [H1%Z.ltb_ge H2%Z.ltb_ge]. lia.
Qed.

Lemma initial_hash_not_Thrown flat_size g l acc e :
  initial_hash flat_size g l acc <> Thrown e.
Proof.
  revert acc. induction l as [|i l IH]; intros acc; simpl; [done|].
  destruct (vector_at g i); [apply IH|done].
Qed.

Lemma parse_cells_Thrown segments i b e :
  parse_cells segments i b = Thrown e -> construction_error e.
Proof.
  revert i b. induction segments as [|segment rest IH]; intros i b; simpl; [done|].
  intros [Hstoi|(hidden_type & _ & Hrest)]%cbind_Thrown; [by eapply stoi_Thrown|].
  destruct ((hidden_type <? 0) || (kNumHiddenCellType <=? hidden_type)) eqn:Hcode.
  - injection Hrest as <-. constructor.
    apply orb_true_iff in Hcode as [H%Z.ltb_lt|H%Z.leb_le]; lia.
  - by eapply IH.
Qed.

Section TokenCount.

Variable ndebug : bool.

Lemma seg_at_Thrown seglist i e : seg_at seglist i <> Thrown e.
Proof. unfold seg_at. by destruct (seglist !! i). Qed.

Lemma assert_Thrown condition e : assert_ ndebug condition <> Thrown e.
Proof. unfold assert_. by destruct (ndebug || condition). Qed.

Lemma int_mul_Thrown a b e : int_mul a b <> Thrown e.
Proof. unfold int_mul. by destruct (_ || _). Qed.

Lemma views_iota_Thrown bound e : views_iota bound <> Thrown e.
Proof. unfold views_iota. by destruct (bound <? 0). Qed.

Lemma assert_that_Thrown a b size e :
  assert_that ndebug (product <~ int_mul a b ;; Constructed (size =? u64 (u64 product + 3)))
  <> Thrown e.
Proof.
  unfold assert_that, int_mul. destruct ndebug; [done|].
  destruct (_ || _); simpl; [done|]. by destruct (size =? _).
Qed.

Lemma parse_board_str_Thrown board_str e :
  parse_board_str ndebug board_str = Thrown e -> construction_error e.
Proof.
  unfold parse_board_str. cbv zeta.
  intros [H|(? & _ & H)]%cbind_Thrown; [by apply assert_Thrown in H|].
  apply cbind_Thrown in H as [H|(? & _ & H)]; [by apply seg_at_Thrown in H|].
  apply cbind_Thrown in H as [H|(? & _ & H)]; [by eapply stoi_Thrown|].
  apply cbind_Thrown in H as [H|(? & _ & H)]; [by apply seg_at_Thrown in H|].
  apply cbind_Thrown in H as [H|(? & _ & H)]; [by eapply stoi_Thrown|].
  apply cbind_Thrown in H as [H|(? & _ & H)]; [by apply assert_that_Thrown in H|].
  apply cbind_Thrown in H as [H|(? & _ & H)]; [by apply seg_at_Thrown in H|].
  apply cbind_Thrown in H as [H|(? & _ & H)]; [by eapply stoi_Thrown|].
  apply cbind_Thrown in H as [H|(b & _ & H)]; [by eapply parse_cells_Thrown|].
  destruct (board_agent_counter b =? 0); [injection H as <-; constructor|].
  destruct (1 <? board_agent_counter b); [injection H as <-; constructor|done].
Qed.

Lemma new_state_Thrown board_str params e :
  new_state ndebug board_str params = Thrown e -> construction_error e.
Proof.
  unfold new_state.
  intros [H|(b & _ & H)]%cbind_Thrown; [by eapply parse_board_str_Thrown|].
  apply cbind_Thrown in H as [H|(? & _ & H)]; [by apply int_mul_Thrown in H|].
  apply cbind_Thrown in H as [H|(? & _ & H)]; [by apply int_mul_Thrown in H|].
  apply cbind_Thrown in H as [H|(? & _ & H)]; [by apply views_iota_Thrown in H|].
  apply cbind_Thrown in H as [H|(? & _ & H)]; [|done].
  by apply initial_hash_not_Thrown in H.
Qed.

End TokenCount.

Lemma sum_list_update (f g : nat -> nat) a n j :
  (a <= j < a + n)%nat ->
  (forall i, i <> j -> g i = f i) ->
  (sum_list (map g (seq a n)) + f j = sum_list (map f (seq a n)) + g j)%nat.
Proof.
  revert a. induction n as [|n IH]; intros a Hj Hfg; [lia|]. simpl.
  destruct (decide (a = j)) as [->|Hne].
  - rewrite (map_ext_in g f (seq (S j) n)).
    + generalize (sum_list (map f (seq (S j) n))). intros. lia.
    + intros i Hi%in_seq. apply Hfg. lia.
  - rewrite (Hfg a Hne). specialize (IH (S a) ltac:(lia) Hfg).
    revert IH. generalize (sum_list (map f (seq (S a) n))), (sum_list (map g (seq (S a) n))).
    intros. lia.
Qed.

Lemma sum_list_bounded (f : nat -> nat) a n :
  (forall i, f i <= 1)%nat -> (sum_list (map f (seq a n)) <= n)%nat.
Proof.
  intros Hf. revert a. induction n as [|n IH]; intros a; simpl; [lia|].
  specialize (IH (S a)). specialize (Hf a). revert IH.
  generalize (sum_list (map f (seq (S a) n))). intros. lia.
Qed.

Lemma sum_list_member (f : nat -> nat) a n j :
  (a <= j < a + n)%nat -> (f j <= sum_list (map f (seq a n)))%nat.
Proof.
  revert a. induction n as [|n IH]; intros a Hj; simpl; [lia|].
  destruct (decide (a = j)) as [->|Hne]; [lia|]. specialize (IH (S a) ltac:(lia)).
  revert IH. generalize (sum_list (map f (seq (S a) n))). intros. lia.
Qed.

Section PotentialLemmas.

Context {cat : Catalog}.

Lemma weight_le_1 s i : (weight s i <= 1)%nat.
Proof. unfold weight. destruct (grid s !! i); [|lia]. destruct (_ || _); lia. Qed.

Lemma potential_bounded s : (potential s <= length (grid s))%nat.
Proof. apply sum_list_bounded, weight_le_1. Qed.

Lemma weight_in_grid s i : weight s i = 1%nat -> (i < length (grid s))%nat.
Proof.
  unfold weight. destruct (grid s !! i) eqn:He; [|done]. intros _.
  by eapply lookup_lt_Some.
Qed.

Lemma live_potential s j : live s j -> (1 <= potential s)%nat.
Proof.
  intros [_ Hw]. rewrite <- Hw. apply sum_list_member.
  apply weight_in_grid in Hw. lia.
Qed.

Lemma potential_update s s' j :
  length (grid s') = length (grid s) ->
  (j < length (grid s))%nat ->
  (forall i, i <> j -> weight s' i = weight s i) ->
  (potential s' + weight s j = potential s + weight s' j)%nat.
Proof.
  intros Hlen Hj Hother. unfold potential. rewrite Hlen.
  apply sum_list_update; [lia|done].
Qed.

Lemma weight_can_explode s i e :
  grid s !! i = Some e -> can_explode e = true -> weight s i = 1%nat.
Proof. intros He Hce. unfold weight. by rewrite He, Hce. Qed.

Lemma weight_pending s i e :
  grid s !! i = Some e -> has_updated s !! i = Some false -> e <> kEmpty ->
  weight s i = 1%nat.
Proof.
  intros He Hu Hne. unfold weight. rewrite He, Hu. simpl.
  apply cell_eqb_neq in Hne. rewrite Hne. by rewrite orb_true_r.
Qed.

Lemma weight_updated s i e :
  grid s !! i = Some e -> has_updated s !! i = Some true ->
  weight s i = if can_explode e then 1%nat else 0%nat.
Proof. intros He Hu. unfold weight. rewrite He, Hu. simpl. by rewrite orb_false_r. Qed.

Lemma weight_ext s s' i :
  grid s' !! i = grid s !! i -> has_updated s' !! i = has_updated s !! i ->
  weight s' i = weight s i.
Proof. intros Hg Hu. unfold weight. by rewrite Hg, Hu. Qed.

(* One cell written through SetItem: the state after it, at the cell j. *)
Lemma potential_after_write j el s :
  in_range (grid s) j = true -> in_range (has_updated s) j = true ->
  let s' := mark_updated j (write_cell j el s) in
  (potential s' + weight s (Z.to_nat j) =
     potential s + (if can_explode el then 1 else 0))%nat /\
  weight s' (Z.to_nat j) = (if can_explode el then 1 else 0)%nat /\
  forall i, i <> Z.to_nat j -> weight s' i = weight s i.
Proof.
  intros [Hj0 Hj]%in_range_bounds [_ Hju]%in_range_bounds s'.
  assert (Hother : forall i, i <> Z.to_nat j -> weight s' i = weight s i).
  { intros i Hi. apply weight_ext; subst s'; unfold mark_updated, write_cell; fields;
      by rewrite list_lookup_insert_ne. }
  assert (Hw : weight s' (Z.to_nat j) = (if can_explode el then 1 else 0)%nat).
  { apply weight_updated; subst s'; unfold mark_updated, write_cell; fields;
      by apply list_lookup_insert_eq. }
  split; [|done]. rewrite <- Hw. apply potential_update; [|done..].
  subst s'. unfold mark_updated, write_cell. fields. by rewrite length_insert.
Qed.

End PotentialLemmas.

Section WeakestPre.

Context {A B : Type} (oof : Prop).

Lemma wp_ret (a : A) (Q : A -> Run -> Prop) r : Q a r -> wp oof (ret a) Q r.
Proof. done. Qed.

Lemma wp_bind (m : M A) (k : A -> M B) (Q : B -> Run -> Prop) r :
  wp oof m (fun a r' => wp oof (k a) Q r') r -> wp oof (bind m k) Q r.
Proof. unfold wp, bind. by destruct (m r). Qed.

Lemma wp_mono (m : M A) (Q Q' : A -> Run -> Prop) r :
  wp oof m Q r -> (forall a r', Q a r' -> Q' a r') -> wp oof m Q' r.
Proof. unfold wp. destruct (m r); auto. Qed.

Lemma wp_bind_ask (q : Query A) (k : A -> M B) (Q : B -> Run -> Prop) r :
  (forall a, q (st r) = Some a -> wp oof (k a) Q r) -> wp oof (bind (ask q) k) Q r.
Proof. intros H. unfold wp. rewrite bind_ask. destruct (q (st r)); [by apply H|done]. Qed.

Lemma wp_bind_at (o : option A) (k : A -> M B) (Q : B -> Run -> Prop) r :
  (forall a, o = Some a -> wp oof (k a) Q r) -> wp oof (bind (at_ o) k) Q r.
Proof. intros H. unfold wp. rewrite bind_at. destruct o; [by apply H|done]. Qed.

Lemma wp_bind_gets (f : BoulderDashGameState -> A) (k : A -> M B) (Q : B -> Run -> Prop) r :
  wp oof (k (f (st r))) Q r -> wp oof (bind (gets f) k) Q r.
Proof. done. Qed.

End WeakestPre.

Lemma wp_bind_get_state {B} oof (k : BoulderDashGameState -> M B) (Q : B -> Run -> Prop) r :
  wp oof (k (st r)) Q r -> wp oof (bind get_state k) Q r.
Proof. done. Qed.

Lemma wp_bind_modify {B} oof f (k : unit -> M B) (Q : B -> Run -> Prop) r :
  wp oof (k tt) Q (with_state r (f (st r))) -> wp oof (bind (modify f) k) Q r.
Proof. done. Qed.

Lemma wp_modify oof f (Q : unit -> Run -> Prop) r :
  Q tt (with_state r (f (st r))) -> wp oof (modify f) Q r.
Proof. done. Qed.

Lemma wp_SetItem oof index el dir (Q : unit -> Run -> Prop) r :
  (forall j, j = IndexFromDirection (st r) index dir ->
   in_range (grid (st r)) j = true -> in_range (has_updated (st r)) j = true ->
   Q tt (with_state r (mark_updated j (write_cell j el (st r))))) ->
  wp oof (SetItem index el dir) Q r.
Proof.
  intros H. specialize (H _ eq_refl). unfold wp. rewrite SetItem_eq. cbv zeta.
  destruct (in_range (grid (st r)) _); [|done].
  destruct (in_range (has_updated (st r)) _); [|done]. by apply H.
Qed.

Lemma wp_for_each {A} oof (I : Run -> Prop) (l : list A) body r :
  I r ->
  (forall x r, I r -> wp oof (body x) (fun _ r' => I r') r) ->
  wp oof (for_each l body) (fun _ r' => I r') r.
Proof.
  intros Hr Hbody. revert r Hr. induction l as [|x l IH]; intros r Hr; [done|].
  simpl. apply wp_bind. eapply wp_mono; [by apply Hbody|]. intros [] r'. apply IH.
Qed.

(** *** Operations that keep an invariant *)

Section Tame.

Context (P : Run -> Prop).

Lemma tame_ret {A} (a : A) : tame P (ret a).
Proof. by intros r Hr. Qed.

Lemma tame_bind {A B} (m : M A) (k : A -> M B) :
  tame P m -> (forall a, tame P (k a)) -> tame P (bind m k).
Proof.
  intros Hm Hk r Hr. apply wp_bind. eapply wp_mono; [by apply Hm|].
  intros a r' Hr'. by apply Hk.
Qed.

Lemma tame_bind_at {A B} (o : option A) (k : A -> M B) :
  (forall a, o = Some a -> tame P (k a)) -> tame P (bind (at_ o) k).
Proof. intros H r Hr. apply wp_bind_at. intros a Ha. by apply H. Qed.

Lemma tame_ask {A} (q : Query A) : tame P (ask q).
Proof. intros r Hr. unfold wp, ask. by destruct (q (st r)). Qed.

Lemma tame_gets {A} (f : BoulderDashGameState -> A) : tame P (gets f).
Proof. by intros r Hr. Qed.

Lemma tame_get_state : tame P get_state.
Proof. by intros r Hr. Qed.

Lemma tame_at {A} (o : option A) : tame P (at_ o).
Proof. intros r Hr. by destruct o. Qed.

Lemma tame_fault {A} : tame P (@fault A).
Proof. by intros r Hr. Qed.

Lemma tame_when b m : tame P m -> tame P (when b m).
Proof. destruct b; [done|intros _; apply tame_ret]. Qed.

Lemma tame_for_each {A} (l : list A) body :
  (forall x, tame P (body x)) -> tame P (for_each l body).
Proof. intros H r Hr. apply wp_for_each; [done|]. intros x r0. apply H. Qed.

Lemma tame_modify f : (forall r, P r -> P (with_state r (f (st r)))) -> tame P (modify f).
Proof. intros H r Hr. by apply H. Qed.

End Tame.

Ltac tame_step :=
  lazymatch goal with
  | |- tame _ (bind (at_ _) _) => apply tame_bind_at; intros ? ?
  | |- tame _ (bind _ _) => apply tame_bind; [|intros ?]
  | |- tame _ (ret _) => apply tame_ret
  | |- tame _ (ask _) => apply tame_ask
  | |- tame _ (gets _) => apply tame_gets
  | |- tame _ get_state => apply tame_get_state
  | |- tame _ (at_ _) => apply tame_at
  | |- tame _ (when _ _) => apply tame_when
  | |- tame _ (for_each _ _) => apply tame_for_each; intros ?
  | |- tame _ (if ?b then _ else _) => destruct b
  | |- tame _ (match ?x with _ => _ end) => destruct x
  | |- _ => solve [eauto with tame]
  end.

Ltac tame_auto := repeat (cbv zeta; tame_step).

Create HintDb tame discriminated.

Section Budget.

Context {cat : Catalog}.
Hypothesis settle : explosions_settle.

Lemma budget_weaken B F F' r : (F <= F')%nat -> budget B F r -> budget B F' r.
Proof. unfold budget. lia. Qed.

(* A write of an element that cannot explode. *)
Lemma tame_SetItem_inert B F index el dir :
  can_explode el = false -> tame (budget B F) (SetItem index el dir).
Proof.
  intros Hel r [HB HF]. apply wp_SetItem. intros j Hjdef Hg Hu.
  destruct (potential_after_write j el (st r) Hg Hu) as (Hpot & _ & _).
  rewrite Hel in Hpot. unfold budget. fields. lia.
Qed.

(* A write over a cell that weighs 1. *)
Lemma wp_SetItem_live B F index el dir r :
  live (st r) (IndexFromDirection (st r) index dir) ->
  budget B F r ->
  wp False (SetItem index el dir) (fun _ r' => budget B F r') r.
Proof.
  intros [_ Hlive] [HB HF]. apply wp_SetItem. intros j Hjdef Hg Hu.
  destruct (potential_after_write j el (st r) Hg Hu) as (Hpot & _ & _).
  rewrite <- Hjdef in Hlive. rewrite Hlive in Hpot. unfold budget. fields.
  destruct (can_explode el); lia.
Qed.

(* A write of an element that cannot explode over a cell that weighs 1
   makes room for one more call. *)
Lemma wp_SetItem_spend B F index el dir r :
  live (st r) (IndexFromDirection (st r) index dir) ->
  can_explode el = false ->
  (potential (st r) + explode_calls r <= S B)%nat -> (potential (st r) <= S F)%nat ->
  wp False (SetItem index el dir) (fun _ r' => budget B F r') r.
Proof.
  intros [_ Hlive] Hel HB HF. apply wp_SetItem. intros j Hjdef Hg Hu.
  destruct (potential_after_write j el (st r) Hg Hu) as (Hpot & _ & _).
  rewrite <- Hjdef in Hlive. rewrite Hlive, Hel in Hpot. unfold budget. fields. lia.
Qed.

Lemma tame_MoveItem B F index dir : tame (budget B F) (MoveItem index dir).
Proof.
  intros r [HB HF]. unfold wp. rewrite MoveItem_eq. cbv zeta.
  set (j := IndexFromDirection (st r) index dir).
  destruct (in_range (grid (st r)) j) eqn:Hj; [|done].
  destruct (in_range (grid (st r)) index) eqn:Hi; [|done].
  destruct (in_range (has_updated (st r)) j) eqn:Hu; [|done].
  cbn [andb].
  set (moved := default kNull (grid (st r) !! Z.to_nat index)).
  enough (Hle : (potential (mark_updated j (write_cell index kEmpty
                    (write_cell j moved (st r)))) <= potential (st r))%nat).
  { unfold budget. fields. lia. }
  pose proof (in_range_bounds _ _ Hj) as [Hj0 Hjl].
  pose proof (in_range_bounds _ _ Hi) as [Hi0 Hil].
  pose proof (in_range_bounds _ _ Hu) as [_ Hul].
  assert (Hmoved : grid (st r) !! Z.to_nat index = Some moved).
  { subst moved. destruct (grid (st r) !! Z.to_nat index) eqn:E; [done|].
    apply lookup_ge_None in E. lia. }
  set (s' := mark_updated j _).
  destruct (decide (index = j)) as [Heq|Hne].
  - (* the cell is moved onto itself: it ends empty and updated *)
    assert (Hw : weight s' (Z.to_nat j) = 0%nat).
    { erewrite weight_updated; [by rewrite (empty_is_inert settle)| |].
      - subst s'. unfold mark_updated, write_cell. fields. rewrite Heq.
        apply list_lookup_insert_eq. by rewrite length_insert.
      - subst s'. unfold mark_updated, write_cell. fields.
        by apply list_lookup_insert_eq. }
    assert (Hpot : (potential s' + weight (st r) (Z.to_nat j) =
                    potential (st r) + weight s' (Z.to_nat j))%nat).
    { apply potential_update; [|done|].
      - subst s'. unfold mark_updated, write_cell. fields. by rewrite !length_insert.
      - intros i Hi'. apply weight_ext; subst s'; unfold mark_updated, write_cell; fields.
        + rewrite Heq, !list_lookup_insert_ne by done. done.
        + by rewrite list_lookup_insert_ne. }
    rewrite Hw in Hpot. lia.
  - (* two cells change: the source ends empty, the target holds what moved *)
    assert (Hnat : Z.to_nat index <> Z.to_nat j) by lia.
    set (s1 := mark_updated j (write_cell j moved (st r))).
    destruct (potential_after_write j moved (st r) Hj Hu) as (Hpot1 & Hwj & Hother1).
    fold s1 in Hpot1, Hwj, Hother1.
    assert (Hwi : weight s' (Z.to_nat index) = 0%nat).
    { unfold weight. subst s'. unfold mark_updated, write_cell. fields.
      rewrite list_lookup_insert_eq by (rewrite length_insert; lia).
      rewrite (empty_is_inert settle). cbn [cell_eqb to_underlying Z.eqb negb].
      by rewrite andb_false_r. }
    assert (Hsrc : ((if can_explode moved then 1 else 0) <= weight (st r) (Z.to_nat index))%nat).
    { unfold weight. rewrite Hmoved. destruct (can_explode moved); simpl; [lia|].
      destruct (_ && _); lia. }
    assert (Hpot2 : (potential s' + weight s1 (Z.to_nat index) =
                     potential s1 + weight s' (Z.to_nat index))%nat).
    { apply potential_update.
      - subst s' s1. unfold mark_updated, write_cell. fields. by rewrite !length_insert.
      - subst s1. unfold mark_updated, write_cell. fields. rewrite length_insert. lia.
      - intros i Hi'. apply weight_ext; subst s' s1; unfold mark_updated, write_cell; fields.
        + by rewrite (list_lookup_insert_ne (<[_:=_]> _)).
        + done. }
    rewrite Hwi, (Hother1 (Z.to_nat index) Hnat) in Hpot2.
    lia.
Qed.

End Budget.

Section ExplodeBudget.

Context {cat : Catalog}.
Hypothesis settle : explosions_settle.

Lemma HasProperty_live index dir s :
  HasProperty index kCanExplode dir s = Some true ->
  live s (IndexFromDirection s index dir).
Proof.
  intros (_ & e & He & Hce)%HasProperty_true.
  pose proof (vector_at_in_range _ _ _ He) as [H0 _]%in_range_bounds.
  apply vector_at_Some in He as [_ He]. split; [done|].
  by eapply weight_can_explode.
Qed.

Lemma tame_budget_modify B F f :
  (forall s, grid (f s) = grid s /\ has_updated (f s) = has_updated s) ->
  tame (budget B F) (modify f).
Proof.
  intros Hf. apply tame_modify. intros r [HB HF].
  assert (Hpot : potential (f (st r)) = potential (st r)).
  { unfold potential. destruct (Hf (st r)) as [Hg Hu]. rewrite Hg.
    f_equal. apply map_ext. intros i. apply weight_ext; congruence. }
  unfold budget. fields. rewrite Hpot. done.
Qed.

Lemma tame_budget_agent_dies B F : tame (budget B F) (modify (set_is_agent_alive false)).
Proof. by apply tame_budget_modify. Qed.

Lemma tame_budget_magic_on B F : tame (budget B F) (modify (set_magic_active true)).
Proof. by apply tame_budget_modify. Qed.

Lemma tame_budget_or_reward B F code : tame (budget B F) (or_reward code).
Proof. by apply tame_budget_modify. Qed.

Lemma tame_budget_blob_grows B F :
  tame (budget B F) (modify (fun s => set_blob_size (blob_size s + 1) s)).
Proof. by apply tame_budget_modify. Qed.

Lemma tame_budget_blob_open B F : tame (budget B F) (modify (set_blob_enclosed false)).
Proof. by apply tame_budget_modify. Qed.

Lemma tame_budget_xorshift64 B F : tame (budget B F) xorshift64.
Proof.
  unfold xorshift64. apply tame_bind; [apply tame_gets|intros x].
  apply tame_bind; [by apply tame_budget_modify|intros _; apply tame_ret].
Qed.

Lemma tame_budget_note_chain B F c : tame (budget B F) (note_chain c).
Proof. by intros r Hr. Qed.

Lemma tame_budget_explosion_product B F index e dir :
  tame (budget B F) (SetItem index (explosion_of e) dir).
Proof. apply tame_SetItem_inert, (product_is_inert settle). Qed.

Lemma tame_budget_empty B F index dir : tame (budget B F) (SetItem index kEmpty dir).
Proof. apply tame_SetItem_inert, (empty_is_inert settle). Qed.

Lemma tame_budget_diamond B F index dir : tame (budget B F) (SetItem index kDiamond dir).
Proof. apply tame_SetItem_inert, (diamond_is_inert settle). Qed.

Lemma tame_budget_blob B F index dir : tame (budget B F) (SetItem index kBlob dir).
Proof. apply tame_SetItem_inert, (blob_is_inert settle). Qed.

Lemma wp_bind_note_explode {B} oof (k : unit -> M B) (Q : B -> Run -> Prop) r :
  wp oof (k tt) Q (mkRun (st r) (S (explode_calls r)) (chain_calls r)) ->
  wp oof (bind note_explode k) Q r.
Proof. done. Qed.

Lemma wp_tame {A} (P : Run -> Prop) (m : M A) r : tame P m -> P r -> wp False m (fun _ r' => P r') r.
Proof. intros H. apply H. Qed.

Lemma wp_Explode B fuel F index el dir r :
  (F <= fuel)%nat ->
  live (st r) (IndexFromDirection (st r) index dir) ->
  can_explode el = false ->
  budget B F r ->
  wp False (Explode fuel index el dir) (fun _ r' => budget B F r') r.
Proof.
  revert F index el dir r.
  induction fuel as [|fuel IH]; intros F index el dir r Hfuel Hlive Hel [HB HF].
  - apply live_potential in Hlive. lia.
  - pose proof (live_potential _ _ Hlive) as Hpos.
    cbn [Explode]. apply wp_bind_note_explode, wp_bind_get_state. cbn [st].
    set (new_index := IndexFromDirection (st r) index dir) in *.
    apply wp_bind_ask. intros found Hfound.
    apply wp_bind.
    apply (wp_mono _ _ (fun _ r' => st r' = st r /\ explode_calls r' = S (explode_calls r) \/
                                     exists s', st r' = s' /\ grid s' = grid (st r) /\
                                       has_updated s' = has_updated (st r) /\
                                       rows s' = rows (st r) /\ cols s' = cols (st r) /\
                                       explode_calls r' = S (explode_calls r))).
    { destruct (cell_eqb found kAgent); simpl; [|by left].
      right. eexists. split; [reflexivity|]. done. }
    intros [] r2 Hr2.
    assert (Hsame : grid (st r2) = grid (st r) /\ has_updated (st r2) = has_updated (st r) /\
                    cols (st r2) = cols (st r) /\ explode_calls r2 = S (explode_calls r)).
    { destruct Hr2 as [[-> ->]|(s' & <- & ? & ? & ? & ? & ?)]; done. }
    clear Hr2. destruct Hsame as (Hg & Hu & Hc & Hcalls).
    assert (Hpot : potential (st r2) = potential (st r)).
    { unfold potential. rewrite Hg. f_equal. apply map_ext. intros i.
      apply weight_ext; congruence. }
    apply wp_bind.
    eapply wp_mono.
    { apply (wp_SetItem_spend B (pred F)).
      - cbn [IndexFromDirection]. destruct Hlive as [H0 Hw]. split; [done|].
        rewrite <- Hw. apply weight_ext; congruence.
      - done.
      - lia.
      - lia. }
    intros [] r3 Hr3.
    eapply wp_mono.
    { apply (wp_for_each False (budget B (pred F))); [done|].
      intros dir_index rk Hrk.
      apply wp_bind_ask. intros skip Hskip. destruct skip; [done|].
      apply wp_bind_ask. intros chain Hchain. destruct chain.
      - apply wp_bind_ask. intros neighbor _.
        apply wp_bind. unfold wp at 1. cbn [note_chain].
        apply IH; [lia| |apply (product_is_inert settle)|done].
        by apply HasProperty_live.
      - apply wp_bind_ask. intros consumable _. destruct consumable; [|done].
        apply wp_tame; [|done].
        apply tame_bind; [apply tame_budget_explosion_product|intros _].
        apply tame_bind; [apply tame_ask|intros now_there].
        apply tame_when, tame_budget_agent_dies. }
    intros [] r4. apply budget_weaken. lia.
Qed.


(** *** The update rules *)

#[local] Hint Resolve tame_budget_agent_dies tame_budget_magic_on tame_budget_or_reward
  tame_budget_blob_grows tame_budget_blob_open tame_budget_xorshift64
  tame_budget_explosion_product tame_budget_empty tame_budget_diamond tame_budget_blob
  tame_SetItem_inert tame_MoveItem : tame.

Lemma qand_true (a b : Query bool) s :
  qand a b s = Some true -> a s = Some true /\ b s = Some true.
Proof. unfold qand. by destruct (a s) as [[]|]. Qed.

Lemma tame_MoveThroughMagic B F index el :
  can_explode el = false -> tame (budget B F) (MoveThroughMagic index el).
Proof. intros Hel. unfold MoveThroughMagic. tame_auto. Qed.

Lemma wp_bind_xorshift64 {A} oof (k : Z -> M A) (Q : A -> Run -> Prop) r :
  (let x := xorshift64_next (random_state (st r)) in
   wp oof (k x) Q (with_state r (set_random_state x (st r)))) ->
  wp oof (bind xorshift64 k) Q r.
Proof. done. Qed.

Lemma wp_bind_or_reward {A} oof code (k : unit -> M A) (Q : A -> Run -> Prop) r :
  wp oof (k tt) Q (with_state r (set_reward_signal (Z.lor (reward_signal (st r)) code) (st r))) ->
  wp oof (bind (or_reward code) k) Q r.
Proof. done. Qed.

(* A write of any element over the cell under update, then steps that keep
   the budget. *)
Lemma wp_write_then_tame B F index el (m : M unit) r :
  live (st r) index -> budget B F r -> tame (budget B F) m ->
  wp False (SetItem index el kNoop ;; m) (fun _ r' => budget B F r') r.
Proof.
  intros Hlive Hb Hm. apply wp_bind. eapply wp_mono; [by apply wp_SetItem_live|].
  intros [] r' Hr'. by apply Hm.
Qed.

Lemma IsType_below_after_write index el s :
  IsType index kEmpty kDown s = Some true ->
  in_range (grid s) index = true ->
  IsType index kEmpty kDown (mark_updated index (write_cell index el s)) = Some true.
Proof.
  intros [Hin Hbelow]%IsType_true [Hi0 _]%in_range_bounds. apply IsType_true.
  split; [exact Hin|].
  apply InBounds_cols in Hin.
  change (vector_at (<[Z.to_nat index := el]> (grid s)) (index + cols s) = Some kEmpty).
  rewrite vector_at_insert_ne; [exact Hbelow|lia|done].
Qed.

(* A resting element with an empty cell below it: it is turned into its
   falling kind, whose rule then moves it down. *)
Lemma wp_settle_then_fall B F index el (falling_rule : M unit) r :
  (forall r', IsType index kEmpty kDown (st r') = Some true ->
              falling_rule r' = MoveItem index kDown r') ->
  IsType index kEmpty kDown (st r) = Some true ->
  live (st r) index -> budget B F r ->
  wp False (SetItem index el kNoop ;; falling_rule) (fun _ r' => budget B F r') r.
Proof.
  intros Hfalls Hbelow Hlive Hb. apply wp_bind.
  assert (Hw : wp False (SetItem index el kNoop) (fun _ r' => budget B F r') r)
    by (by apply wp_SetItem_live).
  revert Hw. unfold wp at 1 2. rewrite SetItem_eq. cbv zeta. cbn [IndexFromDirection].
  destruct (in_range (grid (st r)) index) eqn:Hg; [|done].
  destruct (in_range (has_updated (st r)) index) eqn:Hu; [|done].
  cbn [andb]. intros Hb1. unfold wp. rewrite Hfalls.
  - by apply tame_MoveItem.
  - cbn [st with_state]. by apply IsType_below_after_write.
Qed.

Lemma UpdateStoneFalling_falls fuel index r :
  IsType index kEmpty kDown (st r) = Some true ->
  UpdateStoneFalling fuel index r = MoveItem index kDown r.
Proof. intros H. unfold UpdateStoneFalling. by rewrite ask_true. Qed.

Lemma UpdateDiamondFalling_falls fuel index r :
  IsType index kEmpty kDown (st r) = Some true ->
  UpdateDiamondFalling fuel index r = MoveItem index kDown r.
Proof. intros H. unfold UpdateDiamondFalling. by rewrite ask_true. Qed.

Lemma UpdateNutFalling_falls index r :
  IsType index kEmpty kDown (st r) = Some true ->
  UpdateNutFalling index r = MoveItem index kDown r.
Proof. intros H. unfold UpdateNutFalling. by rewrite ask_true. Qed.

Lemma UpdateBombFalling_falls fuel index r :
  IsType index kEmpty kDown (st r) = Some true ->
  UpdateBombFalling fuel index r = MoveItem index kDown r.
Proof. intros H. unfold UpdateBombFalling. by rewrite ask_true. Qed.

Lemma wp_self_destruct B F fuel index r :
  (F <= fuel)%nat -> live (st r) index -> budget B F r ->
  wp False (self_destruct fuel index) (fun _ r' => budget B F r') r.
Proof.
  intros Hfuel Hlive Hb. unfold self_destruct. apply wp_bind_ask. intros self _.
  apply wp_Explode; [done|done|apply (product_is_inert settle)|done].
Qed.

Ltac wp_step :=
  lazymatch goal with
  | |- wp _ (bind (ask _) _) _ _ => apply wp_bind_ask; intros ? ?
  | |- wp _ (bind (gets _) _) _ _ => apply wp_bind_gets
  | |- wp _ (bind get_state _) _ _ => apply wp_bind_get_state
  | |- wp _ (bind (at_ _) _) _ _ => apply wp_bind_at; intros ? ?
  | |- wp _ (bind (or_reward _) _) _ _ => apply wp_bind_or_reward
  | |- wp _ (bind xorshift64 _) _ _ => apply wp_bind_xorshift64; intros ?
  | |- wp _ (ret _) _ _ => apply wp_ret
  | |- wp _ (if ?b then _ else _) _ _ => first [is_var b; destruct b|destruct b eqn:?]
  | |- wp _ (match ?x with [] => _ | _ :: _ => _ end) _ _ => destruct x
  end.

Ltac by_budget :=
  lazymatch goal with
  | H : budget ?B ?F _ |- budget ?B ?F _ => exact H
  end.

Ltac by_live :=
  lazymatch goal with
  | H : live _ ?i |- live _ _ => exact H
  end.

Ltac by_fuel :=
  lazymatch goal with
  | H : (_ <= _)%nat |- (_ <= _)%nat => exact H
  end.

Ltac below_can_explode :=
  apply HasProperty_live;
  first [ eassumption
        | lazymatch goal with
          | H : qand _ _ _ = Some true |- _ => apply qand_true in H as [? _]; eassumption
          end ].

Ltac close_rule :=
  lazymatch goal with
  | |- budget _ _ _ => by_budget
  | |- wp _ (MoveItem _ _) _ _ => apply wp_tame; [apply (tame_MoveItem settle)|by_budget]
  | |- wp _ (RollLeft _ _) _ _ =>
      apply wp_write_then_tame; [by_live|by_budget|apply (tame_MoveItem settle)]
  | |- wp _ (RollRight _ _) _ _ =>
      apply wp_write_then_tame; [by_live|by_budget|apply (tame_MoveItem settle)]
  | |- wp _ (SetItem _ _ kNoop) _ _ => apply wp_SetItem_live; [by_live|by_budget]
  | |- wp _ (self_destruct _ _) _ _ => apply wp_self_destruct; [by_fuel|by_live|by_budget]
  | |- wp _ (Explode _ _ _ kNoop) _ _ =>
      apply wp_Explode; [by_fuel|by_live|apply (product_is_inert settle)|by_budget]
  | |- wp _ (Explode _ _ _ kDown) _ _ =>
      apply wp_Explode;
        [by_fuel|below_can_explode|apply (product_is_inert settle)|by_budget]
  | |- wp _ (MoveThroughMagic _ _) _ _ =>
      apply wp_tame;
        [apply tame_MoveThroughMagic; eapply (converted_is_inert settle); eassumption
        |by_budget]
  | |- wp _ (bind (SetItem _ _ _) _) _ _ =>
      first [ apply wp_tame; [solve [tame_auto]|by_budget]
            | apply wp_write_then_tame; [by_live|by_budget|solve [tame_auto]] ]
  | |- wp _ (bind (modify _) _) _ _ => apply wp_tame; [solve [tame_auto]|by_budget]
  end.

Ltac rule_auto := repeat wp_step; try close_rule.

Lemma wp_UpdateStoneFalling B F fuel index r :
  (F <= fuel)%nat -> live (st r) index -> budget B F r ->
  wp False (UpdateStoneFalling fuel index) (fun _ r' => budget B F r') r.
Proof. intros Hfuel Hlive Hb. unfold UpdateStoneFalling. rule_auto. Qed.

Lemma wp_UpdateStone B F fuel index r :
  (F <= fuel)%nat -> live (st r) index -> budget B F r ->
  wp False (UpdateStone fuel index) (fun _ r' => budget B F r') r.
Proof.
  intros Hfuel Hlive Hb. unfold UpdateStone. wp_step. wp_step; [rule_auto|]. wp_step. wp_step; [|rule_auto].
  apply wp_settle_then_fall; [apply UpdateStoneFalling_falls|done..].
Qed.

Lemma wp_UpdateDiamondFalling B F fuel index r :
  (F <= fuel)%nat -> live (st r) index -> budget B F r ->
  wp False (UpdateDiamondFalling fuel index) (fun _ r' => budget B F r') r.
Proof. intros Hfuel Hlive Hb. unfold UpdateDiamondFalling. rule_auto. Qed.

Lemma wp_UpdateDiamond B F fuel index r :
  (F <= fuel)%nat -> live (st r) index -> budget B F r ->
  wp False (UpdateDiamond fuel index) (fun _ r' => budget B F r') r.
Proof.
  intros Hfuel Hlive Hb. unfold UpdateDiamond. wp_step. wp_step; [rule_auto|]. wp_step. wp_step; [|rule_auto].
  apply wp_settle_then_fall; [apply UpdateDiamondFalling_falls|done..].
Qed.

Lemma wp_UpdateNutFalling B F index r :
  live (st r) index -> budget B F r ->
  wp False (UpdateNutFalling index) (fun _ r' => budget B F r') r.
Proof. intros Hlive Hb. unfold UpdateNutFalling. rule_auto. Qed.

Lemma wp_UpdateNut B F index r :
  live (st r) index -> budget B F r ->
  wp False (UpdateNut index) (fun _ r' => budget B F r') r.
Proof.
  intros Hlive Hb. unfold UpdateNut. wp_step. wp_step; [rule_auto|]. wp_step. wp_step; [|rule_auto].
  apply wp_settle_then_fall; [apply UpdateNutFalling_falls|done..].
Qed.

Lemma wp_UpdateBombFalling B F fuel index r :
  (F <= fuel)%nat -> live (st r) index -> budget B F r ->
  wp False (UpdateBombFalling fuel index) (fun _ r' => budget B F r') r.
Proof. intros Hfuel Hlive Hb. unfold UpdateBombFalling. rule_auto. Qed.

Lemma wp_UpdateBomb B F fuel index r :
  (F <= fuel)%nat -> live (st r) index -> budget B F r ->
  wp False (UpdateBomb fuel index) (fun _ r' => budget B F r') r.
Proof.
  intros Hfuel Hlive Hb. unfold UpdateBomb. wp_step. wp_step; [rule_auto|]. wp_step. wp_step; [|rule_auto].
  apply wp_settle_then_fall; [apply UpdateBombFalling_falls|done..].
Qed.

Lemma wp_UpdateExit B F index r :
  live (st r) index -> budget B F r ->
  wp False (UpdateExit index) (fun _ r' => budget B F r') r.
Proof. intros Hlive Hb. unfold UpdateExit. rule_auto. Qed.

Lemma wp_UpdateFirefly B F fuel index dir r :
  (F <= fuel)%nat -> live (st r) index -> budget B F r ->
  wp False (UpdateFirefly fuel index dir) (fun _ r' => budget B F r') r.
Proof. intros Hfuel Hlive Hb. unfold UpdateFirefly. cbv zeta. rule_auto. Qed.

Lemma wp_UpdateButterfly B F fuel index dir r :
  (F <= fuel)%nat -> live (st r) index -> budget B F r ->
  wp False (UpdateButterfly fuel index dir) (fun _ r' => budget B F r') r.
Proof. intros Hfuel Hlive Hb. unfold UpdateButterfly. cbv zeta. rule_auto. Qed.

Lemma wp_UpdateOrange B F fuel index dir r :
  (F <= fuel)%nat -> live (st r) index -> budget B F r ->
  wp False (UpdateOrange fuel index dir) (fun _ r' => budget B F r') r.
Proof. intros Hfuel Hlive Hb. unfold UpdateOrange. rule_auto. Qed.

Lemma wp_UpdateMagicWall B F index r :
  live (st r) index -> budget B F r ->
  wp False (UpdateMagicWall index) (fun _ r' => budget B F r') r.
Proof. intros Hlive Hb. unfold UpdateMagicWall. rule_auto. Qed.

Lemma wp_UpdateBlob B F index r :
  live (st r) index -> budget B F r ->
  wp False (UpdateBlob index) (fun _ r' => budget B F r') r.
Proof. intros Hlive Hb. unfold UpdateBlob. rule_auto. Qed.

Lemma wp_UpdateExplosions B F index r :
  live (st r) index -> budget B F r ->
  wp False (UpdateExplosions index) (fun _ r' => budget B F r') r.
Proof. intros Hlive Hb. unfold UpdateExplosions. rule_auto. Qed.


(** *** The scan *)

Lemma wp_update_cell B F fuel i r :
  (F <= fuel)%nat -> budget B F r ->
  wp False (update_cell fuel i) (fun _ r' => budget B F r') r.
Proof.
  intros Hfuel Hb. unfold update_cell.
  apply wp_bind_ask. intros updated Hu. destruct updated; [done|].
  apply wp_bind_ask. intros e He.
  assert (Hlive : e <> kEmpty -> live (st r) i).
  { intros Hne. apply vector_at_Some in He as [[Hi0 _]%in_range_bounds He].
    apply vector_at_Some in Hu as [_ Hu]. split; [done|]. by eapply weight_pending. }
  pose proof (butterfly_not_empty settle) as Hn1.
  pose proof (firefly_not_empty settle) as Hn2.
  pose proof (orange_not_empty settle) as Hn3.
  pose proof (magic_wall_not_empty settle) as Hn4.
  pose proof (explosion_not_empty settle) as Hn5.
  assert (Hhere : forall P : Prop, (e = kEmpty -> P) -> (live (st r) i -> P) -> P).
  { intros P H1 H2.
    destruct (cell_eqb e kEmpty) eqn:E;
      [apply cell_eqb_eq in E|apply cell_eqb_neq in E]; auto. }
  clear He Hu.
  destruct e; repeat wp_step;
    lazymatch goal with
    | |- budget _ _ _ => by_budget
    | |- _ => apply (Hhere _); [congruence|intros Hl; clear Hhere Hlive]
    end;
    lazymatch goal with
    | |- wp _ (UpdateStone _ _) _ _ => by apply wp_UpdateStone
    | |- wp _ (UpdateStoneFalling _ _) _ _ => by apply wp_UpdateStoneFalling
    | |- wp _ (UpdateDiamond _ _) _ _ => by apply wp_UpdateDiamond
    | |- wp _ (UpdateDiamondFalling _ _) _ _ => by apply wp_UpdateDiamondFalling
    | |- wp _ (UpdateNut _) _ _ => by apply wp_UpdateNut
    | |- wp _ (UpdateNutFalling _) _ _ => by apply wp_UpdateNutFalling
    | |- wp _ (UpdateBomb _ _) _ _ => by apply wp_UpdateBomb
    | |- wp _ (UpdateBombFalling _ _) _ _ => by apply wp_UpdateBombFalling
    | |- wp _ (UpdateExit _) _ _ => by apply wp_UpdateExit
    | |- wp _ (UpdateBlob _) _ _ => by apply wp_UpdateBlob
    | |- wp _ (UpdateButterfly _ _ _) _ _ => by apply wp_UpdateButterfly
    | |- wp _ (UpdateFirefly _ _ _) _ _ => by apply wp_UpdateFirefly
    | |- wp _ (UpdateOrange _ _ _) _ _ => by apply wp_UpdateOrange
    | |- wp _ (UpdateMagicWall _) _ _ => by apply wp_UpdateMagicWall
    | |- wp _ (UpdateExplosions _) _ _ => by apply wp_UpdateExplosions
    end.
Qed.

Lemma wp_scan B F fuel r :
  (F <= fuel)%nat -> budget B F r ->
  wp False (scan fuel) (fun _ r' => budget B F r') r.
Proof.
  intros Hfuel Hb. unfold scan. apply wp_bind_get_state.
  apply wp_for_each; [done|]. intros i r0. by apply wp_update_cell.
Qed.

End ExplodeBudget.

(** *** The steps of a tick that make no Explode call *)

Section Quiet.

Context {cat : Catalog}.

Lemma tame_quiet_modify c n f :
  (forall s, length (grid (f s)) = length (grid s)) -> tame (quiet c n) (modify f).
Proof. intros Hf. apply tame_modify. intros r [Hc Hn]. split; [done|]. fields. by rewrite Hf. Qed.

Lemma tame_quiet_or_reward c n code : tame (quiet c n) (or_reward code).
Proof. by apply tame_quiet_modify. Qed.

Lemma tame_quiet_SetItem c n index el dir : tame (quiet c n) (SetItem index el dir).
Proof.
  intros r [Hc Hn]. apply wp_SetItem. intros j _ _ _. split; [done|]. fields.
  unfold mark_updated, write_cell. fields. by rewrite length_insert.
Qed.

Lemma tame_quiet_MoveItem c n index dir : tame (quiet c n) (MoveItem index dir).
Proof.
  intros r [Hc Hn]. unfold wp. rewrite MoveItem_eq. cbv zeta.
  destruct (_ && _ && _); [|done]. split; [done|]. fields.
  unfold mark_updated, write_cell. fields. by rewrite !length_insert.
Qed.

#[local] Hint Resolve tame_quiet_or_reward tame_quiet_SetItem tame_quiet_MoveItem : tame.
#[local] Hint Extern 1 (tame (quiet _ _) (modify _)) =>
  apply tame_quiet_modify; intros; reflexivity : tame.

Lemma tame_quiet_Push c n index stationary falling dir :
  tame (quiet c n) (Push index stationary falling dir).
Proof. unfold Push. tame_auto. Qed.

Lemma tame_quiet_OpenGate c n el : tame (quiet c n) (OpenGate el).
Proof. unfold OpenGate. tame_auto. Qed.

#[local] Hint Resolve tame_quiet_Push tame_quiet_OpenGate : tame.

Lemma tame_quiet_UpdateAgent c n index dir : tame (quiet c n) (UpdateAgent index dir).
Proof. unfold UpdateAgent. tame_auto. Qed.

Lemma tame_quiet_StartScan c n : tame (quiet c n) StartScan.
Proof. unfold StartScan. tame_auto. Qed.

Lemma tame_quiet_EndScan c n : tame (quiet c n) EndScan.
Proof. unfold EndScan. tame_auto. Qed.

End Quiet.

Lemma spec_catalog_explosions_settle : explosions_settle (cat := spec_catalog).
Proof.
  split; try reflexivity.
  - intros e. by destruct e.
  - intros e el. destruct e; simpl; intros [= <-]; reflexivity.
Qed.

(** C3: with a catalog whose explosion products cannot explode, on a board
    of rows*cols cells and with fuel for one nested call per cell, a call
    of apply_action never runs out of fuel, and when it returns it has
    made at most rows*cols calls of Explode. *)
Theorem explosions_are_bounded {cat : Catalog} fuel action s :
  explosions_settle ->
  well_formed s ->
  (length (grid s) <= fuel)%nat ->
  match apply_action fuel action (start s) with
  | Ok _ r' => Z.of_nat (explode_calls r') <= rows s * cols s
  | Fault => True
  | OutOfFuel => False
  end.
Proof.
  intros settle [Hcells _] Hfuel.
  change (wp False (apply_action fuel action)
            (fun _ r' => Z.of_nat (explode_calls r') <= rows s * cols s) (start s)).
  unfold apply_action.
  apply wp_bind. eapply wp_mono.
  { apply (tame_quiet_StartScan 0 (length (grid s))). by split. }
  intros [] r1 Hr1. cbv zeta. apply wp_bind_gets.
  apply wp_bind. eapply wp_mono; [by apply tame_quiet_UpdateAgent|].
  clear r1 Hr1. intros [] r1 [Hc1 Hn1].
  pose proof (potential_bounded (st r1)) as Hpot.
  apply wp_bind. eapply wp_mono.
  { apply (wp_scan settle (potential (st r1)) (potential (st r1))); [lia|].
    split; lia. }
  intros [] r2 [Hb2 _].
  eapply wp_mono; [by apply (tame_quiet_EndScan (explode_calls r2) (length (grid (st r2))))|].
  intros [] r3 [Hc3 _]. cbv beta. lia.
Qed.

(** C3, witness: a firefly next to the agent and a butterfly explodes, and
    the explosion chains into both: three calls on a board of three cells. *)
Lemma explosions_are_bounded_witness :
  exists s0,
    new_state false "1|3|0|0|10|14" default_parameters = Constructed s0 /\
    match apply_action (cat := spec_catalog) 3 ActUp (start s0) with
    | Ok _ r' => Z.of_nat (explode_calls r') <= rows s0 * cols s0
    | Fault => True
    | OutOfFuel => False
    end /\
    exists r',
      apply_action (cat := spec_catalog) 3 ActUp (start s0) = Ok tt r' /\
      explode_calls r' = 3%nat.
Proof.
  eexists. split; [vm_compute; reflexivity|]. split.
  - apply (explosions_are_bounded (cat := spec_catalog)).
    + exact spec_catalog_explosions_settle.
    + split; vm_compute; reflexivity.
    + simpl. lia.
  - eexists. split; vm_compute; reflexivity.
Defined.

Lemma iota_In lo hi i : In i (iota lo hi) <-> lo <= i < hi.
Proof.
  unfold iota. rewrite in_map_iff. split.
  - intros (k & <- & Hk%in_seq). lia.
  - intros Hi. exists (Z.to_nat (i - lo)). split; [lia|]. apply in_seq. lia.
Qed.

Lemma iota_sorted lo hi : StronglySorted Z.lt (iota lo hi).
Proof.
  unfold iota. generalize (Z.to_nat (hi - lo)) as n. generalize 0%nat as a.
  intros a n. revert a. induction n as [|n IH]; intros a; simpl; constructor.
  - apply IH.
  - apply List.Forall_forall. intros x (k & <- & Hk%in_seq)%in_map_iff. lia.
Qed.

Lemma filter_sorted {A} (R : A -> A -> Prop) (f : A -> bool) l :
  StronglySorted R l -> StronglySorted R (List.filter f l).
Proof.
  induction 1 as [|x l Hl IH Hx]; simpl; [constructor|].
  destruct (f x); [|done]. constructor; [done|].
  apply List.Forall_forall. intros y [Hy _]%filter_In.
  by eapply (proj1 (List.Forall_forall _ _) Hx).
Qed.

(** *** Positions and indices *)





(** *** Reading the grid *)

(** X3.  On a board whose grid holds rows*cols cells, get_hidden_item
    never reads outside the grid: for an index in [0, rows*cols) it returns
    the cell stored there, and for any other index it throws
    std::invalid_argument with the index and the map size in the message. *)
Theorem get_hidden_item_checks_bounds index s :
  well_formed s ->
  (0 <= index < rows s * cols s ->
     exists el, get_hidden_item index s = Constructed el /\
                grid s !! Z.to_nat index = Some el) /\
  (~ 0 <= index < rows s * cols s ->
     get_hidden_item index s = Thrown (invalid_argument (invalid_index_message index s))).
Proof.
  intros [Hlen _]. unfold get_hidden_item. split.
  - intros Hindex.
    rewrite (proj2 (Z.ltb_ge index 0)), (proj2 (Z.leb_gt (rows s * cols s) index)) by lia.
    simpl. unfold vector_at. rewrite (proj2 (Z.ltb_ge index 0)) by lia.
    destruct (grid s !! Z.to_nat index) as [el|] eqn:Hel; [by exists el|].
    apply lookup_ge_None in Hel. lia.
  - intros Hout.
    destruct (Z.ltb_spec index 0) as [|H0]; [done|].
    destruct (Z.leb_spec (rows s * cols s) index); [done|lia].
Qed.

(** X3, witness: index 4 of a 2 x 3 board holds Dirt, and index 6 is refused. *)
Lemma get_hidden_item_checks_bounds_witness :
  exists s,
    new_state false "2|3|0|0|1|1|1|2|1" default_parameters = Constructed s /\
    get_hidden_item 4 s = Constructed kDirt /\
    get_hidden_item 6 s =
      Thrown (invalid_argument "Invalid index 6 for map size (2, 3)") /\
    ((0 <= 4 < rows s * cols s ->
        exists el, get_hidden_item 4 s = Constructed el /\
                   grid s !! Z.to_nat 4 = Some el) /\
     (~ 0 <= 4 < rows s * cols s ->
        get_hidden_item 4 s = Thrown (invalid_argument (invalid_index_message 4 s)))).
Proof.
  eexists. split; [vm_compute; reflexivity|]. split; [reflexivity|]. split; [reflexivity|].
  apply get_hidden_item_checks_bounds. split; reflexivity.
Defined.

Lemma get_indices_loop_eq s element todo indices :
  Forall (fun i => in_range (grid s) i = true) todo ->
  get_indices_loop s element todo indices =
    Constructed
      (indices ++ List.filter (fun i => cell_eqb (cell (grid s) (Z.to_nat i)) element) todo).
Proof.
  intros Htodo. revert indices.
  induction Htodo as [|idx rest Hidx _ IH]; intros indices; simpl.
  { by rewrite app_nil_r. }
  destruct (vector_at (grid s) idx) as [el|] eqn:Hel.
  2:{ apply vector_at_None in Hel. congruence. }
  rewrite (vector_at_cell _ _ _ Hel), IH.
  destruct (cell_eqb el element); [by rewrite <- app_assoc|done].
Qed.

Lemma get_positions_loop_eq s element todo positions :
  Forall (fun i => in_range (grid s) i = true) todo ->
  get_positions_loop s element todo positions =
    Constructed
      (positions ++
       map (fun idx => (Z.quot idx (cols s), Z.rem idx (cols s)))
         (List.filter (fun i => cell_eqb (cell (grid s) (Z.to_nat i)) element) todo)).
Proof.
  intros Htodo. revert positions.
  induction Htodo as [|idx rest Hidx _ IH]; intros positions; simpl.
  { by rewrite app_nil_r. }
  destruct (vector_at (grid s) idx) as [el|] eqn:Hel.
  2:{ apply vector_at_None in Hel. congruence. }
  rewrite (vector_at_cell _ _ _ Hel), IH.
  destruct (cell_eqb el element); [by rewrite <- app_assoc|done].
Qed.

Lemma iota_in_grid s :
  well_formed s -> Forall (fun i => in_range (grid s) i = true) (iota 0 (rows s * cols s)).
Proof.
  intros [Hlen _]. apply List.Forall_forall. intros i Hi%iota_In.
  unfold in_range. apply andb_true_iff. rewrite Z.leb_le, Z.ltb_lt. lia.
Qed.

(** X4.  On a board whose grid holds rows*cols cells, and for an element
    that passes the assertion (or in a build with NDEBUG), get_indices
    returns the indices of the cells that hold the element: every such
    index of [0, rows*cols), none else, in increasing order. *)
Theorem get_indices_lists_the_cells ndebug element s :
  well_formed s ->
  ndebug || is_valid_hidden_element element = true ->
  exists indices,
    get_indices ndebug element s = Constructed indices /\
    (forall index, In index indices <->
       0 <= index < rows s * cols s /\ grid s !! Z.to_nat index = Some element) /\
    StronglySorted Z.lt indices.
Proof.
  intros Hwf Hpass. unfold get_indices, assert_. rewrite Hpass. simpl.
  rewrite get_indices_loop_eq by by apply iota_in_grid. simpl.
  eexists. split; [reflexivity|]. split.
  - intros index. rewrite filter_In, iota_In.
    destruct Hwf as [Hlen _]. split.
    + intros [Hi Hcell%cell_eqb_eq]. split; [done|].
      destruct (grid s !! Z.to_nat index) as [el|] eqn:Hel.
      * unfold cell in Hcell. rewrite Hel in Hcell. simpl in Hcell. by subst.
      * apply lookup_ge_None in Hel. lia.
    + intros [Hi Hel]. split; [done|]. unfold cell. rewrite Hel. simpl.
      apply cell_eqb_refl.
  - apply filter_sorted, iota_sorted.
Qed.

(** X4, witness: the two Dirt cells of a 2 x 3 board. *)
Lemma get_indices_lists_the_cells_witness :
  exists s indices,
    new_state false "2|3|0|0|2|1|1|2|1" default_parameters = Constructed s /\
    get_indices false kDirt s = Constructed indices /\
    indices = [1; 4] /\
    (forall index, In index indices <->
       0 <= index < rows s * cols s /\ grid s !! Z.to_nat index = Some kDirt) /\
    StronglySorted Z.lt indices.
Proof.
  eexists _, _. split; [vm_compute; reflexivity|].
  match goal with |- get_indices ?n ?e ?s = _ /\ _ =>
    destruct (get_indices_lists_the_cells n e s) as (l & Hl & Hin & Hsorted);
      [split; reflexivity|reflexivity|]
  end.
  assert (Hl14 : Constructed l = Constructed [1; 4])
    by (rewrite <- Hl; vm_compute; reflexivity).
  injection Hl14 as ->. split; [exact Hl|]. split; [reflexivity|]. split; [exact Hin|exact Hsorted].
Defined.

(** X5.  get_positions and get_indices agree: for an element that passes
    their assertion (or in a build with NDEBUG), on a board whose grid
    holds rows*cols cells, they return lists of the same length, and the
    k-th position is what index_to_position gives for the k-th index. *)
Theorem get_positions_are_positions_of_indices ndebug element s :
  well_formed s ->
  ndebug || is_valid_hidden_element element = true ->
  exists positions indices,
    get_positions ndebug element s = Constructed positions /\
    get_indices ndebug element s = Constructed indices /\
    Forall2 (fun position index => index_to_position index s = Constructed position)
      positions indices.
Proof.
  intros Hwf Hpass. unfold get_positions, get_indices, assert_. rewrite Hpass. simpl.
  rewrite get_positions_loop_eq, get_indices_loop_eq by by apply iota_in_grid. simpl.
  eexists _, _. split; [reflexivity|]. split; [reflexivity|].
  apply Forall2_fmap_l, Forall_Forall2_diag, List.Forall_forall.
  intros index [Hi%iota_In _]%filter_In. unfold index_to_position. simpl.
  by rewrite (proj2 (Z.ltb_ge index 0)), (proj2 (Z.leb_gt (rows s * cols s) index)) by lia.
Qed.

(** X5, witness: the two Dirt cells of a 2 x 3 board, at (0, 1) and (1, 1). *)
Lemma get_positions_are_positions_of_indices_witness :
  exists s positions indices,
    new_state false "2|3|0|0|2|1|1|2|1" default_parameters = Constructed s /\
    get_positions false kDirt s = Constructed positions /\
    get_indices false kDirt s = Constructed indices /\
    positions = [(0, 1); (1, 1)] /\
    Forall2 (fun position index => index_to_position index s = Constructed position)
      positions indices.
Proof.
  eexists _, _, _. split; [vm_compute; reflexivity|].
  match goal with |- get_positions ?n ?e ?s = _ /\ _ =>
    destruct (get_positions_are_positions_of_indices n e s) as (ps & l & Hps & Hl & Hall);
      [split; reflexivity|reflexivity|]
  end.
  assert (Hps' : Constructed ps = Constructed [(0, 1); (1, 1)])
    by (rewrite <- Hps; vm_compute; reflexivity).
  assert (Hl' : Constructed l = Constructed [1; 4])
    by (rewrite <- Hl; vm_compute; reflexivity).
  injection Hps' as ->. injection Hl' as ->.
  split; [exact Hps|]. split; [exact Hl|]. split; [reflexivity|exact Hall].
Defined.

(** X6.  get_indices and get_positions guard their argument with
    assert(is_valid_hidden_element(element)), which compares with the
    number of visible kinds: in a build with assertions both abort for
    every hidden kind with ordinal 34 or more (kNut, kBomb, the oranges,
    ...), whatever the state; with NDEBUG the same calls are answered. *)
Theorem get_indices_asserts_on_late_kinds element s :
  34 <= to_underlying element ->
  get_indices false element s = AssertionFailed /\
  get_positions false element s = AssertionFailed /\
  (well_formed s -> exists indices, get_indices true element s = Constructed indices).
Proof.
  intros Hlate.
  assert (Hinvalid : is_valid_hidden_element element = false).
  { unfold is_valid_hidden_element, kNumVisibleCellType.
    apply andb_false_iff. right. apply Z.ltb_ge. lia. }
  unfold get_indices, get_positions, assert_. rewrite Hinvalid. simpl.
  split; [done|]. split; [done|]. intros Hwf.
  rewrite get_indices_loop_eq by by apply iota_in_grid. by eexists.
Qed.

(** X6, witness: the nuts of a board with one nut. *)
Lemma get_indices_asserts_on_late_kinds_witness :
  exists s,
    new_state false "1|3|0|0|39|1" default_parameters = Constructed s /\
    get_indices true kNut s = Constructed [1] /\
    get_indices false kNut s = AssertionFailed /\
    get_positions false kNut s = AssertionFailed /\
    (well_formed s -> exists indices, get_indices true kNut s = Constructed indices).
Proof.
  eexists. split; [vm_compute; reflexivity|]. split; [vm_compute; reflexivity|].
  apply get_indices_asserts_on_late_kinds. simpl. lia.
Defined.

(** *** pack and the constructor from an InternalState *)

Lemma cell_of_int8_to_underlying e : cell_of_int8 (to_underlying e) = Some e.
Proof. by destruct e. Qed.

Lemma to_underlying_cell_of_int8 code e : cell_of_int8 code = Some e -> to_underlying e = code.
Proof.
  unfold cell_of_int8, kNumHiddenCellType.
  destruct (Z.leb_spec (-1) code); [|done]. destruct (Z.ltb_spec code 50); [|done].
  simpl. intros [= <-].
  assert (Hcases : code = -1 \/ 0 <= code < 50) by lia.
  destruct Hcases as [->|Hcode]; [reflexivity|].
  destruct code as [|p|p]; [reflexivity| |lia].
  do 6 (destruct p as [p|p|]; try reflexivity; try lia).
Qed.

Lemma mapM_cell_of_int8_to_underlying g :
  mapM cell_of_int8 (map to_underlying g) = Some g.
Proof.
  apply mapM_Some. induction g as [|e g IH]; constructor; [|done].
  apply cell_of_int8_to_underlying.
Qed.

(** X7.  Packing a state and constructing a state from the packed
    InternalState gives the state back, field for field: a state survives
    pickling. *)
Theorem unpack_pack s : unpack (pack s) = Some s.
Proof.
  unfold unpack, pack. simpl.
  rewrite cell_of_int8_to_underlying, mapM_cell_of_int8_to_underlying.
  by destruct s.
Qed.

(** X8.  Whenever the constructor accepts an InternalState (all its cell
    codes are named by the enumeration), packing the constructed state
    gives the InternalState back. *)
Theorem pack_unpack internal_state s :
  unpack internal_state = Some s -> pack s = internal_state.
Proof.
  unfold unpack.
  destruct (cell_of_int8 (internal_blob_swap internal_state)) as [swap|] eqn:Hswap; [|done].
  destruct (mapM cell_of_int8 (internal_grid internal_state)) as [g|] eqn:Hgrid; [|done].
  intros [= <-]. unfold pack. simpl.
  apply to_underlying_cell_of_int8 in Hswap. rewrite Hswap.
  assert (Hg : map to_underlying g = internal_grid internal_state).
  { apply mapM_Some in Hgrid. induction Hgrid as [|code e codes g' He _ IH]; [done|].
    simpl. f_equal; [by apply to_underlying_cell_of_int8|done]. }
  rewrite Hg. by destruct internal_state.
Qed.

(** X8, witness: an InternalState of a 1 x 3 board with a nut. *)
Lemma pack_unpack_witness :
  exists s,
    unpack (mkInternalState 140 0 1 1 0 0 0 1 3 0 0 7 0 9 20 false false false true true false
              (-1) [0; 39; 1] [false; false; false]) = Some s /\
    grid s = [kAgent; kNut; kEmpty] /\
    blob_swap s = kNull /\
    pack s = mkInternalState 140 0 1 1 0 0 0 1 3 0 0 7 0 9 20 false false false true true false
               (-1) [0; 39; 1] [false; false; false].
Proof.
  eexists. split; [vm_compute; reflexivity|]. split; [reflexivity|]. split; [reflexivity|].
  apply pack_unpack. vm_compute. reflexivity.
Defined.

Section TickInvariants.

Context {cat : Catalog}.

Lemma same_settings_refl s : same_settings s s.
Proof. by repeat split. Qed.

Lemma same_settings_trans s1 s2 s3 :
  same_settings s1 s2 -> same_settings s2 s3 -> same_settings s1 s3.
Proof.
  unfold same_settings.
  intros (?&?&?&?&?&?&?&?&?&?&?&?) (?&?&?&?&?&?&?&?&?&?&?&?). repeat split; congruence.
Qed.

Lemma explode_effect_settings r r' : explode_effect r r' -> same_settings (st r) (st r').
Proof.
  intros []; unfold same_settings, write_cell, mark_updated; fields;
    rewrite ?length_insert; by repeat split.
Qed.

Lemma scan_effect_settings r r' : scan_effect r r' -> same_settings (st r) (st r').
Proof. intros []; try by repeat split. by apply explode_effect_settings. Qed.

Lemma tick_effect_settings r r' : tick_effect r r' -> same_settings (st r) (st r').
Proof.
  intros []; try by repeat split.
  - by apply scan_effect_settings.
  - unfold same_settings. fields. rewrite length_insert. by repeat split.
Qed.

Lemma no_way_back_refl s : no_way_back s s.
Proof. unfold no_way_back. repeat split; auto. lia. Qed.

Lemma no_way_back_trans s1 s2 s3 :
  no_way_back s1 s2 -> no_way_back s2 s3 -> no_way_back s1 s3.
Proof. unfold no_way_back. intros (?&?&?) (?&?&?). repeat split; auto. lia. Qed.

Lemma explode_effect_no_way_back r r' : explode_effect r r' -> no_way_back (st r) (st r').
Proof. intros []; unfold no_way_back; fields; repeat split; try done; lia. Qed.

Lemma scan_effect_no_way_back r r' : scan_effect r r' -> no_way_back (st r) (st r').
Proof.
  intros []; try (unfold no_way_back; fields; repeat split; try done; lia).
  by apply explode_effect_no_way_back.
Qed.

Lemma tick_effect_no_way_back r r' : tick_effect r r' -> no_way_back (st r) (st r').
Proof.
  intros []; try (unfold no_way_back; fields; repeat split; try done; lia).
  by apply scan_effect_no_way_back.
Qed.

(** X9.  apply_action only reads the dimensions of the board and the game
    parameters: rows, cols, gems_required, gravity, disable_explosions,
    blob_chance, blob_max_size, the two butterfly modes and
    magic_wall_steps_remaining are the same in every state reached from a
    state, and grid and has_updated keep their sizes. *)
Theorem apply_action_keeps_settings s0 s :
  reachable s0 s -> same_settings s0 s.
Proof.
  induction 1 as [|s fuel action r' _ IH Hrun]; [apply same_settings_refl|].
  eapply same_settings_trans; [exact IH|].
  apply within_apply_action in Hrun. change s with (st (start s)).
  induction Hrun as [|r1 r2 r3 Hstep _ IH']; [apply same_settings_refl|].
  eapply same_settings_trans; [by apply tick_effect_settings|done].
Qed.

(** X10.  Nothing in apply_action revives the agent, takes it out of the
    exit or takes a gem back: in every state reached from a state, a dead
    agent is still dead, an agent in the exit is still in the exit,
    gems_collected has not decreased, and so a terminal state stays
    terminal. *)
Theorem terminal_states_stay_terminal s0 s :
  reachable s0 s ->
  no_way_back s0 s /\ (is_terminal s0 = true -> is_terminal s = true).
Proof.
  intros Hreach.
  assert (Hback : no_way_back s0 s).
  { induction Hreach as [|s fuel action r' _ IH Hrun]; [apply no_way_back_refl|].
    eapply no_way_back_trans; [exact IH|].
    apply within_apply_action in Hrun. change s with (st (start s)).
    induction Hrun as [|r1 r2 r3 Hstep _ IH']; [apply no_way_back_refl|].
    eapply no_way_back_trans; [by apply tick_effect_no_way_back|done]. }
  split; [done|]. destruct Hback as (Hdead & Hexit & _).
  unfold is_terminal. intros [Ht|Ht]%orb_true_iff; apply orb_true_iff.
  - left. apply negb_true_iff in Ht. by rewrite Hdead.
  - right. by apply Hexit.
Qed.

End TickInvariants.

(** X9, witness: a stone falls on the agent, three ticks with gravity. *)
Lemma apply_action_keeps_settings_witness :
  exists s0 s,
    new_state false "3|3|0|1|3|1|1|1|1|1|0|1" with_gravity = Constructed s0 /\
    play (cat := spec_catalog) 9 [ActDown; ActDown; ActDown] s0 = Some s /\
    grid s <> grid s0 /\
    same_settings s0 s.
Proof.
  eexists _, _. split; [vm_compute; reflexivity|]. split; [vm_compute; reflexivity|].
  split; [discriminate|].
  apply (apply_action_keeps_settings (cat := spec_catalog)).
  apply (play_reachable 9 [ActDown; ActDown; ActDown]). vm_compute. reflexivity.
Defined.

(** X10, witness: the stone kills the agent in the second tick; the agent
    is still dead after the fourth. *)
Lemma terminal_states_stay_terminal_witness :
  exists s0 s,
    play_level (cat := spec_catalog) false "3|3|0|1|3|1|1|1|1|1|0|1" with_gravity 9
      [ActDown; ActDown] = Some s0 /\
    is_terminal s0 = true /\
    play (cat := spec_catalog) 9 [ActUp; ActLeft] s0 = Some s /\
    no_way_back s0 s /\ (is_terminal s0 = true -> is_terminal s = true).
Proof.
  eexists _, _. split; [vm_compute; reflexivity|]. split; [reflexivity|].
  split; [vm_compute; reflexivity|].
  apply (terminal_states_stay_terminal (cat := spec_catalog)).
  apply (play_reachable 9 [ActUp; ActLeft]). vm_compute. reflexivity.
Defined.

Lemma all_false_eq (u v : list bool) :
  Forall (fun b => b = false) u -> Forall (fun b => b = false) v ->
  length u = length v -> u = v.
Proof.
  intros Hu. revert v. induction Hu as [|b u -> _ IH]; intros v Hv Hlen.
  - by destruct v.
  - destruct Hv as [|b' v -> Hv]; [done|]. f_equal. apply IH; [done|]. simpl in Hlen. lia.
Qed.

Lemma bind_Ok {A B} (m : M A) (k : A -> M B) r a r1 :
  m r = Ok a r1 -> bind m k r = k a r1.
Proof. intros H. unfold bind. by rewrite H. Qed.

Section Primitives.

Context {cat : Catalog}.

(** *** SetItem and MoveItem *)

(** X11.  A SetItem that returns has written exactly one cell: the target
    holds the element (GetItem reads it back), the target's updated flag
    is set, every other cell and flag is as before, the ghost counters are
    untouched, and a hash that was the XOR of the cell hashes still is.
    SetItem is undefined exactly when the target is outside one of the
    two vectors. *)
Theorem SetItem_writes_one_cell index el dir r :
  let target := IndexFromDirection (st r) index dir in
  (in_range (grid (st r)) target && in_range (has_updated (st r)) target = false ->
     SetItem index el dir r = Fault) /\
  (in_range (grid (st r)) target && in_range (has_updated (st r)) target = true ->
     exists r',
       SetItem index el dir r = Ok tt r' /\
       GetItem index dir (st r') = Some el /\
       grid (st r') = <[Z.to_nat target := el]> (grid (st r)) /\
       has_updated (st r') = <[Z.to_nat target := true]> (has_updated (st r)) /\
       rows (st r') = rows (st r) /\ cols (st r') = cols (st r) /\
       explode_calls r' = explode_calls r /\
       (hash_invariant (st r) -> hash_invariant (st r'))).
Proof.
  intros target.
  assert (Hhash : hash_invariant (st r) ->
                  in_range (grid (st r)) target = true ->
                  hash_invariant (mark_updated target (write_cell target el (st r)))).
  { intros Hinv Hg. by apply (hash_invariant_write target el) in Hinv. }
  rewrite SetItem_eq. cbv zeta. fold target. split.
  - by intros ->.
  - intros Hin. rewrite Hin. apply andb_true_iff in Hin as [Hg Hu].
    eexists. split; [reflexivity|]. split.
    { unfold GetItem, mark_updated, write_cell. fields.
      change (IndexFromDirection _ index dir) with target.
      by apply vector_at_insert_eq. }
    do 5 (split; [reflexivity|]). intros Hinv. by apply Hhash.
Qed.

(** X12.  A MoveItem that returns has moved one element: the target holds
    what the source held, the source holds Empty, only the target's
    updated flag is set (the source's flag is left as it was), every other
    cell is as before, and a hash that was the XOR of the cell hashes
    still is. *)
Theorem MoveItem_moves_one_cell index dir r r' :
  MoveItem index dir r = Ok tt r' ->
  let target := IndexFromDirection (st r) index dir in
  exists moved,
    grid (st r) !! Z.to_nat index = Some moved /\
    grid (st r') = <[Z.to_nat index := kEmpty]> (<[Z.to_nat target := moved]> (grid (st r))) /\
    has_updated (st r') = <[Z.to_nat target := true]> (has_updated (st r)) /\
    GetItem index kNoop (st r') = Some kEmpty /\
    (target <> index -> GetItem index dir (st r') = Some moved) /\
    (hash_invariant (st r) -> hash_invariant (st r')).
Proof.
  intros Hrun target. rewrite MoveItem_eq in Hrun. cbv zeta in Hrun. fold target in Hrun.
  destruct (in_range (grid (st r)) target) eqn:Hg; [|done].
  destruct (in_range (grid (st r)) index) eqn:Hi; [|done].
  destruct (in_range (has_updated (st r)) target) eqn:Hu; [|done].
  injection Hrun as <-.
  pose proof (in_range_bounds _ _ Hi) as [Hi0 Hil].
  pose proof (in_range_bounds _ _ Hg) as [Hg0 Hgl].
  destruct (grid (st r) !! Z.to_nat index) as [moved|] eqn:Hmoved.
  2:{ apply lookup_ge_None in Hmoved. lia. }
  exists moved. split; [done|].
  assert (Hhash : hash_invariant (st r) ->
    hash_invariant (mark_updated target (write_cell index kEmpty
                      (write_cell target moved (st r))))).
  { intros Hinv.
    apply (hash_invariant_write target moved) in Hinv; [|done].
    apply (hash_invariant_write index kEmpty) in Hinv; [exact Hinv|].
    unfold write_cell, in_range. fields. rewrite length_insert. exact Hi. }
  split; [reflexivity|]. split; [reflexivity|]. split; [|split; [|exact Hhash]].
  - unfold GetItem, mark_updated, write_cell. fields. simpl.
    apply vector_at_insert_eq. unfold in_range. rewrite length_insert. exact Hi.
  - intros Hne. unfold GetItem, mark_updated, write_cell. fields.
    change (IndexFromDirection _ index dir) with target.
    rewrite vector_at_insert_ne by (done || lia).
    by apply vector_at_insert_eq.
Qed.

(** *** The scan fields that StartScan resets *)

(** X13.  What the tick before left in has_updated, reward_signal,
    blob_size and blob_enclosed has no influence on apply_action: on a
    board whose has_updated holds rows*cols flags, apply_action behaves the
    same whatever these four fields hold on entry. *)
Theorem apply_action_forgets_the_previous_tick fuel action s flags reward size enclosed :
  Z.of_nat (length (has_updated s)) = rows s * cols s ->
  length flags = length (has_updated s) ->
  apply_action fuel action (start (with_leftovers flags reward size enclosed s)) =
  apply_action fuel action (start s).
Proof.
  intros Hlen Hflags. unfold apply_action.
  destruct (StartScan_run s Hlen) as (u & Hrun & Hu & Hlu).
  destruct (StartScan_run (with_leftovers flags reward size enclosed s))
    as (u' & Hrun' & Hu' & Hlu').
  { unfold with_leftovers. fields. lia. }
  assert (Heq : u' = u).
  { apply all_false_eq; [done..|]. rewrite Hlu, Hlu'. unfold with_leftovers. fields. done. }
  subst u'. rewrite (bind_Ok _ _ _ _ _ Hrun), (bind_Ok _ _ _ _ _ Hrun'). reflexivity.
Qed.

(** *** Reads without a bounds check *)

(** X14.  In Convert mode the falling-stone rule reads the cell below
    without a bounds check: when index + cols is past the end of the grid
    (a falling stone in the bottom row), the read grid[index + cols] is out
    of range, which the C++ standard leaves undefined. *)
Theorem falling_stone_reads_past_the_grid fuel index r :
  butterfly_explosion_ver (st r) = kConvert ->
  Z.of_nat (length (grid (st r))) <= index + cols (st r) ->
  UpdateStoneFalling fuel index r = Fault.
Proof.
  intros Hver Hpast.
  assert (Hbelow : vector_at (grid (st r)) (index + cols (st r)) = None).
  { apply vector_at_None. unfold in_range. apply andb_false_iff. right.
    apply Z.ltb_ge. lia. }
  unfold UpdateStoneFalling. rewrite bind_ask, IsType_eq.
  change (IndexFromDirection (st r) index kDown) with (index + cols (st r)).
  rewrite Hbelow. simpl.
  destruct (InBounds index kDown (st r)) as [[]|]; [done| |done].
  rewrite bind_ask. unfold qand, GetItem.
  change (IndexFromDirection (st r) index kDown) with (index + cols (st r)).
  by rewrite Hver, Hbelow.
Qed.

(** *** Explosions and the agent *)

(** X15.  An explosion of the cell that holds the agent kills it: when
    Explode returns, is_agent_alive is false, whatever the chain of
    explosions did afterwards. *)
Theorem Explode_on_the_agent_kills_it fuel index el dir r r' :
  GetItem (IndexFromDirection (st r) index dir) kNoop (st r) = Some kAgent ->
  Explode fuel index el dir r = Ok tt r' ->
  is_agent_alive (st r') = false.
Proof.
  intros Hagent. destruct fuel as [|fuel]; [done|].
  cbn [Explode]. unfold bind at 1. cbn [note_explode].
  rewrite bind_get_state. cbn [st]. rewrite bind_ask. cbn [st]. rewrite Hagent.
  change (cell_eqb kAgent kAgent) with true. cbn [when].
  unfold bind at 1. cbn [modify st explode_calls chain_calls].
  match goal with |- _ ?r2 = _ -> _ => set (r_dead := r2) end.
  intros Hrest.
  assert (Hdead : is_agent_alive (st r_dead) = false) by reflexivity.
  assert (Hsteps : rtc explode_effect r_dead r').
  { revert Hrest. match goal with |- ?m _ = _ -> _ => generalize (eq_refl m) end.
    intros _ Hrest. eapply within_bind in Hrest; [exact Hrest| |].
    - apply within_explode_SetItem.
    - intros _. apply within_for_each. intros dir_index.
      repeat (cbv zeta;
        lazymatch goal with
        | |- within _ (bind _ _) => apply within_bind; [|intros ?]
        | |- within _ (ret _) => apply within_ret
        | |- within _ (ask _) => apply within_ask
        | |- within _ (when _ _) => apply within_when
        | |- within _ (if ?b then _ else _) => destruct b
        | |- within _ (SetItem _ _ _) => apply within_explode_SetItem
        | |- within _ (Explode _ _ _ _) => apply within_explode_Explode
        | |- within _ (note_chain _) => apply within_note_chain
        | |- within _ (modify (set_is_agent_alive false)) => apply within_agent_dies
        end). }
  clear Hrest. induction Hsteps as [|r1 r2 r3 Hstep _ IH]; [done|].
  apply IH. by apply (explode_effect_agent r1 r2).
Qed.

End Primitives.

(** X11, witness: a write over the cell right of the agent. *)
Lemma SetItem_writes_one_cell_witness :
  exists s r',
    new_state false "1|3|0|0|1|1" default_parameters = Constructed s /\
    SetItem 0 kDirt kRight (start s) = Ok tt r' /\
    grid (st r') = [kAgent; kDirt; kEmpty] /\
    has_updated (st r') = [false; true; false] /\
    GetItem 0 kRight (st r') = Some kDirt /\
    (hash_invariant s -> hash_invariant (st r')).
Proof.
  eexists _, _. split; [vm_compute; reflexivity|].
  match goal with |- SetItem ?i ?el ?d ?r = _ /\ _ =>
    destruct (SetItem_writes_one_cell i el d r) as [_ Hok];
    destruct Hok as (r' & Hrun & Hget & Hgrid & Hflags & _ & _ & _ & Hhash);
      [vm_compute; reflexivity|]
  end.
  assert (Hr' : Ok tt r' = Ok tt _) by (rewrite <- Hrun; vm_compute; reflexivity).
  injection Hr' as Hr'. subst r'.
  split; [exact Hrun|]. split; [reflexivity|]. split; [reflexivity|].
  split; [exact Hget|exact Hhash].
Defined.

(** X12, witness: the agent's cell is moved one cell to the right. *)
Lemma MoveItem_moves_one_cell_witness :
  exists s r',
    new_state false "1|3|0|0|2|1" default_parameters = Constructed s /\
    MoveItem 0 kRight (start s) = Ok tt r' /\
    grid (st r') = [kEmpty; kAgent; kEmpty] /\
    has_updated (st r') = [false; true; false] /\
    exists moved,
      grid s !! Z.to_nat 0 = Some moved /\
      grid (st r') = <[Z.to_nat 0 := kEmpty]> (<[Z.to_nat 1 := moved]> (grid s)) /\
      has_updated (st r') = <[Z.to_nat 1 := true]> (has_updated s) /\
      GetItem 0 kNoop (st r') = Some kEmpty /\
      (1 <> 0 -> GetItem 0 kRight (st r') = Some moved) /\
      (hash_invariant s -> hash_invariant (st r')).
Proof.
  eexists _, _. split; [vm_compute; reflexivity|].
  match goal with |- ?run /\ _ => assert (Hrun : run) by (vm_compute; reflexivity) end.
  split; [exact Hrun|]. split; [reflexivity|]. split; [reflexivity|].
  exact (MoveItem_moves_one_cell _ _ _ _ Hrun).
Defined.

(** X13, witness: the state after the agent walked right, against the
    same state with the flags cleared and other leftovers. *)
Lemma apply_action_forgets_the_previous_tick_witness :
  exists s,
    play_level (cat := spec_catalog) false "3|3|0|1|1|1|0|1|1|1|1|1" default_parameters 9
      [ActRight] = Some s /\
    has_updated s = [false; false; false; false; true; false; false; false; false] /\
    apply_action (cat := spec_catalog) 9 ActDown
      (start (with_leftovers (replicate 9 false) 5 7 false s)) =
    apply_action (cat := spec_catalog) 9 ActDown (start s).
Proof.
  eexists. split; [vm_compute; reflexivity|]. split; [reflexivity|].
  apply (apply_action_forgets_the_previous_tick (cat := spec_catalog)); reflexivity.
Defined.

(** X14, witness: a falling stone in the only row of a board, in Convert
    mode; the tick that updates it is undefined. *)
Lemma falling_stone_reads_past_the_grid_witness :
  exists s,
    new_state false "1|2|0|0|4" with_convert = Constructed s /\
    UpdateStoneFalling (cat := spec_catalog) 2 1 (start s) = Fault /\
    apply_action (cat := spec_catalog) 2 ActUp (start s) = Fault.
Proof.
  eexists. split; [vm_compute; reflexivity|]. split; [|vm_compute; reflexivity].
  apply (falling_stone_reads_past_the_grid (cat := spec_catalog)).
  - reflexivity.
  - vm_compute. discriminate.
Defined.

(** X15, witness: a firefly above the agent explodes, the explosion chains
    into the agent's cell. *)
Lemma Explode_on_the_agent_kills_it_witness :
  exists s r',
    new_state false "1|3|0|10|0|1" default_parameters = Constructed s /\
    Explode (cat := spec_catalog) 3 0 kExplosionEmpty kRight (start s) = Ok tt r' /\
    is_agent_alive s = true /\
    is_agent_alive (st r') = false.
Proof.
  eexists _, _. split; [vm_compute; reflexivity|].
  match goal with |- ?run /\ _ => assert (Hrun : run) by (vm_compute; reflexivity) end.
  split; [exact Hrun|]. split; [reflexivity|].
  refine (Explode_on_the_agent_kills_it (cat := spec_catalog) _ _ _ _ _ _ _ Hrun).
  reflexivity.
Defined.

Lemma cell_of_code_range code :
  0 <= code < kNumHiddenCellType -> to_underlying (cell_of_code code) = code.
Proof.
  unfold kNumHiddenCellType. intros Hcode.
  destruct code as [|p|p]; [reflexivity| |lia].
  do 6 (destruct p as [p|p|]; try reflexivity; try lia).
Qed.

Lemma parse_cells_tracks_agent segments i b b' :
  parse_cells segments i b = Constructed b' ->
  i - 3 = Z.of_nat (length (board_grid b)) ->
  agent_tracked b ->
  agent_tracked b'.
Proof.
  revert i b. induction segments as [|segment rest IH]; intros i b; simpl.
  { by intros [= <-]. }
  intros Hparse Hi (Hc0 & Hnone & Hone & Hsome & Hvalid).
  destruct (stoi segment) as [code| | |] eqn:Hcode; simpl in Hparse; try done.
  destruct (Z.ltb_spec code 0) as [|Hlo]; [done|].
  destruct (Z.leb_spec kNumHiddenCellType code) as [|Hhi]; [done|].
  simpl in Hparse. apply IH in Hparse; [done| |].
  { destruct (cell_eqb _ kAgent || cell_eqb _ kAgentInExit); simpl;
      rewrite length_app; simpl; lia. }
  clear IH Hparse.
  assert (Hvalid' : Forall (fun el => 0 <= to_underlying el < kNumHiddenCellType)
                      (board_grid b ++ [cell_of_code code])).
  { apply Forall_app. split; [done|]. constructor; [|done].
    rewrite cell_of_code_range; lia. }
  fold (is_agent_cell (cell_of_code code)).
  destruct (is_agent_cell (cell_of_code code)) eqn:Hagent; unfold agent_tracked; simpl.
  - split; [lia|]. split; [lia|]. split; [|split; [|done]].
    + intros Hcount j el Hj Hel.
      assert (Hzero : board_agent_counter b = 0) by lia.
      specialize (Hnone Hzero).
      destruct (decide (j < length (board_grid b))%nat) as [Hlt|Hge].
      * rewrite lookup_app_l in Hj by done.
        eapply Forall_lookup_1 in Hnone; [|exact Hj]. simpl in Hnone. congruence.
      * apply lookup_lt_Some in Hj as Hlen. rewrite length_app in Hlen. simpl in Hlen. lia.
    + intros _. exists (cell_of_code code). rewrite Hi. unfold vector_at.
      destruct (Z.ltb_spec (Z.of_nat (length (board_grid b))) 0); [lia|].
      rewrite Nat2Z.id, lookup_app_r, Nat.sub_diag by done. done.
  - split; [done|]. split; [|split; [|split; [|done]]].
    + intros Hzero. apply Forall_app. split; [by apply Hnone|by constructor].
    + intros Hcount j el Hj Hel.
      destruct (decide (j < length (board_grid b))%nat) as [Hlt|Hge].
      * rewrite lookup_app_l in Hj by done. by eapply Hone.
      * apply lookup_lt_Some in Hj as Hlen. rewrite length_app in Hlen. simpl in Hlen.
        assert (j = length (board_grid b)) as -> by lia.
        rewrite lookup_app_r, Nat.sub_diag in Hj by done. simpl in Hj. congruence.
    + intros Hcount. destruct (Hsome Hcount) as (el & Hel & Hrest).
      exists el. split; [|done].
      apply vector_at_Some in Hel as [Hin Hel]. apply vector_at_Some. split.
      * unfold in_range in *. rewrite length_app. simpl.
        apply andb_true_iff in Hin as [H1 H2%Z.ltb_lt].
        apply andb_true_iff. split; [done|]. apply Z.ltb_lt. lia.
      * apply lookup_app_l_Some. done.
Qed.

Section ConstructedState.

Variable ndebug : bool.

(** X16.  A state the constructor returns has exactly one agent cell, and
    the agent fields describe it: agent_idx is the index of the one cell
    that holds kAgent or kAgentInExit, is_agent_alive is true,
    is_agent_in_exit tells which of the two it is; every cell holds a
    named kind with code in [0, 50), never kNull; the counters start at
    zero, blob_swap is kNull and blob_chance is the parameter modulo 256. *)
Theorem constructed_state_has_one_agent board_str params s :
  new_state ndebug board_str params = Constructed s ->
  (exists el,
     vector_at (grid s) (agent_idx s) = Some el /\
     is_agent_cell el = true /\
     is_agent_in_exit s = cell_eqb el kAgentInExit) /\
  (forall j el, grid s !! j = Some el -> is_agent_cell el = true -> Z.of_nat j = agent_idx s) /\
  is_agent_alive s = true /\
  Forall (fun el => 0 <= to_underlying el < kNumHiddenCellType /\ el <> kNull) (grid s) /\
  gems_collected s = 0 /\ blob_size s = 0 /\ magic_active s = false /\
  blob_swap s = kNull /\
  blob_chance s = param_blob_chance params mod 256.
Proof.
  unfold new_state. intros Hnew.
  apply cbind_Constructed in Hnew as (b & Hb & Hnew).
  do 4 (apply cbind_Constructed in Hnew as (? & _ & Hnew)).
  injection Hnew as <-. fields.
  unfold parse_board_str in Hb. cbv zeta in Hb.
  do 8 (apply cbind_Constructed in Hb as (? & _ & Hb)).
  apply cbind_Constructed in Hb as (b1 & Hcells & Hb).
  apply parse_cells_tracks_agent in Hcells as (Hc0 & _ & Hone & Hsome & Hvalid).
  2:{ simpl. lia. }
  2:{ unfold agent_tracked. simpl. repeat split; try done; lia. }
  destruct (Z.eqb_spec (board_agent_counter b1) 0) as [|Hnz]; [done|].
  destruct (Z.ltb_spec 1 (board_agent_counter b1)) as [|Hle]; [done|].
  injection Hb as <-.
  assert (Hcount : board_agent_counter b1 = 1) by lia.
  destruct Hsome as (el & Hel & Hagent & Halive & Hexit); [lia|].
  split; [by exists el|]. split; [by apply Hone|]. split; [done|].
  split; [|done].
  eapply Forall_impl; [exact Hvalid|]. intros e He. split; [done|].
  intros ->. simpl in He. lia.
Qed.

End ConstructedState.

(** X16, witness: a level whose agent stands in the exit. *)
Lemma constructed_state_has_one_agent_witness :
  exists s,
    new_state false "2|2|0|1|2|9|3" default_parameters = Constructed s /\
    agent_idx s = 2 /\ is_agent_in_exit s = true /\
    ((exists el,
        vector_at (grid s) (agent_idx s) = Some el /\
        is_agent_cell el = true /\
        is_agent_in_exit s = cell_eqb el kAgentInExit) /\
     (forall j el, grid s !! j = Some el -> is_agent_cell el = true ->
                   Z.of_nat j = agent_idx s) /\
     is_agent_alive s = true /\
     Forall (fun el => 0 <= to_underlying el < kNumHiddenCellType /\ el <> kNull) (grid s) /\
     gems_collected s = 0 /\ blob_size s = 0 /\ magic_active s = false /\
     blob_swap s = kNull /\
     blob_chance s = param_blob_chance default_parameters mod 256).
Proof.
  eexists. split; [vm_compute; reflexivity|]. split; [reflexivity|]. split; [reflexivity|].
  apply (constructed_state_has_one_agent false "2|2|0|1|2|9|3" default_parameters).
  vm_compute. reflexivity.
Defined.

Lemma wp_Ok {A} oof (m : M A) (Q : A -> Run -> Prop) r a r' :
  wp oof m Q r -> m r = Ok a r' -> Q a r'.
Proof. unfold wp. intros H Hm. by rewrite Hm in H. Qed.

Lemma testbit_lor_l a b n : Z.testbit a n = true -> Z.testbit (Z.lor a b) n = true.
Proof. intros H. by rewrite Z.lor_spec, H. Qed.

Lemma testbit_lor_r a b n : Z.testbit b n = true -> Z.testbit (Z.lor a b) n = true.
Proof. intros H. rewrite Z.lor_spec, H. apply orb_true_r. Qed.

Section AgentRules.

Context {cat : Catalog}.

Lemma kept_by_scan_refl s : kept_by_scan s s.
Proof. by repeat split. Qed.

Lemma kept_by_scan_trans s1 s2 s3 :
  kept_by_scan s1 s2 -> kept_by_scan s2 s3 -> kept_by_scan s1 s3.
Proof.
  unfold kept_by_scan. intros (?&?&?&H12) (?&?&?&H23).
  repeat split; try congruence. auto.
Qed.

Lemma explode_effect_kept r r' : explode_effect r r' -> kept_by_scan (st r) (st r').
Proof. by intros []. Qed.

Lemma scan_effect_kept r r' : scan_effect r r' -> kept_by_scan (st r) (st r').
Proof.
  intros []; try by repeat split.
  - by apply explode_effect_kept.
  - unfold kept_by_scan. fields. repeat split. intros n. apply testbit_lor_l.
Qed.

Lemma scan_kept fuel r r' : scan fuel r = Ok tt r' -> kept_by_scan (st r) (st r').
Proof.
  intros Hrun%within_scan. induction Hrun as [|r1 r2 r3 Hstep _ IH]; [apply kept_by_scan_refl|].
  eapply kept_by_scan_trans; [by apply scan_effect_kept|done].
Qed.

Lemma EndScan_kept r r' : EndScan r = Ok tt r' -> kept_by_scan (st r) (st r').
Proof.
  unfold EndScan. rewrite bind_get_state. unfold when.
  destruct (cell_eqb (blob_swap (st r)) kNull), (blob_enclosed (st r)),
    (blob_max_size (st r) <? blob_size (st r)), (magic_active (st r));
    unfold bind, modify, ret; intros [= <-]; by repeat split.
Qed.

(* apply_action, step by step. *)
Lemma apply_action_split fuel action r r' :
  apply_action fuel action r = Ok tt r' ->
  exists r0 r1 r2,
    StartScan r = Ok tt r0 /\
    UpdateAgent (agent_idx (st r0)) (action_to_direction action) r0 = Ok tt r1 /\
    scan fuel r1 = Ok tt r2 /\
    EndScan r2 = Ok tt r'.
Proof.
  unfold apply_action. cbv zeta. unfold bind at 1.
  destruct (StartScan r) as [[] r0| |] eqn:Hstart; [|done..].
  rewrite bind_gets. unfold bind at 1.
  destruct (UpdateAgent _ _ r0) as [[] r1| |] eqn:Hagent; [|done..].
  unfold bind at 1.
  destruct (scan fuel r1) as [[] r2| |] eqn:Hscan; [|done..].
  intros Hend. by exists r0, r1, r2.
Qed.

Lemma kept_by_StartScan_run r r0 :
  StartScan r = Ok tt r0 -> kept_by_StartScan (st r) (st r0).
Proof.
  apply (wp_Ok False StartScan (fun _ r0 => kept_by_StartScan (st r) (st r0))).
  assert (Htame : tame (fun r0 => kept_by_StartScan (st r) (st r0)) StartScan).
  { unfold StartScan.
    repeat (cbv zeta;
      lazymatch goal with
      | |- tame _ (bind _ _) => apply tame_bind; [|intros ?]
      | |- tame _ (ask _) => apply tame_ask
      | |- tame _ get_state => apply tame_get_state
      | |- tame _ (for_each _ _) => apply tame_for_each; intros ?
      | |- tame _ (modify _) => apply tame_modify; intros ? H; exact H
      end). }
  apply Htame. by repeat split.
Qed.

Lemma IsType_kept index el dir s s' :
  kept_by_StartScan s s' -> IsType index el dir s' = IsType index el dir s.
Proof. intros [Hboard _]. by apply IsType_same_board. Qed.

Lemma InBounds_kept index dir s s' :
  kept_by_StartScan s s' -> InBounds index dir s' = InBounds index dir s.
Proof. intros [Hboard _]. by apply InBounds_same_board. Qed.

Lemma HasProperty_kept index property dir s s' :
  kept_by_StartScan s s' -> HasProperty index property dir s' = HasProperty index property dir s.
Proof.
  intros [Hboard _]. rewrite !HasProperty_eq, (InBounds_same_board _ _ s s' Hboard),
    (IndexFromDirection_same_board _ _ s s' Hboard). by destruct Hboard as (-> & _).
Qed.

Lemma GetItem_kept index dir s s' :
  kept_by_StartScan s s' -> GetItem index dir s' = GetItem index dir s.
Proof.
  intros [Hboard _]. unfold GetItem.
  rewrite (IndexFromDirection_same_board _ _ s s' Hboard). by destruct Hboard as (-> & _).
Qed.

(* MoveItem and SetItem write the grid, its hash and the flags only. *)
Lemma MoveItem_frame index dir r r' :
  MoveItem index dir r = Ok tt r' ->
  gems_collected (st r') = gems_collected (st r) /\
  agent_idx (st r') = agent_idx (st r) /\
  is_agent_in_exit (st r') = is_agent_in_exit (st r) /\
  reward_signal (st r') = reward_signal (st r) /\
  cols (st r') = cols (st r).
Proof.
  rewrite MoveItem_eq. cbv zeta. destruct (_ && _ && _); [|done]. by intros [= <-].
Qed.

Lemma SetItem_frame index el dir r r' :
  SetItem index el dir r = Ok tt r' ->
  gems_collected (st r') = gems_collected (st r) /\
  agent_idx (st r') = agent_idx (st r) /\
  is_agent_in_exit (st r') = is_agent_in_exit (st r) /\
  reward_signal (st r') = reward_signal (st r) /\
  cols (st r') = cols (st r).
Proof.
  rewrite SetItem_eq. cbv zeta. destruct (_ && _); [|done]. by intros [= <-].
Qed.

(* The target of the agent's move holds one of two kinds. *)
Lemma qor_IsType_true index a b dir s :
  qor (IsType index a dir) (IsType index b dir) s = Some true ->
  InBounds index dir s = Some true /\
  exists el, vector_at (grid s) (IndexFromDirection s index dir) = Some el /\
             (el = a \/ el = b).
Proof.
  unfold qor. destruct (IsType index a dir s) as [[]|] eqn:Ha; [| |done].
  - intros _. apply IsType_true in Ha as [? ?]. eauto.
  - intros [? ?]%IsType_true. eauto.
Qed.

(** X17.  When the cell next to agent_idx in the direction of the action
    holds a Diamond or a DiamondFalling, an apply_action that returns has
    collected it: gems_collected is one more than before, agent_idx is the
    diamond's cell, and the CollectDiamond bit (1 << 1) of reward_signal
    is set. *)
Theorem agent_collects_the_diamond fuel action s r' :
  qor (IsType (agent_idx s) kElDiamond (action_to_direction action))
      (IsType (agent_idx s) kElDiamondFalling (action_to_direction action)) s = Some true ->
  apply_action fuel action (start s) = Ok tt r' ->
  gems_collected (st r') = gems_collected s + 1 /\
  agent_idx (st r') = IndexFromDirection s (agent_idx s) (action_to_direction action) /\
  Z.testbit (get_reward_signal (st r')) 1 = true.
Proof.
  set (dir := action_to_direction action). intros Hgem Hrun.
  apply apply_action_split in Hrun as (r0 & r1 & r2 & Hstart & Hagent & Hscan & Hend).
  apply kept_by_StartScan_run in Hstart as Hkept. cbn [st start] in Hkept.
  fold dir in Hagent.
  destruct (qor_IsType_true _ _ _ _ _ Hgem) as (Hin & el & Hel & Hkind).
  assert (Hwalk : qor (IsType (agent_idx s) kEmpty dir) (IsType (agent_idx s) kDirt dir) s
                  = Some false).
  { unfold qor. rewrite !(IsType_found _ _ _ _ el Hin Hel). by destruct Hkind as [-> | ->]. }
  pose proof Hkept as (Hboard & Hidx & Hgems & Hexit).
  rewrite Hidx in Hagent. unfold UpdateAgent in Hagent.
  assert (Hin0 : InBounds (agent_idx s) dir (st r0) = Some true)
    by (by rewrite (InBounds_kept _ _ s (st r0) Hkept)).
  assert (Hwalk0 : qor (IsType (agent_idx s) kEmpty dir) (IsType (agent_idx s) kDirt dir)
                     (st r0) = Some false).
  { unfold qor. rewrite !(IsType_kept _ _ _ s (st r0) Hkept). exact Hwalk. }
  assert (Hgem0 : qor (IsType (agent_idx s) kDiamond dir)
                    (IsType (agent_idx s) kDiamondFalling dir) (st r0) = Some true).
  { unfold qor. rewrite !(IsType_kept _ _ _ s (st r0) Hkept). exact Hgem. }
  rewrite (ask_Some _ _ _ true Hin0) in Hagent.
  cbn [negb] in Hagent. rewrite bind_get_state in Hagent.
  rewrite (ask_false _ _ _ _ Hwalk0) in Hagent.
  rewrite (ask_true _ _ _ _ Hgem0) in Hagent.
  rewrite bind_modify in Hagent. unfold or_reward in Hagent. rewrite bind_modify in Hagent.
  fields. unfold bind at 1 in Hagent.
  destruct (MoveItem _ _ _) as [[] r_moved| |] eqn:Hmove; [|done..].
  rewrite run_modify in Hagent. injection Hagent as <-.
  apply MoveItem_frame in Hmove as (Hg1 & _ & _ & Hr1 & _). fields.
  apply scan_kept in Hscan as Hs. apply EndScan_kept in Hend as He.
  destruct (kept_by_scan_trans _ _ _ Hs He) as (Hg & Ha & _ & Hbits). fields.
  rewrite Hg, Ha, Hg1, Hgems. split; [done|]. split.
  - by rewrite (IndexFromDirection_same_board _ _ s (st r0)).
  - apply Hbits. rewrite Hr1. by apply testbit_lor_r.
Qed.

(** X18.  When the cell next to agent_idx in the direction of the action
    holds the open exit (and the catalog makes the open exit neither
    pushable, nor a key, nor an open gate), an apply_action that returns
    has put the agent in the exit: is_agent_in_exit is set, the state is a
    solution and terminal, agent_idx is the exit's cell, and the
    WalkThroughExit bit (1 << 2) of reward_signal is set. *)
Theorem agent_walks_into_the_open_exit fuel action s r' :
  IsType (agent_idx s) kElExitOpen (action_to_direction action) s = Some true ->
  qand (qpure (IsDirectionHorz (action_to_direction action)))
       (HasProperty (agent_idx s) kPushable (action_to_direction action)) s = Some false ->
  IsKey kExitOpen = false ->
  IsOpenGate kExitOpen = false ->
  apply_action fuel action (start s) = Ok tt r' ->
  is_agent_in_exit (st r') = true /\
  is_solution (st r') = true /\
  is_terminal (st r') = true /\
  agent_idx (st r') = IndexFromDirection s (agent_idx s) (action_to_direction action) /\
  Z.testbit (get_reward_signal (st r')) 2 = true.
Proof.
  set (dir := action_to_direction action). intros Hexit Hpush Hkey Hgate Hrun.
  apply apply_action_split in Hrun as (r0 & r1 & r2 & Hstart & Hagent & Hscan & Hend).
  apply kept_by_StartScan_run in Hstart as Hkept. cbn [st start] in Hkept.
  fold dir in Hagent.
  apply IsType_true in Hexit as Hexit'. destruct Hexit' as [Hin Hel].
  assert (Hwalk : qor (IsType (agent_idx s) kEmpty dir) (IsType (agent_idx s) kDirt dir) s
                  = Some false).
  { unfold qor. by rewrite !(IsType_found _ _ _ _ kExitOpen Hin Hel). }
  assert (Hgem : qor (IsType (agent_idx s) kDiamond dir)
                   (IsType (agent_idx s) kDiamondFalling dir) s = Some false).
  { unfold qor. by rewrite !(IsType_found _ _ _ _ kExitOpen Hin Hel). }
  pose proof Hkept as (Hboard & Hidx & Hgems & Hinexit).
  rewrite Hidx in Hagent. unfold UpdateAgent in Hagent.
  assert (Hin0 : InBounds (agent_idx s) dir (st r0) = Some true)
    by (by rewrite (InBounds_kept _ _ s (st r0) Hkept)).
  assert (Hwalk0 : qor (IsType (agent_idx s) kEmpty dir) (IsType (agent_idx s) kDirt dir)
                     (st r0) = Some false).
  { unfold qor. rewrite !(IsType_kept _ _ _ s (st r0) Hkept). exact Hwalk. }
  assert (Hgem0 : qor (IsType (agent_idx s) kDiamond dir)
                    (IsType (agent_idx s) kDiamondFalling dir) (st r0) = Some false).
  { unfold qor. rewrite !(IsType_kept _ _ _ s (st r0) Hkept). exact Hgem. }
  assert (Hpush0 : qand (qpure (IsDirectionHorz dir)) (HasProperty (agent_idx s) kPushable dir)
                     (st r0) = Some false).
  { unfold qand, qpure in *. by rewrite (HasProperty_kept _ _ _ s (st r0) Hkept). }
  assert (Htarget0 : GetItem (agent_idx s) dir (st r0) = Some kExitOpen).
  { by rewrite (GetItem_kept _ _ s (st r0) Hkept). }
  assert (Hexit0 : IsType (agent_idx s) kExitOpen dir (st r0) = Some true).
  { by rewrite (IsType_kept _ _ _ s (st r0) Hkept). }
  rewrite (ask_Some _ _ _ true Hin0) in Hagent.
  cbn [negb] in Hagent. rewrite bind_get_state in Hagent.
  rewrite (ask_false _ _ _ _ Hwalk0) in Hagent.
  rewrite (ask_false _ _ _ _ Hgem0) in Hagent.
  rewrite (ask_false _ _ _ _ Hpush0) in Hagent.
  rewrite (ask_Some _ _ _ _ Htarget0) in Hagent.
  rewrite Hkey, Hgate in Hagent.
  rewrite (ask_true _ _ _ _ Hexit0) in Hagent.
  unfold bind at 1 in Hagent.
  destruct (MoveItem _ _ _) as [[] r_moved| |] eqn:Hmove; [|done..].
  unfold bind at 1 in Hagent.
  destruct (SetItem _ _ _ _) as [[] r_set| |] eqn:Hset; [|done..].
  rewrite !bind_modify in Hagent. unfold or_reward in Hagent. rewrite run_modify in Hagent.
  injection Hagent as <-.
  apply MoveItem_frame in Hmove as (_ & _ & _ & _ & _).
  apply SetItem_frame in Hset as (_ & _ & _ & _ & _). fields.
  apply scan_kept in Hscan as Hs. apply EndScan_kept in Hend as He.
  destruct (kept_by_scan_trans _ _ _ Hs He) as (_ & Ha & Hin_exit & Hbits). fields.
  assert (Hthere : is_agent_in_exit (st r') = true) by done.
  split; [done|]. split; [done|]. split.
  { unfold is_terminal. rewrite Hthere. apply orb_true_r. }
  split.
  - rewrite Ha. by rewrite (IndexFromDirection_same_board _ _ s (st r0)).
  - apply Hbits. by apply testbit_lor_r.
Qed.

End AgentRules.

(** X17, witness: the agent steps right onto a diamond. *)
Lemma agent_collects_the_diamond_witness :
  exists s r',
    new_state false "1|3|1|0|5|7" default_parameters = Constructed s /\
    apply_action (cat := spec_catalog) 3 ActRight (start s) = Ok tt r' /\
    grid (st r') = [kEmpty; kAgent; kExitOpen] /\
    gems_collected (st r') = gems_collected s + 1 /\
    agent_idx (st r') = IndexFromDirection s (agent_idx s) kRight /\
    Z.testbit (get_reward_signal (st r')) 1 = true.
Proof.
  eexists _, _. split; [vm_compute; reflexivity|].
  match goal with |- ?run /\ _ => assert (Hrun : run) by (vm_compute; reflexivity) end.
  split; [exact Hrun|]. split; [reflexivity|].
  refine (agent_collects_the_diamond (cat := spec_catalog) 3 ActRight _ _ _ Hrun).
  vm_compute. reflexivity.
Defined.

(** X18, witness: the agent steps right into the open exit. *)
Lemma agent_walks_into_the_open_exit_witness :
  exists s r',
    new_state false "1|3|0|1|0|8" default_parameters = Constructed s /\
    apply_action (cat := spec_catalog) 3 ActRight (start s) = Ok tt r' /\
    grid (st r') = [kEmpty; kEmpty; kAgentInExit] /\
    is_agent_in_exit (st r') = true /\
    is_solution (st r') = true /\
    is_terminal (st r') = true /\
    agent_idx (st r') = IndexFromDirection s (agent_idx s) kRight /\
    Z.testbit (get_reward_signal (st r')) 2 = true.
Proof.
  eexists _, _. split; [vm_compute; reflexivity|].
  match goal with |- ?run /\ _ => assert (Hrun : run) by (vm_compute; reflexivity) end.
  split; [exact Hrun|]. split; [reflexivity|].
  refine (agent_walks_into_the_open_exit (cat := spec_catalog) 3 ActRight _ _ _ _ _ _ Hrun);
    vm_compute; reflexivity.
Defined.

Section Bookkeeping.

Context {cat : Catalog}.

Lemma tame_frame_SetItem s index el dir : tame (agent_frame s) (SetItem index el dir).
Proof. intros r Hr. by apply wp_SetItem. Qed.

Lemma tame_frame_MoveItem s index dir : tame (agent_frame s) (MoveItem index dir).
Proof.
  intros r Hr. unfold wp. rewrite MoveItem_eq. cbv zeta. by destruct (_ && _ && _).
Qed.

Lemma tame_frame_or_reward s code : tame (agent_frame s) (or_reward code).
Proof. by apply tame_modify. Qed.

#[local] Hint Resolve tame_frame_SetItem tame_frame_MoveItem tame_frame_or_reward : tame.
#[local] Hint Extern 1 (tame (agent_frame _) (modify _)) =>
  apply tame_modify; let H := fresh in intros ? H; exact H : tame.

Lemma tame_frame_Push s index stationary falling dir :
  tame (agent_frame s) (Push index stationary falling dir).
Proof. unfold Push. tame_auto. Qed.

Lemma tame_frame_OpenGate s el : tame (agent_frame s) (OpenGate el).
Proof. unfold OpenGate. tame_auto. Qed.

#[local] Hint Resolve tame_frame_Push tame_frame_OpenGate : tame.

Lemma tame_frame_UpdateAgent s index dir : tame (agent_frame s) (UpdateAgent index dir).
Proof. unfold UpdateAgent. tame_auto. Qed.

Lemma tame_frame_StartScan s : tame (agent_frame s) StartScan.
Proof. unfold StartScan. tame_auto. Qed.

(* The scan writes neither blob_swap nor magic_wall_steps, and it only
   ever switches magic_active on. *)
Lemma scan_effect_bookkeeping r r' :
  scan_effect r r' ->
  blob_swap (st r') = blob_swap (st r) /\
  magic_wall_steps (st r') = magic_wall_steps (st r).
Proof. intros [? ? []| | | | |]; done. Qed.

Lemma scan_bookkeeping fuel r r' :
  scan fuel r = Ok tt r' ->
  blob_swap (st r') = blob_swap (st r) /\
  magic_wall_steps (st r') = magic_wall_steps (st r).
Proof.
  intros Hrun%within_scan. induction Hrun as [|r1 r2 r3 Hstep _ IH]; [done|].
  apply scan_effect_bookkeeping in Hstep as [H1 H2]. rewrite H1, H2 in IH. exact IH.
Qed.

(* The state at the entry of EndScan, for a tick that returns. *)
Lemma before_EndScan fuel action s r' :
  apply_action fuel action (start s) = Ok tt r' ->
  exists r2,
    EndScan r2 = Ok tt r' /\
    blob_swap (st r2) = blob_swap s /\
    magic_wall_steps (st r2) = magic_wall_steps s.
Proof.
  intros (r0 & r1 & r2 & Hstart & Hagent & Hscan & Hend)%apply_action_split.
  exists r2. split; [done|].
  assert (H0 : agent_frame s r0).
  { refine (wp_Ok False _ (fun _ r => agent_frame s r) _ _ _ _ Hstart).
    by apply tame_frame_StartScan. }
  assert (H1 : agent_frame s r1).
  { refine (wp_Ok False _ (fun _ r => agent_frame s r) _ _ _ _ Hagent).
    by apply tame_frame_UpdateAgent. }
  apply scan_bookkeeping in Hscan as [-> ->]. by destruct H1 as (-> & -> & _).
Qed.

(** X19.  blob_swap is written by EndScan only, and only while it is kNull:
    a tick that returns leaves a blob_swap that was set as it is, and sets
    a kNull one to nothing else than Diamond or Stone.  So in every state
    reached from a constructed state blob_swap is kNull, Diamond or Stone. *)
Theorem blob_swap_is_set_once ndebug board_str params s0 s :
  new_state ndebug board_str params = Constructed s0 ->
  reachable s0 s ->
  (blob_swap s = kNull \/ blob_swap s = kDiamond \/ blob_swap s = kStone) /\
  forall fuel action r',
    apply_action fuel action (start s) = Ok tt r' ->
    (blob_swap s <> kNull -> blob_swap (st r') = blob_swap s) /\
    (blob_swap s = kNull ->
       blob_swap (st r') = kNull \/ blob_swap (st r') = kDiamond \/
       blob_swap (st r') = kStone).
Proof.
  intros Hnew Hreach.
  assert (Hstep : forall s fuel action r',
    apply_action fuel action (start s) = Ok tt r' ->
    (blob_swap s <> kNull -> blob_swap (st r') = blob_swap s) /\
    (blob_swap s = kNull ->
       blob_swap (st r') = kNull \/ blob_swap (st r') = kDiamond \/
       blob_swap (st r') = kStone)).
  { clear. intros s fuel action r' (r2 & Hend & Hswap & _)%before_EndScan.
    rewrite <- Hswap. clear Hswap. revert Hend.
    unfold EndScan. rewrite bind_get_state. unfold when.
    destruct (cell_eqb (blob_swap (st r2)) kNull) eqn:Hnull.
    - apply cell_eqb_eq in Hnull.
      destruct (blob_enclosed (st r2)), (blob_max_size (st r2) <? blob_size (st r2)),
        (magic_active (st r2)); unfold bind, modify, ret; intros [= <-]; fields;
        (split; [done|]); intros _; auto.
    - apply cell_eqb_neq in Hnull.
      destruct (magic_active (st r2)); unfold bind, modify, ret; intros [= <-]; fields;
        (split; [done|]); intros; done. }
  split; [|by apply Hstep].
  induction Hreach as [|s fuel action r' _ IH Hrun].
  - left. unfold new_state in Hnew.
    apply cbind_Constructed in Hnew as (b & _ & Hnew).
    do 4 (apply cbind_Constructed in Hnew as (? & _ & Hnew)). by injection Hnew as <-.
  - destruct (Hstep _ _ _ _ Hrun) as [Hkeep Hset].
    destruct IH as [Hnull|Hset']; [by apply Hset|].
    rewrite Hkeep; [by right|]. by destruct Hset' as [-> | ->].
Qed.

(** X20.  The magic wall's countdown: a tick that starts with a
    non-negative magic_wall_steps leaves it non-negative, never raises it
    and lowers it by at most one; and after every tick that returns,
    magic_active implies that magic_wall_steps is positive. *)
Theorem magic_wall_counts_down fuel action s r' :
  apply_action fuel action (start s) = Ok tt r' ->
  (magic_active (st r') = true -> 0 < magic_wall_steps (st r')) /\
  (0 <= magic_wall_steps s ->
     0 <= magic_wall_steps (st r') /\
     magic_wall_steps s - 1 <= magic_wall_steps (st r') <= magic_wall_steps s).
Proof.
  intros (r2 & Hend & _ & Hsteps)%before_EndScan. rewrite <- Hsteps. clear Hsteps.
  revert Hend. unfold EndScan. rewrite bind_get_state. unfold when.
  destruct (cell_eqb (blob_swap (st r2)) kNull), (blob_enclosed (st r2)),
    (blob_max_size (st r2) <? blob_size (st r2)), (magic_active (st r2));
    unfold bind, modify, ret; intros [= <-]; fields;
    (split; [try done; intros [_ ?%Z.ltb_lt]%andb_true_iff; done|lia]).
Qed.

(** *** Gems *)

Lemma tame_gem_SetItem g index el dir : tame (at_most_one_gem g) (SetItem index el dir).
Proof. intros r Hr. by apply wp_SetItem. Qed.

Lemma tame_gem_MoveItem g index dir : tame (at_most_one_gem g) (MoveItem index dir).
Proof.
  intros r Hr. unfold wp. rewrite MoveItem_eq. cbv zeta. by destruct (_ && _ && _).
Qed.

Lemma tame_gem_or_reward g code : tame (at_most_one_gem g) (or_reward code).
Proof.
  apply tame_modify. intros r [Hr|[Hr Hbit]]; [by left|right].
  unfold at_most_one_gem. fields. split; [done|]. by apply testbit_lor_l.
Qed.

#[local] Hint Resolve tame_gem_SetItem tame_gem_MoveItem tame_gem_or_reward : tame.
#[local] Hint Extern 1 (tame (at_most_one_gem _) (modify (set_agent_idx _))) =>
  apply tame_modify; let H := fresh in intros ? H; exact H : tame.
#[local] Hint Extern 1 (tame (at_most_one_gem _) (modify (set_is_agent_in_exit _))) =>
  apply tame_modify; let H := fresh in intros ? H; exact H : tame.

Lemma tame_gem_Push g index stationary falling dir :
  tame (at_most_one_gem g) (Push index stationary falling dir).
Proof. unfold Push. tame_auto. Qed.

Lemma tame_gem_OpenGate g el : tame (at_most_one_gem g) (OpenGate el).
Proof. unfold OpenGate. tame_auto. Qed.

#[local] Hint Resolve tame_gem_Push tame_gem_OpenGate : tame.

Lemma collected_one_gem g r :
  gems_collected (st r) = g ->
  at_most_one_gem g
    (with_state (with_state r (set_gems_collected (gems_collected (st r) + 1) (st r)))
       (set_reward_signal
          (Z.lor (reward_signal
                    (st (with_state r (set_gems_collected (gems_collected (st r) + 1) (st r)))))
                 kRewardCollectDiamond)
          (st (with_state r (set_gems_collected (gems_collected (st r) + 1) (st r)))))).
Proof.
  intros Hg. right. fields. split; [lia|]. by apply testbit_lor_r.
Qed.

Ltac gem_solve :=
  first
    [ apply wp_tame; [solve [tame_auto]|by left]
    | lazymatch goal with
      | |- wp _ (bind (ask _) _) _ _ => apply wp_bind_ask; intros ? ?; gem_solve
      | |- wp _ (bind get_state _) _ _ => apply wp_bind_get_state; gem_solve
      | |- wp _ (bind (at_ _) _) _ _ => apply wp_bind_at; intros ? ?; gem_solve
      | |- wp _ (if ?b then _ else _) _ _ => destruct b; gem_solve
      | |- wp _ (bind (if ?b then _ else _) _) _ _ => destruct b; gem_solve
      | |- wp _ (bind (modify (fun s => set_gems_collected _ s)) _) _ _ =>
          apply wp_bind_modify, wp_bind_or_reward, wp_tame;
            [solve [tame_auto]|by apply collected_one_gem]
      | |- wp _ (bind (bind (modify (fun s => set_gems_collected _ s)) _) _) _ _ =>
          apply wp_bind, wp_bind_modify; unfold or_reward at 1; apply wp_modify, wp_tame;
            [solve [tame_auto]|by apply collected_one_gem]
      end ].

Lemma wp_UpdateAgent_gems g index dir r :
  gems_collected (st r) = g ->
  wp False (UpdateAgent index dir) (fun _ r' => at_most_one_gem g r') r.
Proof. intros Hg. unfold UpdateAgent. gem_solve. Qed.

(** X21.  A tick collects at most one gem: when apply_action returns,
    gems_collected is what it was, or one more, and in that case the
    CollectDiamond bit (1 << 1) of reward_signal is set. *)
Theorem at_most_one_gem_per_tick fuel action s r' :
  apply_action fuel action (start s) = Ok tt r' ->
  gems_collected (st r') = gems_collected s \/
  (gems_collected (st r') = gems_collected s + 1 /\
   Z.testbit (get_reward_signal (st r')) 1 = true).
Proof.
  intros (r0 & r1 & r2 & Hstart & Hagent & Hscan & Hend)%apply_action_split.
  apply kept_by_StartScan_run in Hstart as (_ & _ & Hgems & _). cbn [st start] in Hgems.
  assert (H1 : at_most_one_gem (gems_collected s) r1).
  { refine (wp_Ok False _ (fun _ r => at_most_one_gem (gems_collected s) r) _ _ _ _ Hagent).
    by apply wp_UpdateAgent_gems. }
  apply scan_kept in Hscan as Hs. apply EndScan_kept in Hend as He.
  destruct (kept_by_scan_trans _ _ _ Hs He) as (Hg & _ & _ & Hbits).
  destruct H1 as [H1|[H1 Hbit]]; [left|right]; rewrite Hg; [done|]. split; [done|].
  by apply Hbits.
Qed.

End Bookkeeping.

(** X19, witness: there is no blob, so the first tick finds the blob
    enclosed and sets blob_swap to Diamond; the second tick keeps it. *)
Lemma blob_swap_is_set_once_witness :
  exists s0 s r',
    new_state false "1|3|0|0|1|1" default_parameters = Constructed s0 /\
    play (cat := spec_catalog) 3 [ActRight] s0 = Some s /\
    blob_swap s0 = kNull /\ blob_swap s = kDiamond /\
    apply_action (cat := spec_catalog) 3 ActRight (start s) = Ok tt r' /\
    blob_swap (st r') = kDiamond /\
    (blob_swap s = kNull \/ blob_swap s = kDiamond \/ blob_swap s = kStone) /\
    forall fuel action r',
      apply_action (cat := spec_catalog) fuel action (start s) = Ok tt r' ->
      (blob_swap s <> kNull -> blob_swap (st r') = blob_swap s) /\
      (blob_swap s = kNull ->
         blob_swap (st r') = kNull \/ blob_swap (st r') = kDiamond \/
         blob_swap (st r') = kStone).
Proof.
  eexists _, _, _. split; [vm_compute; reflexivity|]. split; [vm_compute; reflexivity|].
  split; [reflexivity|]. split; [reflexivity|]. split; [vm_compute; reflexivity|].
  split; [reflexivity|].
  eapply (blob_swap_is_set_once (cat := spec_catalog) false "1|3|0|0|1|1" default_parameters).
  - vm_compute. reflexivity.
  - apply (play_reachable 3 [ActRight]). vm_compute. reflexivity.
Defined.

(** X20, witness: a stone falls through a magic wall; the wall is switched
    on and the countdown goes from 140 to 139. *)
Lemma magic_wall_counts_down_witness :
  exists s r',
    new_state false "4|1|0|4|20|1|0" with_gravity = Constructed s /\
    apply_action (cat := spec_catalog) 4 ActUp (start s) = Ok tt r' /\
    magic_wall_steps s = 140 /\ magic_wall_steps (st r') = 139 /\
    magic_active (st r') = true /\
    (magic_active (st r') = true -> 0 < magic_wall_steps (st r')) /\
    (0 <= magic_wall_steps s ->
       0 <= magic_wall_steps (st r') /\
       magic_wall_steps s - 1 <= magic_wall_steps (st r') <= magic_wall_steps s).
Proof.
  eexists _, _. split; [vm_compute; reflexivity|].
  match goal with |- ?run /\ _ => assert (Hrun : run) by (vm_compute; reflexivity) end.
  split; [exact Hrun|]. split; [reflexivity|]. split; [reflexivity|]. split; [reflexivity|].
  exact (magic_wall_counts_down (cat := spec_catalog) _ _ _ _ Hrun).
Defined.

(** X21, witness: the agent steps right onto a diamond. *)
Lemma at_most_one_gem_per_tick_witness :
  exists s r',
    new_state false "1|3|1|0|5|5" default_parameters = Constructed s /\
    apply_action (cat := spec_catalog) 3 ActRight (start s) = Ok tt r' /\
    gems_collected (st r') = 1 /\
    (gems_collected (st r') = gems_collected s \/
     (gems_collected (st r') = gems_collected s + 1 /\
      Z.testbit (get_reward_signal (st r')) 1 = true)).
Proof.
  eexists _, _. split; [vm_compute; reflexivity|].
  match goal with |- ?run /\ _ => assert (Hrun : run) by (vm_compute; reflexivity) end.
  split; [exact Hrun|]. split; [reflexivity|].
  exact (at_most_one_gem_per_tick (cat := spec_catalog) _ _ _ _ Hrun).
Defined.

Section Bounds.

Context {cat : Catalog}.

(** X22.  When the offsets table agrees with IndexFromDirection, a
    successful InBounds(index, direction) makes the unchecked
    IndexFromDirection safe: the index it computes lies in
    [0, rows*cols), and it is the cell one step away in the same grid
    coordinates (no wrap-around from one row into the next). *)
Theorem InBounds_keeps_the_index_in_the_grid index dir s :
  offsets_agree ->
  InBounds index dir s = Some true ->
  let target := IndexFromDirection s index dir in
  let col := Z.rem index (cols s) in
  let row := Z.quot (index - col) (cols s) in
  0 <= target < rows s * cols s /\
  index_to_position target s =
    Constructed (row + snd (kDirectionOffsets dir), col + fst (kDirectionOffsets dir)).
Proof.
  intros Hoff Hin target col row. subst target. rewrite Hoff.
  unfold InBounds in Hin. destruct (Z.eqb_spec (cols s) 0) as [|Hcols]; [done|].
  fold col row in Hin. cbv zeta in Hin. injection Hin as Hin.
  destruct (kDirectionOffsets dir) as [dx dy]. simpl in *.
  apply andb_true_iff in Hin as [[[Hc0%Z.leb_le Hc%Z.ltb_lt]%andb_true_iff
    Hr0%Z.leb_le]%andb_true_iff Hr%Z.ltb_lt].
  assert (Hindex : index = row * cols s + col).
  { subst row col. pose proof (Z.quot_rem' index (cols s)) as Hqr.
    replace (index - Z.rem index (cols s)) with (Z.quot index (cols s) * cols s) by lia.
    rewrite Z.quot_mul by done. lia. }
  assert (Htarget : index + dx + dy * cols s = (row + dy) * cols s + (col + dx)) by lia.
  rewrite Htarget. clear Htarget Hindex. set (r := row + dy) in *. set (c := col + dx) in *.
  assert (Hrange : 0 <= r * cols s + c < rows s * cols s) by nia.
  split; [done|]. unfold index_to_position.
  rewrite (proj2 (Z.ltb_ge _ 0)), (proj2 (Z.leb_gt (rows s * cols s) _)) by lia.
  simpl. f_equal. f_equal.
  - rewrite Z.quot_div_nonneg by lia.
    rewrite Z.div_add_l by lia. rewrite Z.div_small by lia. lia.
  - rewrite Z.rem_mod_nonneg by lia.
    rewrite Z.add_comm, Z.mod_add by lia. apply Z.mod_small. lia.
Qed.

Section Hash.

Variable ndebug : bool.

(** X23.  The hash tells boards apart and nothing else: two states reached
    from the same constructed state (with rows*cols cells) that hold the
    same grid have the same hash, whatever their gems, flags, counters and
    random state. *)
Theorem hash_depends_on_the_grid_only board_str params s0 s1 s2 :
  new_state ndebug board_str params = Constructed s0 ->
  Z.of_nat (length (grid s0)) = rows s0 * cols s0 ->
  reachable s0 s1 ->
  reachable s0 s2 ->
  grid s1 = grid s2 ->
  get_hash s1 = get_hash s2.
Proof.
  intros Hnew Hlen H1 H2 Hgrid.
  pose proof (new_state_hash_invariant _ _ _ _ Hnew Hlen) as Hinv.
  destruct (hash_invariant_reachable _ _ H1 Hinv) as [Hh1 _].
  destruct (hash_invariant_reachable _ _ H2 Hinv) as [Hh2 _].
  apply reachable_shape in H1 as (_ & _ & Hr1 & Hc1).
  apply reachable_shape in H2 as (_ & _ & Hr2 & Hc2).
  unfold get_hash. rewrite Hh1, Hh2. unfold xor_of_cells.
  by rewrite Hgrid, Hr1, Hc1, Hr2, Hc2.
Qed.

End Hash.

End Bounds.

Lemma spec_catalog_offsets_agree : offsets_agree (cat := spec_catalog).
Proof. intros s index dir. destruct dir; simpl; lia. Qed.

(** X22, witness: from the last cell of the first row of a 2 x 3 board,
    Right is out of bounds and Down is the last cell of the board. *)
Lemma InBounds_keeps_the_index_in_the_grid_witness :
  exists s,
    new_state false "2|3|0|0|1|1|1|1|1" default_parameters = Constructed s /\
    InBounds (cat := spec_catalog) 2 kRight s = Some false /\
    IndexFromDirection s 2 kRight = 3 /\
    InBounds (cat := spec_catalog) 2 kDown s = Some true /\
    IndexFromDirection s 2 kDown = 5 /\
    (0 <= IndexFromDirection s 2 kDown < rows s * cols s /\
     index_to_position (IndexFromDirection s 2 kDown) s =
       Constructed
         (Z.quot (2 - Z.rem 2 (cols s)) (cols s) + snd (@kDirectionOffsets spec_catalog kDown),
          Z.rem 2 (cols s) + fst (@kDirectionOffsets spec_catalog kDown))).
Proof.
  eexists. split; [vm_compute; reflexivity|]. split; [reflexivity|]. split; [reflexivity|].
  split; [reflexivity|]. split; [reflexivity|].
  apply (InBounds_keeps_the_index_in_the_grid (cat := spec_catalog) 2 kDown).
  - exact spec_catalog_offsets_agree.
  - reflexivity.
Defined.

(** X23, witness: the agent walks right and back; the board is the
    initial one again and so is the hash, though the flags differ. *)
Lemma hash_depends_on_the_grid_only_witness :
  exists s0 s2,
    new_state false "1|3|0|0|1|1" default_parameters = Constructed s0 /\
    play (cat := spec_catalog) 3 [ActRight; ActLeft] s0 = Some s2 /\
    has_updated s2 <> has_updated s0 /\
    grid s0 = grid s2 /\
    get_hash s0 = get_hash s2.
Proof.
  eexists _, _. split; [vm_compute; reflexivity|]. split; [vm_compute; reflexivity|].
  split; [discriminate|]. split; [reflexivity|].
  eapply (hash_depends_on_the_grid_only (cat := spec_catalog) false "1|3|0|0|1|1"
            default_parameters).
  - vm_compute. reflexivity.
  - vm_compute. reflexivity.
  - apply reach_initial.
  - apply (play_reachable 3 [ActRight; ActLeft]). vm_compute. reflexivity.
  - reflexivity.
Defined.

Lemma getline_all_token cur token rest :
  no_bar token = true ->
  getline_all cur (token ++ String "|" rest) =
    string_of_list_ascii (rev cur ++ list_ascii_of_string token) :: getline_all [] rest.
Proof.
  revert cur. induction token as [|c token IH]; intros cur Hbar; simpl.
  - by rewrite app_nil_r.
  - simpl in Hbar. apply andb_true_iff in Hbar as [Hc Hbar].
    apply negb_true_iff in Hc. rewrite Hc, IH by done. simpl.
    by rewrite <- app_assoc.
Qed.

Lemma getline_all_last cur token :
  no_bar token = true ->
  token <> EmptyString ->
  getline_all cur token = [string_of_list_ascii (rev cur ++ list_ascii_of_string token)].
Proof.
  revert cur. induction token as [|c token IH]; intros cur Hbar Hne; [done|].
  simpl in *. apply andb_true_iff in Hbar as [Hc Hbar].
  apply negb_true_iff in Hc. rewrite Hc.
  destruct token as [|c' token'].
  - simpl. done.
  - rewrite IH by done. simpl. by rewrite <- app_assoc.
Qed.

Lemma split_board_join_tokens tokens :
  tokens <> [] ->
  Forall (fun token => no_bar token = true /\ token <> EmptyString) tokens ->
  split_board (join_tokens tokens) = tokens.
Proof.
  unfold split_board. intros Hne Hall.
  induction Hall as [|token rest [Hbar Htoken] Hrest IH]; [done|].
  destruct rest as [|token' rest'].
  - simpl. rewrite getline_all_last by done. simpl.
    by rewrite string_of_list_ascii_of_string.
  - change (join_tokens (token :: token' :: rest'))
      with (token ++ String "|" (join_tokens (token' :: rest')))%string.
    rewrite getline_all_token by done. simpl.
    rewrite string_of_list_ascii_of_string. f_equal. by apply IH.
Qed.

Lemma string_of_uint_no_bar d : no_bar (NilEmpty.string_of_uint d) = true.
Proof. induction d; simpl; done. Qed.

Lemma format_d_token n : no_bar (format_d n) = true /\ format_d n <> EmptyString.
Proof.
  destruct n as [|p|p]; simpl.
  - split; [reflexivity|discriminate].
  - split; [apply string_of_uint_no_bar|].
    pose proof (Unsigned.to_uint_nonnil p). by destruct (Pos.to_uint p).
  - split; [apply string_of_uint_no_bar|discriminate].
Qed.

Lemma read_digits_digit acc seen c k rest :
  digit_value c = Some k ->
  read_digits acc seen (String c rest) = read_digits (10 * acc + k) true rest.
Proof. intros H. simpl. by rewrite H. Qed.

Lemma read_digits_uint acc seen d :
  read_digits acc seen (NilEmpty.string_of_uint d) =
    (uint_value acc d, seen || match d with Decimal.Nil => false | _ => true end).
Proof.
  revert acc seen. induction d; intros acc seen; cbn [NilEmpty.string_of_uint uint_value];
    [by rewrite orb_false_r|..];
    (erewrite read_digits_digit by reflexivity); rewrite IHd, orb_true_r; reflexivity.
Qed.

Lemma uint_value_of_uint_acc d acc :
  Zpos (Pos.of_uint_acc d acc) = uint_value (Zpos acc) d.
Proof.
  revert acc. induction d; intros acc; simpl; rewrite ?IHd; try done; f_equal; lia.
Qed.

Lemma uint_value_of_uint d : Z.of_N (Pos.of_uint d) = uint_value 0 d.
Proof. induction d; simpl; try done; by rewrite uint_value_of_uint_acc. Qed.

Lemma uint_value_to_uint p : uint_value 0 (Pos.to_uint p) = Zpos p.
Proof. by rewrite <- uint_value_of_uint, Unsigned.of_to. Qed.

Lemma stoi_digits p :
  Zpos p <= - INT_MIN ->
  exists c rest,
    NilEmpty.string_of_uint (Pos.to_uint p) = String c rest /\
    isspace c = false /\ Ascii.eqb c "-" = false /\ Ascii.eqb c "+" = false /\
    read_digits 0 false (String c rest) = (Zpos p, true).
Proof.
  intros _. pose proof (uint_value_to_uint p) as Hvalue.
  pose proof (read_digits_uint 0 false (Pos.to_uint p)) as Hread.
  pose proof (Unsigned.to_uint_nonnil p) as Hnil.
  rewrite Hvalue in Hread.
  destruct (Pos.to_uint p) as [|d|d|d|d|d|d|d|d|d|d]; [done|..];
    eexists _, _; (split; [reflexivity|]); repeat split; try reflexivity; exact Hread.
Qed.

Lemma stoi_format_d n : INT_MIN <= n <= INT_MAX -> stoi (format_d n) = Constructed n.
Proof.
  intros Hn. destruct n as [|p|p].
  - reflexivity.
  - destruct (stoi_digits p) as (c & rest & Hs & Hspace & Hminus & Hplus & Hread).
    { unfold INT_MIN, INT_MAX in *. lia. }
    unfold stoi, format_d. rewrite Hs. simpl skip_spaces. rewrite Hspace.
    assert (Hsign :
      (match String c rest with
       | String "-" rest0 => (true, rest0)
       | String "+" rest0 => (false, rest0)
       | _ => (false, String c rest)
       end) = (false, String c rest)).
    { destruct c as [[] [] [] [] [] [] [] []]; try done. }
    rewrite Hsign, Hread. simpl negb. cbv iota.
    destruct (Z.ltb_spec (Z.pos p) INT_MIN); [lia|].
    destruct (Z.ltb_spec INT_MAX (Z.pos p)); [lia|]. done.
  - destruct (stoi_digits p) as (c & rest & Hs & Hspace & Hminus & Hplus & Hread).
    { unfold INT_MIN, INT_MAX in *. lia. }
    unfold stoi, format_d. simpl skip_spaces. cbv iota beta. rewrite Hs, Hread.
    simpl negb. cbv iota.
    change (- Z.pos p) with (Z.neg p).
    destruct (Z.ltb_spec (Z.neg p) INT_MIN); [lia|].
    destruct (Z.ltb_spec INT_MAX (Z.neg p)); [lia|]. done.
Qed.

Lemma to_underlying_range el : -1 <= to_underlying el < kNumHiddenCellType.
Proof. unfold kNumHiddenCellType. destruct el; simpl; lia. Qed.

Lemma parse_cells_encoded cells i b :
  Forall (fun el => el <> kNull) cells ->
  exists b',
    parse_cells (map format_d (map to_underlying cells)) i b = Constructed b' /\
    board_grid b' = board_grid b ++ cells /\
    board_has_updated b' = board_has_updated b ++ replicate (length cells) false /\
    board_agent_counter b' =
      board_agent_counter b + Z.of_nat (length (List.filter is_agent_cell cells)) /\
    board_rows b' = board_rows b /\ board_cols b' = board_cols b /\
    board_gems_required b' = board_gems_required b.
Proof.
  intros Hcells. revert i b.
  induction Hcells as [|el cells Hel _ IH]; intros i b.
  { exists b. simpl. rewrite !app_nil_r. repeat split; try done. lia. }
  cbn [map parse_cells].
  pose proof (to_underlying_range el) as Hrange.
  assert (Hcode : 0 <= to_underlying el).
  { destruct el; simpl; try lia. done. }
  rewrite stoi_format_d by (unfold INT_MIN, INT_MAX, kNumHiddenCellType in *; lia).
  cbn [cbind].
  rewrite (proj2 (Z.ltb_ge (to_underlying el) 0)) by done.
  rewrite (proj2 (Z.leb_gt kNumHiddenCellType (to_underlying el))) by lia.
  cbn [orb]. rewrite cell_of_code_to_underlying. cbv zeta.
  fold (is_agent_cell el).
  match goal with |- context [parse_cells _ ?j ?b1] => destruct (IH j b1) as (b' & Hrun & Hrest) end.
  exists b'. split; [exact Hrun|]. clear Hrun IH.
  simpl List.filter. destruct (is_agent_cell el); simpl in Hrest |- *;
    destruct Hrest as (-> & -> & -> & -> & -> & ->);
    rewrite <- !app_assoc; simpl; repeat split; try done; lia.
Qed.

Lemma initial_hash_returns flat_size g indices acc :
  Forall (fun i => in_range g i = true) indices ->
  exists h, initial_hash flat_size g indices acc = Constructed h.
Proof.
  intros Hall. revert acc. induction Hall as [|i indices Hi _ IH]; intros acc; simpl.
  { by exists acc. }
  destruct (vector_at g i) as [el|] eqn:Hel; [apply IH|].
  apply vector_at_None in Hel. congruence.
Qed.

Lemma initial_hash_reads_past flat_size g indices acc i :
  In i indices ->
  in_range g i = false ->
  initial_hash flat_size g indices acc = Undefined.
Proof.
  intros Hin Hout. revert acc. induction indices as [|j indices IH]; intros acc; [done|].
  simpl. destruct (vector_at g j) as [el|] eqn:Hel; [|done].
  destruct Hin as [->|Hin]; [|by apply IH].
  apply vector_at_Some in Hel as [Hel _]. congruence.
Qed.

Section LevelFormat.

Variable ndebug : bool.

(* The parser on a level written in the level format: all that is left to
   decide is the assertion on the number of tokens. *)
Lemma parse_board_str_level height width gems cells :
  INT_MIN <= height <= INT_MAX ->
  INT_MIN <= width <= INT_MAX ->
  INT_MIN <= gems <= INT_MAX ->
  Forall (fun el => el <> kNull) cells ->
  length (List.filter is_agent_cell cells) = 1%nat ->
  exists b,
    parse_board_str ndebug (level_string height width gems cells) =
      (_ <~ assert_that ndebug
              (product <~ int_mul height width ;;
               Constructed (Z.of_nat (length cells) + 3 =? u64 (u64 product + 3))) ;;
       Constructed b) /\
    board_grid b = cells /\
    board_has_updated b = replicate (length cells) false /\
    board_rows b = height /\ board_cols b = width /\ board_gems_required b = gems.
Proof.
  intros Hrows Hcols Hgems Hcells Hagent.
  assert (Hsome : (1 <= length cells)%nat).
  { destruct cells; [done|simpl; lia]. }
  assert (Hsplit : split_board (level_string height width gems cells) =
                   map format_d (height :: width :: gems :: map to_underlying cells)).
  { apply split_board_join_tokens; [done|].
    apply List.Forall_forall. intros token (n & <- & _)%in_map_iff. apply format_d_token. }
  destruct (parse_cells_encoded cells 3
              (mkBoard height width gems (-1) false false [] [] 0) Hcells)
    as (b & Hparse & Hgrid & Hflags & Hcount & Hr & Hc & Hg).
  simpl in Hgrid, Hflags, Hcount, Hr, Hc, Hg.
  exists b. split; [|by rewrite Hgrid, Hflags, Hr, Hc, Hg].
  unfold parse_board_str. cbv zeta. rewrite Hsplit.
  cbn [map length drop seg_at lookup list_lookup].
  rewrite !length_map.
  unfold assert_.
  rewrite (proj2 (Z.leb_le 4 _)) by lia. rewrite orb_true_r. cbn [cbind].
  rewrite !stoi_format_d by done. cbn [cbind].
  replace (Z.of_nat (S (S (S (length cells))))) with (Z.of_nat (length cells) + 3) by lia.
  destruct (assert_that ndebug _); cbn [cbind]; [|done..].
  rewrite drop_0, Hparse. cbn [cbind].
  rewrite Hcount, Hagent.
  change (0 + Z.of_nat 1 =? 0) with false. change (1 <? 0 + Z.of_nat 1) with false.
  reflexivity.
Qed.

(* The constructor once the parser has returned: the initial hash reads
   the first rows*cols cells of the grid, whatever their number. *)
Lemma new_state_after_parse board_str params b :
  parse_board_str ndebug board_str = Constructed b ->
  0 <= board_rows b * board_cols b <= INT_MAX ->
  (board_rows b * board_cols b <= Z.of_nat (length (board_grid b)) ->
   exists s,
     new_state ndebug board_str params = Constructed s /\
     grid s = board_grid b /\
     rows s = board_rows b /\ cols s = board_cols b /\
     gems_required s = board_gems_required b /\
     has_updated s = board_has_updated b) /\
  (Z.of_nat (length (board_grid b)) < board_rows b * board_cols b ->
   new_state ndebug board_str params = Undefined).
Proof.
  intros Hparse Hrange. unfold new_state. rewrite Hparse. cbn [cbind].
  unfold int_mul, views_iota.
  rewrite (Z.mul_comm (board_cols b)).
  replace ((board_rows b * board_cols b <? INT_MIN) ||
           (INT_MAX <? board_rows b * board_cols b)) with false.
  2:{ symmetry. apply orb_false_iff. rewrite !Z.ltb_ge. unfold INT_MIN, INT_MAX in *. lia. }
  cbn [cbind]. rewrite (proj2 (Z.ltb_ge _ 0)) by lia. cbn [cbind].
  split.
  - intros Hall.
    destruct (initial_hash_returns (board_rows b * board_cols b) (board_grid b)
                (iota 0 (board_rows b * board_cols b)) 0) as [h Hh].
    { apply List.Forall_forall. intros i Hi%iota_In.
      unfold in_range. apply andb_true_iff. rewrite Z.leb_le, Z.ltb_lt. lia. }
    rewrite Hh. cbn [cbind]. eexists. split; [reflexivity|]. by fields.
  - intros Hshort.
    rewrite (initial_hash_reads_past _ _ _ _ (Z.of_nat (length (board_grid b)))); [done| |].
    + apply iota_In. lia.
    + unfold in_range. apply andb_false_iff. right. apply Z.ltb_ge. lia.
Qed.

(** X24.  The constructor reads back every level written in the level
    format: for dimensions and a gem count that fit an int, rows*cols
    cells (none of them kNull) of which exactly one is an agent cell, the
    string of the decimal tokens joined by '|' is accepted, and the state
    holds these dimensions, this gem count and exactly these cells, with
    all the updated flags cleared. *)
Theorem constructor_reads_back_the_level params height width gems cells :
  INT_MIN <= height <= INT_MAX ->
  INT_MIN <= width <= INT_MAX ->
  INT_MIN <= gems <= INT_MAX ->
  height * width <= INT_MAX ->
  Z.of_nat (length cells) = height * width ->
  Forall (fun el => el <> kNull) cells ->
  length (List.filter is_agent_cell cells) = 1%nat ->
  exists s,
    new_state ndebug (level_string height width gems cells) params = Constructed s /\
    grid s = cells /\
    rows s = height /\ cols s = width /\
    gems_required s = gems /\
    has_updated s = replicate (length cells) false.
Proof.
  intros Hrows Hcols Hgems Hint Hlen Hcells Hagent.
  destruct (parse_board_str_level height width gems cells Hrows Hcols Hgems Hcells Hagent)
    as (b & Hparse & Hgrid & Hflags & Hr & Hc & Hg).
  assert (Hasserted : assert_that ndebug
            (product <~ int_mul height width ;;
             Constructed (Z.of_nat (length cells) + 3 =? u64 (u64 product + 3))) =
          Constructed tt).
  { unfold assert_that, int_mul. destruct ndebug; [done|].
    replace ((height * width <? INT_MIN) || (INT_MAX <? height * width)) with false.
    2:{ symmetry. apply orb_false_iff. rewrite !Z.ltb_ge. unfold INT_MIN, INT_MAX in *. lia. }
    cbn [cbind].
    assert (Hu64 : u64 (u64 (height * width) + 3) = height * width + 3).
    { unfold u64, INT_MAX in *. rewrite (Z.mod_small (height * width)) by lia.
      apply Z.mod_small. lia. }
    by rewrite Hu64, Hlen, Z.eqb_refl. }
  rewrite Hasserted in Hparse. cbn [cbind] in Hparse.
  destruct (new_state_after_parse _ params _ Hparse) as [Hfull _].
  { rewrite Hr, Hc. lia. }
  destruct Hfull as (s & Hnew & Hsg & Hsr & Hsc & Hsgems & Hsu).
  { rewrite Hr, Hc, Hgrid. lia. }
  exists s. by rewrite Hsg, Hsr, Hsc, Hsgems, Hsu, Hgrid, Hflags, Hr, Hc, Hg.
Qed.

End LevelFormat.

(** X24, witness: a 2 x 2 level with a stone, a diamond and the exit. *)
Lemma constructor_reads_back_the_level_witness :
  exists s,
    level_string 2 2 1 [kAgent; kStone; kDiamond; kExitClosed] = "2|2|1|0|3|5|7"%string /\
    new_state false (level_string 2 2 1 [kAgent; kStone; kDiamond; kExitClosed])
      default_parameters = Constructed s /\
    grid s = [kAgent; kStone; kDiamond; kExitClosed] /\
    rows s = 2 /\ cols s = 2 /\ gems_required s = 1 /\
    has_updated s = replicate (length [kAgent; kStone; kDiamond; kExitClosed]) false.
Proof.
  destruct (constructor_reads_back_the_level false default_parameters 2 2 1
              [kAgent; kStone; kDiamond; kExitClosed]) as (s & Hs);
    [unfold INT_MIN, INT_MAX; lia..|reflexivity|repeat constructor; discriminate|reflexivity|].
  exists s. split; [reflexivity|exact Hs].
Defined.

Lemma lxor_u64 a b : 0 <= a < 2 ^ 64 -> 0 <= b < 2 ^ 64 -> 0 <= Z.lxor a b < 2 ^ 64.
Proof.
  intros Ha Hb. assert (H0 : 0 <= Z.lxor a b) by (apply Z.lxor_nonneg; lia).
  split; [done|].
  destruct (decide (Z.lxor a b = 0)) as [->|Hne]; [done|].
  apply Z.log2_lt_pow2; [lia|].
  assert (Hla : Z.log2 a < 64).
  { destruct (decide (a = 0)) as [->|]; [done|]. apply Z.log2_lt_pow2; lia. }
  assert (Hlb : Z.log2 b < 64).
  { destruct (decide (b = 0)) as [->|]; [done|]. apply Z.log2_lt_pow2; lia. }
  pose proof (Z.log2_lxor a b). lia.
Qed.

Lemma xor_shiftl_nonzero x k :
  rng_ok x -> Z.gcd (2 ^ 64) (2 ^ k - 1) = 1 -> 0 <= k ->
  rng_ok (Z.lxor x (u64 (Z.shiftl x k))).
Proof.
  unfold rng_ok, u64. intros Hx Hgcd Hk.
  pose proof (Z.mod_pos_bound (Z.shiftl x k) (2 ^ 64) eq_refl) as Hm.
  pose proof (lxor_u64 x _ (conj (Z.lt_le_incl _ _ (proj1 Hx)) (proj2 Hx)) Hm) as Hr.
  split; [|lia].
  destruct (decide (Z.lxor x (Z.shiftl x k mod 2 ^ 64) = 0)) as [Hz|]; [|lia].
  exfalso. apply Z.lxor_eq in Hz.
  rewrite Z.shiftl_mul_pow2 in Hz by done.
  assert (Hdiv : (2 ^ 64 | (2 ^ k - 1) * x)).
  { exists ((x * 2 ^ k) / 2 ^ 64).
    pose proof (Z.div_mod (x * 2 ^ k) (2 ^ 64)). lia. }
  apply Z.gauss in Hdiv; [|done].
  apply Z.divide_pos_le in Hdiv; lia.
Qed.

Lemma xor_shiftr_nonzero x k : rng_ok x -> 0 < k -> rng_ok (Z.lxor x (Z.shiftr x k)).
Proof.
  unfold rng_ok. intros Hx Hk.
  rewrite Z.shiftr_div_pow2 by lia.
  assert (Hpow : 2 <= 2 ^ k).
  { change 2 with (2 ^ 1) at 1. apply Z.pow_le_mono_r; lia. }
  assert (Hlt : x / 2 ^ k < x) by (apply Z.div_lt; lia).
  assert (H0 : 0 <= x / 2 ^ k) by (apply Z.div_pos; lia).
  pose proof (lxor_u64 x (x / 2 ^ k)) as Hr.
  split; [|lia].
  destruct (decide (Z.lxor x (x / 2 ^ k) = 0)) as [Hz|]; [|lia].
  apply Z.lxor_eq in Hz. lia.
Qed.

Lemma xorshift64_next_ok x : rng_ok x -> rng_ok (xorshift64_next x).
Proof.
  intros Hx. unfold xorshift64_next. cbv zeta.
  apply xor_shiftl_nonzero; [|vm_compute; reflexivity|lia].
  apply xor_shiftr_nonzero; [|lia].
  apply xor_shiftl_nonzero; [done|vm_compute; reflexivity|lia].
Qed.

Section StepLemmas.

Context {cat : Catalog}.

Lemma within_step_of_explode {A} (m : M A) : within explode_effect m -> within scan_step m.
Proof. apply within_mono. intros r r'. apply step_explosion. Qed.

Lemma within_step_SetItem index el dir : within scan_step (SetItem index el dir).
Proof. apply within_step_of_explode, within_explode_SetItem. Qed.

Lemma within_step_MoveItem index dir : within scan_step (MoveItem index dir).
Proof. apply within_step_of_explode, within_explode_MoveItem. Qed.

Lemma within_step_Explode fuel index el dir : within scan_step (Explode fuel index el dir).
Proof. apply within_step_of_explode, within_explode_Explode. Qed.

Lemma within_step_reward code : scan_reward code -> within scan_step (or_reward code).
Proof. intros H. apply within_modify. intros r. by apply step_scan_reward. Qed.

Lemma within_step_blob_grows :
  within scan_step (modify (fun s => set_blob_size (blob_size s + 1) s)).
Proof. apply within_modify, step_blob_grows. Qed.

Lemma within_step_blob_open : within scan_step (modify (set_blob_enclosed false)).
Proof. apply within_modify, step_blob_open. Qed.

Lemma within_step_xorshift64 : within scan_step xorshift64.
Proof. intros r x r' [= <- <-]. apply rtc_once, step_random. Qed.

Create HintDb steps discriminated.
#[local] Hint Resolve within_step_SetItem within_step_MoveItem within_step_Explode
  within_step_reward reward_butterfly reward_nut reward_explosion
  within_step_blob_grows within_step_blob_open within_step_xorshift64 : steps.

Ltac steps_auto :=
  repeat (cbv zeta;
    lazymatch goal with
    | |- within _ (bind (at_ _) _) => apply within_bind_at; intros ? ?
    | |- within _ (bind _ _) => apply within_bind; [|intros ?]
    | |- within _ (ret _) => apply within_ret
    | |- within _ (ask _) => apply within_ask
    | |- within _ (gets _) => apply within_gets
    | |- within _ get_state => apply within_get_state
    | |- within _ (at_ _) => apply within_at
    | |- within _ (when _ _) => apply within_when
    | |- within _ (for_each _ _) => apply within_for_each; intros ?
    | |- within _ (if ?b then _ else _) => destruct b
    | |- within _ (match ?x with _ => _ end) => destruct x
    | |- _ => solve [eauto with steps]
    end).

Lemma within_step_RollLeft index el : within scan_step (RollLeft index el).
Proof. unfold RollLeft. steps_auto. Qed.

Lemma within_step_RollRight index el : within scan_step (RollRight index el).
Proof. unfold RollRight. steps_auto. Qed.

(* The wall is switched on past the test of magic_wall_steps. *)
Lemma within_step_MoveThroughMagic index el : within scan_step (MoveThroughMagic index el).
Proof.
  assert (Hrest : within scan_step
    (s <- get_state ;;
     let index_wall := IndexFromDirection s index kDown in
     let index_under_wall := IndexFromDirection s index_wall kDown in
     free <- ask (IsType index_under_wall kElEmpty kNoop) ;;
     if free : bool then
       SetItem index kElEmpty kNoop ;;
       SetItem index_under_wall el kNoop
     else ret tt)) by steps_auto.
  intros r [] r'. unfold MoveThroughMagic. rewrite bind_gets.
  destruct (Z.leb_spec (magic_wall_steps (st r)) 0) as [|Hsteps].
  { intros [= <-]. apply rtc_refl. }
  rewrite bind_modify. intros Hrun.
  apply rtc_l with (with_state r (set_magic_active true (st r))).
  { by apply step_magic_on. }
  exact (Hrest _ _ _ Hrun).
Qed.

#[local] Hint Resolve within_step_RollLeft within_step_RollRight
  within_step_MoveThroughMagic : steps.

Lemma within_step_self_destruct fuel index : within scan_step (self_destruct fuel index).
Proof. unfold self_destruct. steps_auto. Qed.

Lemma within_step_UpdateStoneFalling fuel index :
  within scan_step (UpdateStoneFalling fuel index).
Proof. unfold UpdateStoneFalling. steps_auto. Qed.

Lemma within_step_UpdateDiamondFalling fuel index :
  within scan_step (UpdateDiamondFalling fuel index).
Proof. unfold UpdateDiamondFalling. steps_auto. Qed.

Lemma within_step_UpdateNutFalling index : within scan_step (UpdateNutFalling index).
Proof. unfold UpdateNutFalling. steps_auto. Qed.

Lemma within_step_UpdateBombFalling fuel index :
  within scan_step (UpdateBombFalling fuel index).
Proof. unfold UpdateBombFalling. steps_auto. Qed.

#[local] Hint Resolve within_step_self_destruct within_step_UpdateStoneFalling
  within_step_UpdateDiamondFalling within_step_UpdateNutFalling
  within_step_UpdateBombFalling : steps.

Lemma within_step_UpdateStone fuel index : within scan_step (UpdateStone fuel index).
Proof. unfold UpdateStone. steps_auto. Qed.

Lemma within_step_UpdateDiamond fuel index : within scan_step (UpdateDiamond fuel index).
Proof. unfold UpdateDiamond. steps_auto. Qed.

Lemma within_step_UpdateNut index : within scan_step (UpdateNut index).
Proof. unfold UpdateNut. steps_auto. Qed.

Lemma within_step_UpdateBomb fuel index : within scan_step (UpdateBomb fuel index).
Proof. unfold UpdateBomb. steps_auto. Qed.

Lemma within_step_UpdateExit index : within scan_step (UpdateExit index).
Proof. unfold UpdateExit. steps_auto. Qed.

Lemma within_step_UpdateFirefly fuel index dir :
  within scan_step (UpdateFirefly fuel index dir).
Proof. unfold UpdateFirefly. steps_auto. Qed.

Lemma within_step_UpdateButterfly fuel index dir :
  within scan_step (UpdateButterfly fuel index dir).
Proof. unfold UpdateButterfly. steps_auto. Qed.

Lemma within_step_UpdateOrange fuel index dir :
  within scan_step (UpdateOrange fuel index dir).
Proof. unfold UpdateOrange. steps_auto. Qed.

Lemma within_step_UpdateMagicWall index : within scan_step (UpdateMagicWall index).
Proof. unfold UpdateMagicWall. steps_auto. Qed.

Lemma within_step_UpdateBlob index : within scan_step (UpdateBlob index).
Proof. unfold UpdateBlob. steps_auto. Qed.

Lemma within_step_UpdateExplosions index : within scan_step (UpdateExplosions index).
Proof. unfold UpdateExplosions. steps_auto. Qed.

#[local] Hint Resolve within_step_UpdateStone within_step_UpdateDiamond
  within_step_UpdateNut within_step_UpdateBomb within_step_UpdateExit
  within_step_UpdateFirefly within_step_UpdateButterfly within_step_UpdateOrange
  within_step_UpdateMagicWall within_step_UpdateBlob within_step_UpdateExplosions : steps.

Lemma within_step_update_cell fuel i : within scan_step (update_cell fuel i).
Proof. unfold update_cell. steps_auto. Qed.

Lemma within_step_scan fuel : within scan_step (scan fuel).
Proof.
  unfold scan. apply within_bind; [apply within_get_state|intros s].
  apply within_for_each. intros i. apply within_step_update_cell.
Qed.

Lemma scan_step_rng r r' :
  scan_step r r' -> rng_ok (random_state (st r)) -> rng_ok (random_state (st r')).
Proof.
  intros [? ? []| | | | |]; try done. fields. apply xorshift64_next_ok.
Qed.

Lemma scan_rng fuel r r' :
  scan fuel r = Ok tt r' -> rng_ok (random_state (st r)) -> rng_ok (random_state (st r')).
Proof.
  intros Hrun%within_step_scan. induction Hrun as [|r1 r2 r3 Hstep _ IH]; [done|].
  intros H. by apply IH, (scan_step_rng r1).
Qed.

Lemma EndScan_rng r r' : EndScan r = Ok tt r' -> random_state (st r') = random_state (st r).
Proof.
  unfold EndScan. rewrite bind_get_state. unfold when.
  destruct (cell_eqb (blob_swap (st r)) kNull), (blob_enclosed (st r)),
    (blob_max_size (st r) <? blob_size (st r)), (magic_active (st r));
    unfold bind, modify, ret; intros [= <-]; done.
Qed.

Section Generator.

Variable ndebug : bool.

(** X25.  The random state never gets stuck: the constructor seeds it with
    SplitMix64(0), a non-zero 64-bit value, xorshift64 maps non-zero
    64-bit values to non-zero 64-bit values, and nothing else writes it,
    so in every state reached from a constructed state random_state is a
    non-zero 64-bit value. *)
Theorem random_state_is_never_zero board_str params s0 s :
  new_state ndebug board_str params = Constructed s0 ->
  reachable s0 s ->
  0 < random_state s < 2 ^ 64 /\
  0 < xorshift64_next (random_state s) < 2 ^ 64.
Proof.
  intros Hnew Hreach.
  assert (Hok : rng_ok (random_state s)).
  { induction Hreach as [|s fuel action r' _ IH Hrun].
    - destruct (new_state_Constructed _ _ _ _ Hnew) as (_ & _ & _ & _ & _ & _ & _ & -> & _).
      unfold rng_ok. vm_compute. done.
    - apply apply_action_split in Hrun as (r0 & r1 & r2 & Hstart & Hagent & Hscan & Hend).
      assert (H0 : agent_frame s r0).
      { refine (wp_Ok False _ (fun _ r => agent_frame s r) _ _ _ _ Hstart).
        by apply tame_frame_StartScan. }
      assert (H1 : agent_frame (st r0) r1).
      { refine (wp_Ok False _ (fun _ r => agent_frame (st r0) r) _ _ _ _ Hagent).
        by apply tame_frame_UpdateAgent. }
      rewrite (EndScan_rng _ _ Hend). apply (scan_rng _ _ _ Hscan).
      destruct H1 as (_ & _ & _ & -> & _). destruct H0 as (_ & _ & _ & -> & _). exact IH. }
  split; [exact Hok|]. by apply xorshift64_next_ok.
Qed.

End Generator.

End StepLemmas.

(** X25, witness: an orange blocked by a wall draws a new direction in the
    first tick. *)
Lemma random_state_is_never_zero_witness :
  exists s0 s,
    new_state false "1|4|0|0|18|44|1" default_parameters = Constructed s0 /\
    play (cat := spec_catalog) 4 [ActLeft] s0 = Some s /\
    random_state s = xorshift64_next (random_state s0) /\
    0 < random_state s < 2 ^ 64 /\
    0 < xorshift64_next (random_state s) < 2 ^ 64.
Proof.
  eexists _, _. split; [vm_compute; reflexivity|]. split; [vm_compute; reflexivity|].
  split; [vm_compute; reflexivity|].
  eapply (random_state_is_never_zero (cat := spec_catalog) false "1|4|0|0|18|44|1"
            default_parameters).
  - vm_compute. reflexivity.
  - apply (play_reachable 4 [ActLeft]). vm_compute. reflexivity.
Defined.

Lemma gates_from_lookup gate open n a g u i :
  length u = length g ->
  let board := gates_from gate open a n (g, u) in
  fst board !! i =
    (if decide (a <= i < a + n)%nat
     then (fun c => if cell_eqb c gate then open else c) <$> g !! i
     else g !! i) /\
  snd board !! i =
    (if decide (a <= i < a + n)%nat
     then (fun b => cell_eqb (cell g i) gate || b) <$> u !! i
     else u !! i) /\
  length (snd board) = length (fst board).
Proof.
  revert a g u. induction n as [|n IH]; intros a g u Hlen; simpl.
  { destruct (decide _); [lia|done]. }
  set (board1 := if cell_eqb (cell g a) gate then _ else _).
  assert (Hlen1 : length (snd board1) = length (fst board1)).
  { subst board1. destruct (cell_eqb (cell g a) gate); simpl; [|done].
    by rewrite !length_insert. }
  destruct board1 as [g1 u1] eqn:Hboard. simpl in Hlen1.
  unfold board1 in Hboard. clear board1.
  destruct (IH (S a) g1 u1 Hlen1) as (Hg & Hu & Hl). rewrite Hg, Hu. clear IH Hg Hu.
  split; [|split; [|done]].
  - destruct (decide (S a <= i < S a + n)%nat) as [Hin|Hout].
    + destruct (decide (a <= i < a + S n)%nat); [|lia].
      revert Hboard; destruct (cell_eqb (cell g a) gate); intros [= <- <-]; [|done].
      by rewrite list_lookup_insert_ne by lia.
    + destruct (decide (a <= i < a + S n)%nat) as [Hi|Hi].
      * assert (i = a) as -> by lia. unfold cell in *.
        destruct (g !! a) as [c|] eqn:Hc; simpl in *.
        -- revert Hboard; destruct (cell_eqb c gate) eqn:Hgate; intros [= <- <-].
           ++ rewrite list_lookup_insert_eq by (by eapply lookup_lt_Some). done.
           ++ by rewrite Hc.
        -- revert Hboard; destruct (cell_eqb kNull gate); intros [= <- <-]; [|by rewrite Hc].
           rewrite list_insert_ge by (by apply lookup_ge_None). by rewrite Hc.
      * revert Hboard; destruct (cell_eqb (cell g a) gate); intros [= <- <-]; [|done].
        by rewrite list_lookup_insert_ne by lia.
  - assert (Hcell : forall j, (S a <= j)%nat -> cell g1 j = cell g j).
    { intros j Hj.
      revert Hboard; destruct (cell_eqb (cell g a) gate); intros [= <- <-]; [|done].
      unfold cell. by rewrite list_lookup_insert_ne by lia. }
    destruct (decide (S a <= i < S a + n)%nat) as [Hin|Hout].
    + destruct (decide (a <= i < a + S n)%nat); [|lia].
      rewrite Hcell by lia.
      revert Hboard; destruct (cell_eqb (cell g a) gate); intros [= <- <-]; [|done].
      by rewrite list_lookup_insert_ne by lia.
    + destruct (decide (a <= i < a + S n)%nat) as [Hi|Hi].
      * assert (i = a) as -> by lia.
        revert Hboard; destruct (cell_eqb (cell g a) gate) eqn:Hgate; intros [= <- <-].
        -- destruct (u !! a) as [b|] eqn:Hb; simpl.
           ++ rewrite list_lookup_insert_eq by (by eapply lookup_lt_Some). done.
           ++ rewrite list_insert_ge by (by apply lookup_ge_None). done.
        -- by destruct (u !! a).
      * revert Hboard; destruct (cell_eqb (cell g a) gate); intros [= <- <-]; [|done].
        by rewrite list_lookup_insert_ne by lia.
Qed.

Lemma gates_from_all gate open g u :
  length u = length g ->
  gates_from gate open 0 (length g) (g, u) = (open_gates gate open g, opened_flags gate g u).
Proof.
  intros Hlen.
  pose proof (fun i => gates_from_lookup gate open (length g) 0 g u i Hlen) as Hlookup.
  cbv zeta in Hlookup. destruct (gates_from gate open 0 (length g) (g, u)) as [g' u'].
  simpl in Hlookup. f_equal; apply list_eq; intros i; destruct (Hlookup i) as (Hg & Hu & _).
  - rewrite Hg. unfold open_gates. rewrite list_lookup_fmap.
    destruct (decide _) as [|Hout]; [done|].
    rewrite (proj2 (lookup_ge_None g i)) by lia. done.
  - rewrite Hu. unfold opened_flags. rewrite lookup_zip_with. unfold cell.
    destruct (decide _) as [Hin|Hout].
    + destruct (g !! i) as [c|] eqn:Hc; simpl.
      * by destruct (u !! i).
      * apply lookup_ge_None in Hc. lia.
    + rewrite (proj2 (lookup_ge_None g i)) by lia.
      rewrite (proj2 (lookup_ge_None u i)) by lia. done.
Qed.

Section Gates.

Context {cat : Catalog}.

Lemma OpenGate_loop gate open n a r :
  kGateOpenMap gate = Some open ->
  (a + n <= length (grid (st r)))%nat ->
  length (has_updated (st r)) = length (grid (st r)) ->
  exists h,
    for_each (map (fun k => 0 + Z.of_nat k) (seq a n))
      (fun index =>
         here <- ask (fun s => vector_at (grid s) index) ;;
         if cell_eqb here gate then
           open <- at_ (kGateOpenMap here) ;;
           SetItem index open kNoop
         else ret tt) r =
    Ok tt (with_state r
             (set_has_updated (snd (gates_from gate open a n (grid (st r), has_updated (st r))))
                (set_grid (fst (gates_from gate open a n (grid (st r), has_updated (st r))))
                   (set_hash h (st r))))) /\
    (hash_invariant (st r) ->
     hash_invariant (set_grid (fst (gates_from gate open a n
                                      (grid (st r), has_updated (st r))))
                       (set_hash h (st r)))).
Proof.
  intros Hopen. revert a r. induction n as [|n IH]; intros a r Hlen Hflags.
  { exists (hash (st r)). split; [|done]. by destruct r as [[] ? ?]. }
  cbn [seq map for_each gates_from fst snd].
  rewrite bind_bind, bind_ask.
  assert (Hin : in_range (grid (st r)) (0 + Z.of_nat a) = true).
  { unfold in_range. apply andb_true_iff. rewrite Z.leb_le, Z.ltb_lt. lia. }
  destruct (vector_at (grid (st r)) (0 + Z.of_nat a)) as [here|] eqn:Hhere.
  2:{ apply vector_at_None in Hhere. congruence. }
  pose proof (vector_at_cell _ _ _ Hhere) as Hcell.
  change (0 + Z.of_nat a) with (Z.of_nat a) in *. rewrite Nat2Z.id in Hcell.
  rewrite Hcell. destruct (cell_eqb here gate) eqn:Hgate.
  - apply cell_eqb_eq in Hgate as ->. rewrite bind_bind, bind_at, Hopen.
    unfold bind at 1. rewrite SetItem_eq. cbv zeta. cbn [IndexFromDirection].
    rewrite Hin. replace (in_range (has_updated (st r)) (Z.of_nat a)) with true.
    2:{ symmetry. unfold in_range in *. by rewrite Hflags. }
    cbn [andb].
    set (r1 := with_state r _).
    destruct (IH (S a) r1) as (h & Hrun & Hhash).
    { subst r1. unfold mark_updated, write_cell. fields. rewrite length_insert. lia. }
    { subst r1. unfold mark_updated, write_cell. fields. by rewrite !length_insert. }
    exists h. split.
    + rewrite Hrun. subst r1. unfold mark_updated, write_cell. fields.
      rewrite Nat2Z.id. reflexivity.
    + intros Hinv. subst r1. unfold mark_updated, write_cell in *. fields.
      rewrite Nat2Z.id in Hhash.
      apply (hash_invariant_write (Z.of_nat a) open) in Hinv; [|done].
      unfold write_cell in Hinv. fields. rewrite Nat2Z.id in Hinv.
      specialize (Hhash Hinv). exact Hhash.
  - rewrite bind_ret. apply IH; [lia|done].
Qed.

Lemma OpenGate_run gate open r :
  well_formed (st r) ->
  kGateOpenMap gate = Some open ->
  exists h,
    OpenGate gate r =
      Ok tt (with_state r
               (set_has_updated (opened_flags gate (grid (st r)) (has_updated (st r)))
                  (set_grid (open_gates gate open (grid (st r))) (set_hash h (st r))))) /\
    (hash_invariant (st r) ->
     hash_invariant (set_grid (open_gates gate open (grid (st r))) (set_hash h (st r)))).
Proof.
  intros [Hlen Hflags] Hopen. unfold OpenGate. rewrite bind_get_state.
  unfold iota. rewrite Z.sub_0_r, <- Hlen, Nat2Z.id.
  destruct (OpenGate_loop gate open (length (grid (st r))) 0 r Hopen) as (h & Hrun & Hhash);
    [simpl; lia|done|].
  rewrite gates_from_all in Hrun, Hhash by done. cbn [fst snd] in Hrun, Hhash.
  by exists h.
Qed.

(** X26.  OpenGate(gate) opens every gate of the board at once: on a board
    whose grid and flags hold rows*cols entries, and for a gate kind that
    kGateOpenMap maps to its open kind, the call returns, every cell that
    held the gate holds the open kind and is marked updated, every other
    cell and flag is as before, no field other than grid, hash and
    has_updated is written, and a hash that was the XOR of the cell hashes
    still is. *)
Theorem OpenGate_opens_every_gate gate open s :
  well_formed s ->
  kGateOpenMap gate = Some open ->
  exists r' h,
    OpenGate gate (start s) = Ok tt r' /\
    st r' = set_has_updated (opened_flags gate (grid s) (has_updated s))
              (set_grid (open_gates gate open (grid s)) (set_hash h s)) /\
    (hash_invariant s -> hash_invariant (st r')).
Proof.
  intros Hshape Hopen.
  destruct (OpenGate_run gate open (start s) Hshape Hopen) as (h & Hrun & Hhash).
  eexists _, h. split; [exact Hrun|]. split; [reflexivity|]. exact Hhash.
Qed.

End Gates.

(** X26, witness: two closed red gates and a closed blue one. *)
Lemma OpenGate_opens_every_gate_witness :
  exists s r' h,
    new_state false "1|4|0|0|27|30|27" default_parameters = Constructed s /\
    OpenGate (cat := spec_catalog) kGateRedClosed (start s) = Ok tt r' /\
    grid (st r') = [kAgent; kGateRedOpen; kGateBlueClosed; kGateRedOpen] /\
    has_updated (st r') = [false; true; false; true] /\
    st r' = set_has_updated (opened_flags kGateRedClosed (grid s) (has_updated s))
              (set_grid (open_gates kGateRedClosed kGateRedOpen (grid s)) (set_hash h s)) /\
    (hash_invariant s -> hash_invariant (st r')).
Proof.
  eexists _. 
  match goal with |- exists r' h, new_state ?b ?l ?p = Constructed ?s /\ _ =>
    assert (Hnew : new_state b l p = Constructed s) by (vm_compute; reflexivity)
  end.
  match type of Hnew with _ = Constructed ?s =>
    destruct (OpenGate_opens_every_gate (cat := spec_catalog) kGateRedClosed kGateRedOpen s)
      as (r' & h & Hrun & Hst & Hhash); [split; reflexivity|reflexivity|]
  end.
  exists r', h. split; [exact Hnew|]. split; [exact Hrun|].
  assert (Hr' : Ok tt r' = Ok tt _) by (rewrite <- Hrun; vm_compute; reflexivity).
  injection Hr' as Hr'.
  split; [by rewrite Hr'|]. split; [by rewrite Hr'|]. split; [exact Hst|exact Hhash].
Defined.

Section Pushing.

Context {cat : Catalog}.

Lemma InBounds_in_range index dir s :
  offsets_agree ->
  Z.of_nat (length (grid s)) = rows s * cols s ->
  InBounds index dir s = Some true ->
  in_range (grid s) (IndexFromDirection s index dir) = true.
Proof.
  intros Hoff Hlen Hin. rewrite Hoff.
  unfold InBounds in Hin. destruct (Z.eqb_spec (cols s) 0) as [|Hcols]; [done|].
  set (col := Z.rem index (cols s)) in *. set (row := Z.quot (index - col) (cols s)) in *.
  cbv zeta in Hin. injection Hin as Hin.
  destruct (kDirectionOffsets dir) as [dx dy]. simpl in *.
  apply andb_true_iff in Hin as [[[Hc0%Z.leb_le Hc%Z.ltb_lt]%andb_true_iff
    Hr0%Z.leb_le]%andb_true_iff Hr%Z.ltb_lt].
  assert (Hindex : index = row * cols s + col).
  { subst row col. pose proof (Z.quot_rem' index (cols s)) as Hqr.
    replace (index - Z.rem index (cols s)) with (Z.quot index (cols s) * cols s) by lia.
    rewrite Z.quot_mul by done. lia. }
  unfold in_range. apply andb_true_iff. rewrite Z.leb_le, Z.ltb_lt, Hlen. nia.
Qed.

Lemma IsType_returns index el dir s :
  offsets_agree ->
  Z.of_nat (length (grid s)) = rows s * cols s ->
  cols s <> 0 ->
  exists b, IsType index el dir s = Some b.
Proof.
  intros Hoff Hlen Hcols. rewrite IsType_eq.
  destruct (InBounds index dir s) as [[]|] eqn:Hin.
  - apply (InBounds_in_range _ _ _ Hoff Hlen) in Hin.
    destruct (vector_at (grid s) (IndexFromDirection s index dir)) as [e|] eqn:He.
    + simpl. eauto.
    + apply vector_at_None in He. congruence.
  - eauto.
  - unfold InBounds in Hin. by destruct (Z.eqb_spec (cols s) 0).
Qed.

(** X27.  Push(index, stationary, falling, direction), for a horizontal
    direction and a board whose grid and flags hold rows*cols entries:
    when the cell two steps away is in bounds and empty, the call returns,
    the pusher's cell is empty, the next cell holds what the pusher's cell
    held, the cell after it holds falling if the cell under it was empty
    before the push and stationary otherwise, agent_idx is the next cell,
    the two cells written are marked updated and the hash stays the XOR of
    the cell hashes; when that cell is not empty, or out of bounds, nothing
    is written at all. *)
Theorem Push_moves_two_cells index stationary falling dir s :
  offsets_agree ->
  well_formed s ->
  dir = kLeft \/ dir = kRight ->
  in_range (grid s) index = true ->
  let new_index := IndexFromDirection s index dir in
  let next_index := IndexFromDirection s new_index dir in
  (IsType new_index kElEmpty dir s = Some false ->
   Push index stationary falling dir (start s) = Ok tt (start s)) /\
  (IsType new_index kElEmpty dir s = Some true ->
   exists b r',
     IsType next_index kElEmpty kDown s = Some b /\
     Push index stationary falling dir (start s) = Ok tt r' /\
     grid (st r') =
       pushed_grid index new_index next_index (if b then falling else stationary) (grid s) /\
     has_updated (st r') =
       <[Z.to_nat new_index := true]> (<[Z.to_nat next_index := true]> (has_updated s)) /\
     agent_idx (st r') = new_index /\
     gems_collected (st r') = gems_collected s /\
     reward_signal (st r') = reward_signal s /\
     (hash_invariant s -> hash_invariant (st r'))).
Proof.
  intros Hoff [Hlen Hflags] Hdir Hindex new_index next_index.
  unfold Push. rewrite bind_get_state. cbn [st start]. fold new_index. fold next_index.
  rewrite bind_ask. cbn [st start]. split; [by intros ->|]. intros Hroom. rewrite Hroom.
  pose proof Hroom as [Hin Hnext]%IsType_true. fold next_index in Hnext.
  assert (Hcols : cols s <> 0).
  { unfold InBounds in Hin. by destruct (Z.eqb_spec (cols s) 0). }
  destruct (IsType_returns next_index kElEmpty kDown s Hoff Hlen Hcols) as [b Hb].
  exists b. rewrite bind_ask. cbn [st start]. rewrite Hb.
  apply vector_at_Some in Hnext as [Hnext _].
  set (el := if b then falling else stationary).
  assert (Hsteps : exists d, (d = 1 \/ d = -1) /\ new_index = index + d /\ next_index = index + 2 * d
                             /\ forall s', IndexFromDirection s' index dir = index + d).
  { destruct Hdir as [-> | ->]; [exists (-1)|exists 1]; subst new_index next_index;
      cbn [IndexFromDirection]; repeat split; try lia; auto. }
  destruct Hsteps as (d & Hd & Hnew & Hnxt & Hstep).
  assert (Hdir' : forall s', IndexFromDirection s' new_index dir = next_index).
  { intros s'. destruct Hdir as [-> | ->]; subst new_index next_index; reflexivity. }
  pose proof (in_range_bounds _ _ Hindex) as [Hi0 Hi].
  pose proof (in_range_bounds _ _ Hnext) as [Hn0 Hn].
  assert (Hnew_in : in_range (grid s) new_index = true).
  { unfold in_range. apply andb_true_iff. rewrite Z.leb_le, Z.ltb_lt. lia. }
  assert (Hrange : forall (A : Type) (v : list A) j,
             length v = length (grid s) -> in_range (grid s) j = true -> in_range v j = true).
  { intros A v j Hv. unfold in_range. by rewrite Hv. }
  (* MoveItem(new_index, direction) *)
  erewrite bind_Ok; cycle 1.
  { rewrite MoveItem_eq. cbv zeta. cbn [st start]. rewrite Hdir', Hnext, Hnew_in.
    rewrite (Hrange _ (has_updated s)) by done. reflexivity. }
  (* SetItem(next_index, ...) *)
  erewrite bind_Ok; cycle 1.
  { rewrite SetItem_eq. cbv zeta. cbn [IndexFromDirection].
    unfold mark_updated, write_cell. fields.
    rewrite !(Hrange _ _ next_index); [reflexivity|first [assumption|by rewrite ?length_insert]..]. }
  (* MoveItem(index, direction) *)
  erewrite bind_Ok; cycle 1.
  { rewrite MoveItem_eq. cbv zeta. rewrite Hstep, <- Hnew.
    unfold mark_updated, write_cell. fields.
    rewrite !(Hrange _ _ new_index), !(Hrange _ _ index);
      [reflexivity|first [assumption|by rewrite ?length_insert]..]. }
  eexists. split; [done|]. split; [reflexivity|].
  unfold mark_updated, write_cell. fields.
  assert (Hne1 : Z.to_nat new_index <> Z.to_nat next_index) by lia.
  assert (Hne2 : Z.to_nat index <> Z.to_nat next_index) by lia.
  assert (Hne3 : Z.to_nat index <> Z.to_nat new_index) by lia.
  split; [|split; [|split; [done|split; [done|split; [done|]]]]].
  - unfold pushed_grid, cell. f_equal.
    rewrite !list_lookup_insert_ne by done.
    rewrite (list_insert_insert_ne _ (Z.to_nat new_index) (Z.to_nat next_index)) by done.
    rewrite list_insert_insert_eq.
    rewrite (list_insert_insert_ne _ (Z.to_nat new_index) (Z.to_nat next_index)) by done.
    rewrite list_insert_insert_eq. by apply list_insert_insert_ne.
  - rewrite list_insert_insert_eq. done.
  - intros Hinv.
    assert (Hw : forall j k e s', in_range (grid (write_cell k e s')) j = in_range (grid s') j).
    { intros. unfold in_range, write_cell. fields. by rewrite length_insert. }
    apply (hash_invariant_write next_index (default kNull (grid s !! Z.to_nat new_index)))
      in Hinv; [|done].
    apply (hash_invariant_write new_index kEmpty) in Hinv; [|by rewrite ?Hw].
    apply (hash_invariant_write next_index el) in Hinv; [|by rewrite ?Hw].
    apply (hash_invariant_write new_index
             (default kNull
                (<[Z.to_nat next_index := el]>
                   (<[Z.to_nat new_index := kEmpty]>
                      (<[Z.to_nat next_index := default kNull (grid s !! Z.to_nat new_index)]>
                         (grid s))) !! Z.to_nat index))) in Hinv; [|by rewrite ?Hw].
    apply (hash_invariant_write index kEmpty) in Hinv; [|by rewrite ?Hw].
    rename Hinv into H5.
    clear -H5. unfold hash_invariant, xor_of_cells, write_cell in *. fields. exact H5.
Qed.

End Pushing.

(** X27, witness: the agent pushes a stone to the right, over a hole. *)
Lemma Push_moves_two_cells_witness :
  exists s r',
    new_state false "2|3|0|0|3|1|2|2|1" default_parameters = Constructed s /\
    IsType (cat := spec_catalog) 1 kElEmpty kRight s = Some true /\
    IsType (cat := spec_catalog) 2 kElEmpty kDown s = Some true /\
    Push (cat := spec_catalog) 0 kStone kStoneFalling kRight (start s) = Ok tt r' /\
    grid (st r') = [kEmpty; kAgent; kStoneFalling; kDirt; kDirt; kEmpty] /\
    has_updated (st r') = [false; true; true; false; false; false] /\
    agent_idx (st r') = 1 /\
    (hash_invariant s -> hash_invariant (st r')).
Proof.
  eexists _.
  match goal with |- exists r', new_state ?b ?l ?p = Constructed ?s /\ _ =>
    assert (Hnew : new_state b l p = Constructed s) by (vm_compute; reflexivity)
  end.
  match type of Hnew with _ = Constructed ?s =>
    destruct (Push_moves_two_cells (cat := spec_catalog) 0 kStone kStoneFalling kRight s)
      as [_ Hpush];
      [exact spec_catalog_offsets_agree|split; reflexivity|by right|reflexivity|];
    destruct (Hpush eq_refl) as (b & r' & Hb & Hrun & Hgrid & Hflags & Hagent & _ & _ & Hhash)
  end.
  assert (b = true) as -> by (vm_compute in Hb; congruence).
  exists r'. split; [exact Hnew|]. split; [reflexivity|]. split; [exact Hb|].
  split; [exact Hrun|]. split; [exact Hgrid|]. split; [exact Hflags|].
  split; [exact Hagent|exact Hhash].
Defined.

Section Keys.

Context {cat : Catalog}.

(** X28.  The agent steps onto a key (UpdateAgent on a board whose grid
    and flags hold rows*cols entries, the target in bounds, holding a key
    that is not pushed): the call returns; every closed gate of the key's
    colour is open, on the whole board; the agent's cell is empty and the
    key's cell holds what the agent's cell held; agent_idx is the key's
    cell; reward_signal gains the CollectKey bit and the key's own signal;
    no gem is counted; and the hash stays the XOR of the cell hashes. *)
Theorem agent_collects_the_key index dir key gate open signal s :
  well_formed s ->
  in_range (grid s) index = true ->
  InBounds index dir s = Some true ->
  GetItem index dir s = Some key ->
  walked_or_collected key = false ->
  qand (qpure (IsDirectionHorz dir)) (HasProperty index kPushable dir) s = Some false ->
  IsKey key = true ->
  kKeyToGate key = Some gate ->
  kGateOpenMap gate = Some open ->
  kKeyToSignal key = Some signal ->
  let target := IndexFromDirection s index dir in
  let opened := open_gates gate open (grid s) in
  exists r',
    UpdateAgent index dir (start s) = Ok tt r' /\
    grid (st r') =
      <[Z.to_nat index := kEmpty]> (<[Z.to_nat target := cell opened (Z.to_nat index)]> opened) /\
    agent_idx (st r') = target /\
    reward_signal (st r') = Z.lor (Z.lor (reward_signal s) kRewardCollectKey) signal /\
    gems_collected (st r') = gems_collected s /\
    (hash_invariant s -> hash_invariant (st r')).
Proof.
  intros Hshape Hindex Hin Htarget Hkind Hpush Hkey Hgate Hopen Hsignal target opened.
  unfold walked_or_collected in Hkind.
  apply orb_false_iff in Hkind as [[[Hk1 Hk2]%orb_false_iff Hk3]%orb_false_iff Hk4].
  unfold GetItem in Htarget. fold target in Htarget.
  assert (Hwalk : qor (IsType index kElEmpty dir) (IsType index kElDirt dir) s = Some false).
  { unfold qor. rewrite !(IsType_found _ _ _ _ key Hin Htarget).
    by rewrite Hk1, Hk2. }
  assert (Hgem : qor (IsType index kElDiamond dir) (IsType index kElDiamondFalling dir) s
                 = Some false).
  { unfold qor. rewrite !(IsType_found _ _ _ _ key Hin Htarget).
    by rewrite Hk3, Hk4. }
  unfold UpdateAgent.
  rewrite (ask_Some (InBounds index dir) _ (start s) true Hin).
  cbn [negb]. rewrite bind_get_state. cbn [st start].
  rewrite (ask_false (qor (IsType index kElEmpty dir) (IsType index kElDirt dir)) _ _
             (start s) Hwalk).
  rewrite (ask_false (qor (IsType index kElDiamond dir) (IsType index kElDiamondFalling dir))
             _ _ (start s) Hgem).
  rewrite (ask_false (qand (qpure (IsDirectionHorz dir)) (HasProperty index kPushable dir))
             _ _ (start s) Hpush).
  rewrite (ask_Some (GetItem index dir) _ (start s) key Htarget).
  rewrite Hkey, bind_at, Hgate.
  destruct (OpenGate_run gate open (start s) Hshape Hopen) as (h & Hrun & Hhash).
  cbn [st start] in Hrun, Hhash. fold opened in Hrun, Hhash.
  rewrite (bind_Ok _ _ _ _ _ Hrun).
  destruct Hshape as [Hlen Hflags].
  assert (Hopened : length opened = length (grid s)).
  { subst opened. unfold open_gates. by rewrite length_fmap. }
  assert (Hmarked : length (opened_flags gate (grid s) (has_updated s)) = length (grid s)).
  { unfold opened_flags. rewrite length_zip_with. lia. }
  apply vector_at_Some in Htarget as [Htarget _].
  assert (Hrange : forall (A : Type) (v : list A) j,
             length v = length (grid s) -> in_range (grid s) j = true -> in_range v j = true).
  { intros A v j Hv. unfold in_range. by rewrite Hv. }
  erewrite bind_Ok; cycle 1.
  { rewrite MoveItem_eq. cbv zeta. fields.
    change (IndexFromDirection _ index dir) with target.
    rewrite !(Hrange _ _ target), (Hrange _ _ index) by done. reflexivity. }
  rewrite bind_modify. unfold or_reward. rewrite bind_modify, bind_at, Hsignal, run_modify.
  eexists. split; [reflexivity|].
  unfold mark_updated, write_cell. fields.
  split; [reflexivity|]. split; [reflexivity|]. split; [reflexivity|]. split; [reflexivity|].
  intros Hinv. specialize (Hhash Hinv).
  apply (hash_invariant_write target (default kNull (opened !! Z.to_nat index))) in Hhash;
    [|fields; by apply Hrange].
  apply (hash_invariant_write index kEmpty) in Hhash;
    [|unfold write_cell; fields; apply Hrange; [by rewrite length_insert|done]].
  rename Hhash into H2.
  clear -H2. unfold hash_invariant, xor_of_cells, write_cell in *. fields. exact H2.
Qed.

End Keys.

(** X28, witness: the agent steps down onto the red key of a board with two
    closed red gates and a closed blue one. *)
Lemma agent_collects_the_key_witness :
  exists s r',
    new_state false "2|3|0|0|27|30|29|2|27" default_parameters = Constructed s /\
    UpdateAgent (cat := spec_catalog) 0 kDown (start s) = Ok tt r' /\
    grid (st r') = [kEmpty; kGateRedOpen; kGateBlueClosed; kAgent; kDirt; kGateRedOpen] /\
    agent_idx (st r') = 3 /\
    reward_signal (st r') = Z.lor (Z.lor (reward_signal s) kRewardCollectKey) kRewardCollectKeyRed /\
    gems_collected (st r') = gems_collected s /\
    (hash_invariant s -> hash_invariant (st r')).
Proof.
  eexists _.
  match goal with |- exists r', new_state ?b ?l ?p = Constructed ?s /\ _ =>
    assert (Hnew : new_state b l p = Constructed s) by (vm_compute; reflexivity)
  end.
  match type of Hnew with _ = Constructed ?s =>
    destruct (agent_collects_the_key (cat := spec_catalog) 0 kDown kKeyRed kGateRedClosed
                kGateRedOpen kRewardCollectKeyRed s)
      as (r' & Hrun & Hgrid & Hagent & Hreward & Hgems & Hhash);
      [split; reflexivity|reflexivity..|]
  end.
  exists r'. split; [exact Hnew|]. split; [exact Hrun|]. split; [exact Hgrid|].
  split; [exact Hagent|]. split; [exact Hreward|]. split; [exact Hgems|exact Hhash].
Defined.

Section ChainProof.

Context {cat : Catalog}.
Hypothesis inert : forall e, can_explode (explosion_of e) = false.
Variables (s0 : BoulderDashGameState) (target0 : Z) (element0 : HiddenCellType).

Lemma only_inert_writes_refl g : only_inert_writes g g.
Proof. intros j. by left. Qed.

Lemma only_inert_writes_trans g1 g2 g3 :
  only_inert_writes g1 g2 -> only_inert_writes g2 g3 -> only_inert_writes g1 g3.
Proof.
  intros H12 H23 j. destruct (H23 j) as [Heq|?]; [|by right].
  rewrite Heq. apply H12.
Qed.

Lemma only_inert_writes_insert g k el :
  can_explode el = false -> only_inert_writes g (<[k := el]> g).
Proof.
  intros Hel j. unfold cell. destruct (decide (j = k)) as [->|Hne].
  - destruct (decide (k < length g)%nat).
    + right. by rewrite list_lookup_insert_eq.
    + left. by rewrite list_insert_ge by lia.
  - left. by rewrite list_lookup_insert_ne.
Qed.

Lemma exploded_mono g g' c :
  only_inert_writes g g' -> exploded target0 (grid s0) g c -> exploded target0 (grid s0) g' c.
Proof.
  intros Hw [->|[H0 Hg]]; [by left|]. right. split; [done|].
  destruct (Hw (Z.to_nat c)) as [Heq|?]; [by rewrite Heq|done].
Qed.

Lemma left_by_explosion_mono g g' j v :
  only_inert_writes g g' ->
  left_by_explosion s0 target0 element0 g j v ->
  left_by_explosion s0 target0 element0 g' j v.
Proof.
  intros Hw [?|(c & d & ? & Hc & ?)]; [by left|].
  right. exists c, d. split; [done|]. split; [by eapply exploded_mono|done].
Qed.

Lemma chain_inv_same_board s s' :
  same_board s s' -> chain_inv s0 target0 element0 s -> chain_inv s0 target0 element0 s'.
Proof. intros (Hg & Hr & Hc) (? & ? & Hall). unfold chain_inv. by rewrite Hg, Hr, Hc. Qed.

(* A write of an element that cannot explode and that an explosion leaves
   in this cell. *)
Lemma chain_inv_write s t el :
  chain_inv s0 target0 element0 s ->
  in_range (grid s) t = true ->
  can_explode el = false ->
  left_by_explosion s0 target0 element0 (grid s) t el ->
  chain_inv s0 target0 element0 (mark_updated t (write_cell t el s)).
Proof.
  intros (Hr & Hc & Hall) [Ht0 Ht]%in_range_bounds Hel Hleft.
  pose proof (only_inert_writes_insert (grid s) (Z.to_nat t) el Hel) as Hw.
  unfold chain_inv, mark_updated, write_cell. fields. split; [done|]. split; [done|].
  intros j Hj. destruct (decide (j = t)) as [->|Hne].
  - assert (Hwritten : cell (<[Z.to_nat t := el]> (grid s)) (Z.to_nat t) = el).
    { unfold cell. by rewrite list_lookup_insert_eq. }
    right. rewrite Hwritten. split; [done|]. by eapply left_by_explosion_mono.
  - assert (Hsame : cell (<[Z.to_nat t := el]> (grid s)) (Z.to_nat j) =
                    cell (grid s) (Z.to_nat j)).
    { unfold cell. rewrite list_lookup_insert_ne by lia. done. }
    rewrite Hsame. destruct (Hall j Hj) as [?|[? Hl]]; [by left|right].
    split; [done|]. by eapply left_by_explosion_mono.
Qed.

Lemma skip_false index dir s :
  qor (qpure (direction_eqb dir kNoop)) (qnot (InBounds index dir)) s = Some false ->
  dir <> kNoop /\ InBounds index dir s = Some true.
Proof.
  unfold qor, qpure, qnot. destruct (direction_eqb dir kNoop) eqn:Hd; [done|].
  destruct (InBounds index dir s) as [[]|]; [|done..].
  intros _. split; [|done]. intros ->. done.
Qed.

Lemma only_inert_writes_stays g g' j :
  only_inert_writes g g' -> can_explode (cell g j) = false -> can_explode (cell g' j) = false.
Proof. intros Hw Hj. destruct (Hw j) as [Heq|?]; [by rewrite Heq|done]. Qed.

Lemma chain_done_mono g g' c :
  only_inert_writes g g' -> chain_done s0 g c -> chain_done s0 g' c.
Proof. intros Hw Hdone d Hd Hin. eapply only_inert_writes_stays; [done|by apply Hdone]. Qed.

Lemma skip_true index dir s :
  qor (qpure (direction_eqb dir kNoop)) (qnot (InBounds index dir)) s = Some true ->
  dir = kNoop \/ InBounds index dir s = Some false.
Proof.
  unfold qor, qpure, qnot. destruct (direction_eqb dir kNoop) eqn:Hd.
  - intros _. left. by destruct dir.
  - destruct (InBounds index dir s) as [[]|]; [done| |done]. intros _. by right.
Qed.

Lemma HasProperty_false_inert index dir s :
  InBounds index dir s = Some true ->
  HasProperty index kCanExplode dir s = Some false ->
  can_explode (cell (grid s) (Z.to_nat (IndexFromDirection s index dir))) = false.
Proof.
  intros Hin. rewrite HasProperty_eq, Hin.
  destruct (vector_at (grid s) (IndexFromDirection s index dir)) as [e|] eqn:He; [|done].
  simpl. intros [= Hcan]. by rewrite (vector_at_cell _ _ _ He).
Qed.

(* A loop that keeps J, whose steps compose, and that settles P x when it
   has run for x. *)
Lemma wp_for_each_collect {A} oof (J : Run -> Prop) (P : A -> Run -> Prop)
    (step : Run -> Run -> Prop) (l : list A) body r :
  (forall r, step r r) ->
  (forall r1 r2 r3, step r1 r2 -> step r2 r3 -> step r1 r3) ->
  (forall x r r', P x r -> step r r' -> P x r') ->
  J r ->
  (forall x r, J r -> wp oof (body x) (fun _ r' => J r' /\ P x r' /\ step r r') r) ->
  wp oof (for_each l body)
    (fun _ r' => J r' /\ step r r' /\ forall x, In x l -> P x r') r.
Proof.
  intros Hrefl Htrans Hstable HJ Hbody. revert r HJ.
  induction l as [|x l IH]; intros r HJ.
  { simpl. split; [done|]. split; [apply Hrefl|]. by intros ? []. }
  simpl. apply wp_bind. eapply wp_mono; [by apply Hbody|].
  intros [] r1 (HJ1 & HP1 & Hstep1).
  eapply wp_mono; [by apply IH|].
  intros [] r2 (HJ2 & Hstep2 & Hall). split; [done|]. split; [by eapply Htrans|].
  intros y [<-|Hy]; [by eapply Hstable|by apply Hall].
Qed.

Lemma wp_Explode_chain fuel index element dir r :
  chain_inv s0 target0 element0 (st r) ->
  can_explode element = false ->
  let t := IndexFromDirection (st r) index dir in
  cell (grid (st r)) (Z.to_nat t) = cell (grid s0) (Z.to_nat t) ->
  t = target0 \/ can_explode (cell (grid s0) (Z.to_nat t)) = true ->
  left_by_explosion s0 target0 element0 (grid (st r)) t element ->
  wp True (Explode fuel index element dir)
    (fun _ r' =>
       chain_inv s0 target0 element0 (st r') /\
       only_inert_writes (grid (st r)) (grid (st r')) /\
       can_explode (cell (grid (st r')) (Z.to_nat t)) = false /\
       forall c, 0 <= c ->
         c = t \/ (can_explode (cell (grid (st r)) (Z.to_nat c)) = true /\
                   can_explode (cell (grid (st r')) (Z.to_nat c)) = false) ->
         chain_done s0 (grid (st r')) c) r.
Proof.
  revert index element dir r.
  induction fuel as [|fuel IH]; intros index element dir r Hinv Hel t Horig Hcenter Hleft;
    [done|].
  cbn [Explode]. apply wp_bind_note_explode, wp_bind_get_state. cbn [st]. fold t.
  apply wp_bind_ask. intros found Hfound.
  unfold GetItem in Hfound. cbn [st IndexFromDirection] in Hfound.
  pose proof (vector_at_cell _ _ _ Hfound) as Hcell.
  pose proof (vector_at_in_range _ _ _ Hfound) as Hrange.
  pose proof (in_range_bounds _ _ Hrange) as [Ht0 Htlen].
  apply wp_bind.
  apply (wp_mono _ _ (fun _ r' => same_board (st r) (st r'))).
  { destruct (cell_eqb found kAgent); simpl; by repeat split. }
  intros [] r2 Hr2. pose proof Hr2 as (Hg2 & Hr2' & Hc2).
  apply wp_bind, wp_SetItem. cbn [IndexFromDirection]. intros j -> Hjg _.
  set (r3 := with_state r2 _).
  assert (Hgrid3 : grid (st r3) = <[Z.to_nat t := element]> (grid (st r))).
  { subst r3. unfold mark_updated, write_cell. fields. by rewrite Hg2. }
  assert (Hinv3 : chain_inv s0 target0 element0 (st r3)).
  { subst r3. cbn [st with_state]. apply chain_inv_write; [|done..|by rewrite Hg2].
    by eapply chain_inv_same_board. }
  assert (Hw3 : only_inert_writes (grid (st r)) (grid (st r3))).
  { rewrite Hgrid3. by apply only_inert_writes_insert. }
  assert (Hset3 : cell (grid (st r3)) (Z.to_nat t) = element).
  { rewrite Hgrid3. unfold cell. by rewrite list_lookup_insert_eq. }
  assert (Hexploded : exploded target0 (grid s0) (grid (st r3)) t).
  { destruct Hcenter as [->|Hcan]; [by left|]. right. split; [done|]. by rewrite Hset3. }
  eapply wp_mono.
  { apply (wp_for_each_collect True
             (fun rk =>
                chain_inv s0 target0 element0 (st rk) /\
                only_inert_writes (grid (st r3)) (grid (st rk)) /\
                forall c, 0 <= c ->
                  can_explode (cell (grid (st r3)) (Z.to_nat c)) = true ->
                  can_explode (cell (grid (st rk)) (Z.to_nat c)) = false ->
                  chain_done s0 (grid (st rk)) c)
             (fun dir_index rk =>
                direction_of_code dir_index <> kNoop ->
                InBounds t (direction_of_code dir_index) s0 = Some true ->
                can_explode
                  (cell (grid (st rk))
                     (Z.to_nat (IndexFromDirection s0 t (direction_of_code dir_index)))) = false)
             (fun rk rk' => only_inert_writes (grid (st rk)) (grid (st rk')))).
    - intros ?. apply only_inert_writes_refl.
    - intros ? ? ?. apply only_inert_writes_trans.
    - intros x rk rk' HP Hw Hd Hin. eapply only_inert_writes_stays; [done|by apply HP].
    - split; [done|]. split; [apply only_inert_writes_refl|]. intros c _ H1 H2. congruence.
    - intros dir_index rk (Hinvk & Hwk & Hclosedk).
      pose proof Hinvk as (Hrk & Hck & Hallk).
      set (d := direction_of_code dir_index) in *.
      assert (Hbounds : InBounds t d (st rk) = InBounds t d s0).
      { unfold InBounds. by rewrite Hrk, Hck. }
      assert (Hidx0 : IndexFromDirection s0 t d = IndexFromDirection (st rk) t d).
      { unfold IndexFromDirection. by rewrite Hck. }
      apply wp_bind_ask. intros skip Hskip. destruct skip.
      { apply wp_ret. split; [done|]. split; [|apply only_inert_writes_refl].
        intros Hd Hin. apply skip_true in Hskip as [?|Hout]; [done|]. congruence. }
      apply skip_false in Hskip as [Hdir Hin].
      assert (Hin0 : InBounds t d s0 = Some true) by congruence.
      assert (Hjust : left_by_explosion s0 target0 element0 (grid (st rk))
                        (IndexFromDirection (st rk) t d) (explosion_of found)).
      { right. exists t, d. split; [done|]. split; [by eapply exploded_mono|].
        split; [done|]. split; [done|]. split; [done|]. by rewrite <- Horig, Hcell. }
      apply wp_bind_ask. intros chain Hchain. destruct chain.
      + apply wp_bind_ask. intros neighbor _.
        apply wp_bind. unfold wp at 1. cbn [note_chain].
        apply HasProperty_true in Hchain as (_ & e & He & Hcan).
        pose proof (vector_at_cell _ _ _ He) as Hecell.
        pose proof (vector_at_in_range _ _ _ He) as [Hn0 _]%in_range_bounds.
        assert (Hfresh : cell (grid (st rk)) (Z.to_nat (IndexFromDirection (st rk) t d)) =
                         cell (grid s0) (Z.to_nat (IndexFromDirection (st rk) t d))).
        { destruct (Hallk _ Hn0) as [?|[Hinert _]]; [done|].
          rewrite Hecell in Hinert. unfold can_explode in Hinert. congruence. }
        eapply wp_mono.
        { apply IH; cbn [st]; [done|apply inert|done| |done].
          right. rewrite <- Hfresh, Hecell. exact Hcan. }
        intros [] r' (Hinv' & Hw' & Hinert' & Hclosed'). cbn [st] in Hw', Hinert', Hclosed'.
        split; [split; [done|split; [by eapply only_inert_writes_trans|]]|].
        * intros c Hc H3 H'.
          destruct (can_explode (cell (grid (st rk)) (Z.to_nat c))) eqn:Hk.
          -- apply Hclosed'; [done|]. by right.
          -- eapply chain_done_mono; [exact Hw'|]. by apply Hclosedk.
        * split; [|done]. intros _ _. by rewrite Hidx0.
      + pose proof (HasProperty_false_inert _ _ _ Hin Hchain) as Hquiet.
        apply wp_bind_ask. intros consumable _. destruct consumable.
        2:{ apply wp_ret. split; [done|]. split; [|apply only_inert_writes_refl].
            intros _ _. by rewrite Hidx0. }
        apply wp_bind, wp_SetItem. intros j -> Hjg' _.
        apply wp_bind_ask. intros now_there _.
        set (n := IndexFromDirection (st rk) t d) in *.
        pose proof (only_inert_writes_insert (grid (st rk)) (Z.to_nat n) (explosion_of found)
                      (inert found)) as Hwn.
        assert (Hdone :
          (chain_inv s0 target0 element0
             (mark_updated n (write_cell n (explosion_of found) (st rk))) /\
           only_inert_writes (grid (st r3))
             (<[Z.to_nat n := explosion_of found]> (grid (st rk))) /\
           forall c, 0 <= c ->
             can_explode (cell (grid (st r3)) (Z.to_nat c)) = true ->
             can_explode (cell (<[Z.to_nat n := explosion_of found]> (grid (st rk)))
                            (Z.to_nat c)) = false ->
             chain_done s0 (<[Z.to_nat n := explosion_of found]> (grid (st rk))) c) /\
          (d <> kNoop -> InBounds t d s0 = Some true ->
           can_explode (cell (<[Z.to_nat n := explosion_of found]> (grid (st rk)))
                          (Z.to_nat (IndexFromDirection s0 t d))) = false) /\
          only_inert_writes (grid (st rk))
            (<[Z.to_nat n := explosion_of found]> (grid (st rk)))).
        { split; [split; [by apply chain_inv_write|split]|split; [|done]].
          - by eapply only_inert_writes_trans.
          - intros c Hc H3 H'. eapply chain_done_mono; [exact Hwn|].
            apply Hclosedk; [done..|].
            destruct (decide (Z.to_nat c = Z.to_nat n)) as [Heq|Hne]; [by rewrite Heq|].
            revert H'. unfold cell. by rewrite list_lookup_insert_ne.
          - intros _ _. rewrite Hidx0. by eapply only_inert_writes_stays. }
        destruct (cell_eqb now_there kAgent); simpl; exact Hdone. }
  intros [] r4 ((Hinv4 & Hw4 & Hclosed4) & _ & Hall4).
  assert (Hquiet4 : can_explode (cell (grid (st r4)) (Z.to_nat t)) = false).
  { eapply only_inert_writes_stays; [exact Hw4|]. by rewrite Hset3. }
  assert (Hdone4 : chain_done s0 (grid (st r4)) t).
  { intros d Hd Hin.
    assert (Hcode : direction_of_code (direction_code d) = d) by (by destruct d).
    specialize (Hall4 (direction_code d)). rewrite Hcode in Hall4. apply Hall4; [|done..].
    apply iota_In. unfold kNumDirections. destruct d; simpl; lia. }
  split; [done|]. split; [by eapply only_inert_writes_trans|]. split; [done|].
  intros c Hc Hcase. destruct (decide (c = t)) as [->|Hne]; [done|].
  destruct Hcase as [?|[Hbefore Hafter]]; [done|].
  apply Hclosed4; [done| |done].
  rewrite Hgrid3. unfold cell in *. rewrite list_lookup_insert_ne by lia. done.
Qed.

End ChainProof.

Section Claim2.

Context {cat : Catalog}.

(** C2 (as amended).  What a chain of explosions writes shows what its
    calls were passed.  When explosion products cannot explode and Explode
    is called with such an element, then, when the call returns:
    every cell it has changed holds either that element, in the target of
    the call, or the explosion product of an exploded cell next to it, the
    product of what that neighbouring cell (the centre the chained call or
    write came from) held when the chain started, and not the product of
    what the changed cell held itself; and no exploded cell has an
    in-bounds neighbour left that can explode, so every such neighbour has
    been exploded in its turn, at any depth.  The exploded cells are the
    target and every cell that could explode before and cannot after. *)
Theorem chained_explosion_passes_product_of_center fuel index element dir r r' :
  (forall e, can_explode (explosion_of e) = false) ->
  can_explode element = false ->
  Explode fuel index element dir r = Ok tt r' ->
  let target := IndexFromDirection (st r) index dir in
  (forall j, 0 <= j ->
     cell (grid (st r')) (Z.to_nat j) <> cell (grid (st r)) (Z.to_nat j) ->
     left_by_explosion (st r) target element (grid (st r')) j
       (cell (grid (st r')) (Z.to_nat j))) /\
  (forall c d, 0 <= c ->
     exploded target (grid (st r)) (grid (st r')) c ->
     d <> kNoop ->
     InBounds c d (st r) = Some true ->
     can_explode (cell (grid (st r')) (Z.to_nat (IndexFromDirection (st r) c d))) = false).
Proof.
  intros Hinert Hel Hrun target.
  assert (Hwp : wp True (Explode fuel index element dir)
            (fun _ r' =>
               chain_inv (st r) target element (st r') /\
               only_inert_writes (grid (st r)) (grid (st r')) /\
               can_explode (cell (grid (st r')) (Z.to_nat target)) = false /\
               forall c, 0 <= c ->
                 c = target \/
                 (can_explode (cell (grid (st r)) (Z.to_nat c)) = true /\
                  can_explode (cell (grid (st r')) (Z.to_nat c)) = false) ->
                 chain_done (st r) (grid (st r')) c) r).
  { apply wp_Explode_chain; [done| |done|done|by left|by left].
    split; [done|]. split; [done|]. intros ? _. by left. }
  destruct (wp_Ok _ _ _ _ _ _ Hwp Hrun) as ((_ & _ & Hall) & _ & _ & Hclosed).
  split.
  - intros j Hj Hchanged. destruct (Hall j Hj) as [?|[_ ?]]; done.
  - intros c d Hc Hexploded Hd Hin. by apply (Hclosed c Hc Hexploded d).
Qed.

End Claim2.

(** C2, witness: the firefly next to the agent explodes; the chain reaches
    the agent and the butterfly, and both cells hold ExplosionEmpty, the
    product of the firefly. *)
Lemma chained_explosion_passes_product_of_center_witness :
  exists s0 r',
    new_state false "1|3|0|0|10|14" default_parameters = Constructed s0 /\
    grid s0 = [kAgent; kFireflyUp; kButterflyUp] /\
    Explode (cat := spec_catalog) 3 1 kExplosionEmpty kNoop (start s0) = Ok tt r' /\
    grid (st r') = [kExplosionEmpty; kExplosionEmpty; kExplosionEmpty] /\
    explosion_of (cat := spec_catalog) kFireflyUp = kExplosionEmpty /\
    (forall j, 0 <= j ->
       cell (grid (st r')) (Z.to_nat j) <> cell (grid (st (start s0))) (Z.to_nat j) ->
       left_by_explosion (cat := spec_catalog) (st (start s0))
         (IndexFromDirection (st (start s0)) 1 kNoop) kExplosionEmpty
         (grid (st r')) j (cell (grid (st r')) (Z.to_nat j))) /\
    (forall c d, 0 <= c ->
       exploded (cat := spec_catalog) (IndexFromDirection (st (start s0)) 1 kNoop)
         (grid (st (start s0))) (grid (st r')) c ->
       d <> kNoop ->
       InBounds (cat := spec_catalog) c d (st (start s0)) = Some true ->
       can_explode (cat := spec_catalog)
         (cell (grid (st r')) (Z.to_nat (IndexFromDirection (st (start s0)) c d))) = false).
Proof.
  eexists _, _. split; [vm_compute; reflexivity|]. split; [reflexivity|].
  match goal with |- ?run /\ _ => assert (Hrun : run) by (vm_compute; reflexivity) end.
  split; [exact Hrun|]. split; [reflexivity|]. split; [reflexivity|].
  apply (chained_explosion_passes_product_of_center (cat := spec_catalog) 3 1 kExplosionEmpty
           kNoop _ _ (product_is_inert spec_catalog_explosions_settle) eq_refl Hrun).
Defined.

Lemma flags_kept_refl u : flags_kept u u.
Proof. by intros j. Qed.

Lemma flags_kept_trans u1 u2 u3 : flags_kept u1 u2 -> flags_kept u2 u3 -> flags_kept u1 u3.
Proof. intros H12 H23 j Hj. by apply H23, H12. Qed.

Lemma flags_kept_insert u k : flags_kept u (<[k := true]> u).
Proof.
  intros j Hj. destruct (decide (j = k)) as [->|Hne].
  - rewrite list_lookup_insert_eq; [done|]. by eapply lookup_lt_Some.
  - by rewrite list_lookup_insert_ne.
Qed.

Lemma rtc_clears_no_flag r r' : rtc clears_no_flag r r' -> clears_no_flag r r'.
Proof.
  induction 1 as [r|r1 r2 r3 Hstep _ IH]; [apply flags_kept_refl|].
  by eapply flags_kept_trans.
Qed.

Section Flags.

Context {cat : Catalog}.

Lemma explode_effect_clears_no_flag r r' : explode_effect r r' -> clears_no_flag r r'.
Proof.
  intros []; unfold clears_no_flag, mark_updated, write_cell; fields;
    first [apply flags_kept_refl|apply flags_kept_insert].
Qed.

Lemma scan_effect_clears_no_flag r r' : scan_effect r r' -> clears_no_flag r r'.
Proof.
  intros [r1 r2 Hstep| | | | |]; [by apply explode_effect_clears_no_flag|..];
    unfold clears_no_flag; fields; apply flags_kept_refl.
Qed.

Lemma scan_clears_no_flag {A} (m : M A) : within scan_effect m -> within clears_no_flag m.
Proof. apply within_mono. intros r r'. apply scan_effect_clears_no_flag. Qed.

Lemma flags_SetItem index el dir : within clears_no_flag (SetItem index el dir).
Proof. apply scan_clears_no_flag, within_SetItem. Qed.

Lemma flags_MoveItem index dir : within clears_no_flag (MoveItem index dir).
Proof. apply scan_clears_no_flag, within_MoveItem. Qed.

Lemma flags_or_reward code : within clears_no_flag (or_reward code).
Proof. apply within_modify. intros r. apply flags_kept_refl. Qed.

Lemma flags_gem :
  within clears_no_flag (modify (fun s => set_gems_collected (gems_collected s + 1) s)).
Proof. apply within_modify. intros r. apply flags_kept_refl. Qed.

Lemma flags_agent_idx idx : within clears_no_flag (modify (set_agent_idx idx)).
Proof. apply within_modify. intros r. apply flags_kept_refl. Qed.

Lemma flags_in_exit : within clears_no_flag (modify (set_is_agent_in_exit true)).
Proof. apply within_modify. intros r. apply flags_kept_refl. Qed.

Create HintDb flags discriminated.
#[local] Hint Resolve flags_SetItem flags_MoveItem flags_or_reward flags_gem flags_agent_idx
  flags_in_exit : flags.

#[local] Ltac flags_step :=
  lazymatch goal with
  | |- within _ (bind (at_ _) _) => apply within_bind_at; intros ? ?
  | |- within _ (bind _ _) => apply within_bind; [|intros ?]
  | |- within _ (ret _) => apply within_ret
  | |- within _ (ask _) => apply within_ask
  | |- within _ (gets _) => apply within_gets
  | |- within _ get_state => apply within_get_state
  | |- within _ (at_ _) => apply within_at
  | |- within _ (when _ _) => apply within_when
  | |- within _ (for_each _ _) => apply within_for_each; intros ?
  | |- within _ (if ?b then _ else _) => destruct b
  | |- within _ (match ?x with _ => _ end) => destruct x
  | |- _ => solve [eauto with flags]
  end.

#[local] Ltac flags_auto := repeat (cbv zeta; flags_step).

Lemma flags_Push index stationary falling dir :
  within clears_no_flag (Push index stationary falling dir).
Proof. unfold Push. flags_auto. Qed.

Lemma flags_OpenGate el : within clears_no_flag (OpenGate el).
Proof. unfold OpenGate. flags_auto. Qed.

#[local] Hint Resolve flags_Push flags_OpenGate : flags.

Lemma flags_UpdateAgent index dir : within clears_no_flag (UpdateAgent index dir).
Proof. unfold UpdateAgent. flags_auto. Qed.

Lemma EndScan_keeps_flags r r' :
  EndScan r = Ok tt r' -> has_updated (st r') = has_updated (st r).
Proof.
  unfold EndScan. rewrite bind_get_state. unfold when.
  destruct (cell_eqb (blob_swap (st r)) kNull), (blob_enclosed (st r)),
    (blob_max_size (st r) <? blob_size (st r)), (magic_active (st r));
    unfold bind, modify, ret; by intros [= <-].
Qed.

(** C5 (as amended).  has_updated is all-false in a freshly constructed
    state and, in every state reached from it, right after StartScan, the
    first step of apply_action, which returns there.  For the rest of the
    tick flags are only set: SetItem sets the flag of the cell it writes,
    MoveItem the flag of its target (the flag of the cell it empties is
    left as it is), and neither the agent's move, nor the update of a cell,
    nor the scan clears a flag; EndScan leaves has_updated as it is.  So
    the flags set during a tick are still set when apply_action returns. *)
Theorem has_updated_is_reset_by_StartScan ndebug board_str params s0 s :
  new_state ndebug board_str params = Constructed s0 ->
  ndebug = false \/ Z.of_nat (length (grid s0)) = rows s0 * cols s0 ->
  reachable s0 s ->
  Forall (fun b => b = false) (has_updated s0) /\
  (exists r0, StartScan (start s) = Ok tt r0 /\
              Forall (fun b => b = false) (has_updated (st r0)) /\
              length (has_updated (st r0)) = length (grid s)) /\
  (forall index el dir r r',
     SetItem index el dir r = Ok tt r' ->
     has_updated (st r') =
       <[Z.to_nat (IndexFromDirection (st r) index dir) := true]> (has_updated (st r))) /\
  (forall index dir r r',
     MoveItem index dir r = Ok tt r' ->
     has_updated (st r') =
       <[Z.to_nat (IndexFromDirection (st r) index dir) := true]> (has_updated (st r))) /\
  (forall index dir r r',
     UpdateAgent index dir r = Ok tt r' ->
     flags_kept (has_updated (st r)) (has_updated (st r'))) /\
  (forall fuel i r r',
     update_cell fuel i r = Ok tt r' ->
     flags_kept (has_updated (st r)) (has_updated (st r'))) /\
  (forall fuel r r',
     scan fuel r = Ok tt r' ->
     flags_kept (has_updated (st r)) (has_updated (st r'))) /\
  (forall r r', EndScan r = Ok tt r' -> has_updated (st r') = has_updated (st r)) /\
  (forall fuel action r',
     apply_action fuel action (start s) = Ok tt r' ->
     exists r0 r1 r2,
       StartScan (start s) = Ok tt r0 /\
       UpdateAgent (agent_idx (st r0)) (action_to_direction action) r0 = Ok tt r1 /\
       scan fuel r1 = Ok tt r2 /\
       EndScan r2 = Ok tt r' /\
       flags_kept (has_updated (st r1)) (has_updated (st r2)) /\
       has_updated (st r') = has_updated (st r2)).
Proof.
  intros Hnew Hshape Hreach.
  assert (Hlen : Z.of_nat (length (grid s0)) = rows s0 * cols s0).
  { destruct Hshape as [-> | Hlen]; [|exact Hlen]. by eapply asserted_level_has_all_cells. }
  destruct (new_state_Constructed _ _ _ _ Hnew) as (b & Hb & _ & Hg & Hu & _).
  apply parse_board_str_fresh in Hb as (Hfresh & Hlenu & _).
  rewrite <- Hu in Hfresh, Hlenu. rewrite <- Hg in Hlenu.
  split; [done|]. split.
  { apply reachable_shape in Hreach as (Hsg & Hsu & Hsr & Hsc).
    destruct (StartScan_run s) as (u & Hrun & Hall & Hlu).
    { rewrite Hsu, Hsr, Hsc, Hlenu. done. }
    eexists. split; [exact Hrun|]. unfold start. fields. split; [done|]. lia. }
  split.
  { intros index el dir r r'. rewrite SetItem_eq. cbv zeta.
    destruct (_ && _); [|done]. by intros [= <-]. }
  split.
  { intros index dir r r'. rewrite MoveItem_eq. cbv zeta.
    destruct (_ && _ && _); [|done]. by intros [= <-]. }
  split.
  { intros index dir r r' Hrun. by apply rtc_clears_no_flag, (flags_UpdateAgent index dir r tt). }
  split.
  { intros fuel i r r' Hrun.
    by apply rtc_clears_no_flag, (scan_clears_no_flag _ (within_update_cell fuel i) r tt). }
  assert (Hscan : forall fuel r r', scan fuel r = Ok tt r' ->
                    flags_kept (has_updated (st r)) (has_updated (st r'))).
  { intros fuel r r' Hrun.
    by apply rtc_clears_no_flag, (scan_clears_no_flag _ (within_scan fuel) r tt). }
  split; [exact Hscan|]. split; [apply EndScan_keeps_flags|].
  intros fuel action r' Hrun.
  apply apply_action_split in Hrun as (r0 & r1 & r2 & Hstart & Hagent & Hrest & Hend).
  exists r0, r1, r2. repeat split; try done.
  - by eapply Hscan.
  - by apply EndScan_keeps_flags.
Qed.

End Flags.

(** C5, witness: the agent walks right; the flag of the cell it walked
    onto is set by MoveItem and is still set after the scan and EndScan. *)
Lemma has_updated_is_reset_by_StartScan_witness :
  exists s0 s,
    new_state false "3|3|0|1|1|1|0|1|1|1|1|1" default_parameters = Constructed s0 /\
    play (cat := spec_catalog) 9 [ActRight] s0 = Some s /\
    has_updated s = [false; false; false; false; true; false; false; false; false] /\
    Forall (fun b => b = false) (has_updated s0) /\
    exists r0, StartScan (start s) = Ok tt r0 /\
               Forall (fun b => b = false) (has_updated (st r0)) /\
               length (has_updated (st r0)) = length (grid s).
Proof.
  eexists _, _. split; [vm_compute; reflexivity|]. split; [vm_compute; reflexivity|].
  split; [reflexivity|].
  match goal with |- Forall _ (has_updated ?s0) /\ (exists r0, StartScan (start ?s) = _ /\ _) =>
    destruct (has_updated_is_reset_by_StartScan (cat := spec_catalog) false
                "3|3|0|1|1|1|0|1|1|1|1|1" default_parameters s0 s) as (Hfresh & Hreset & _)
  end.
  - vm_compute. reflexivity.
  - by left.
  - apply (play_reachable 9 [ActRight]). vm_compute. reflexivity.
  - split; [exact Hfresh|exact Hreset].
Defined.

Lemma cbind_AssertionFailed {A B} (c : Construction A) (k : A -> Construction B) :
  cbind c k = AssertionFailed ->
  c = AssertionFailed \/ exists a, c = Constructed a /\ k a = AssertionFailed.
Proof. destruct c; simpl; [eauto|done|by left|done]. Qed.

Lemma stoi_asserts_nothing str : stoi str <> AssertionFailed.
Proof.
  unfold stoi. destruct (match skip_spaces str with String _ _ => _ | _ => _ end) as [neg s].
  destruct (read_digits 0 false s) as [magnitude seen].
  destruct (negb seen); [done|]. by destruct (_ || _).
Qed.

Lemma parse_cells_asserts_nothing segments i b : parse_cells segments i b <> AssertionFailed.
Proof.
  revert i b. induction segments as [|segment rest IH]; intros i b; simpl; [done|].
  intros [H|(hidden_type & _ & H)]%cbind_AssertionFailed; [by apply stoi_asserts_nothing in H|].
  destruct ((hidden_type <? 0) || (kNumHiddenCellType <=? hidden_type)); [done|].
  by apply IH in H.
Qed.

Lemma initial_hash_asserts_nothing flat_size g l acc :
  initial_hash flat_size g l acc <> AssertionFailed.
Proof.
  revert acc. induction l as [|i l IH]; intros acc; simpl; [done|].
  destruct (vector_at g i); [apply IH|done].
Qed.

(* Compiled with NDEBUG the constructor never stops at an assertion. *)
Lemma ndebug_asserts_nothing board_str params :
  new_state true board_str params <> AssertionFailed.
Proof.
  unfold new_state, parse_board_str, assert_, assert_that, seg_at, int_mul, views_iota.
  cbv zeta. simpl orb. cbn [cbind].
  repeat first
    [ progress cbn [cbind]
    | match goal with
      | |- context [cbind (stoi ?x) _] =>
        let H := fresh in
        pose proof (stoi_asserts_nothing x) as H; destruct (stoi x); cbn [cbind]; [|done..]
      | |- context [cbind (match ?x with Some _ => _ | None => _ end) _] =>
        destruct x; cbn [cbind]; [|done]
      | |- context [cbind (parse_cells ?a ?b ?c) _] =>
        let H := fresh in
        pose proof (parse_cells_asserts_nothing a b c) as H;
        destruct (parse_cells a b c); cbn [cbind]; [|done..]
      | |- context [cbind (if ?c then _ else _) _] => destruct c; cbn [cbind]; [done|]
      | |- context [cbind (initial_hash ?a ?b ?c ?d) _] =>
        let H := fresh in
        pose proof (initial_hash_asserts_nothing a b c d) as H;
        destruct (initial_hash a b c d); cbn [cbind]; [|done..]
      | |- (if ?c then _ else _) <> _ => destruct c
      end ]; done.
Qed.

Section TokenCountClaim.

(** C6 (as amended).  For a level string whose token count differs from
    rows*cols + 3 (an int product that does not overflow), construction is
    stopped only by an assert.  A build with assertions ends at the failed
    assertion, which aborts the process and is not an exception with a
    message.  A build with NDEBUG does not check the count: it never ends
    at an assertion, a level in the level format with surplus cells is
    constructed with all of them in the grid, and for one with too few
    cells the constructor reads past the end of the grid.  Whatever the
    build, every error the constructor throws is one of: a token that is
    not a number, a cell code out of range ("Unknown element type: n"), no
    agent, more than one agent. *)
Theorem wrong_token_count_is_only_asserted
    params board_str seg0 seg1 nrows ncols height width gems cells :
  split_board board_str !! 0%nat = Some seg0 ->
  split_board board_str !! 1%nat = Some seg1 ->
  stoi seg0 = Constructed nrows ->
  stoi seg1 = Constructed ncols ->
  0 <= nrows * ncols <= INT_MAX ->
  Z.of_nat (length (split_board board_str)) <> nrows * ncols + 3 ->
  INT_MIN <= height <= INT_MAX ->
  INT_MIN <= width <= INT_MAX ->
  INT_MIN <= gems <= INT_MAX ->
  0 <= height * width <= INT_MAX ->
  Forall (fun el => el <> kNull) cells ->
  length (List.filter is_agent_cell cells) = 1%nat ->
  Z.of_nat (length cells) <> height * width ->
  new_state false board_str params = AssertionFailed /\
  new_state false (level_string height width gems cells) params = AssertionFailed /\
  (forall any_str, new_state true any_str params <> AssertionFailed) /\
  (height * width < Z.of_nat (length cells) ->
   exists s,
     new_state true (level_string height width gems cells) params = Constructed s /\
     grid s = cells /\ rows s = height /\ cols s = width /\
     Z.of_nat (length (grid s)) <> rows s * cols s) /\
  (Z.of_nat (length cells) < height * width ->
   new_state true (level_string height width gems cells) params = Undefined) /\
  (forall ndebug any_str e,
     new_state ndebug any_str params = Thrown e -> construction_error e).
Proof.
  intros Hseg0 Hseg1 Hrows Hcols Hint Hcount Hheight Hwidth Hgems Hfit Hcells Hagent Hlen.
  assert (Hu64 : forall product, 0 <= product <= INT_MAX ->
                   u64 (u64 product + 3) = product + 3).
  { intros product Hp. unfold u64, INT_MAX in *. rewrite (Z.mod_small product) by lia.
    apply Z.mod_small. lia. }
  assert (Hmul : forall a b, 0 <= a * b <= INT_MAX -> int_mul a b = Constructed (a * b)).
  { intros a b Hab. unfold int_mul.
    replace ((a * b <? INT_MIN) || (INT_MAX <? a * b)) with false; [done|].
    symmetry. apply orb_false_iff. rewrite !Z.ltb_ge. unfold INT_MIN, INT_MAX in *. lia. }
  split; [|split; [|split; [|split; [|split]]]].
  - unfold new_state, parse_board_str, assert_, assert_that. cbv zeta. simpl orb.
    destruct (4 <=? _); [|done]. simpl cbind at 2.
    unfold seg_at. rewrite Hseg0. simpl cbind at 2. rewrite Hrows. simpl cbind at 2.
    rewrite Hseg1. simpl cbind at 2. rewrite Hcols. simpl cbind at 2.
    rewrite (Hmul _ _ Hint). cbn [cbind]. rewrite (Hu64 _ Hint).
    by destruct (Z.eqb_spec (Z.of_nat (length (split_board board_str))) (nrows * ncols + 3)).
  - destruct (parse_board_str_level false height width gems cells) as (b & Hparse & _);
      [done..|].
    unfold new_state. rewrite Hparse. unfold assert_that.
    rewrite (Hmul _ _ Hfit). cbn [cbind]. rewrite (Hu64 _ Hfit).
    by destruct (Z.eqb_spec (Z.of_nat (length cells) + 3) (height * width + 3)); [lia|].
  - intros any_str. apply ndebug_asserts_nothing.
  - intros Hsurplus.
    destruct (parse_board_str_level true height width gems cells) as
      (b & Hparse & Hgrid & _ & Hr & Hc & _); [done..|].
    cbn [assert_that cbind] in Hparse.
    destruct (new_state_after_parse true _ params _ Hparse) as [Hfull _].
    { by rewrite Hr, Hc. }
    destruct Hfull as (s & Hnew & Hsg & Hsr & Hsc & _); [rewrite Hr, Hc, Hgrid; lia|].
    exists s. rewrite Hsg, Hsr, Hsc, Hgrid, Hr, Hc. done.
  - intros Hshort.
    destruct (parse_board_str_level true height width gems cells) as
      (b & Hparse & Hgrid & _ & Hr & Hc & _); [done..|].
    cbn [assert_that cbind] in Hparse.
    destruct (new_state_after_parse true _ params _ Hparse) as [_ Hpast].
    { by rewrite Hr, Hc. }
    apply Hpast. by rewrite Hr, Hc, Hgrid.
  - intros ndebug any_str e. apply new_state_Thrown.
Qed.

End TokenCountClaim.

(** C6, witness: five tokens for a 1 x 1 board. *)
Lemma wrong_token_count_is_only_asserted_witness :
  level_string 1 1 0 [kAgent; kEmpty] = "1|1|0|0|1"%string /\
  new_state false "1|1|0|0|1" default_parameters = AssertionFailed /\
  new_state false (level_string 1 1 0 [kAgent; kEmpty]) default_parameters = AssertionFailed /\
  (forall any_str, new_state true any_str default_parameters <> AssertionFailed) /\
  (1 * 1 < Z.of_nat (length [kAgent; kEmpty]) ->
   exists s,
     new_state true (level_string 1 1 0 [kAgent; kEmpty]) default_parameters = Constructed s /\
     grid s = [kAgent; kEmpty] /\ rows s = 1 /\ cols s = 1 /\
     Z.of_nat (length (grid s)) <> rows s * cols s) /\
  (Z.of_nat (length [kAgent; kEmpty]) < 1 * 1 ->
   new_state true (level_string 1 1 0 [kAgent; kEmpty]) default_parameters = Undefined) /\
  (forall ndebug any_str e,
     new_state ndebug any_str default_parameters = Thrown e -> construction_error e).
Proof.
  split; [reflexivity|].
  apply (wrong_token_count_is_only_asserted default_parameters "1|1|0|0|1" "1" "1" 1 1
           1 1 0 [kAgent; kEmpty]);
    try reflexivity; try (unfold INT_MIN, INT_MAX; lia); try (vm_compute; congruence).
  repeat constructor; discriminate.
Defined.

(** C6, counterexample: compiled with NDEBUG the constructor returns a
    state for five tokens on a 1 x 1 board; with assertions it aborts on
    the assertion and throws nothing, while a cell code out of range is
    thrown as std::invalid_argument with its message. *)
Lemma surplus_token_is_accepted_without_assertions :
  exists s,
    length (split_board "1|1|0|0|1") = 5%nat /\
    new_state true "1|1|0|0|1" default_parameters = Constructed s /\
    rows s * cols s + 3 = 4 /\
    grid s = [kAgent; kEmpty] /\
    new_state false "1|1|0|0|1" default_parameters = AssertionFailed /\
    new_state false "1|1|0|77" default_parameters =
      Thrown (invalid_argument "Unknown element type: 77").
Proof.
  eexists. split; [reflexivity|]. split; [vm_compute; reflexivity|].
  repeat split; vm_compute; reflexivity.
Qed.

(** C7, the failing input: a falling stone in the only row of a level, in
    Convert mode.  The first tick reads grid[index + cols], past the end of
    the grid, and what it does next depends on the byte found there: the
    tick is undefined, whatever the action.  How much depends on that byte
    shows on two grids that NDEBUG builds construct with two more cells
    behind the board: the boards and the hashes are the same, and after the
    same action the hash and the reward signal differ. *)
Lemma first_tick_reads_past_the_grid :
  (exists s,
     new_state false "1|2|0|0|4" with_convert = Constructed s /\
     grid s = [kAgent; kStoneFalling] /\
     butterfly_explosion_ver s = kConvert /\
     IndexFromDirection s 1 kDown = 3 /\
     vector_at (grid s) 3 = None /\
     Forall (fun action => apply_action (cat := spec_catalog) 2 action (start s) = Fault)
       [ActUp; ActRight; ActDown; ActLeft]) /\
  (exists s1 s2 r1 r2,
     new_state true "1|2|0|0|4|1|14" with_convert = Constructed s1 /\
     new_state true "1|2|0|0|4|1|1" with_convert = Constructed s2 /\
     rows s1 = rows s2 /\ cols s1 = cols s2 /\
     take 2 (grid s1) = [kAgent; kStoneFalling] /\
     take 2 (grid s2) = [kAgent; kStoneFalling] /\
     get_hash s1 = get_hash s2 /\
     apply_action (cat := spec_catalog) 2 ActUp (start s1) = Ok tt r1 /\
     apply_action (cat := spec_catalog) 2 ActUp (start s2) = Ok tt r2 /\
     take 2 (grid (st r1)) = [kAgent; kEmpty] /\
     take 2 (grid (st r2)) = [kAgent; kStone] /\
     get_hash (st r1) <> get_hash (st r2) /\
     get_reward_signal (st r1) <> get_reward_signal (st r2)).
Proof.
  split.
  - eexists. split; [vm_compute; reflexivity|]. split; [reflexivity|]. split; [reflexivity|].
    split; [reflexivity|]. split; [reflexivity|].
    repeat constructor; vm_compute; reflexivity.
  - eexists _, _, _, _. split; [vm_compute; reflexivity|]. split; [vm_compute; reflexivity|].
    split; [reflexivity|]. split; [reflexivity|]. split; [reflexivity|]. split; [reflexivity|].
    split; [reflexivity|]. split; [vm_compute; reflexivity|]. split; [vm_compute; reflexivity|].
    split; [reflexivity|]. split; [reflexivity|]. split; vm_compute; discriminate.
Qed.
